(* ===== verification/_CoqProject ===== *)
-Q . S2P
Prelude.v
GoStrings.v
Proc.v
Concurrent.v
Errors.v
Model.v
GoContext.v
TaskKeys.v
Collation.v
Sanitize.v
Routing.v
AgentClient.v
Consumer.v
RedisLock.v
Runner.v
PollLoop.v
Pipeline.v
RateLimit.v
WorkerPool.v
Billing.v
DateTime.v
TaskEvents.v
EventBus.v
Checkpoint.v
Dispatch.v
Delivery.v
Gorm.v
Repo.v
UsersRepo.v
MediaRepo.v
FailedTasksRepo.v
CheckpointsRepo.v
LedgerTable.v
Store.v
Media.v
Upload.v
ObjectSafety.v
MediaTable.v
CheckpointTable.v
ChunkStore.v
Analyzer.v
Frames.v
ASR.v
Transcriber.v
VideoContext.v
Transcription.v
AgentRpc.v
Base64.v
Password.v
Auth.v
AccountTable.v
HttpParams.v
HttpApi.v
HttpAccess.v
Observability.v
Requests.v
Links.v
Bilibili.v
Resume.v
Config.v
Database.v
Minio.v
Tools.v
Server.v
