(* ===== verification/Prelude.v ===== *)
(** * Vparser gateway: a verification library

    This library models the Go gateway of Vparser (src/server-go) and proves that it does what it is meant to.
    The gateway takes videos by upload or by link, turns them into a "video context" (speech and on-screen text
    by the minute), queues analysis tasks over Kafka, runs them against an agent service, and serves results and
    progress over HTTP and server-sent events, with Redis for locks, keys and sessions, MySQL for rows, and
    MinIO for objects.

    ** How code is modelled

    A Go function that only computes is a function.  One that calls out (Redis, MySQL, Kafka, MinIO, gRPC, the
    file system, the clock, processes) is a program [proc E A] (Proc.v): a tree of calls of an interface [E], one
    constructor per operation of the struct it is a method of, in the order of the code, with a continuation for
    every answer.  [wp p Q] says that every run of [p] ends without a panic in a trace and a result satisfying
    [Q], whatever the answers; [swp] restricts the answers to those of a stateful service; [calls] and [sound]
    bound the calls.  A statement proved with [wp] therefore covers every failure of every call.  Goroutines
    that share state are transition systems (an inductive step relation, results for all reachable states), or
    programs interleaved over a shared store with a rely-guarantee rule (Concurrent.v).  Errors are values
    ([result], [gerror]); integers are [Z] with Go's wrap-around written out where it can happen ([int64],
    [u32], ... below); strings are byte strings with Go's UTF-8 decoding (GoStrings.v).  Deferred calls are
    written where they run.

    Code that is not under src/ is a parameter: a call when it has effects, a class otherwise - SHA-256, MD5,
    PBKDF2, the JSON codecs, url.Parse, the validator, simple case folding, UUIDs, float rounding, the Redis
    script engine's laws - with the documented facts that a theorem needs as fields or named hypotheses, and a
    concrete instance in the witness of that theorem.

    ** Files and the code they model (paths under src/server-go/internal)

    Foundations.  Prelude.v (this file): results, machine integers, transition systems, hints.  GoStrings.v,
    Base64.v: the standard library's string functions.  Proc.v, Concurrent.v: programs, their logic, shared
    stores, refinement of one service by another.  GoContext.v: contexts, durations, times, locks.  Errors.v:
    common/errors.go, common/result.go.  Collation.v: which strings MySQL takes for equal.

    Data.  Model.v: model/ (modes, stages, DTOs, contexts).  DateTime.v: the zone-less timestamps of
    model/entity.go.  TaskKeys.v: taskkeys/.  Sanitize.v: the masking of secrets in analysis/failedtask.go.

    The task pipeline.  Routing.v: mq/topics.go, routing.go, headers.go, producer.go.  Consumer.v: mq/consumer.go
    ([Handle] and everything below it).  Runner.v: mq/runner.go (partition workers, rebalances, shutdown) and
    PollLoop.v (its [Run]).  Pipeline.v: topics, committed offsets and any number of gateway processes with a
    runner each, under the client options of runner.go and producer.go.  Dispatch.v: analysis/dispatch.go, status.go
    and the ledger.  Delivery.v: a submission followed through the pipeline.  Analyzer.v: analysis/analyzer.go.
    Checkpoint.v: checkpoint/.  RedisLock.v, RateLimit.v, WorkerPool.v, Billing.v, TaskEvents.v: the packages of
    those names.  EventBus.v: the Redis listener of taskevents/hub.go, and any number of gateways with their hubs
    on the one channel.  AgentClient.v (interface) and AgentRpc.v (implementation): agentclient/.

    Files.  Store.v: what the file services are built on, as one interface [StoreE].  Media.v: media/.  Upload.v
    and ChunkStore.v: upload/.  ObjectSafety.v: media deletions beside instant uploads.  Minio.v: storage/, what
    lies behind the object-store calls of [StoreE].

    Building a video context.  Frames.v (hashes, merging), ASR.v, Transcriber.v, VideoContext.v ([Build]) and Tools.v
    (ffmpeg, ffprobe, tesseract): videocontext/.  Transcription.v: analysis/transcription.go.

    Importing links.  Links.v: ytdlp/ytdlp.go.  Bilibili.v and Resume.v: ytdlp/bilibili.go.

    The database.  Gorm.v: the tables and columns of model/entity.go, statements, and what GORM and MySQL document of
    them.  Repo.v, UsersRepo.v, MediaRepo.v, FailedTasksRepo.v, CheckpointsRepo.v: repo/repo.go.  Database.v:
    repo/db.go, sqlopen.go.  MediaTable.v, CheckpointTable.v, AccountTable.v, LedgerTable.v: the services above run
    over these tables, each related to the abstract store its own file is proved against, or proved against the
    table directly.

    The front.  Password.v, Auth.v: auth/.  HttpParams.v, HttpApi.v, HttpAccess.v: httpapi/ (parsing, handlers and
    routes, the panic recovery, and what they are allowed to do).  Observability.v: obs/, the metrics and limiting
    middleware, and the spans the handlers open.  Requests.v: a request to the analysis route followed to the end of
    its task.  Config.v: config/.  Server.v: cmd/server/main.go.

    ** What the theorems show

    - No task is lost, done twice at once, or retried for ever: [no_task_lost], [answered_task_followed],
      [accepted_task_followed], [Handle_discharge], [Handle_active_key],
      [Handle_lock_discipline], [retry_chain_bounded], [process_protocol], [Submit_contract],
      [submitted_task_key], [Replay_contract], [run_settles], [submitTranscription_contract].
    - Records are handled in order by one worker per partition: [worker_order], [one_live_worker], [handle_commits],
      [dispatch_never_races], [Run_rounds].
    - Locks exclude and notice their loss: [lock_mutual_exclusion], [stale_owner_harmless], [watchdog_detects],
      [TryLock_contract].
    - Objects and rows stay consistent: [no_dangling_rows], [IngestFile_surrounds],
      [Complete_merges], [UploadChunk_keeps], [Prove_sound],
      [IssueChallenge_range], [object_roundtrip], [foreign_untouched], [ensureChunkExpiry_keeps].
    - What the services promise of their stores holds of MySQL: [tables_refine], [checkpoints_refine],
      [UpsertPair_atomic], [one_account_per_name], [Register_table], [replayed_once], [narrowed_count],
      [ListByUser_lists], [Latest_newest], [Migrate_contract], [Open_contract], [loaded_config_connects].
    - A context is built once, keeps track of its frames and loses nothing: [resolveContext_protocol],
      [Build_frames], [merge_windows], [extractKeyFrames_reads], [fan_out_refines], [Transcribe_speech],
      [AudioToText_retries], [HammingDistance_counts], [kept_frames_bounded], [runFrameCommand_reads].
    - Analyses persist what they report: [AsyncAnalyze_contract], [stage_roundtrip], [context_roundtrip],
      [ReusableContext_spec], [Normalize_canonical].
    - Downloads are complete, end, and stay where they may go: [fetchChunks_assembles], [fetchRange_terminates],
      [fetchFile_complete], [Download_guarded], [IsDisallowedAddress_registry].
    - Users reach only what is theirs: [serve_authorised], [session_lifecycle], [login_throttle],
      [Login_contract], [Register_contract], [password_roundtrip], [cors_gate].
    - Messages and text survive the wire: [taskHeaders_decode], [feedback_roundtrip], [formURLEncode_roundtrip],
      [truncateBytes_spec], [streamEvents_faithful], [hub_stream_complete], [datetime_roundtrip].
    - Events reach the streams of every gateway: [events_reach_streams], [Run_handles], [publication_accounted].
    - Requests are answered, bounded and counted: [serve_total], [recovery_total], [limitBody_reads],
      [Router_measures], [series_bounded], [SetupTracing_installs].
    - Failures keep their class: [IsPermanentFailure_iff], [MapError_classes], [client_policy], [reads_retried],
      [Check_spec], [SanitizeError_masks].
    - The process starts and stops in order: [Load_contract], [run_lifecycle]; pools and buckets keep their
      bounds: [pool_bounds], [admissions_bounded], [takeScript_bounds], [expiry_neutral].

    Some theorems state what the code does against what a comment says of it: [GoalDigest_mode_confusion],
    [two_owners_believe], [pause_race], [stale_stage_read], [retry_inserts_again], [spurious_rejection],
    [blank_context_accepted], [lockout_without_window], [empty_hash_matches], [nonpublic_allowed],
    [nan_limit_accepted], [throttle_by_spelling], [overlapping_replays], [altered_task], [failed_upload_dangles],
    [completion_missed], [others_listen], [unmatched_by_method].

    The composed systems share their parts: [Pipeline.pstep] contains the steps of [Runner.step], [memberSystem]
    runs the poll loop beside them, and a record counts as handled in [no_task_lost] only by a run of [handle] whose
    answers are runs of [Handle].  The broker is taken at its word: it keeps what it acknowledged, gives a
    partition to one member at a time, and delivers from the committed offset.

    ** Fuel

    Loops that the code runs until something outside it happens take a fuel argument and return [None] when it is
    used up.  [rangeFuel] and [fileFuel] are shown to be enough whatever the servers do; [TryLock_loop] is shown to
    need no more than its wait budget in polls; the stream of events runs as long as events arrive, and its
    theorem describes every prefix of it.  Loops over data recurse on the data.

    ** Not modelled

    Log lines and the contents of spans: no effect on the behaviour modelled.
    MySQL below the statements (isolation of concurrent transactions beyond what one statement or the one
    transaction of [UpsertPair] needs, the SQL of the migrations); gin's routing and binding beyond the route
    table; the generated protobuf code and what grpc-go makes of the retry policy; what external
    processes do.  The TTL of cached entries is modelled where a theorem depends on it (locks, sessions, login
    throttle, buckets).  Times are stored as they are given, where a TIMESTAMP(3) column
    rounds them to the millisecond.  In Runner.v the hand-over of a batch (the locked section, the pause of the
    partition and the enqueue) is one step; [pause_race] treats the interleaving with a worker between them.
    [no_dangling_rows] assumes that a lock lease is not lost while it is held, the condition under which
    [lock_mutual_exclusion] gives exclusion, and takes uploads as the steps that [IngestFile_surrounds] shows
    the code to make when a failing insert has written nothing; [failed_upload_dangles] is what happens
    otherwise.  [tables_refine] relates uploads to the tables whether inserts are truthful or not. *)

From Stdlib Require Export ZArith Ascii String Lia.
From stdpp Require Export base tactics list option strings gmap sets sorting relations.

(** stdpp's [naive_solver] clears hypotheses it has already used. *)
#[export] Set Warnings "-clear-no-such-hyp".

Local Open Scope Z_scope.

(** Results of fallible Go code: [Ok v] is [(v, nil)] and [Err e] is [(_, e)] with [e] non-nil. *)
Inductive result (E A : Type) : Type :=
| Ok (a : A)
| Err (e : E).
Arguments Ok {E A} a.
Arguments Err {E A} e.

(** The cases of a membership in a concrete list. *)
Ltac in_cases H :=
  cbn in H; rewrite ?elem_of_app, ?elem_of_cons, ?elem_of_nil in H;
  repeat match type of H with _ \/ _ => destruct H as [H|H] end; simplify_eq; try done.

(** ** Machine-width integers *)

(** Go's conversions to [uint32], [uint64], [int64] and [int32]: the low bits of the exact result. *)
Definition u32 (z : Z) : Z := z mod 2 ^ 32.
Definition u64 (z : Z) : Z := z mod 2 ^ 64.
Definition int64 (z : Z) : Z := (z + 2 ^ 63) mod 2 ^ 64 - 2 ^ 63.
Definition int32 (z : Z) : Z := (z + 2 ^ 31) mod 2 ^ 32 - 2 ^ 31.

Lemma u32_id z : 0 <= z < 2 ^ 32 -> u32 z = z.
Proof. intros H. by apply Z.mod_small. Qed.

Lemma int64_id z : - 2 ^ 63 <= z < 2 ^ 63 -> int64 z = z.
Proof. intros H. unfold int64. rewrite Z.mod_small; lia. Qed.

Lemma int32_id z : - 2 ^ 31 <= z < 2 ^ 31 -> int32 z = z.
Proof. intros H. unfold int32. rewrite Z.mod_small; lia. Qed.

Lemma u32_bounds z : 0 <= u32 z < 2 ^ 32.
Proof. by apply Z.mod_pos_bound. Qed.

Lemma u64_bounds z : 0 <= u64 z < 2 ^ 64.
Proof. by apply Z.mod_pos_bound. Qed.

Lemma int64_bounds z : - 2 ^ 63 <= int64 z < 2 ^ 63.
Proof. unfold int64. pose proof (Z.mod_pos_bound (z + 2 ^ 63) (2 ^ 64) ltac:(done)). lia. Qed.

Lemma int32_bounds z : - 2 ^ 31 <= int32 z < 2 ^ 31.
Proof. unfold int32. pose proof (Z.mod_pos_bound (z + 2 ^ 31) (2 ^ 32) ltac:(done)). lia. Qed.

(** The facts that hold of every value of a type or of a conversion. *)
Create HintDb gateway.
#[export] Hint Resolve u32_bounds u64_bounds int64_bounds int32_bounds : gateway.

(** ** Transition systems *)

(** What a step preserves, every reachable state has. *)
Lemma rtc_invariant {A} (R : relation A) (P : A -> Prop) s s' :
  (forall x y, R x y -> P x -> P y) -> P s -> rtc R s s' -> P s'.
Proof. intros Hstep Hs Hr. induction Hr as [|x y z Hxy _ IH]; [done|]. eauto. Qed.
