(* ===== verification/GoStrings.v ===== *)
(** * Go strings: bytes, UTF-8 decoding and the [strings]/[strconv]/[unicode/utf16] functions the gateway uses

    A Go [string] is a byte sequence: here a [String.string], one [ascii] per byte.  The functions are
    the standard-library ones the source calls (this file models no file under src/ and has no map
    entry): [utf8.DecodeRune] as [decode_rune], [strings.TrimSpace]/[TrimFunc], [strconv.ParseInt],
    [strconv.FormatInt], [strings.ToLower]/[ToUpper] (exact on every rune whose image is ASCII, which
    is all a comparison with an ASCII constant observes), [utf16.Encode] lengths. *)

From S2P Require Import Prelude.

Local Open Scope string_scope.
Local Open Scope list_scope.
Local Open Scope Z_scope.

#[local] Arguments String.append : simpl nomatch.

(** ** Bytes *)

Definition byte (a : ascii) : Z := Z.of_N (N_of_ascii a).

Definition in_range (lo hi x : Z) : bool := (lo <=? x) && (x <=? hi).

Fixpoint str_drop (n : nat) (s : string) : string :=
  match n, s with
  | S m, String _ r => str_drop m r
  | _, _ => s
  end.

Fixpoint str_take (n : nat) (s : string) : string :=
  match n, s with
  | S m, String a r => String a (str_take m r)
  | _, _ => EmptyString
  end.

Fixpoint str_forall (p : ascii -> bool) (s : string) : bool :=
  match s with
  | EmptyString => true
  | String a r => p a && str_forall p r
  end.

Definition strlen (s : string) : Z := Z.of_nat (String.length s).

Lemma str_app_nil_r (s : string) : s +:+ "" = s.
Proof. induction s as [|a s IH]; simpl; congruence. Qed.

Lemma str_app_assoc (s t u : string) : (s +:+ t) +:+ u = s +:+ (t +:+ u).
Proof. induction s as [|a s IH]; simpl; congruence. Qed.

Lemma str_app_length (s t : string) :
  String.length (s +:+ t) = (String.length s + String.length t)%nat.
Proof. induction s as [|a s IH]; simpl; congruence. Qed.

Lemma str_app_inj_l (s t u : string) : s +:+ t = s +:+ u -> t = u.
Proof. induction s as [|a s IH]; simpl; [done|]. intros H. injection H. auto. Qed.

Lemma str_app_inj_len (s s' t t' : string) :
  String.length s = String.length s' -> s +:+ t = s' +:+ t' -> s = s' /\ t = t'.
Proof.
  revert s'. induction s as [|a s IH]; intros [|a' s'] Hlen H; simpl in *; try done.
  injection H as -> H. destruct (IH s') as [-> ->]; [congruence|done|done].
Qed.

Lemma str_app_inj_r (s s' t : string) : s +:+ t = s' +:+ t -> s = s'.
Proof.
  intros E. apply (str_app_inj_len s s' t t); [|done].
  apply (f_equal String.length) in E. rewrite !str_app_length in E. lia.
Qed.

Lemma str_forall_app p (s t : string) : str_forall p (s +:+ t) = str_forall p s && str_forall p t.
Proof. induction s as [|a s IH]; simpl; [done|]. rewrite IH. by destruct (p a). Qed.

Lemma str_take_drop n (s : string) : str_take n s +:+ str_drop n s = s.
Proof. revert s. induction n as [|n IH]; intros [|a s]; simpl; [done..|]. by rewrite IH. Qed.

Lemma str_take_length n (s : string) : (String.length (str_take n s) <= n)%nat.
Proof. revert s. induction n as [|n IH]; intros [|a s]; simpl; try lia. specialize (IH s). lia. Qed.

(** A separator byte that occurs in neither left part splits a concatenation uniquely. *)
Lemma str_app_sep_inj (c : ascii) (s s' t t' : string) :
  str_forall (fun a => negb (Ascii.eqb a c)) s = true ->
  str_forall (fun a => negb (Ascii.eqb a c)) s' = true ->
  s +:+ String c t = s' +:+ String c t' -> s = s' /\ t = t'.
Proof.
  revert s'. induction s as [|a s IH]; intros [|a' s'] Hs Hs' H; simpl in *.
  - injection H as ->. done.
  - injection H as <- _. by rewrite Ascii.eqb_refl in Hs'.
  - injection H as -> _. by rewrite Ascii.eqb_refl in Hs.
  - injection H as -> H. apply andb_prop in Hs as [_ Hs]. apply andb_prop in Hs' as [_ Hs'].
    destruct (IH s' Hs Hs' H) as [-> ->]. done.
Qed.

(** ** UTF-8 decoding ([unicode/utf8]) *)

Definition rune_error : Z := 0xFFFD.

(** Length class of a leading byte; 0 is an invalid leading byte. *)
Definition seq_len (b0 : Z) : nat :=
  if b0 <? 0x80 then 1
  else if b0 <? 0xC2 then 0
  else if b0 <? 0xE0 then 2
  else if b0 <? 0xF0 then 3
  else if b0 <? 0xF5 then 4
  else 0.

(** Accepted range of the second byte ([utf8.acceptRanges]). *)
Definition second_ok (b0 b1 : Z) : bool :=
  if b0 =? 0xE0 then in_range 0xA0 0xBF b1
  else if b0 =? 0xED then in_range 0x80 0x9F b1
  else if b0 =? 0xF0 then in_range 0x90 0xBF b1
  else if b0 =? 0xF4 then in_range 0x80 0x8F b1
  else in_range 0x80 0xBF b1.

Definition cont (b : Z) : bool := in_range 0x80 0xBF b.

(** A decoded rune together with the bytes it was decoded from. *)
Record chunk := Chunk { ck_rune : Z; ck_text : string }.

Definition one (a : ascii) (r : Z) (rest : string) : chunk * string :=
  (Chunk r (String a EmptyString), rest).

(** [utf8.DecodeRuneInString] of a non-empty string: the rune with its bytes, and the rest. *)
Definition decode_rune (a : ascii) (r1 : string) : chunk * string :=
  let b0 := byte a in
  match seq_len b0 with
  | 1%nat => one a b0 r1
  | 2%nat =>
      match r1 with
      | String b r2 =>
          if second_ok b0 (byte b)
          then (Chunk (Z.land b0 0x1F * 64 + Z.land (byte b) 0x3F) (String a (String b "")), r2)
          else one a rune_error r1
      | _ => one a rune_error r1
      end
  | 3%nat =>
      match r1 with
      | String b (String c r3) =>
          if second_ok b0 (byte b) && cont (byte c)
          then (Chunk (Z.land b0 0x0F * 4096 + Z.land (byte b) 0x3F * 64 + Z.land (byte c) 0x3F)
                  (String a (String b (String c ""))), r3)
          else one a rune_error r1
      | _ => one a rune_error r1
      end
  | 4%nat =>
      match r1 with
      | String b (String c (String d r4)) =>
          if second_ok b0 (byte b) && cont (byte c) && cont (byte d)
          then (Chunk (Z.land b0 0x07 * 262144 + Z.land (byte b) 0x3F * 4096
                       + Z.land (byte c) 0x3F * 64 + Z.land (byte d) 0x3F)
                  (String a (String b (String c (String d "")))), r4)
          else one a rune_error r1
      | _ => one a rune_error r1
      end
  | _ => one a rune_error r1
  end.

(** The runes of a string, as [for _, r := range s] sees them.  The fuel is the byte length: every
    rune takes at least one byte ([chunks_cons] is the equation without fuel). *)
Fixpoint chunks_fuel (n : nat) (s : string) : list chunk :=
  match n, s with
  | S m, String a r => let '(c, rest) := decode_rune a r in c :: chunks_fuel m rest
  | _, _ => []
  end.

Definition chunks (s : string) : list chunk := chunks_fuel (String.length s) s.

Definition unchunk (l : list chunk) : string := foldr (fun c acc => ck_text c +:+ acc) "" l.

Definition runes (s : string) : list Z := map ck_rune (chunks s).

(** [utf8.ValidString]: no rune came from an invalid byte. *)
Definition chunk_valid (c : chunk) : bool :=
  negb ((ck_rune c =? rune_error) && Nat.eqb (String.length (ck_text c)) 1).

Definition ValidString (s : string) : bool := forallb chunk_valid (chunks s).

(** UTF-16 code units of the string, [len(utf16.Encode([]rune(s)))]. *)
Definition rune_units (r : Z) : Z := if 0x10000 <=? r then 2 else 1.

Definition utf16Len (s : string) : Z := foldr (fun c n => rune_units (ck_rune c) + n) 0 (chunks s).

(** ** Trimming *)

(** [unicode.IsSpace]. *)
Definition IsSpace (r : Z) : bool :=
  in_range 9 13 r || (r =? 0x20) || (r =? 0x85) || (r =? 0xA0) || (r =? 0x1680)
  || in_range 0x2000 0x200A r || (r =? 0x2028) || (r =? 0x2029) || (r =? 0x202F)
  || (r =? 0x205F) || (r =? 0x3000).

Fixpoint drop_while {A} (p : A -> bool) (l : list A) : list A :=
  match l with
  | [] => []
  | x :: l' => if p x then drop_while p l' else l
  end.

Definition trim_list {A} (p : A -> bool) (l : list A) : list A :=
  reverse (drop_while p (reverse (drop_while p l))).

(** [strings.TrimFunc]: runes are decoded forwards on both sides, which agrees with the backward
    decoding of the library because a UTF-8 sequence never contains a leading byte. *)
Definition TrimFunc (p : Z -> bool) (s : string) : string :=
  unchunk (trim_list (fun c => p (ck_rune c)) (chunks s)).

Definition TrimSpace (s : string) : string := TrimFunc IsSpace s.

Definition is_blank (s : string) : bool := String.eqb (TrimSpace s) "".

(** ** Decimal numbers ([strconv]) *)

Definition is_digit (a : ascii) : bool := in_range 48 57 (byte a).

Definition digit_char (d : Z) : ascii := ascii_of_N (Z.to_N (48 + d)).

Fixpoint dec_digits (fuel : nat) (n : Z) (acc : string) : string :=
  match fuel with
  | O => acc
  | S f =>
      let acc' := String (digit_char (n mod 10)) acc in
      if n <? 10 then acc' else dec_digits f (n / 10) acc'
  end.

(** One step per decimal digit; [log2 n + 1] steps are always enough. *)
Definition dec_fuel (n : Z) : nat := S (Z.to_nat (Z.log2 n)).

Definition FormatInt (n : Z) : string :=
  if n <? 0 then String "-" (dec_digits (dec_fuel (- n)) (- n) "")
  else dec_digits (dec_fuel n) n "".

Fixpoint parse_digits (acc : Z) (s : string) : option Z :=
  match s with
  | EmptyString => Some acc
  | String c r => if is_digit c then parse_digits (acc * 10 + (byte c - 48)) r else None
  end.

Definition int_ok (bits v : Z) : bool := (- 2 ^ (bits - 1) <=? v) && (v <? 2 ^ (bits - 1)).

(** [strconv.ParseInt(s, 10, bits)]; [None] is any error. *)
Definition ParseInt (bits : Z) (s : string) : option Z :=
  match s with
  | EmptyString => None
  | String c r =>
      let '(neg, body) :=
        if Ascii.eqb c "-" then (true, r)
        else if Ascii.eqb c "+" then (false, r)
        else (false, s) in
      match body with
      | EmptyString => None
      | _ =>
          match parse_digits 0 body with
          | Some n =>
              let v := if neg : bool then - n else n in
              if int_ok bits v then Some v else None
          | None => None
          end
      end
  end.

(** [int] is 64 bits wide on every platform the server is built for. *)
Definition Atoi (s : string) : option Z := ParseInt 64 s.
Definition Itoa (n : Z) : string := FormatInt n.

(** ** Searching, splitting, case *)

Definition HasPrefix (s p : string) : bool := String.prefix p s.

Definition HasSuffix (s p : string) : bool :=
  Nat.leb (String.length p) (String.length s)
  && String.eqb (str_drop (String.length s - String.length p) s) p.

Definition TrimPrefix (s p : string) : string :=
  if HasPrefix s p then str_drop (String.length p) s else s.

Definition TrimSuffix (s p : string) : string :=
  if HasSuffix s p then str_take (String.length s - String.length p) s else s.

Definition Contains (s sub : string) : bool :=
  match String.index 0 sub s with Some _ => true | None => false end.

(** [strings.Split] on a one-byte separator. *)
Fixpoint split_on (c : ascii) (s : string) : list string :=
  match s with
  | EmptyString => [""]
  | String a r =>
      if Ascii.eqb a c then "" :: split_on c r
      else match split_on c r with
           | [] => [String a ""]
           | h :: t => String a h :: t
           end
  end.

(** Part of [s] before the first [c] (all of it when there is none). *)
Fixpoint before_first (c : ascii) (s : string) : string :=
  match s with
  | EmptyString => ""
  | String a r => if Ascii.eqb a c then "" else String a (before_first c r)
  end.

(** [strings.LastIndex(s, c)] for a one-byte needle. *)
Fixpoint last_index_from (i : nat) (c : ascii) (s : string) : option nat :=
  match s with
  | EmptyString => None
  | String a r =>
      match last_index_from (S i) c r with
      | Some j => Some j
      | None => if Ascii.eqb a c then Some i else None
      end
  end.

Definition LastIndexByte (s : string) (c : ascii) : option nat := last_index_from 0 c s.

Fixpoint replace_byte (c d : ascii) (s : string) : string :=
  match s with
  | EmptyString => ""
  | String a r => String (if Ascii.eqb a c then d else a) (replace_byte c d r)
  end.

Definition ascii_of_Z (z : Z) : ascii := ascii_of_N (Z.to_N z).

Definition char (z : Z) : string := String (ascii_of_Z z) EmptyString.

(** The lower-case hexadecimal digit of [n]. *)
Definition hex_digit (n : Z) : ascii := if n <? 10 then ascii_of_Z (48 + n) else ascii_of_Z (87 + n).

Fixpoint hex_fixed (width : nat) (n : Z) (acc : string) : string :=
  match width with O => acc | S w => hex_fixed w (n / 16) (String (hex_digit (n mod 16)) acc) end.

(** [strconv.Quote] ([%q] of a string) over [printable], the table of [strconv.IsPrint] above ASCII. *)
Definition quote_chunk (printable : Z -> bool) (c : chunk) : string :=
  let r := ck_rune c in
  if negb (chunk_valid c) then
    foldr (fun a acc => char 92 +:+ "x" +:+ hex_fixed 2 (byte a) "" +:+ acc) "" (list_ascii_of_string (ck_text c))
  else if (r =? 34) || (r =? 92) then char 92 +:+ ck_text c
  else if in_range 0x20 0x7E r || (0x80 <=? r) && printable r then ck_text c
  else if in_range 7 13 r then char 92 +:+ str_take 1 (str_drop (Z.to_nat (r - 7)) "abtnvfr")
  else if (r <? 0x20) || (r =? 0x7F) then char 92 +:+ "x" +:+ hex_fixed 2 r ""
  else if r <? 0x10000 then char 92 +:+ "u" +:+ hex_fixed 4 r ""
  else char 92 +:+ "U" +:+ hex_fixed 8 r "".

Definition Quote (printable : Z -> bool) (s : string) : string :=
  char 34 +:+ foldr (fun c acc => quote_chunk printable c +:+ acc) "" (chunks s) +:+ char 34.

(** [unicode.ToLower] where the image is ASCII: A-Z, U+0130 and the Kelvin sign; other runes keep
    their (non-ASCII) bytes. *)
Definition lower_chunk (c : chunk) : string :=
  let r := ck_rune c in
  if in_range 65 90 r then char (r + 32)
  else if r =? 0x130 then "i"
  else if r =? 0x212A then "k"
  else ck_text c.

(** [unicode.ToUpper] where the image is ASCII: a-z, U+0131 and U+017F. *)
Definition upper_chunk (c : chunk) : string :=
  let r := ck_rune c in
  if in_range 97 122 r then char (r - 32)
  else if r =? 0x131 then "I"
  else if r =? 0x17F then "S"
  else ck_text c.

Definition ToLower (s : string) : string := foldr (fun c acc => lower_chunk c +:+ acc) "" (chunks s).
Definition ToUpper (s : string) : string := foldr (fun c acc => upper_chunk c +:+ acc) "" (chunks s).

Definition Join (l : list string) (sep : string) : string := String.concat sep l.

(** [filepath.Base]. *)
Definition Base (path : string) : string :=
  if String.eqb path "" then "."
  else
    let p := TrimFunc (fun r => r =? 47) path in
    if String.eqb p "" then "/"
    else match LastIndexByte p "/" with Some i => str_drop (S i) p | None => p end.

(** ** Decoding lemmas *)

(** Case analysis over the shape of a decoding step. *)
Ltac decode_cases :=
  unfold decode_rune, one in *;
  repeat first
    [ progress simplify_eq/=
    | case_match ].

Lemma decode_rune_text a r c rest :
  decode_rune a r = (c, rest) -> ck_text c +:+ rest = String a r.
Proof. intros H. decode_cases; done. Qed.

Lemma decode_rune_nonempty a r c rest :
  decode_rune a r = (c, rest) -> exists t, ck_text c = String a t.
Proof. intros H. decode_cases; eauto. Qed.

Lemma decode_rune_shorter a r c rest :
  decode_rune a r = (c, rest) -> (String.length rest <= String.length r)%nat.
Proof. intros H. decode_cases; lia. Qed.

Lemma chunks_fuel_enough n m s :
  (String.length s <= n)%nat -> (String.length s <= m)%nat -> chunks_fuel n s = chunks_fuel m s.
Proof.
  revert m s. induction n as [|n IH]; intros m s Hn Hm; destruct m as [|m], s as [|a r];
    simpl in *; try done; try lia.
  destruct (decode_rune a r) as [c rest] eqn:E.
  pose proof (decode_rune_shorter _ _ _ _ E). f_equal. apply IH; lia.
Qed.

Lemma chunks_cons a r :
  chunks (String a r) = (decode_rune a r).1 :: chunks (decode_rune a r).2.
Proof.
  unfold chunks. simpl. destruct (decode_rune a r) as [c rest] eqn:E. simpl. f_equal.
  pose proof (decode_rune_shorter _ _ _ _ E). apply chunks_fuel_enough; lia.
Qed.

Lemma chunks_nil : chunks "" = [].
Proof. done. Qed.

(** Induction on the decoded form of a string. *)
Lemma chunks_ind (P : string -> Prop) :
  P "" ->
  (forall a r, P (decode_rune a r).2 -> P (String a r)) ->
  forall s, P s.
Proof.
  intros H0 H1 s. remember (String.length s) as n eqn:Hn.
  revert s Hn. induction (lt_wf n) as [n _ IH]. intros [|a r] ->; [done|].
  apply H1. destruct (decode_rune a r) as [c rest] eqn:E.
  pose proof (decode_rune_shorter _ _ _ _ E). simpl.
  eapply IH; [|done]. simpl. lia.
Qed.

Lemma unchunk_app l1 l2 : unchunk (l1 ++ l2) = unchunk l1 +:+ unchunk l2.
Proof. induction l1 as [|c l IH]; simpl; [done|]. by rewrite IH, str_app_assoc. Qed.

(** No byte is lost by decoding. *)
Lemma unchunk_chunks s : unchunk (chunks s) = s.
Proof.
  induction s as [|a r IH] using chunks_ind; [done|].
  rewrite chunks_cons. simpl. rewrite IH.
  destruct (decode_rune a r) as [c rest] eqn:E. by apply decode_rune_text.
Qed.

(** Decoding is stable when the text after the decoded rune is cut short. *)
Lemma decode_rune_cut a r c rest t r' x :
  decode_rune a r = (c, rest) -> rest = r' +:+ x -> ck_text c = String a t ->
  decode_rune a (t +:+ r') = (c, r').
Proof.
  intros H -> Ht. decode_cases;
    repeat match goal with
           | H : String _ _ = ?r +:+ _ |- _ => destruct r; simplify_eq/=
           | H : _ = _ |- _ => rewrite H
           end; try done; repeat case_match; simplify_eq/=; try done; congruence.
Qed.

(** Chunk lists that decode back to themselves. *)
Definition stable (l : list chunk) : Prop := chunks (unchunk l) = l.

Lemma chunks_stable s : stable (chunks s).
Proof. unfold stable. by rewrite unchunk_chunks. Qed.

Lemma stable_cons_inv c l :
  stable (c :: l) ->
  exists a t, ck_text c = String a t /\ decode_rune a (t +:+ unchunk l) = (c, unchunk l) /\ stable l.
Proof.
  unfold stable. intros H. destruct (unchunk (c :: l)) as [|a r] eqn:Es; [done|].
  rewrite chunks_cons in H. destruct (decode_rune a r) as [c' rest] eqn:E.
  simpl in H. injection H as -> Hl.
  pose proof (decode_rune_text _ _ _ _ E) as Htext.
  destruct (decode_rune_nonempty _ _ _ _ E) as [t Ht].
  simpl in Es. rewrite <- Es in Htext. apply str_app_inj_l in Htext. subst rest.
  exists a, t. rewrite Ht in Es. simpl in Es. injection Es as <-. done.
Qed.

Lemma stable_app_r l1 l2 : stable (l1 ++ l2) -> stable l2.
Proof.
  induction l1 as [|c l IH]; [done|]. intros H. apply IH. simpl in H.
  by apply stable_cons_inv in H as (? & ? & _ & _ & H).
Qed.

Lemma stable_app_l l1 l2 : stable (l1 ++ l2) -> stable l1.
Proof.
  induction l1 as [|c l IH]; [done|]. simpl. intros H.
  apply stable_cons_inv in H as (a & t & Ht & Hd & Hs).
  rewrite unchunk_app in Hd.
  pose proof (decode_rune_cut _ _ _ _ _ _ _ Hd eq_refl Ht) as Hcut.
  unfold stable. simpl. rewrite Ht. simpl. rewrite chunks_cons, Hcut. simpl.
  f_equal. by apply IH.
Qed.

(** ** Trimming lemmas *)

Section trim.
Context {A : Type} (p : A -> bool).

Lemma drop_while_suffix (l : list A) : exists k, l = k ++ drop_while p l /\ Forall (fun x => p x = true) k.
Proof.
  induction l as [|x l (k & IH & Hk)]; simpl; [by exists []|].
  destruct (p x) eqn:E; [|by exists []].
  exists (x :: k). simpl. split; [by rewrite <- IH|by constructor].
Qed.

Lemma drop_while_idem (l : list A) : drop_while p (drop_while p l) = drop_while p l.
Proof.
  induction l as [|x l IH]; simpl; [done|].
  destruct (p x) eqn:E; [done|]. simpl. by rewrite E.
Qed.

Lemma drop_while_head (l : list A) x l' : drop_while p l = x :: l' -> p x = false.
Proof.
  induction l as [|y l IH]; simpl; [done|].
  destruct (p y) eqn:E; [auto|]. intros [= -> ->]. done.
Qed.

(** The trimmed list is a contiguous part of the original. *)
Lemma trim_list_split (l : list A) :
  exists k1 k2, l = k1 ++ trim_list p l ++ k2
    /\ Forall (fun x => p x = true) k1 /\ Forall (fun x => p x = true) k2.
Proof.
  unfold trim_list.
  destruct (drop_while_suffix l) as (k1 & H1 & F1).
  destruct (drop_while_suffix (reverse (drop_while p l))) as (k2 & H2 & F2).
  exists k1, (reverse k2). split; [|split; [done|by apply Forall_reverse]].
  rewrite H1 at 1. f_equal. rewrite <- reverse_app, <- H2. by rewrite reverse_involutive.
Qed.

Lemma trim_list_idem (l : list A) : trim_list p (trim_list p l) = trim_list p l.
Proof.
  unfold trim_list.
  set (d := drop_while p l).
  assert (drop_while p (reverse (drop_while p (reverse d))) = reverse (drop_while p (reverse d))) as Hd.
  { destruct (drop_while_suffix (reverse d)) as (k & Hk & _).
    apply (f_equal reverse) in Hk. rewrite reverse_involutive, reverse_app in Hk.
    destruct (reverse (drop_while p (reverse d))) as [|x r] eqn:E; [done|].
    simpl. destruct d as [|y d'] eqn:Ed; [done|].
    simpl in Hk. injection Hk as -> _. unfold d in Ed. by rewrite (drop_while_head _ _ _ Ed). }
  rewrite Hd, reverse_involutive. f_equal. apply drop_while_idem.
Qed.

End trim.

Lemma trim_stable p s : stable (trim_list p (chunks s)).
Proof.
  destruct (trim_list_split p (chunks s)) as (k1 & k2 & H & _).
  eapply stable_app_l, stable_app_r. rewrite <- H. apply chunks_stable.
Qed.

Lemma chunks_TrimFunc p s :
  chunks (TrimFunc p s) = trim_list (fun c => p (ck_rune c)) (chunks s).
Proof. apply trim_stable. Qed.

Lemma TrimFunc_idem p s : TrimFunc p (TrimFunc p s) = TrimFunc p s.
Proof. unfold TrimFunc at 1. by rewrite chunks_TrimFunc, trim_list_idem. Qed.

Lemma TrimSpace_idem s : TrimSpace (TrimSpace s) = TrimSpace s.
Proof. apply TrimFunc_idem. Qed.

Lemma is_blank_TrimSpace s : is_blank (TrimSpace s) = is_blank s.
Proof. unfold is_blank. by rewrite TrimSpace_idem. Qed.

(** ** Decimal round trip *)

Lemma byte_digit_char d : 0 <= d < 10 -> byte (digit_char d) = 48 + d.
Proof. intros H. unfold byte, digit_char. rewrite N_ascii_embedding; lia. Qed.

Lemma is_digit_char d : 0 <= d < 10 -> is_digit (digit_char d) = true.
Proof. intros H. unfold is_digit, in_range. rewrite byte_digit_char by done. lia. Qed.

(** [dec_digits] prepends decimal digits whose value is [n]. *)
Lemma dec_digits_parse f n acc :
  0 <= n < 2 ^ Z.of_nat f ->
  exists k, 0 <= k /\ forall a, parse_digits a (dec_digits f n acc) = parse_digits (a * 10 ^ k + n) acc.
Proof.
  revert n acc. induction f as [|f IH]; intros n acc Hn.
  - exists 0. split; [lia|]. intros a. simpl. do 2 f_equal. simpl in Hn. lia.
  - pose proof (Z.mod_pos_bound n 10 ltac:(lia)) as Hm.
    assert (forall a, parse_digits a (String (digit_char (n mod 10)) acc)
                      = parse_digits (a * 10 + n mod 10) acc) as Hstep.
    { intros a. simpl. rewrite is_digit_char, byte_digit_char by done. f_equal. lia. }
    simpl. destruct (n <? 10) eqn:E.
    + exists 1. split; [lia|]. intros a. rewrite Hstep. f_equal. rewrite Z.mod_small; lia.
    + destruct (IH (n / 10) (String (digit_char (n mod 10)) acc)) as (k & Hk & IHk).
      { rewrite Nat2Z.inj_succ, Z.pow_succ_r in Hn by lia. split; [apply Z.div_pos; lia|].
        apply Z.div_lt_upper_bound; lia. }
      exists (k + 1). split; [lia|]. intros a. rewrite IHk, Hstep. f_equal.
      rewrite Z.pow_add_r by lia. pose proof (Z.div_mod n 10). nia.
Qed.

Lemma dec_fuel_bound n : 0 <= n -> n < 2 ^ Z.of_nat (dec_fuel n).
Proof.
  intros H. unfold dec_fuel. rewrite Nat2Z.inj_succ, Z2Nat.id by apply Z.log2_nonneg.
  destruct (decide (n = 0)) as [->|]; [done|]. apply Z.log2_spec. lia.
Qed.

(** The first character is a digit: in particular not a sign. *)
Lemma dec_digits_head f n acc :
  (0 < f)%nat -> 0 <= n -> exists d r, 0 <= d < 10 /\ dec_digits f n acc = String (digit_char d) r.
Proof.
  revert n acc. induction f as [|f IH]; intros n acc Hf Hn; [lia|].
  pose proof (Z.mod_pos_bound n 10 ltac:(lia)) as Hm. simpl.
  destruct (n <? 10) eqn:E; [eauto|].
  destruct f as [|f]; [simpl; eauto|].
  apply IH; [lia|apply Z.div_pos; lia].
Qed.

Lemma digit_char_not_sign d :
  0 <= d < 10 -> Ascii.eqb (digit_char d) "-" = false /\ Ascii.eqb (digit_char d) "+" = false.
Proof.
  intros H. split; apply Ascii.eqb_neq; intros Heq; apply (f_equal byte) in Heq;
    rewrite byte_digit_char in Heq by done.
  - change (byte "-") with 45 in Heq. lia.
  - change (byte "+") with 43 in Heq. lia.
Qed.

Lemma parse_dec_digits n : 0 <= n -> parse_digits 0 (dec_digits (dec_fuel n) n "") = Some n.
Proof.
  intros H. destruct (dec_digits_parse (dec_fuel n) n "") as (k & Hk & ->).
  { split; [done|by apply dec_fuel_bound]. }
  simpl. f_equal.
Qed.

(** [strconv.ParseInt(strconv.FormatInt(n, 10), 10, bits)] gives [n] back when [n] fits. *)
Lemma ParseInt_FormatInt bits n : int_ok bits n = true -> ParseInt bits (FormatInt n) = Some n.
Proof.
  intros Hok. unfold FormatInt, ParseInt. destruct (n <? 0) eqn:E.
  - destruct (dec_digits_head (dec_fuel (- n)) (- n) "") as (d & r & Hd & Hr);
      [unfold dec_fuel; lia|lia|].
    pose proof (parse_dec_digits (- n) ltac:(lia)) as Hp. rewrite Hr in Hp |- *.
    change (Ascii.eqb "-" "-") with true. cbv beta iota zeta.
    by rewrite Hp, Z.opp_involutive, Hok.
  - destruct (dec_digits_head (dec_fuel n) n "") as (d & r & Hd & Hr);
      [unfold dec_fuel; lia|lia|].
    pose proof (parse_dec_digits n ltac:(lia)) as Hp. rewrite Hr in Hp |- *.
    destruct (digit_char_not_sign d Hd) as [-> ->]. by rewrite Hp, Hok.
Qed.

Lemma Atoi_Itoa n : int_ok 64 n = true -> Atoi (Itoa n) = Some n.
Proof. apply ParseInt_FormatInt. Qed.

Lemma FormatInt_nonempty n : FormatInt n <> "".
Proof.
  unfold FormatInt. destruct (n <? 0) eqn:E; [done|].
  destruct (dec_digits_head (dec_fuel n) n "") as (d & r & _ & ->); [unfold dec_fuel; lia|lia|done].
Qed.

(** Characters of a decimal number: digits and the sign. *)
Definition dec_char (a : ascii) : bool := is_digit a || Ascii.eqb a "-".

Lemma dec_digits_chars f n acc :
  0 <= n -> str_forall dec_char acc = true -> str_forall dec_char (dec_digits f n acc) = true.
Proof.
  revert n acc. induction f as [|f IH]; intros n acc Hn Hacc; [done|].
  pose proof (Z.mod_pos_bound n 10 ltac:(lia)) as Hm.
  assert (str_forall dec_char (String (digit_char (n mod 10)) acc) = true) as Hs.
  { simpl. unfold dec_char at 1. by rewrite is_digit_char. }
  simpl. destruct (n <? 10); [done|]. apply IH; [apply Z.div_pos; lia|done].
Qed.

Lemma FormatInt_chars n : str_forall dec_char (FormatInt n) = true.
Proof.
  unfold FormatInt. destruct (n <? 0) eqn:E; [|apply dec_digits_chars; [lia|done]].
  change (str_forall dec_char (dec_digits (dec_fuel (- n)) (- n) "") = true).
  apply dec_digits_chars; [lia|done].
Qed.

Lemma dec_digits_only f n acc :
  0 <= n -> str_forall is_digit acc = true -> str_forall is_digit (dec_digits f n acc) = true.
Proof.
  revert n acc. induction f as [|f IH]; intros n acc Hn Hacc; [done|].
  pose proof (Z.mod_pos_bound n 10 ltac:(lia)) as Hm.
  assert (str_forall is_digit (String (digit_char (n mod 10)) acc) = true) as Hs
    by (simpl; by rewrite is_digit_char).
  simpl. destruct (n <? 10); [done|]. apply IH; [apply Z.div_pos; lia|done].
Qed.

Lemma FormatInt_digits n : 0 <= n -> str_forall is_digit (FormatInt n) = true.
Proof.
  intros Hn. unfold FormatInt. destruct (Z.ltb_spec n 0); [lia|]. by apply dec_digits_only.
Qed.

(** [FormatInt] is injective on all of [Z]. *)
Lemma FormatInt_inj n m : FormatInt n = FormatInt m -> n = m.
Proof.
  intros H.
  assert (exists b, 1 <= b /\ int_ok b n = true /\ int_ok b m = true) as (b & _ & Hn & Hm).
  { set (x := Z.log2 (Z.abs n + Z.abs m + 1)). exists (x + 2).
    pose proof (Z.log2_spec (Z.abs n + Z.abs m + 1) ltac:(lia)) as Hx.
    pose proof (Z.log2_nonneg (Z.abs n + Z.abs m + 1)). unfold int_ok.
    replace (x + 2 - 1) with (Z.succ x) by lia. fold x in Hx. revert Hx. generalize (2 ^ Z.succ x).
    intros y Hx. split; [lia|]. split; apply andb_true_intro; lia. }
  apply (f_equal (ParseInt b)) in H. rewrite !ParseInt_FormatInt in H by done. congruence.
Qed.

Lemma str_forall_weaken p q s :
  (forall a, p a = true -> q a = true) -> str_forall p s = true -> str_forall q s = true.
Proof.
  intros Hpq. induction s as [|a s IH]; simpl; [done|].
  intros [Ha Hs]%andb_prop. by rewrite Hpq, IH.
Qed.

(** ** ASCII text *)

Definition is_ascii (a : ascii) : bool := byte a <? 0x80.

Lemma byte_nonneg a : 0 <= byte a < 256.
Proof. unfold byte. pose proof (N_ascii_bounded a). lia. Qed.

Lemma decode_ascii a r : is_ascii a = true -> decode_rune a r = (Chunk (byte a) (String a ""), r).
Proof. unfold is_ascii, decode_rune, seq_len, one. intros H. by rewrite H. Qed.

Lemma chunks_ascii s : str_forall is_ascii s = true ->
  chunks s = map (fun a => Chunk (byte a) (String a "")) (String.list_ascii_of_string s).
Proof.
  induction s as [|a s IH]; [done|]. simpl. intros [Ha Hs]%andb_prop.
  rewrite chunks_cons, decode_ascii by done. simpl. by rewrite IH.
Qed.

Definition lower_ascii (a : ascii) : ascii := if in_range 65 90 (byte a) then ascii_of_Z (byte a + 32) else a.

Lemma lower_chunk_ascii a : is_ascii a = true ->
  lower_chunk (Chunk (byte a) (String a "")) = String (lower_ascii a) "".
Proof.
  unfold is_ascii, lower_chunk, lower_ascii, char. simpl. intros H.
  destruct (in_range 65 90 (byte a)); [done|].
  replace (byte a =? 0x130) with false by lia. by replace (byte a =? 0x212A) with false by lia.
Qed.

Fixpoint str_map (f : ascii -> ascii) (s : string) : string :=
  match s with
  | EmptyString => ""
  | String a r => String (f a) (str_map f r)
  end.

Lemma ToLower_ascii s : str_forall is_ascii s = true -> ToLower s = str_map lower_ascii s.
Proof.
  intros H. unfold ToLower. rewrite chunks_ascii by done. revert H.
  induction s as [|a s IH]; [done|]. cbn [str_forall String.list_ascii_of_string map foldr str_map].
  intros [Ha Hs]%andb_prop. rewrite IH by done. by rewrite lower_chunk_ascii.
Qed.

Lemma str_forall_map p q f s :
  (forall a, p a = true -> q (f a) = true) -> str_forall p s = true -> str_forall q (str_map f s) = true.
Proof.
  intros Hpq. induction s as [|a s IH]; simpl; [done|].
  intros [Ha Hs]%andb_prop. by rewrite Hpq, IH.
Qed.

(** A property of bytes is decided by looking at all 256 of them. *)
Lemma ascii_forall (p : ascii -> bool) :
  forallb (fun n => p (ascii_of_nat n)) (seq 0 256) = true -> forall a, p a = true.
Proof.
  intros H a. rewrite forallb_forall in H. specialize (H (nat_of_ascii a)).
  rewrite ascii_nat_embedding in H. apply H, in_seq. pose proof (nat_ascii_bounded a). lia.
Qed.

Lemma ascii_implies (p q : ascii -> bool) :
  forallb (fun n => implb (p (ascii_of_nat n)) (q (ascii_of_nat n))) (seq 0 256) = true ->
  forall a, p a = true -> q a = true.
Proof.
  intros H a Ha. pose proof (ascii_forall (fun a => implb (p a) (q a)) H a) as Hb. simpl in Hb.
  by rewrite Ha in Hb.
Qed.

(** Prove an implication between two properties of a byte. *)
Ltac by_bytes := apply ascii_implies; vm_compute; reflexivity.

Lemma str_map_app f s t : str_map f (s +:+ t) = str_map f s +:+ str_map f t.
Proof. induction s as [|a s IH]; [done|]. cbn. by rewrite IH. Qed.

Lemma str_map_length f s : String.length (str_map f s) = String.length s.
Proof. induction s as [|a s IH]; simpl; congruence. Qed.

(** ** Splitting what was joined *)

Definition no_sep (c : ascii) (s : string) : bool := str_forall (fun a => negb (Ascii.eqb a c)) s.

Lemma split_on_none c s : no_sep c s = true -> split_on c s = [s].
Proof.
  unfold no_sep. induction s as [|a s IH]; [done|]. cbn [str_forall split_on].
  intros [Ha%negb_true_iff Hs]%andb_true_iff. by rewrite Ha, IH.
Qed.

Lemma split_on_app c s t : no_sep c s = true -> split_on c (s +:+ String c t) = s :: split_on c t.
Proof.
  unfold no_sep. induction s as [|a s IH]; cbn [str_forall String.append split_on]; [by rewrite Ascii.eqb_refl|].
  intros [Ha%negb_true_iff Hs]%andb_true_iff. by rewrite Ha, IH.
Qed.

Lemma split_join c l : l <> [] -> forallb (no_sep c) l = true -> split_on c (Join l (String c "")) = l.
Proof.
  induction l as [|s [|t l] IH]; [done|..]; intros _; cbn [forallb]; intros [Hs Hl]%andb_true_iff.
  - by apply split_on_none.
  - change (Join (s :: t :: l) (String c "")) with (s +:+ String c (Join (t :: l) (String c ""))).
    by rewrite split_on_app, IH.
Qed.

Lemma HasPrefix_app p s : HasPrefix (p +:+ s) p = true.
Proof. unfold HasPrefix. induction p as [|a p IH]; [by destruct s|]. cbn. by destruct (ascii_dec a a). Qed.

(** A string of ASCII bytes none of which is a space is its own trim, and as long in UTF-16 as in bytes. *)
Definition plain_ascii (a : ascii) : bool := is_ascii a && negb (IsSpace (byte a)).

Lemma chunks_plain s : str_forall plain_ascii s = true ->
  chunks s = map (fun a => Chunk (byte a) (String a "")) (list_ascii_of_string s).
Proof.
  intros Hs. apply chunks_ascii. revert Hs. apply str_forall_weaken. unfold plain_ascii.
  intros a [Ha _]%andb_true_iff. done.
Qed.

Lemma drop_while_none {A} (p : A -> bool) l : Forall (fun x => p x = false) l -> drop_while p l = l.
Proof. intros [|x l' Hx _]; [done|]. cbn. by rewrite Hx. Qed.

Lemma TrimSpace_plain s : str_forall plain_ascii s = true -> TrimSpace s = s.
Proof.
  intros Hs. unfold TrimSpace, TrimFunc. etrans; [|apply unchunk_chunks]. f_equal.
  assert (Forall (fun c => IsSpace (ck_rune c) = false) (chunks s)) as Hall.
  { rewrite chunks_plain by done. apply Forall_map. revert Hs.
    induction s as [|a s IH]; cbn [str_forall list_ascii_of_string]; [constructor|].
    intros [Ha Hs]%andb_true_iff. constructor; [|by apply IH].
    apply andb_true_iff in Ha as [_ Ha%negb_true_iff]. done. }
  unfold trim_list. rewrite (drop_while_none _ (chunks s)) by exact Hall.
  rewrite drop_while_none; [apply reverse_involutive|]. by apply Forall_reverse.
Qed.

Lemma utf16Len_plain s : str_forall plain_ascii s = true -> utf16Len s = strlen s.
Proof.
  intros Hs. unfold utf16Len, strlen. rewrite chunks_plain by done. revert Hs.
  induction s as [|a s IH]; [done|]. cbn [str_forall list_ascii_of_string map foldr ck_rune String.length].
  intros [Ha Hs]%andb_true_iff. rewrite IH by done. unfold rune_units.
  pose proof (byte_nonneg a). destruct (Z.leb_spec 0x10000 (byte a)); lia.
Qed.

Lemma HasPrefix_inv s p : HasPrefix s p = true -> exists rest, s = p +:+ rest.
Proof.
  unfold HasPrefix. revert s. induction p as [|a p IH]; intros [|b s]; cbn; try done; [by exists ""|by eexists|].
  destruct (ascii_dec a b) as [->|]; [|done]. intros (rest & ->)%IH. by exists rest.
Qed.

(** ** Lengths, prefixes, concatenation *)

Lemma strlen_take n s : strlen (str_take n s) = Z.min (Z.of_nat n) (strlen s).
Proof.
  unfold strlen. revert s. induction n as [|n IH]; intros [|a s]; cbn [str_take String.length]; [lia..|].
  specialize (IH s). lia.
Qed.

Lemma strlen_nonneg s : 0 <= strlen s.
Proof. unfold strlen. lia. Qed.

Definition is_prefix (p s : string) : Prop := exists rest, s = p +:+ rest.

Lemma is_prefix_app p q s : is_prefix q (str_drop (String.length p) s) -> is_prefix p s -> is_prefix (p +:+ q) s.
Proof.
  intros [r Hr] [t ->]. exists r. rewrite str_app_assoc, <- Hr. clear Hr. f_equal. by induction p.
Qed.

Lemma is_prefix_trans p q s : is_prefix p q -> is_prefix q s -> is_prefix p s.
Proof. intros [r ->] [t ->]. exists (r +:+ t). by rewrite str_app_assoc. Qed.

Lemma is_prefix_take n s : is_prefix (str_take n s) s.
Proof. exists (str_drop n s). by rewrite str_take_drop. Qed.

Lemma strlen_app p q : strlen (p +:+ q) = strlen p + strlen q.
Proof. unfold strlen. rewrite str_app_length. lia. Qed.

Lemma concat_cons a l : String.concat "" (a :: l) = a +:+ String.concat "" l.
Proof. destruct l as [|b l]; cbn; [by rewrite str_app_nil_r|done]. Qed.

Lemma concat_app l l' : String.concat "" (l ++ l') = String.concat "" l +:+ String.concat "" l'.
Proof. induction l as [|a l IH]; [done|]. cbn [app]. by rewrite !concat_cons, IH, str_app_assoc. Qed.

Lemma is_prefix_app_l p s t : is_prefix p s -> is_prefix p (s +:+ t).
Proof. intros [r ->]. exists (r +:+ t). by rewrite str_app_assoc. Qed.

Lemma is_prefix_app_same s p t : is_prefix p t -> is_prefix (s +:+ p) (s +:+ t).
Proof. intros [r ->]. exists r. by rewrite str_app_assoc. Qed.

Lemma str_take_all n s : (String.length s <= n)%nat -> str_take n s = s.
Proof.
  revert s. induction n as [|n IH]; intros [|a s] Hn; cbn in *; try done; [lia|]. rewrite IH; [done|lia].
Qed.

Lemma str_take_app n s t : str_take n (s +:+ t) = str_take n s +:+ str_take (n - String.length s) t.
Proof.
  revert s. induction n as [|n IH]; intros [|a s]; [done..|]. cbn [String.length Nat.sub].
  change (String a s +:+ t) with (String a (s +:+ t)). cbn [str_take]. rewrite IH. done.
Qed.

Lemma strlen_zero s : strlen s <= 0 -> s = "".
Proof. destruct s; [done|]. unfold strlen. cbn. lia. Qed.

Lemma index_here p s : String.index 0 p (p +:+ s) = Some 0%nat.
Proof.
  assert (String.prefix p (p +:+ s) = true) as Hp by apply HasPrefix_app.
  destruct (p +:+ s) as [|b t]; [by destruct p|]. unfold String.index. by rewrite Hp.
Qed.

Lemma str_drop_app p s : str_drop (String.length p) (p +:+ s) = s.
Proof. by induction p. Qed.
