(* ===== verification/Proc.v ===== *)
(** * Programs over an effect interface

    Go code that talks to Redis, MySQL, Kafka, the agent service or another component is translated
    into [proc E A]: a tree of calls drawn from an interface [E] (one constructor per method the Go
    code calls, indexed by the type of the answer) with Gallina code in between.  Nothing is assumed
    about the answers: [execs p tr a] says that [p] may perform exactly the calls of the trace [tr],
    in that order and with those answers, and return [a].  [wp p Q] says that every such run ends
    (without a run-time panic) in a state satisfying [Q]; it is the proof rule, [execs] is what the
    theorems are stated with.  [run] executes a program against a concrete environment. *)

From S2P Require Import Prelude GoStrings.

Local Open Scope list_scope.

Section proc.
Context {E : Type -> Type}.

Inductive proc (A : Type) : Type :=
| Ret (a : A)
| Do {X : Type} (c : E X) (k : X -> proc A)
| Panic (why : string).

End proc.

Arguments proc E A : clear implicits.
Arguments Ret {E A} a.
Arguments Do {E A X} c k.
Arguments Panic {E A} why.

(** A call with the answer it got. *)
Inductive event (E : Type -> Type) : Type :=
| Ev {X : Type} (c : E X) (x : X).
Arguments Ev {E X} c x.

Definition trace (E : Type -> Type) : Type := list (event E).

Definition call {E X} (c : E X) : proc E X := Do c Ret.

Fixpoint bind {E A B} (p : proc E A) (f : A -> proc E B) : proc E B :=
  match p with
  | Ret a => f a
  | Do c k => Do c (fun x => bind (k x) f)
  | Panic why => Panic why
  end.

#[export] Instance proc_ret E : MRet (proc E) := @Ret E.
#[export] Instance proc_bind E : MBind (proc E) := fun A B f p => bind p f.

(** [x ←? p; q] is Go's [x, err := p; if err != nil { return err }; q]. *)
Definition bind_ok {E Er A B} (p : proc E (result Er A)) (f : A -> proc E (result Er B))
  : proc E (result Er B) :=
  bind p (fun r => match r with Ok a => f a | Err e => Ret (Err e) end).

Declare Scope proc_scope.
Delimit Scope proc_scope with proc.
Notation "x '←?' p ; q" := (bind_ok p (fun x => q))
  (at level 20, p at level 100, q at level 200, right associativity, only parsing) : proc_scope.
Notation "' x '←?' p ; q" := (bind_ok p (fun x => q))
  (at level 20, x pattern, p at level 100, q at level 200, right associativity, only parsing) : proc_scope.
Open Scope proc_scope.

(** ** Executions *)

Section semantics.
Context {E : Type -> Type}.

Inductive execs {A} : proc E A -> trace E -> A -> Prop :=
| execs_ret a : execs (Ret a) [] a
| execs_do X (c : E X) k x tr a : execs (k x) tr a -> execs (Do c k) (Ev c x :: tr) a.

Inductive panics {A} : proc E A -> trace E -> Prop :=
| panics_here why : panics (Panic why) []
| panics_do X (c : E X) k x tr : panics (k x) tr -> panics (Do c k) (Ev c x :: tr).

Fixpoint wp {A} (p : proc E A) (Q : trace E -> A -> Prop) : Prop :=
  match p with
  | Ret a => Q [] a
  | Do c k => forall x, wp (k x) (fun tr a => Q (Ev c x :: tr) a)
  | Panic _ => False
  end.

Lemma wp_mono {A} (p : proc E A) Q R :
  wp p Q -> (forall tr a, Q tr a -> R tr a) -> wp p R.
Proof.
  revert Q R. induction p as [a|X c k IH|why]; simpl; intros Q R H HQR; [auto| |done].
  intros x. eapply IH; [apply H|]. auto.
Qed.

Lemma wp_bind {A B} (p : proc E A) (f : A -> proc E B) Q :
  wp p (fun tr a => wp (f a) (fun tr' b => Q (tr ++ tr') b)) -> wp (bind p f) Q.
Proof.
  revert Q. induction p as [a|X c k IH|why]; simpl; intros Q H; [done| |done].
  intros x. apply IH. eapply wp_mono; [apply H|]. auto.
Qed.

Lemma wp_execs {A} (p : proc E A) Q tr a : wp p Q -> execs p tr a -> Q tr a.
Proof.
  intros H Hex. revert Q H. induction Hex as [a|X c k x tr a Hex IH]; simpl; intros Q H; [done|].
  apply (IH (fun tr a => Q (Ev c x :: tr) a)). apply H.
Qed.

Lemma wp_no_panic {A} (p : proc E A) Q tr : wp p Q -> ~ panics p tr.
Proof.
  intros H Hp. revert Q H. induction Hp as [why|X c k x tr Hp IH]; simpl; intros Q H; [done|].
  eapply IH, H.
Qed.

(** The rule is complete: [wp] is the strongest statement about runs of a panic-free program. *)
Lemma execs_wp {A} (p : proc E A) (Q : trace E -> A -> Prop) :
  (forall tr, ~ panics p tr) -> (forall tr a, execs p tr a -> Q tr a) -> wp p Q.
Proof.
  revert Q. induction p as [a|X c k IH|why]; simpl; intros Q Hp HQ.
  - apply HQ. constructor.
  - intros x. apply IH.
    + intros tr Htr. apply (Hp (Ev c x :: tr)). by constructor.
    + intros tr a Hex. apply HQ. by constructor.
  - exfalso. eapply Hp. constructor.
Qed.

Lemma wp_bind_ok {Er A B} (p : proc E (result Er A)) (f : A -> proc E (result Er B)) Q :
  wp p (fun tr r => match r with
                    | Ok a => wp (f a) (fun tr' b => Q (tr ++ tr') b)
                    | Err e => Q tr (Err e)
                    end) ->
  wp (bind_ok p f) Q.
Proof.
  intros H. apply wp_bind. eapply wp_mono; [exact H|]. intros tr [a|e]; simpl; [done|].
  by rewrite app_nil_r.
Qed.

(** Two programs that no specification tells apart; [bind] respects it and is associative. *)
Definition proc_equiv {A} (p q : proc E A) : Prop := forall Q, wp p Q <-> wp q Q.

#[export] Instance proc_equiv_equivalence A : Equivalence (@proc_equiv A).
Proof. split; [intros p Q; done|intros p q H Q; by symmetry|intros p q r H1 H2 Q; by rewrite (H1 Q)]. Qed.

Lemma wp_bind_inv {A B} (p : proc E A) (f : A -> proc E B) Q :
  wp (bind p f) Q -> wp p (fun tr a => wp (f a) (fun tr' b => Q (tr ++ tr') b)).
Proof.
  revert Q. induction p as [a|X c k IH|why]; simpl; intros Q H; [done| |done].
  intros x. apply (IH x (fun tr b => Q (Ev c x :: tr) b)), H.
Qed.

#[export] Instance bind_proper A B :
  Proper (proc_equiv ==> pointwise_relation A proc_equiv ==> proc_equiv) (@bind E A B).
Proof.
  intros p q Hpq f g Hfg Q. split; intros H; apply wp_bind; apply wp_bind_inv in H.
  - apply Hpq. eapply wp_mono; [exact H|]. intros tr a Ha. by apply Hfg.
  - apply Hpq. eapply wp_mono; [exact H|]. intros tr a Ha. by apply Hfg.
Qed.

Lemma bind_assoc {A B C} (p : proc E A) (f : A -> proc E B) (g : B -> proc E C) :
  proc_equiv (bind (bind p f) g) (bind p (fun a => bind (f a) g)).
Proof.
  intros Q. revert Q. induction p as [a|X c k IH|why]; simpl; intros Q; [done| |done].
  split; intros H x; apply IH, H.
Qed.

(** ** Running a program against an environment

    An environment answers every call as a function of the calls made so far (latest first). *)

Definition env : Type := trace E -> forall X, E X -> X.

Fixpoint run {A} (o : env) (past : trace E) (p : proc E A) : trace E * option A :=
  match p with
  | Ret a => ([], Some a)
  | Do c k =>
      let x := o past _ c in
      let '(tr, r) := run o (Ev c x :: past) (k x) in
      (Ev c x :: tr, r)
  | Panic _ => ([], None)
  end.

Lemma run_execs {A} o past (p : proc E A) tr a :
  run o past p = (tr, Some a) -> execs p tr a.
Proof.
  revert past tr. induction p as [b|X c k IH|why]; simpl; intros past tr H.
  - injection H as <- <-. constructor.
  - destruct (run o (Ev c (o past X c) :: past) (k (o past X c))) as [tr' r] eqn:Er.
    injection H as <- ->. constructor. eapply IH, Er.
  - done.
Qed.

Lemma run_returns {A} o past (p : proc E A) a :
  (run o past p).2 = Some a -> execs p (run o past p).1 a.
Proof. intros H. apply (run_execs o past). by rewrite <- H, <- surjective_pairing. Qed.

Lemma run_wp {A} o past (p : proc E A) Q :
  wp p Q -> exists a, (run o past p).2 = Some a /\ Q (run o past p).1 a.
Proof.
  revert past Q. induction p as [b|X c k IH|why]; simpl; intros past Q H; [eauto| |done].
  destruct (IH (o past X c) (Ev c (o past X c) :: past) _ (H _)) as (a & H1 & H2).
  destruct (run o (Ev c (o past X c) :: past) (k (o past X c))) as [tr' r]. simpl in *. eauto.
Qed.

(** ** Reading a trace *)

(** The calls of one kind in a trace, with what the reader [f] takes from each. *)
Definition select {B} (f : forall X, E X -> X -> option B) (tr : trace E) : list B :=
  omap (fun e => match e with Ev c x => f _ c x end) tr.

Lemma select_app {B} (f : forall X, E X -> X -> option B) tr tr' :
  select f (tr ++ tr') = select f tr ++ select f tr'.
Proof. apply omap_app. Qed.

Lemma select_cons {B} (f : forall X, E X -> X -> option B) X (c : E X) x tr :
  select f (Ev c x :: tr) = match f X c x with Some b => b :: select f tr | None => select f tr end.
Proof. done. Qed.

(** Every call of the program satisfies [P], whatever the answers. *)
Fixpoint calls (P : forall X, E X -> Prop) {A} (p : proc E A) : Prop :=
  match p with
  | Ret _ | Panic _ => True
  | Do c k => P _ c /\ forall x, calls P (k x)
  end.

Lemma calls_bind P {A B} (p : proc E A) (f : A -> proc E B) :
  calls P p -> (forall a, calls P (f a)) -> calls P (bind p f).
Proof. induction p as [a|X c k IH|why]; simpl; [done| |done]. intros [? ?] ?. split; auto. Qed.

Definition called (P : forall X, E X -> Prop) (tr : trace E) : Prop :=
  Forall (fun e => match e with Ev c _ => P _ c end) tr.

Lemma calls_execs P {A} (p : proc E A) tr a : calls P p -> execs p tr a -> called P tr.
Proof. intros H Hex. induction Hex as [|X c k x tr a Hex IH]; constructor; [apply H|]. apply IH, H. Qed.

Lemma wp_calls P {A} (p : proc E A) Q : calls P p -> wp p Q -> wp p (fun tr a => called P tr /\ Q tr a).
Proof.
  revert Q. induction p as [a|X c k IH|why]; simpl; intros Q HP H; [by split; [constructor|]| |done].
  intros x. eapply wp_mono; [apply (IH x), (H x); apply HP|]. simpl. intros tr a [Hc HQ].
  split; [constructor; [apply HP|done]|done].
Qed.

(** [calls], and no panic. *)
Fixpoint sound (P : forall X, E X -> Prop) {A} (p : proc E A) : Prop :=
  match p with
  | Ret _ => True
  | Do c k => P _ c /\ forall x, sound P (k x)
  | Panic _ => False
  end.

Lemma sound_bind P {A B} (p : proc E A) (f : A -> proc E B) :
  sound P p -> (forall a, sound P (f a)) -> sound P (bind p f).
Proof. induction p as [a|X c k IH|why]; simpl; [done| |done]. intros [? ?] ?. split; auto. Qed.

Lemma sound_wp P {A} (p : proc E A) : sound P p -> wp p (fun tr _ => called P tr).
Proof.
  induction p as [a|X c k IH|why]; simpl; [constructor| |done]. intros [Hc Hk] x.
  eapply wp_mono; [apply IH, Hk|]. intros tr a Htr. by constructor.
Qed.

(** A run known to satisfy [Q] is also a run. *)
Lemma wp_self {A} (p : proc E A) Q : wp p Q -> wp p (fun tr a => execs p tr a /\ Q tr a).
Proof.
  revert Q. induction p as [a|X c k IH|why]; simpl; intros Q H; [split; [constructor|done]| |done].
  intros x. eapply wp_mono; [apply (IH x), H|]. simpl. intros tr a [Hex HQ]. split; [by constructor|done].
Qed.

Lemma wp_and {A} (p : proc E A) Q R : wp p Q -> wp p R -> wp p (fun tr a => Q tr a /\ R tr a).
Proof.
  revert Q R. induction p as [a|X c k IH|why]; simpl; intros Q R HQ HR; [by split| |done].
  intros x. eapply wp_mono; [apply (IH x _ _ (HQ x) (HR x))|]. simpl. intros tr a [? ?]. by split.
Qed.

End semantics.
Arguments env E : clear implicits.

(** ** Programs against a stateful service

    [H c s x s'] says that the service in state [s] may answer [x] to [c] and move to [s'].  [swp] is the
    weakest precondition over all such runs, [sruns] the runs themselves. *)

Section stateful.
Context {E : Type -> Type} {St : Type} (H : forall X, E X -> St -> X -> St -> Prop).

Inductive sruns {A} : proc E A -> St -> A -> St -> Prop :=
| sruns_ret a s : sruns (Ret a) s a s
| sruns_do X (c : E X) k s x s' a s'' : H X c s x s' -> sruns (k x) s' a s'' -> sruns (Do c k) s a s''.

Fixpoint swp {A} (p : proc E A) (s : St) (Q : A -> St -> Prop) : Prop :=
  match p with
  | Ret a => Q a s
  | Do c k => forall x s', H _ c s x s' -> swp (k x) s' Q
  | Panic _ => False
  end.

Lemma swp_mono {A} (p : proc E A) s (Q R : A -> St -> Prop) :
  swp p s Q -> (forall a s', Q a s' -> R a s') -> swp p s R.
Proof.
  revert s. induction p as [a|X c k IH|why]; simpl; intros s HQ HR; [auto| |done].
  intros x s' Hs. eapply IH; eauto.
Qed.

Lemma swp_bind {A B} (p : proc E A) (f : A -> proc E B) s Q :
  swp p s (fun a s' => swp (f a) s' Q) -> swp (bind p f) s Q.
Proof.
  revert s. induction p as [a|X c k IH|why]; simpl; intros s HQ; [done| |done]. intros x s' Hs. apply IH. auto.
Qed.

Lemma swp_sruns {A} (p : proc E A) s Q a s' : swp p s Q -> sruns p s a s' -> Q a s'.
Proof. intros HQ Hr. induction Hr as [|X c k s x s1 a s2 Hc Hr IH]; simpl in HQ; [done|]. auto. Qed.

(** What every call preserves, a panic-free program preserves. *)
Lemma swp_invariant {A} (P : St -> Prop) (p : proc E A) s :
  (forall X (c : E X) s x s', H X c s x s' -> P s -> P s') ->
  wp p (fun _ _ => True) -> P s -> swp p s (fun _ s' => P s').
Proof.
  intros HP. revert s. induction p as [a|X c k IH|why]; simpl; intros s Hwp Hs; [done| |done].
  intros x s' Hc. apply IH; [apply Hwp|]. by eapply HP.
Qed.

End stateful.

(** When each call of one service can be matched by another along a relation of their states, so can runs. *)
Section refinement.
Context {E : Type -> Type} {St1 St2 : Type}.
Context (H1 : forall X, E X -> St1 -> X -> St1 -> Prop) (H2 : forall X, E X -> St2 -> X -> St2 -> Prop).
Context (P : forall X, E X -> Prop) (R : St1 -> St2 -> Prop).
Hypothesis call_refines : forall X (c : E X) s1 x s1' s2, P X c -> R s1 s2 -> H1 X c s1 x s1' ->
  exists s2', H2 X c s2 x s2' /\ R s1' s2'.

Lemma sruns_refines {A} (p : proc E A) s1 a s1' s2 :
  calls P p -> R s1 s2 -> sruns H1 p s1 a s1' -> exists s2', sruns H2 p s2 a s2' /\ R s1' s2'.
Proof.
  intros Hp HR Hr. revert s2 Hp HR. induction Hr as [a s|X c k s x s' a s'' Hc Hr IH]; intros s2 Hp HR.
  - exists s2. split; [constructor|done].
  - destruct Hp as [HP Hk]. destruct (call_refines X c s x s' s2 HP HR Hc) as (s3 & H3 & HR3).
    destruct (IH s3 (Hk x) HR3) as (s4 & H4 & HR4). exists s4. split; [by econstructor|done].
Qed.

End refinement.

(** ** Implementing one interface by another *)

Section interp.
Context {E F : Type -> Type} (h : forall X, E X -> proc F X).

Fixpoint interp {A} (p : proc E A) : proc F A :=
  match p with
  | Ret a => Ret a
  | Do c k => bind (h _ c) (fun x => interp (k x))
  | Panic why => Panic why
  end.

(** [lowers tr tr']: [tr'] is [tr] with every call replaced by a run of its implementation. *)
Inductive lowers : trace E -> trace F -> Prop :=
| lowers_nil : lowers [] []
| lowers_cons X (c : E X) x tr s tr' :
    execs (h X c) s x -> lowers tr tr' -> lowers (Ev c x :: tr) (s ++ tr').

(** Every statement about the program over [E] transfers to the implementation. *)
Lemma wp_interp {A} (p : proc E A) Q :
  (forall X (c : E X), wp (h X c) (fun _ _ => True)) ->
  wp p Q -> wp (interp p) (fun tr' a => exists tr, lowers tr tr' /\ Q tr a).
Proof.
  intros Hh. revert Q. induction p as [a|X c k IH|why]; simpl; intros Q H.
  - exists []. split; [constructor|done].
  - apply wp_bind.
    assert (wp (h X c) (fun s x => execs (h X c) s x)) as Hex.
    { apply execs_wp; [|done]. intros tr. eapply wp_no_panic, Hh. }
    eapply wp_mono; [exact Hex|]. intros s x Hs. simpl.
    eapply wp_mono; [apply (IH x _ (H x))|]. intros tr' a (tr & Hl & HQ).
    exists (Ev c x :: tr). split; [by constructor|done].
  - done.
Qed.

End interp.

(** ** Proof automation *)

(** Unfold the monad down to calls and answers. *)
Ltac proc_simpl :=
  cbn [wp bind bind_ok call mbind mret proc_bind proc_ret app] in *.

(** One step of symbolic execution: an answer, a branch of the code. *)
Ltac wp_step :=
  match goal with
  | |- wp (bind (bind _ _) _) _ => apply wp_bind
  | |- wp (Ret _) _ => cbn [wp]
  | |- forall _ : unit, _ => intros []
  | |- forall _, _ => intros ?
  | |- wp (if negb ?b then _ else _) _ => destruct b eqn:?; cbn [negb]
  | |- wp (match ?x with _ => _ end) _ => destruct x eqn:?
  | |- wp (bind (match ?x with _ => _ end) _) _ => destruct x eqn:?
  | |- wp (bind_ok (match ?x with _ => _ end) _) _ => destruct x eqn:?
  end.

Ltac wp_go := repeat (proc_simpl; try wp_step).

(** The same for [calls]. *)
Ltac calls_step :=
  match goal with
  | |- calls _ (bind _ _) => apply calls_bind
  | |- calls _ (bind_ok _ _) => apply calls_bind
  | |- calls _ (match ?x with _ => _ end) => destruct x
  | |- calls _ (let _ := _ in _) => cbv zeta
  | |- forall _, _ => intros ?
  | |- True => exact I
  | |- _ /\ _ => split
  end.
Ltac calls_go := repeat (cbn [calls call bind bind_ok mbind mret proc_bind proc_ret]; try calls_step); try done.

(** The same for [sound], up to the calls that are not settled by computation. *)
Ltac sound_step :=
  match goal with
  | |- sound _ (bind _ _) => apply sound_bind
  | |- sound _ (match ?x with _ => _ end) => destruct x
  | |- sound _ (let _ := _ in _) => cbv zeta
  | |- forall _, _ => intros ?
  | |- True => exact I
  | |- _ /\ _ => split
  end.
Ltac sound_go := repeat (cbn [sound call bind bind_ok mbind mret proc_bind proc_ret]; try sound_step); try done.

(** A call is among those of a concrete trace. *)
Ltac ev_in := repeat first [apply list_elem_of_here | apply list_elem_of_further].

(** Use what the branches taken say about the answers. *)
Ltac answers := simplify_eq; repeat match goal with u : unit |- _ => destruct u end.

(** Prove a statement about the result and the final state of a run with [swp]. *)
Ltac by_run Hr :=
  match type of Hr with sruns _ _ _ ?x ?s => pattern x, s; eapply swp_sruns; [|exact Hr]; clear Hr end.

(** Use a specification of a sub-program. *)
Ltac wp_use lem := first [apply wp_bind_ok | apply wp_bind | idtac]; eapply wp_mono; [eapply lem|].
