(* ===== verification/Concurrent.v ===== *)
(** * Concurrent programs over a shared service

    Threads are programs over an effect interface; [H i c s x s'] says that the service in state [s] may
    answer [x] to the call [c] of thread [i] and move to [s'].  Calls of different threads interleave in
    any order, and [env] steps of the surroundings occur between them.  [rgwp] is the rely/guarantee proof
    rule: a thread may assume that the others only move along [rely i], and must show that each of its own
    calls keeps the invariant and moves the others along theirs. *)

From S2P Require Import Prelude GoStrings Proc.

Local Open Scope list_scope.

Section concurrent.
Context {E : Type -> Type} {St T : Type}.
Context (H : nat -> forall X, E X -> St -> X -> St -> Prop) (env_step : St -> St -> Prop).
Context (starts : proc E T -> Prop).

(** The threads of a system and the state they share. *)
Record system := mkSystem { sys_state : St; sys_threads : list (proc E T) }.

Inductive sys_step : system -> system -> Prop :=
| sys_call s ts i X (c : E X) k x s' :
    ts !! i = Some (Do c k) -> H i X c s x s' ->
    sys_step (mkSystem s ts) (mkSystem s' (<[i := k x]> ts))
| sys_env s ts s' : env_step s s' -> sys_step (mkSystem s ts) (mkSystem s' ts)
| sys_spawn s ts p : starts p -> sys_step (mkSystem s ts) (mkSystem s (ts ++ [p])).

Context (inv : St -> Prop) (rely : nat -> St -> St -> Prop).

Fixpoint rgwp (i : nat) {A} (p : proc E A) (s : St) (Q : A -> St -> Prop) : Prop :=
  match p with
  | Ret a => forall s1, rtc (rely i) s s1 -> Q a s1
  | Do c k => forall s1, rtc (rely i) s s1 -> inv s1 -> forall x s2, H i _ c s1 x s2 ->
      inv s2 /\ (forall j, j <> i -> rely j s1 s2) /\ rgwp i (k x) s2 Q
  | Panic _ => False
  end.

Lemma rgwp_rely i {A} (p : proc E A) s s' Q : rgwp i p s Q -> rtc (rely i) s s' -> rgwp i p s' Q.
Proof.
  destruct p as [a|X c k|why]; simpl; intros HQ Hr; [| |done].
  - intros s1 Hs1. apply HQ. by transitivity s'.
  - intros s1 Hs1. apply HQ. by transitivity s'.
Qed.

Lemma rgwp_mono i {A} (p : proc E A) s (Q R : A -> St -> Prop) :
  rgwp i p s Q -> (forall a s', Q a s' -> R a s') -> rgwp i p s R.
Proof.
  revert s. induction p as [a|X c k IH|why]; simpl; intros s HQ HR; [auto| |done].
  intros s1 Hs1 Hi x s2 Hx. destruct (HQ s1 Hs1 Hi x s2 Hx) as (? & ? & ?). eauto 6.
Qed.

Lemma rgwp_bind i {A B} (p : proc E A) (f : A -> proc E B) s Q :
  rgwp i p s (fun a s' => rgwp i (f a) s' Q) -> rgwp i (bind p f) s Q.
Proof.
  revert s. induction p as [a|X c k IH|why]; simpl; intros s HQ; [by apply HQ| |done].
  intros s1 Hs1 Hi x s2 Hx. destruct (HQ s1 Hs1 Hi x s2 Hx) as (? & ? & ?). auto.
Qed.

(** Soundness: threads that satisfy the rule never break the invariant, however they interleave, and however
    many are started later; and what the rule says of a thread's result holds from its return on. *)
Section meets.
Context (post : nat -> T -> St -> Prop).
Hypothesis env_rely : forall i s s', env_step s s' -> inv s -> rely i s s'.
Hypothesis env_inv : forall s s', env_step s s' -> inv s -> inv s'.
Hypothesis programs_meet : forall p i s, starts p -> inv s -> rgwp i p s (post i).

Definition sys_meets (y : system) : Prop :=
  inv (sys_state y) /\ forall i p, sys_threads y !! i = Some p -> rgwp i p (sys_state y) (post i).

Lemma sys_step_meets y y' : sys_meets y -> sys_step y y' -> sys_meets y'.
Proof.
  intros [Hi Ht] Hs. destruct Hs as [s ts i X c k x s' Hp Hx|s ts s' He|s ts p Hp]; simpl in *.
  - destruct (Ht i _ Hp s ltac:(done) Hi x s' Hx) as (Hi' & Hg & Hk). split; [done|]. simpl. intros j q Hq.
    destruct (decide (j = i)) as [->|Hne].
    + rewrite list_lookup_insert_eq in Hq by (by eapply lookup_lt_Some). by injection Hq as <-.
    + rewrite list_lookup_insert_ne in Hq by done. eapply rgwp_rely; [by apply Ht|]. apply rtc_once. auto.
  - split; [by eapply env_inv|]. intros j q Hq. eapply rgwp_rely; [by apply Ht|]. apply rtc_once. auto.
  - split; [done|]. simpl. intros j q Hq. apply lookup_app_Some in Hq as [Hq|[_ Hq]]; [by apply Ht|].
    apply list_lookup_singleton_Some in Hq as [_ <-]. by apply programs_meet.
Qed.

Lemma sys_run_meets s y : inv s -> rtc sys_step (mkSystem s []) y ->
  inv (sys_state y) /\ forall i a, sys_threads y !! i = Some (Ret a) -> post i a (sys_state y).
Proof.
  intros Hi Hr. assert (sys_meets y) as [Hy Hp].
  { apply (rtc_invariant _ sys_meets _ _) in Hr; [done|by intros; eapply sys_step_meets|by split]. }
  split; [done|]. intros i a Ha. by apply (Hp i _ Ha).
Qed.

End meets.

Section ok.
Hypothesis env_rely : forall i s s', env_step s s' -> inv s -> rely i s s'.
Hypothesis env_inv : forall s s', env_step s s' -> inv s -> inv s'.
Hypothesis programs_ok : forall p i s, starts p -> inv s -> rgwp i p s (fun _ _ => True).

Definition sys_ok : system -> Prop := sys_meets (fun _ _ _ => True).

Lemma sys_step_ok y y' : sys_ok y -> sys_step y y' -> sys_ok y'.
Proof. by apply sys_step_meets. Qed.

Lemma sys_run_inv s y : inv s -> rtc sys_step (mkSystem s []) y -> inv (sys_state y).
Proof. intros Hi Hr. by eapply (sys_run_meets (fun _ _ _ => True)). Qed.

End ok.

End concurrent.

(** ** Refinement of the service

    When every call and every step of the surroundings of one service can be matched by another, along a
    relation of their states, every run of a system over the first is a run of the same threads over the
    second.  [P] is what the programs are known to call. *)

Section simulation.
Context {E : Type -> Type} {St1 St2 T : Type}.
Context (H1 : nat -> forall X, E X -> St1 -> X -> St1 -> Prop) (H2 : nat -> forall X, E X -> St2 -> X -> St2 -> Prop).
Context (env1 : St1 -> St1 -> Prop) (env2 : St2 -> St2 -> Prop) (starts : proc E T -> Prop).
Context (P : forall X, E X -> Prop) (R : St1 -> St2 -> Prop).
Hypothesis call_refines : forall i X (c : E X) s1 x s1' s2, P X c -> R s1 s2 -> H1 i X c s1 x s1' ->
  exists s2', H2 i X c s2 x s2' /\ R s1' s2'.
Hypothesis env_refines : forall s1 s1' s2, R s1 s2 -> env1 s1 s1' -> exists s2', env2 s2 s2' /\ R s1' s2'.
Hypothesis starts_calls : forall p, starts p -> calls P p.

Lemma sys_simulates s1 s2 (y : system (E := E)) :
  R s1 s2 -> rtc (sys_step H1 env1 starts) (mkSystem s1 []) y ->
  exists s2', rtc (sys_step H2 env2 starts) (mkSystem s2 []) (mkSystem s2' (sys_threads y)) /\ R (sys_state y) s2'.
Proof.
  intros HR Hr. assert (exists s2', rtc (sys_step H2 env2 starts) (mkSystem s2 []) (mkSystem s2' (sys_threads y))
    /\ R (sys_state y) s2' /\ Forall (calls P) (sys_threads y)) as (s2' & ? & ? & _); [|eauto].
  revert Hr. apply (rtc_ind_r (fun y => exists s2', rtc (sys_step H2 env2 starts) (mkSystem s2 []) (mkSystem s2' (sys_threads y))
    /\ R (sys_state y) s2' /\ Forall (calls P) (sys_threads y))).
  - exists s2. split; [apply rtc_refl|]. split; [done|constructor].
  - intros y1 y2 _ Hs (s2' & Hrun & HR' & Hts).
    destruct Hs as [s ts i X c k x s' Hp Hx|s ts s' He|s ts p Hp]; simpl in *.
    + pose proof (proj1 (Forall_lookup _ _) Hts i _ Hp) as [Hc Hk].
      destruct (call_refines i X c s x s' s2' Hc HR' Hx) as (s3 & Hx2 & HR3). exists s3.
      split; [eapply rtc_r; [exact Hrun|by eapply sys_call]|]. split; [done|].
      apply Forall_insert; [done|apply Hk].
    + destruct (env_refines s s' s2' HR' He) as (s3 & He2 & HR3). exists s3.
      split; [eapply rtc_r; [exact Hrun|by apply sys_env]|]. done.
    + exists s2'. split; [eapply rtc_r; [exact Hrun|by apply sys_spawn]|]. split; [done|].
      apply Forall_app. split; [done|]. constructor; [by apply starts_calls|constructor].
Qed.

End simulation.
