(* ===== verification/Errors.v ===== *)
(** * The error taxonomy and the response envelope (internal/common)

    [gerror] is a non-nil Go [error]: a [*common.Error] ([TypedErr]) or any other error value
    ([OtherErr], with the sentinel it compares equal to, if any), each with the error it unwraps to.
    [errors.Unwrap] chains are linear, so the type is a chain; a nil error is [None].  Functions that
    walk the chain are Fixpoints over it, the depth-bounded ones with the source's bound of 16. *)

From S2P Require Import Prelude GoStrings.

Local Open Scope string_scope.
Local Open Scope list_scope.
Local Open Scope Z_scope.

(** ** Codes and kinds *)

Record ErrorCode := mkErrorCode { Code : Z; Status : Z }.

Definition CodeInvalidArgument := mkErrorCode 40000 400.
Definition CodeValidationFailed := mkErrorCode 40001 400.
Definition CodeUnauthorized := mkErrorCode 40100 401.
Definition CodeForbidden := mkErrorCode 40300 403.
Definition CodeInviteRequired := mkErrorCode 40301 403.
Definition CodeNotFound := mkErrorCode 40400 404.
Definition CodeConflict := mkErrorCode 40900 409.
Definition CodeUnprocessable := mkErrorCode 42200 422.
Definition CodeRateLimited := mkErrorCode 42900 429.
Definition CodeQuotaExhausted := mkErrorCode 42901 429.
Definition CodeSourceBlocked := mkErrorCode 42202 422.
Definition CodeSourceUnsupported := mkErrorCode 42203 422.
Definition CodeSourceTooLarge := mkErrorCode 42204 422.
Definition CodeSourceTimeout := mkErrorCode 42205 422.
Definition CodeInternalError := mkErrorCode 50000 500.
Definition CodeServiceUnavailable := mkErrorCode 50300 503.

Inductive Kind :=
| KindInternal
| KindTransient
| KindInvalidArgument
| KindForbidden
| KindNotFound
| KindBudgetExhausted
| KindNotReady
| KindBusiness
| KindValidation.

#[export] Instance Kind_eq_dec : EqDecision Kind.
Proof. solve_decision. Defined.

#[export] Instance ErrorCode_eq_dec : EqDecision ErrorCode.
Proof. solve_decision. Defined.

(** Sentinel error values the code compares with [errors.Is]. *)
Inductive sentinel := DeadlineExceeded | Canceled | ErrRejected | ErrDuplicate
| ErrRecordNotFound | ErrDuplicatedKey (* of gorm *)
| ErrNoChange. (* of migrate *)

#[export] Instance sentinel_eq_dec : EqDecision sentinel.
Proof. solve_decision. Defined.

(** ** Error values *)

#[warnings="-register-all"] Inductive gerror :=
| TypedErr (k : Kind) (code : ErrorCode) (msg : string) (cause : option gerror)
| OtherErr (msg : string) (snt : option sentinel) (cause : option gerror).

Abbreviation res := (result gerror).

(** [err.Error()]: a [*common.Error] shows only its own message. *)
Definition ErrorString (e : gerror) : string :=
  match e with TypedErr _ _ msg _ => msg | OtherErr msg _ _ => msg end.

Definition Unwrap (e : gerror) : option gerror :=
  match e with TypedErr _ _ _ c => c | OtherErr _ _ c => c end.

Definition noCode := mkErrorCode 0 0.

Definition InvalidArgument (msg : string) := TypedErr KindInvalidArgument noCode msg None.
Definition Forbidden (msg : string) := TypedErr KindForbidden noCode msg None.
Definition NotFound (msg : string) := TypedErr KindNotFound noCode msg None.
Definition Internal (msg : string) (cause : option gerror) := TypedErr KindInternal noCode msg cause.
Definition Transient (msg : string) (cause : option gerror) := TypedErr KindTransient noCode msg cause.
Definition BudgetExhausted (msg : string) (cause : option gerror) :=
  TypedErr KindBudgetExhausted noCode msg cause.
Definition Business (code : ErrorCode) (msg : string) := TypedErr KindBusiness code msg None.
Definition Validation (detail : string) := TypedErr KindValidation noCode detail None.

Definition NotReadyMessage : string := "视频内容尚未解析完成，请先完成一次 Video Agent 分析".

Definition NotReady := TypedErr KindNotReady noCode NotReadyMessage None.

(** [fmt.Errorf("...: %w", err)]. *)
Definition wrapf (prefix : string) (e : gerror) : gerror :=
  OtherErr (prefix +:+ ": " +:+ ErrorString e) None (Some e).

Definition ReasonCode (k : Kind) : string :=
  match k with
  | KindTransient => "TRANSIENT"
  | KindInvalidArgument => "INVALID_ARGUMENT"
  | KindForbidden => "FORBIDDEN"
  | KindNotFound => "NOT_FOUND"
  | KindBudgetExhausted => "BUDGET_EXHAUSTED"
  | KindNotReady => "NOT_READY"
  | KindBusiness => "REJECTED"
  | KindValidation => "VALIDATION_FAILED"
  | KindInternal => "INTERNAL"
  end.

(** The error of a result. *)
Definition failure {A} (r : res A) : option gerror := match r with Err e => Some e | Ok _ => None end.

(** ** Walking the chain *)

Definition typed_kind (e : gerror) : option Kind :=
  match e with TypedErr k _ _ _ => Some k | OtherErr _ _ _ => None end.

(** The error and everything it unwraps to, outermost first. *)
Fixpoint chain (e : gerror) : list gerror :=
  e :: match e with
       | TypedErr _ _ _ (Some c) | OtherErr _ _ (Some c) => chain c
       | _ => []
       end.

Fixpoint HasErr (e : gerror) (kind : Kind) : bool :=
  bool_decide (typed_kind e = Some kind)
  || match e with
     | TypedErr _ _ _ (Some c) | OtherErr _ _ (Some c) => HasErr c kind
     | _ => false
     end.

Definition Has (err : option gerror) (kind : Kind) : bool :=
  match err with Some e => HasErr e kind | None => false end.

(** [errors.Is(err, target)]. *)
Fixpoint IsSentinel (e : gerror) (s : sentinel) : bool :=
  match e with
  | TypedErr _ _ _ c => match c with Some c => IsSentinel c s | None => false end
  | OtherErr _ snt c =>
      bool_decide (snt = Some s) || match c with Some c => IsSentinel c s | None => false end
  end.

(** The [code] accumulator of the loop of [CodeOf]: every typed error overwrites it. *)
Fixpoint code_walk (e : gerror) (code : string) : string :=
  let code := match typed_kind e with Some k => ReasonCode k | None => code end in
  match e with
  | TypedErr _ _ _ (Some c) | OtherErr _ _ (Some c) => code_walk c code
  | _ => code
  end.

Definition CodeOf (err : option gerror) : string :=
  match err with
  | None => "UNKNOWN"
  | Some e =>
      let code := code_walk e "" in
      if negb (String.eqb code "") && negb (String.eqb code "INTERNAL") then code
      else if IsSentinel e DeadlineExceeded then "DEADLINE_EXCEEDED"
      else if IsSentinel e Canceled then "CANCELED"
      else if negb (String.eqb code "") then code
      else "INTERNAL"
  end.

Fixpoint root_cause (e : gerror) : gerror :=
  match e with
  | TypedErr _ _ _ (Some c) | OtherErr _ _ (Some c) => root_cause c
  | _ => e
  end.

Definition RootCause (err : option gerror) : option gerror := root_cause <$> err.

(** ** Envelope *)

Record Result (A : Type) := mkResult { res_code : Z; Message : string; Data : option A }.
Arguments mkResult {A} _ _ _.
Arguments res_code {A} _.
Arguments Message {A} _.
Arguments Data {A} _.

Definition SuccessCode : Z := 0.

Definition OkResult {A} (data : option A) : Result A := mkResult SuccessCode "success" data.
Definition OkVoid {A} : Result A := OkResult None.
Definition FailResult {A} (code : ErrorCode) (message : string) : Result A :=
  mkResult (Code code) message None.

Definition safe (msg fallback : string) : string := if is_blank msg then fallback else msg.

(** [errors.As(err, &je)]: the outermost [*common.Error] of the chain. *)
Fixpoint as_typed (e : gerror) : option (Kind * ErrorCode * string) :=
  match e with
  | TypedErr k code msg _ => Some (k, code, msg)
  | OtherErr _ _ (Some c) => as_typed c
  | OtherErr _ _ None => None
  end.

Definition ToHTTP {A} (e : gerror) : Z * Result A :=
  let internal := (Status CodeInternalError, FailResult CodeInternalError "服务暂时不可用") in
  match as_typed e with
  | Some (k, code, msg) =>
      match k with
      | KindBusiness => (Status code, FailResult code (safe msg "请求处理失败"))
      | KindValidation =>
          (Status CodeValidationFailed, FailResult CodeValidationFailed (safe msg "请求参数校验失败"))
      | KindInvalidArgument =>
          (Status CodeInvalidArgument, FailResult CodeInvalidArgument (safe msg "请求参数不合法"))
      | KindNotFound => (Status CodeNotFound, FailResult CodeNotFound (safe msg "资源不存在"))
      | KindForbidden => (Status CodeForbidden, FailResult CodeForbidden (safe msg "无访问权限"))
      | KindBudgetExhausted =>
          (Status CodeUnprocessable, FailResult CodeUnprocessable (safe msg "任务已超出预算"))
      | KindNotReady => (Status CodeConflict, FailResult CodeConflict (safe msg "视频上下文尚未就绪"))
      | KindInternal | KindTransient => internal
      end
  | None => internal
  end.

(** ** Depth-bounded walks *)

Definition maxCauseDepth : nat := 16.

Definition permanent_kind (e : gerror) : bool :=
  match typed_kind e with
  | Some KindInvalidArgument | Some KindForbidden | Some KindNotFound => true
  | _ => false
  end.

(** [n] more links may be inspected. *)
Fixpoint permanent_walk (n : nat) (err : option gerror) : bool :=
  match n, err with
  | S m, Some e => if permanent_kind e then true else permanent_walk m (Unwrap e)
  | _, _ => false
  end.

Definition IsPermanentFailure (err : option gerror) : bool := permanent_walk maxCauseDepth err.

(** [parts] is kept in order; a message already at the end of the last part is not repeated. *)
Definition describe_push (parts : list string) (msg : string) : list string :=
  if String.eqb msg "" then parts
  else match last parts with
       | Some p => if HasSuffix p msg then parts else parts ++ [msg]
       | None => parts ++ [msg]
       end.

Fixpoint describe_walk (n : nat) (err : option gerror) (parts : list string) : list string :=
  match n, err with
  | S m, Some e =>
      let parts := describe_push parts (ErrorString e) in
      match typed_kind e with
      | Some _ => describe_walk m (Unwrap e) parts
      | None => parts
      end
  | _, _ => parts
  end.

Definition Describe (err : option gerror) : string := Join (describe_walk maxCauseDepth err []) ": ".

(** ** Lemmas *)

Section gerror_ind.
Context (P : gerror -> Prop).
Context (Ht : forall k code msg c, (match c with Some c' => P c' | None => True end) ->
  P (TypedErr k code msg c)).
Context (Ho : forall msg snt c, (match c with Some c' => P c' | None => True end) ->
  P (OtherErr msg snt c)).

(** Induction along the unwrap chain. *)
Fixpoint gerror_chain_ind (e : gerror) : P e :=
  match e with
  | TypedErr k code msg c =>
      Ht k code msg c (match c with Some c' => gerror_chain_ind c' | None => I end)
  | OtherErr msg snt c =>
      Ho msg snt c (match c with Some c' => gerror_chain_ind c' | None => I end)
  end.
End gerror_ind.

Lemma chain_unwrap e : chain e = e :: match Unwrap e with Some c => chain c | None => [] end.
Proof. by destruct e as [? ? ? [?|]|? ? [?|]]. Qed.

Lemma HasErr_chain e k : HasErr e k = existsb (fun l => bool_decide (typed_kind l = Some k)) (chain e).
Proof.
  induction e as [k' code msg [c|] IH|msg snt [c|] IH] using gerror_chain_ind; simpl;
    by rewrite ?IH, ?orb_false_r.
Qed.

Lemma permanent_walk_chain n e : permanent_walk n (Some e) = existsb permanent_kind (take n (chain e)).
Proof.
  revert e. induction n as [|n IH]; intros e; [done|].
  rewrite chain_unwrap. cbn [permanent_walk firstn existsb].
  destruct (permanent_kind e) eqn:Ek; [done|]. simpl.
  destruct (Unwrap e) as [c|]; [apply IH|]. by destruct n.
Qed.

Definition typed_view (e : gerror) : option (Kind * ErrorCode * string) :=
  match e with TypedErr k code msg _ => Some (k, code, msg) | OtherErr _ _ _ => None end.

Lemma as_typed_chain e : as_typed e = head (omap typed_view (chain e)).
Proof.
  induction e as [k' code msg c IH|msg snt c IH] using gerror_chain_ind; destruct c as [c|]; done.
Qed.

Lemma code_walk_chain e code :
  code_walk e code = match last (omap typed_kind (chain e)) with Some k => ReasonCode k | None => code end.
Proof.
  revert code. induction e as [k' code' msg c IH|msg snt c IH] using gerror_chain_ind;
    intros code; destruct c as [c|]; try done; cbn [code_walk chain omap list_omap typed_kind].
  - rewrite IH, last_cons. by destruct (last _).
  - apply IH.
Qed.

Lemma ReasonCode_inj k k' : ReasonCode k = ReasonCode k' -> k = k'.
Proof. by destruct k, k'. Qed.

Lemma permanent_iff e :
  IsPermanentFailure (Some e) = true <->
  exists i l, (i < maxCauseDepth)%nat /\ chain e !! i = Some l /\
    (typed_kind l = Some KindInvalidArgument \/ typed_kind l = Some KindForbidden
     \/ typed_kind l = Some KindNotFound).
Proof.
  unfold IsPermanentFailure. rewrite permanent_walk_chain, existsb_exists. split.
  - intros (l & Hin & Hk). apply list_elem_of_In, list_elem_of_lookup in Hin as [i Hi].
    apply lookup_take_Some in Hi as [Hi Hlt]. exists i, l. split; [done|]. split; [done|].
    unfold permanent_kind in Hk. destruct (typed_kind l) as [[]|]; naive_solver.
  - intros (i & l & Hlt & Hi & Hk). exists l. split.
    + apply list_elem_of_In, list_elem_of_lookup. exists i. by apply lookup_take_Some.
    + unfold permanent_kind. by destruct Hk as [-> | [-> | ->]].
Qed.

(** An error of the libraries: no [*common.Error] that forbids a retry in its chain. *)
Definition plain (e : gerror) : Prop := Forall (fun l => permanent_kind l = false) (chain e).

Lemma plain_walk n e : plain e -> permanent_walk n (Some e) = false.
Proof.
  intros He. rewrite permanent_walk_chain. apply not_true_is_false. intros (l & Hl & Hk)%existsb_exists.
  apply list_elem_of_In, elem_of_take in Hl as (i & Hl%list_elem_of_lookup_2 & _). unfold plain in He. rewrite Forall_forall in He. specialize (He l Hl). congruence.
Qed.

Lemma Internal_plain msg c : (forall e, c = Some e -> plain e) -> plain (Internal msg c).
Proof. intros Hc. unfold plain. cbn. constructor; [done|]. destruct c; [by apply Hc|constructor]. Qed.

Lemma OtherErr_plain msg snt c : (forall e, c = Some e -> plain e) -> plain (OtherErr msg snt c).
Proof. intros Hc. unfold plain. cbn. constructor; [done|]. destruct c; [by apply Hc|constructor]. Qed.

(** An error value none of whose links is a [*common.Error]. *)
Definition foreign (e : gerror) : Prop := Forall (fun l => typed_kind l = None) (chain e).

Lemma foreign_plain e : foreign e -> plain e.
Proof. intros He. eapply Forall_impl; [exact He|]. intros [] Hl; [done|reflexivity]. Qed.

Lemma foreign_HasErr e k : foreign e -> HasErr e k = false.
Proof.
  intros He. rewrite HasErr_chain. apply not_true_is_false. intros (l & Hl & Hk)%existsb_exists.
  unfold foreign in He. rewrite Forall_forall in He. apply list_elem_of_In, He in Hl.
  apply bool_decide_eq_true in Hk. congruence.
Qed.

(** ** Properties *)

(** The consumer's retry decision: a failure is permanent exactly when one of the first 16 links
    of its cause chain is an invalid-argument, forbidden or not-found error, so wrapping an error
    (as [AsyncAnalyze] does with "AI analysis failed") neither hides nor invents permanence while the
    chain stays within the bound. *)
Theorem IsPermanentFailure_iff (e : gerror) :
  IsPermanentFailure (Some e) = true <->
  exists i l, (i < maxCauseDepth)%nat /\ chain e !! i = Some l /\
    (typed_kind l = Some KindInvalidArgument \/ typed_kind l = Some KindForbidden
     \/ typed_kind l = Some KindNotFound).
Proof. apply permanent_iff. Qed.

(** The innermost reason code. *)
Lemma CodeOf_reason e k :
  CodeOf (Some e) = ReasonCode k -> k <> KindInternal ->
  last (omap typed_kind (chain e)) = Some k.
Proof.
  intros H Hk. unfold CodeOf in H. rewrite code_walk_chain in H.
  destruct (last (omap typed_kind (chain e))) as [k'|].
  - f_equal. destruct (decide (k' = KindInternal)) as [->|Hne].
    + simpl in H. destruct (IsSentinel e DeadlineExceeded), (IsSentinel e Canceled), k; done.
    + apply ReasonCode_inj. by destruct k'.
  - simpl in H. destruct (IsSentinel e DeadlineExceeded), (IsSentinel e Canceled), k; done.
Qed.

(** The ledger's [errorType] and the retry decision agree: an error recorded as INVALID_ARGUMENT,
    FORBIDDEN or NOT_FOUND is never retried (for chains within the depth bound). *)
Theorem CodeOf_permanent (e : gerror) :
  (length (chain e) <= maxCauseDepth)%nat ->
  CodeOf (Some e) ∈ ["INVALID_ARGUMENT"; "FORBIDDEN"; "NOT_FOUND"] ->
  IsPermanentFailure (Some e) = true.
Proof.
  intros Hlen Hcode.
  assert (exists k, last (omap typed_kind (chain e)) = Some k /\
    (k = KindInvalidArgument \/ k = KindForbidden \/ k = KindNotFound)) as (k & Hlast & Hk).
  { rewrite !elem_of_cons, elem_of_nil in Hcode.
    destruct Hcode as [H|[H|[H|[]]]]; [exists KindInvalidArgument|exists KindForbidden|exists KindNotFound];
      (split; [by apply CodeOf_reason|auto]). }
  apply permanent_iff.
  apply last_Some_elem_of, list_elem_of_omap in Hlast as (l & Hin & Hl).
  apply list_elem_of_lookup in Hin as [i Hi]. exists i, l.
  split; [|split; [done|]].
  - apply lookup_lt_Some in Hi. lia.
  - destruct Hk as [-> | [-> | ->]]; auto.
Qed.

Lemma CodeOf_permanent_witness :
  let e := Internal "AI analysis failed" (Some (NotFound "media does not exist")) in
  (length (chain e) <= maxCauseDepth)%nat
  /\ CodeOf (Some e) ∈ ["INVALID_ARGUMENT"; "FORBIDDEN"; "NOT_FOUND"]
  /\ IsPermanentFailure (Some e) = true.
Proof.
  assert (CodeOf (Some (Internal "AI analysis failed" (Some (NotFound "media does not exist"))))
            ∈ ["INVALID_ARGUMENT"; "FORBIDDEN"; "NOT_FOUND"]) as Hc by (right; right; left).
  split; [vm_compute; lia|]. split; [exact Hc|]. apply CodeOf_permanent; [vm_compute; lia|exact Hc].
Defined.
