(* ===== verification/Model.v ===== *)
(** * Entities and DTOs (internal/model)

    Go string enumerations ([AnalysisMode], [TaskStage], [State]) are strings here too: values that are
    none of the constants can flow through the code.  Times are nanoseconds since the Unix epoch. *)

From S2P Require Import Prelude GoStrings Errors.

Local Open Scope string_scope.
Local Open Scope list_scope.
Local Open Scope Z_scope.

(** ** Analysis modes (enums.go) *)

Definition AnalysisMode := string.

Definition ModeGeneral : AnalysisMode := "GENERAL".
Definition ModeLearning : AnalysisMode := "LEARNING".
Definition ModeReview : AnalysisMode := "REVIEW".
Definition ModeCreation : AnalysisMode := "CREATION".

Definition all_modes : list AnalysisMode := [ModeGeneral; ModeLearning; ModeReview; ModeCreation].

Definition validMode (s : string) : option AnalysisMode :=
  let m := ToUpper (TrimSpace s) in
  if existsb (String.eqb m) all_modes then Some m else None.

Definition ModeFromNullable (value : string) : AnalysisMode :=
  if is_blank value then ModeGeneral
  else match validMode value with Some m => m | None => ModeGeneral end.

Definition ModeFromRequest (value : string) : res AnalysisMode :=
  if is_blank value then Ok ModeGeneral
  else match validMode value with
       | Some m => Ok m
       | None => Err (InvalidArgument ("不支持的分析模式: " +:+ value))
       end.

(** [AnalysisMode.Resolve]. *)
Definition Resolve (m : AnalysisMode) : AnalysisMode := if String.eqb m "" then ModeGeneral else m.

(** ** Task stages *)

Definition TaskStage := string.

Definition StageQueued : TaskStage := "QUEUED".
Definition StageConsuming : TaskStage := "CONSUMING".
Definition StageVideoContext : TaskStage := "VIDEO_CONTEXT".
Definition StageContextCompleted : TaskStage := "CONTEXT_COMPLETED".
Definition StageChunksCompleted : TaskStage := "CHUNKS_COMPLETED".
Definition StageRetrieval : TaskStage := "RETRIEVAL".
Definition StageAgentLoop : TaskStage := "AGENT_LOOP".
Definition StagePlanCompleted : TaskStage := "PLAN_COMPLETED".
Definition StageExecutorStarted : TaskStage := "EXECUTOR_STARTED".
Definition StageExecutorCompleted : TaskStage := "EXECUTOR_COMPLETED".
Definition StageCriticStarted : TaskStage := "CRITIC_STARTED".
Definition StageCriticPassed : TaskStage := "CRITIC_PASSED".
Definition StageCriticRetryRequired : TaskStage := "CRITIC_RETRY_REQUIRED".
Definition StageEvidenceRefreshed : TaskStage := "EVIDENCE_REFRESHED".
Definition StageAnalysisCompleted : TaskStage := "ANALYSIS_COMPLETED".
Definition StageAnalysisCompletedWarnings : TaskStage := "ANALYSIS_COMPLETED_WITH_WARNINGS".
Definition StageBudgetExhausted : TaskStage := "BUDGET_EXHAUSTED".
Definition StageRetrying : TaskStage := "RETRYING".
Definition StageCompleted : TaskStage := "COMPLETED".
Definition StageCompletedReused : TaskStage := "COMPLETED_REUSED".
Definition StageFailed : TaskStage := "FAILED".
Definition StageDeadLettered : TaskStage := "DEAD_LETTERED".
Definition StageManualReplay : TaskStage := "MANUAL_REPLAY".
Definition StageRevisionPending : TaskStage := "REVISION_PENDING".
Definition StageRevisionApplied : TaskStage := "REVISION_APPLIED".
Definition StageTranscription : TaskStage := "TRANSCRIPTION".
Definition StageASR : TaskStage := "ASR".
Definition StageDispatchFailed : TaskStage := "DISPATCH_FAILED".

Definition allStages : list TaskStage :=
  [StageQueued; StageConsuming; StageVideoContext; StageContextCompleted; StageChunksCompleted;
   StageRetrieval; StageAgentLoop; StagePlanCompleted; StageExecutorStarted; StageExecutorCompleted;
   StageCriticStarted; StageCriticPassed; StageCriticRetryRequired; StageEvidenceRefreshed;
   StageAnalysisCompleted; StageAnalysisCompletedWarnings; StageBudgetExhausted; StageRetrying;
   StageCompleted; StageCompletedReused; StageFailed; StageDeadLettered; StageManualReplay;
   StageRevisionPending; StageRevisionApplied; StageTranscription; StageASR; StageDispatchFailed].

Definition TaskStageFrom (value : string) : TaskStage :=
  if is_blank value then ""
  else if existsb (String.eqb value) allStages then value else "".

(** ** Coarse states *)

Definition State := string.

Definition StateNotStarted : State := "NOT_STARTED".
Definition StateQueued : State := "QUEUED".
Definition StateProcessing : State := "PROCESSING".
Definition StateCompleted : State := "COMPLETED".
Definition StateFailed : State := "FAILED".

Definition ValidState (s : string) : bool :=
  existsb (String.eqb s) [StateNotStarted; StateQueued; StateProcessing; StateCompleted; StateFailed].

(** ** Status and events (dto.go) *)

Record TaskStatus := mkTaskStatus { ts_State : State; ts_Result : option string; ts_Message : option string }.

Definition StatusOf (state : State) (message : string) : TaskStatus :=
  mkTaskStatus state None (Some message).

Definition StatusCompleted (result : string) : TaskStatus :=
  mkTaskStatus StateCompleted (Some result) (Some "任务完成").

Definition StatusCompletedNullable (result : option string) : TaskStatus :=
  mkTaskStatus StateCompleted result (Some "任务完成").

Record TaskEvent := mkTaskEvent {
  te_State : State; te_Result : option string; te_Message : option string; te_Stage : option TaskStage }.

Definition EventOf (status : TaskStatus) (stage : TaskStage) : TaskEvent :=
  mkTaskEvent (ts_State status) (ts_Result status) (ts_Message status)
    (if String.eqb stage "" then None else Some stage).

Definition Terminal (e : TaskEvent) : bool :=
  String.eqb (te_State e) StateCompleted || String.eqb (te_State e) StateFailed.

(** ** Task records *)

Definition ActionStart : string := "START_ANALYSIS".
Definition ActionRevise : string := "REVISE_ANALYSIS".

(** Pointer fields are options: nil is [None]. *)
Record AnalysisTaskMsg := mkMsg {
  msg_MediaID : option Z;
  msg_Action : option string;
  msg_ContentHash : option string;
  msg_UserGoal : option string;
  msg_Mode : option string }.

Definition emptyMsg := mkMsg None None None None None.

Definition IsSupportedAction (a : string) : bool := String.eqb a ActionStart || String.eqb a ActionRevise.

Definition IsRevision (m : AnalysisTaskMsg) : bool :=
  match msg_Action m with Some a => String.eqb a ActionRevise | None => false end.

Definition HasSupportedAction (m : AnalysisTaskMsg) : bool :=
  match msg_Action m with Some a => IsSupportedAction a | None => false end.

Definition NewTaskMsg (mediaID : Z) (action contentHash goal : string) (mode : AnalysisMode)
  : AnalysisTaskMsg :=
  mkMsg (Some mediaID) (Some action) (Some contentHash) (Some goal) (Some mode).

(** [deref] of the analysis, model and httpapi packages: nil is the empty string. *)
Definition deref (s : option string) : string := match s with Some v => v | None => "" end.

Definition GoalOrEmpty (m : AnalysisTaskMsg) : string := deref (msg_UserGoal m).

(** ** Video contexts *)

Record VideoSegment := mkSegment {
  StartMs : Z; EndMs : Z; Transcript : string; OcrTexts : list string; EvidenceFrames : list string }.

Record VideoContext := mkContext { vc_Source : string; vc_UserGoal : string; vc_Segments : list VideoSegment }.

(** A nil slice and an empty one are the same list, which is what the nil normalisation provides. *)
Definition NewVideoSegment (startMs endMs : Z) (transcript : string) (ocr frames : list string)
  : res VideoSegment :=
  if (startMs <? 0) || (endMs <=? startMs) then Err (InvalidArgument "invalid segment range")
  else Ok (mkSegment startMs endMs (TrimSpace transcript) ocr frames).

Definition NewVideoContext (source userGoal : string) (segments : list VideoSegment) : res VideoContext :=
  if is_blank source then Err (InvalidArgument "video source is required")
  else Ok (mkContext source (TrimSpace userGoal) segments).

Fixpoint normalize_segments (l : list VideoSegment) : res (list VideoSegment) :=
  match l with
  | [] => Ok []
  | s :: l' =>
      match NewVideoSegment (StartMs s) (EndMs s) (Transcript s) (OcrTexts s) (EvidenceFrames s) with
      | Err e => Err e
      | Ok ns => match normalize_segments l' with Err e => Err e | Ok segs => Ok (ns :: segs) end
      end
  end.

(** [VideoContext.Normalize]. *)
Definition Normalize (c : VideoContext) : res VideoContext :=
  match normalize_segments (vc_Segments c) with
  | Err e => Err e
  | Ok segs => NewVideoContext (vc_Source c) (vc_UserGoal c) segs
  end.

Definition TranscriptText (c : VideoContext) : string :=
  Join (map Transcript (List.filter (fun s => negb (is_blank (Transcript s))) (vc_Segments c)))
    (String (ascii_of_Z 10) "").

Record TranscriptSegment := mkTranscript { tr_StartMs : Z; tr_EndMs : Z; tr_Text : string }.

Definition NewTranscriptSegment (startMs endMs : Z) (text : string) : res TranscriptSegment :=
  if (startMs <? 0) || (endMs <=? startMs) then Err (InvalidArgument "invalid transcript range")
  else Ok (mkTranscript startMs endMs (TrimSpace text)).

(** ** Feedback *)

Record AgentFeedback := mkFeedback {
  fb_MediaID : option Z;
  fb_Goal : option string;
  fb_Mode : option string;
  fb_Rating : option Z;
  fb_ErrorType : option string;
  fb_Comment : option string;
  fb_CorrectedGoal : option string;
  fb_CorrectedTasks : list string;
  fb_EvidenceTimestamp : option Z;
  fb_EvidenceAccepted : option bool;
  fb_CreatedAt : option string }.

Definition trimPtr (s : option string) : option string := TrimSpace <$> s.

(** [now] is the text of [InstantNow()], read only when the feedback has no creation time. *)
Definition Normalized (now : string) (mode : AnalysisMode) (f : AgentFeedback) : AgentFeedback :=
  mkFeedback (fb_MediaID f) (trimPtr (fb_Goal f)) (Some (Resolve mode)) (fb_Rating f)
    (trimPtr (fb_ErrorType f)) (trimPtr (fb_Comment f)) (trimPtr (fb_CorrectedGoal f))
    (map TrimSpace (List.filter (fun t => negb (is_blank t)) (fb_CorrectedTasks f)))
    (fb_EvidenceTimestamp f) (fb_EvidenceAccepted f)
    (match fb_CreatedAt f with Some c => Some c | None => Some now end).

Definition RevisionGoal (now : string) (f : AgentFeedback) : string :=
  let n := Normalized now (ModeFromNullable (deref (fb_Mode f))) f in
  match fb_CorrectedGoal n with
  | Some g => if is_blank g then deref (fb_Goal n) else g
  | None => deref (fb_Goal n)
  end.

Record RouteDecision := mkRouteDecision { rd_Mode : AnalysisMode; rd_Reason : string }.

Definition NewRouteDecision (mode : AnalysisMode) (reason : string) : RouteDecision :=
  mkRouteDecision (if String.eqb mode "" then ModeGeneral else mode)
    (if is_blank reason then "已按通用模式分析" else reason).

(** ** Entities (entity.go) and their views *)

Record User := mkUser {
  u_ID : Z; u_Username : string; u_Password : string; u_Nickname : string;
  u_Avatar : option string; u_Role : string }.

Record MediaFile := mkMediaFile {
  mf_ID : Z; mf_UserID : Z; mf_Filename : string; mf_Status : string; mf_FilePath : string;
  mf_ContentHash : option string; mf_AISummary : option string; mf_TranscriptText : option string;
  mf_CoverURL : option string; mf_UploadTime : Z }.

Record FailedAnalysisTask := mkFailedTask {
  ft_ID : Z; ft_MediaID : Z; ft_Action : string; ft_Mode : string; ft_ContentHash : string;
  ft_UserGoal : string; ft_AttemptCount : Z; ft_ErrorType : string; ft_ErrorMessage : option string;
  ft_Status : string; ft_CreatedAt : Z; ft_UpdatedAt : Z }.

Record AgentCheckpoint := mkAgentCheckpoint {
  ac_MediaID : Z; ac_CheckpointKey : string; ac_Stage : string; ac_Payload : option string; ac_UpdatedAt : Z }.

Record MediaSummary := mkMediaSummary {
  ms_ID : Z; ms_Filename : string; ms_Status : string; ms_CoverURL : option string; ms_UploadTime : Z }.

Definition SummaryOf (m : MediaFile) : MediaSummary :=
  mkMediaSummary (mf_ID m) (mf_Filename m) (mf_Status m) (mf_CoverURL m) (mf_UploadTime m).

Record FailedTaskView := mkFailedView {
  fv_ID : Z; fv_MediaID : Z; fv_Action : string; fv_Mode : string; fv_UserGoal : string;
  fv_AttemptCount : Z; fv_ErrorType : string; fv_ErrorMessage : option string; fv_Status : string;
  fv_CreatedAt : Z; fv_UpdatedAt : Z }.

Definition FailedViewOf (t : FailedAnalysisTask) : FailedTaskView :=
  mkFailedView (ft_ID t) (ft_MediaID t) (ft_Action t) (ft_Mode t) (ft_UserGoal t) (ft_AttemptCount t)
    (ft_ErrorType t) (ft_ErrorMessage t) (ft_Status t) (ft_CreatedAt t) (ft_UpdatedAt t).

Record UserInfo := mkUserInfo {
  ui_ID : Z; ui_Username : string; ui_Nickname : string; ui_Avatar : option string; ui_Role : string }.

Record AuthRequest := mkAuthRequest {
  ar_Username : option string; ar_Password : option string; ar_Nickname : option string;
  ar_InviteCode : option string }.

Record AuthResponse := mkAuthResponse {
  as_Code : Z; as_Msg : string; as_UserInfo : option UserInfo; as_Token : string }.

(** ** Lemmas *)

Lemma existsb_eqb_In (x : string) l : existsb (String.eqb x) l = true <-> x ∈ l.
Proof.
  rewrite existsb_exists, list_elem_of_In. split.
  - intros (y & Hin & ->%String.eqb_eq). done.
  - intros Hin. exists x. by rewrite String.eqb_refl.
Qed.

Lemma validMode_valid s m : validMode s = Some m -> m ∈ all_modes.
Proof. unfold validMode. case_match; [|done]. intros [= <-]. by apply existsb_eqb_In. Qed.

(** A segment the constructor accepts: a non-empty range from a non-negative start, trimmed text. *)
Definition segment_ok (s : VideoSegment) : Prop :=
  0 <= StartMs s < EndMs s /\ TrimSpace (Transcript s) = Transcript s.

(** A context in normal form. *)
Definition context_ok (c : VideoContext) : Prop :=
  is_blank (vc_Source c) = false /\ TrimSpace (vc_UserGoal c) = vc_UserGoal c
  /\ Forall segment_ok (vc_Segments c).

Lemma NewVideoSegment_ok a b t ocr fr s : NewVideoSegment a b t ocr fr = Ok s -> segment_ok s.
Proof.
  unfold NewVideoSegment. destruct (_ || _) eqn:E; [done|]. intros [= <-].
  apply orb_false_iff in E. unfold segment_ok; simpl. split; [lia|apply TrimSpace_idem].
Qed.

Lemma NewVideoSegment_id s : segment_ok s ->
  NewVideoSegment (StartMs s) (EndMs s) (Transcript s) (OcrTexts s) (EvidenceFrames s) = Ok s.
Proof.
  intros [Hr Ht]. unfold NewVideoSegment.
  replace ((StartMs s <? 0) || (EndMs s <=? StartMs s)) with false by lia.
  rewrite Ht. by destruct s.
Qed.

Lemma normalize_segments_ok l l' : normalize_segments l = Ok l' -> Forall segment_ok l'.
Proof.
  revert l'. induction l as [|s l IH]; simpl; intros l' H; [injection H as <-; constructor|].
  repeat case_match; simplify_eq. constructor; [by eapply NewVideoSegment_ok|auto].
Qed.

(** The segment [NewVideoSegment] builds from one it accepts: only the transcript changes. *)
Definition trimmedSegment (s : VideoSegment) : VideoSegment :=
  mkSegment (StartMs s) (EndMs s) (TrimSpace (Transcript s)) (OcrTexts s) (EvidenceFrames s).

Lemma normalize_segments_kept l l' : normalize_segments l = Ok l' -> l' = map trimmedSegment l.
Proof.
  revert l'. induction l as [|s l IH]; simpl; intros l' H; [by injection H as <-|].
  unfold NewVideoSegment in H. repeat case_match; simplify_eq. by rewrite (IH _ eq_refl).
Qed.

Lemma normalize_segments_id l : Forall segment_ok l -> normalize_segments l = Ok l.
Proof. induction 1 as [|s l Hs Hl IH]; simpl; [done|]. by rewrite NewVideoSegment_id, IH. Qed.

Lemma NewVideoContext_ok src g segs c :
  Forall segment_ok segs -> NewVideoContext src g segs = Ok c -> context_ok c.
Proof.
  unfold NewVideoContext. intros Hs. destruct (is_blank src) eqn:E; [done|]. intros [= <-].
  split; [done|]. split; [apply TrimSpace_idem|done].
Qed.

Lemma NewVideoContext_id c : context_ok c ->
  NewVideoContext (vc_Source c) (vc_UserGoal c) (vc_Segments c) = Ok c.
Proof. intros (Hb & Hg & _). unfold NewVideoContext. rewrite Hb, Hg. by destruct c. Qed.

(** ** Properties *)

(** C40. A context read back from a checkpoint is normalised the way a freshly built one is:
    [Normalize] only returns contexts in normal form (every segment has a non-negative, non-empty
    range and trimmed text, the source is not blank), and it returns a context in normal form
    unchanged, so re-reading a stored context any number of times changes nothing. What it returns is
    the context it was given: the same source, the goal trimmed, and the same segments in the same
    order with their ranges, recognised texts and evidence frames, each transcript trimmed. *)
Theorem Normalize_canonical (c c' : VideoContext) :
  Normalize c = Ok c' ->
  context_ok c' /\ Normalize c' = Ok c'
  /\ c' = mkContext (vc_Source c) (TrimSpace (vc_UserGoal c)) (map trimmedSegment (vc_Segments c)).
Proof.
  intros H. assert (context_ok c') as Hok.
  { unfold Normalize in H. destruct (normalize_segments (vc_Segments c)) as [segs|] eqn:E; [|done].
    eapply NewVideoContext_ok; [|exact H]. by eapply normalize_segments_ok. }
  split; [done|]. split.
  - unfold Normalize. rewrite normalize_segments_id by apply Hok. by apply NewVideoContext_id.
  - unfold Normalize, NewVideoContext in H. repeat case_match; simplify_eq.
    f_equal. by apply normalize_segments_kept.
Qed.

Definition example_context : VideoContext :=
  mkContext "http://minio/media/a.mp4" "  summary " [mkSegment 0 60000 " hello " ["t"] []].

Lemma Normalize_canonical_witness :
  Normalize example_context
  = Ok (mkContext "http://minio/media/a.mp4" "summary" [mkSegment 0 60000 "hello" ["t"] []])
  /\ context_ok (mkContext "http://minio/media/a.mp4" "summary" [mkSegment 0 60000 "hello" ["t"] []]).
Proof.
  split; [vm_compute; reflexivity|].
  apply (Normalize_canonical example_context). vm_compute. reflexivity.
Defined.

(** Strict and lenient mode parsing agree: a request is rejected exactly when it is neither blank
    nor one of the four modes (case and surrounding space ignored); when it is accepted, the lenient
    parser used for stored and queued values returns the same mode, and otherwise GENERAL. Both only
    ever return one of the four modes. *)
Theorem mode_parsers_agree (v : string) :
  ModeFromNullable v ∈ all_modes
  /\ match ModeFromRequest v with
     | Ok m => m = ModeFromNullable v
     | Err e => ModeFromNullable v = ModeGeneral /\ is_blank v = false /\ validMode v = None
                /\ IsPermanentFailure (Some e) = true
     end.
Proof.
  unfold ModeFromNullable, ModeFromRequest.
  destruct (is_blank v) eqn:Eb; [split; [by left|done]|].
  destruct (validMode v) as [m|] eqn:Em; [split; [by eapply validMode_valid|done]|].
  split; [by left|]. split; [done|]. split; [done|]. split; [done|]. reflexivity.
Qed.
