(* ===== verification/GoContext.v ===== *)
(** * Go contexts, time and lock handles

    A [context.Context] is what can cancel it and the billing user it carries.  External calls take
    the context the source passes, so that "this call survives cancellation" is visible in a trace.
    Times are nanoseconds since the Unix epoch, durations nanoseconds ([time.Duration]). *)

From S2P Require Import Prelude.

Local Open Scope Z_scope.

(** A held [*redislock.Lock]: its identity and key. *)
Record Lock := mkLock { lk_id : nat; lk_key : string }.

#[export] Instance Lock_eq_dec : EqDecision Lock.
Proof. solve_decision. Defined.

(** What can cancel a context. *)
Inductive cancel_source :=
| CallerDone                 (* the request or the runner's processing context *)
| LeaseLost (lk : Lock)      (* the watcher goroutine of a task lock *)
| TimedOut (d : Z)           (* context.WithTimeout *)
| BranchCancel.              (* an explicit cancel() *)

Record Context := mkCtx { ctx_sources : list cancel_source; ctx_user : option Z }.

Definition WithoutCancel (c : Context) : Context := mkCtx [] (ctx_user c).
Definition WithSource (s : cancel_source) (c : Context) : Context :=
  mkCtx (s :: ctx_sources c) (ctx_user c).
Definition Background : Context := mkCtx [] None.
Definition RequestContext : Context := mkCtx [CallerDone] None.

(** A context nothing can cancel. *)
Definition detached (c : Context) : Prop := ctx_sources c = [].

Lemma WithoutCancel_detached c : detached (WithoutCancel c).
Proof. done. Qed.

Definition millisecond : Z := 1000000.
Definition second : Z := 1000 * millisecond.
Definition minute : Z := 60 * second.
Definition hour : Z := 60 * minute.

(** The zero [time.Time] (year 1). *)
Definition zero_time : Z := - 62135596800 * second.
Definition IsZero (t : Z) : bool := t =? zero_time.

(** [time.UnixMilli(ms)] and [t.UnixMilli()]. *)
Definition of_UnixMilli (ms : Z) : Z := ms * millisecond.
Definition UnixMilli (t : Z) : Z := t / millisecond.
