(* ===== verification/TaskKeys.v ===== *)
(** * Goal digests and the Redis keys shared with the agent service (internal/taskkeys)

    SHA-256 is an arbitrary function [sha256Hex] (the class [Sha256]); theorems that need it to
    separate inputs say so by offering a collision as the other outcome. *)

From S2P Require Import Prelude GoStrings Errors Model.

Local Open Scope string_scope.
Local Open Scope list_scope.
Local Open Scope Z_scope.

Class Sha256 := sha256Hex : string -> string.

Definition is_hex (a : ascii) : bool :=
  in_range 97 102 (byte a) || in_range 65 70 (byte a) || in_range 48 57 (byte a).

(** The regular expression [^[a-fA-F0-9]{32}$]. *)
Definition md5Pattern (s : string) : bool := Nat.eqb (String.length s) 32 && str_forall is_hex s.

(** U+241F *)
Definition unitSeparator : string := "␟".

Definition NormalizeContentHash (mediaID : Z) (contentHash : string) : string :=
  if md5Pattern contentHash then ToLower contentHash else "media-" +:+ FormatInt mediaID.

Definition trimControl (s : string) : string := TrimFunc (fun r => r <=? 0x20) s.

Definition isBlank (s : string) : bool := is_blank s.

Section keys.
Context `{Sha256}.

Definition GoalDigest (goal : string) (mode : AnalysisMode) : res string :=
  if isBlank goal then Err (InvalidArgument "analysis goal is required")
  else if String.eqb mode "" || String.eqb mode ModeGeneral then Ok (sha256Hex (trimControl goal))
  else Ok (sha256Hex (mode +:+ unitSeparator +:+ trimControl goal)).

End keys.

Definition Active (contentHash digest : string) : string :=
  "analysis:active:" +:+ contentHash +:+ ":" +:+ digest.
Definition LockKey (contentHash digest : string) : string :=
  "lock:analysis:" +:+ contentHash +:+ ":" +:+ digest.
Definition CompletedKey (scope digest : string) : string :=
  "analysis:completed:" +:+ scope +:+ ":" +:+ digest.
Definition ContextOwner (contentHash : string) : string := "analysis:context-owner:" +:+ contentHash.
Definition ContextLock (contentHash : string) : string := "lock:analysis-context:" +:+ contentHash.

(** ** Lemmas *)

Definition no_byte (c : ascii) (s : string) : Prop := str_forall (fun a => negb (Ascii.eqb a c)) s = true.

Lemma hex_ascii_colon a : is_hex a = true -> is_ascii a && negb (Ascii.eqb (lower_ascii a) ":") = true.
Proof. revert a. by_bytes. Qed.

Lemma dec_no_colon a : dec_char a = true -> negb (Ascii.eqb a ":") = true.
Proof. revert a. by_bytes. Qed.

Lemma hex_lower a : is_hex a = true -> is_hex (lower_ascii a) && Ascii.eqb (lower_ascii (lower_ascii a)) (lower_ascii a) = true.
Proof. revert a. by_bytes. Qed.

Lemma str_map_idem s : str_forall is_hex s = true -> str_map lower_ascii (str_map lower_ascii s) = str_map lower_ascii s.
Proof.
  induction s as [|a s IH]; simpl; [done|]. intros [[_ Ha%Ascii.eqb_eq]%hex_lower%andb_prop Hs]%andb_prop.
  by rewrite Ha, IH.
Qed.

Lemma ToLower_hex s : str_forall is_hex s = true -> ToLower s = str_map lower_ascii s.
Proof.
  intros Hs. apply ToLower_ascii. eapply str_forall_weaken; [|exact Hs].
  intros a Ha. by apply hex_ascii_colon, andb_prop in Ha as [? _].
Qed.

(** Normalising again, or normalising the per-media scope, changes nothing. *)
Lemma NormalizeContentHash_media id id' : NormalizeContentHash id ("media-" +:+ FormatInt id') = "media-" +:+ FormatInt id.
Proof. unfold NormalizeContentHash, md5Pattern. simpl. by rewrite andb_false_r. Qed.

Lemma NormalizeContentHash_idem id h :
  NormalizeContentHash id (NormalizeContentHash id h) = NormalizeContentHash id h.
Proof.
  unfold NormalizeContentHash at 2 3. destruct (md5Pattern h) eqn:E; [|apply NormalizeContentHash_media].
  apply andb_prop in E as [Hlen Hhex]. rewrite ToLower_hex by done.
  assert (str_forall is_hex (str_map lower_ascii h) = true) as Hl.
  { eapply str_forall_map; [|exact Hhex]. intros a Ha. by apply hex_lower, andb_prop in Ha as [? _]. }
  unfold NormalizeContentHash, md5Pattern. rewrite str_map_length, Hlen, Hl. simpl.
  by rewrite ToLower_hex, str_map_idem.
Qed.

(** A normalised content hash never contains the key separator. *)
Lemma NormalizeContentHash_no_colon id h : no_byte ":" (NormalizeContentHash id h).
Proof.
  unfold NormalizeContentHash, no_byte. destruct (md5Pattern h) eqn:E.
  - apply andb_prop in E as [_ Hhex].
    rewrite ToLower_ascii.
    + eapply str_forall_map; [|exact Hhex]. intros a Ha. by apply hex_ascii_colon, andb_prop in Ha as [_ ?].
    + eapply str_forall_weaken; [|exact Hhex]. intros a Ha. by apply hex_ascii_colon, andb_prop in Ha as [? _].
  - rewrite str_forall_app. simpl.
    eapply str_forall_weaken; [apply dec_no_colon|apply FormatInt_chars].
Qed.

Lemma scoped_key_inj p h h' d d' :
  no_byte ":" h -> no_byte ":" h' ->
  p +:+ h +:+ ":" +:+ d = p +:+ h' +:+ ":" +:+ d' -> h = h' /\ d = d'.
Proof. intros Hh Hh' H. apply str_app_inj_l in H. by eapply str_app_sep_inj. Qed.

(** The mode names contain no byte of the separator. *)
Lemma mode_no_sep m : m ∈ all_modes -> no_byte (ascii_of_Z 0xE2) m.
Proof. unfold all_modes. rewrite !elem_of_cons, elem_of_nil. by intros [->|[->|[->|[->|[]]]]]. Qed.

(** The text that is hashed. *)
Definition digest_text (goal : string) (mode : AnalysisMode) : string :=
  if String.eqb (Resolve mode) ModeGeneral then trimControl goal
  else Resolve mode +:+ unitSeparator +:+ trimControl goal.

Lemma GoalDigest_text `{Sha256} goal mode :
  GoalDigest goal mode
  = if isBlank goal then Err (InvalidArgument "analysis goal is required")
    else Ok (sha256Hex (digest_text goal mode)).
Proof.
  unfold GoalDigest, digest_text, Resolve. destruct (isBlank goal); [done|].
  destruct (String.eqb_spec mode "") as [->|]; [done|]. simpl.
  by destruct (String.eqb_spec mode ModeGeneral) as [->|].
Qed.

Lemma sep_cons m t : m +:+ unitSeparator +:+ t = m +:+ String (ascii_of_Z 0xE2) (str_drop 1 unitSeparator +:+ t).
Proof. done. Qed.

Lemma mode_sep_inj m m' t t' :
  m ∈ all_modes -> m' ∈ all_modes ->
  m +:+ unitSeparator +:+ t = m' +:+ unitSeparator +:+ t' -> m = m' /\ t = t'.
Proof.
  intros Hm Hm' H. rewrite !sep_cons in H.
  apply str_app_sep_inj in H as [-> H]; [|by apply mode_no_sep..].
  split; [done|]. by apply str_app_inj_l in H.
Qed.

Lemma Resolve_valid m : m ∈ "" :: all_modes -> Resolve m ∈ all_modes.
Proof.
  unfold Resolve. intros [->|Hm]%elem_of_cons; [by left|].
  destruct (String.eqb_spec m ""); [by left|done].
Qed.

(** ** Properties *)

(** The idempotency, lock and completion keys separate tasks: for content hashes as
    [NormalizeContentHash] produces them, two tasks share a key only if they have the same content
    hash and the same goal digest, and keys of different families never coincide. *)
Theorem task_keys_injective (id id' : Z) (h h' d d' : string) :
  let n := NormalizeContentHash id h in
  let n' := NormalizeContentHash id' h' in
  (Active n d = Active n' d' -> n = n' /\ d = d')
  /\ (LockKey n d = LockKey n' d' -> n = n' /\ d = d')
  /\ (CompletedKey n d = CompletedKey n' d' -> n = n' /\ d = d')
  /\ Active n d <> CompletedKey n' d' /\ Active n d <> LockKey n' d'
  /\ LockKey n d <> CompletedKey n' d' /\ LockKey n d <> ContextLock n'.
Proof.
  intros n n'. pose proof (NormalizeContentHash_no_colon id h). pose proof (NormalizeContentHash_no_colon id' h').
  split; [by apply scoped_key_inj|]. split; [by apply scoped_key_inj|]. split; [by apply scoped_key_inj|].
  generalize n, n'. clear. intros n n'.
  split; [|split; [|split]]; intros Hk; apply (f_equal (str_take 14)) in Hk; discriminate Hk.
Qed.

(** What the goal digest distinguishes. Two submissions with the same digest have the same resolved
    mode and the same trimmed goal, unless SHA-256 collides on the two inputs or the goal of a GENERAL
    submission itself spells "MODE", the separator U+241F and the other submission's goal. *)
Theorem GoalDigest_separates `{Sha256} (g1 g2 d : string) (m1 m2 : AnalysisMode) :
  m1 ∈ "" :: all_modes -> m2 ∈ "" :: all_modes ->
  GoalDigest g1 m1 = Ok d -> GoalDigest g2 m2 = Ok d ->
  (Resolve m1 = Resolve m2 /\ trimControl g1 = trimControl g2)
  \/ (exists v w, v <> w /\ sha256Hex v = sha256Hex w)
  \/ (Resolve m1 = ModeGeneral /\ trimControl g1 = Resolve m2 +:+ unitSeparator +:+ trimControl g2)
  \/ (Resolve m2 = ModeGeneral /\ trimControl g2 = Resolve m1 +:+ unitSeparator +:+ trimControl g1).
Proof.
  intros Hm1%Resolve_valid Hm2%Resolve_valid H1 H2. rewrite GoalDigest_text in H1, H2.
  destruct (isBlank g1), (isBlank g2); try done. injection H1 as H1. injection H2 as H2.
  destruct (decide (digest_text g1 m1 = digest_text g2 m2)) as [Heq|Hne].
  2: { right; left. exists (digest_text g1 m1), (digest_text g2 m2). split; [done|congruence]. }
  unfold digest_text in Heq.
  destruct (String.eqb_spec (Resolve m1) ModeGeneral) as [E1|],
    (String.eqb_spec (Resolve m2) ModeGeneral) as [E2|].
  - left. split; congruence.
  - do 2 right. left. done.
  - do 3 right. done.
  - left. by apply mode_sep_inj.
Qed.

Lemma GoalDigest_separates_witness :
  let s : Sha256 := fun v => v in
  @GoalDigest s " notes " "" = Ok "notes" /\ @GoalDigest s "notes" ModeGeneral = Ok "notes"
  /\ ((Resolve "" = Resolve ModeGeneral /\ trimControl " notes " = trimControl "notes")
      \/ (exists v w : string, v <> w /\ v = w)
      \/ (Resolve "" = ModeGeneral /\ trimControl " notes " = Resolve ModeGeneral +:+ unitSeparator +:+ trimControl "notes")
      \/ (Resolve ModeGeneral = ModeGeneral /\ trimControl "notes" = Resolve "" +:+ unitSeparator +:+ trimControl " notes ")).
Proof.
  intros s. split; [vm_compute; reflexivity|]. split; [vm_compute; reflexivity|].
  apply (@GoalDigest_separates s " notes " "notes" "notes" "" ModeGeneral).
  - by left.
  - right. by left.
  - vm_compute. reflexivity.
  - vm_compute. reflexivity.
Defined.

(** The exception is real: whatever the hash function, a GENERAL task whose goal is the text
    "LEARNING" + U+241F + "notes" has the digest, and so the idempotency key and the lock, of the
    LEARNING task with goal "notes", although the separator is there to rule this out. *)
Theorem GoalDigest_mode_confusion `{Sha256} :
  GoalDigest "LEARNING␟notes" ModeGeneral = GoalDigest "notes" ModeLearning
  /\ GoalDigest "LEARNING␟notes" ModeGeneral <> Err (InvalidArgument "analysis goal is required").
Proof. split; [reflexivity|vm_compute; done]. Qed.
