(* ===== verification/Collation.v ===== *)
(** * String equality in the database

    The columns of the schema (internal/migrations) have the collation utf8mb4_unicode_ci: [WHERE c = ?] and
    the unique keys compare strings under it.  Of the collation only what MySQL documents is assumed: it is an
    equivalence, and on words of ASCII letters, digits, [_], [-] and [:] it ignores case and nothing else. *)

From S2P Require Import Prelude GoStrings TaskKeys.

Definition word_char (a : ascii) : bool :=
  in_range 65 90 (byte a) || in_range 97 122 (byte a) || is_digit a || Ascii.eqb a "_"
  || Ascii.eqb a "-" || Ascii.eqb a ":".

Class Collation := {
  collates : string -> string -> bool;
  collates_refl : forall a, collates a a = true;
  collates_sym : forall a b, collates a b = collates b a;
  collates_trans : forall a b c, collates a b = true -> collates b c = true -> collates a c = true;
  collates_word : forall a b, str_forall word_char a = true -> str_forall word_char b = true ->
    collates a b = String.eqb (ToLower a) (ToLower b) }.

(** Comparing lower-case forms is such a collation. *)
Definition caseFolding : Collation.
Proof.
  refine {| collates := fun a b => String.eqb (ToLower a) (ToLower b) |}.
  - intros a. apply String.eqb_refl.
  - intros a b. apply String.eqb_sym.
  - intros a b c ->%String.eqb_eq ->%String.eqb_eq. apply String.eqb_refl.
  - done.
Defined.

(** A word character that is not an upper-case letter. *)
Definition lower_char (a : ascii) : bool := word_char a && negb (in_range 65 90 (byte a)).

Definition lower_hex (a : ascii) : bool := is_hex a && negb (in_range 65 70 (byte a)).

Lemma lower_char_fixed a : lower_char a = true -> is_ascii a && Ascii.eqb (lower_ascii a) a = true.
Proof. revert a. by_bytes. Qed.

Lemma lower_hex_char a : lower_hex a = true -> lower_char a = true.
Proof. revert a. by_bytes. Qed.

Lemma lower_hex_word s : str_forall lower_hex s = true -> str_forall lower_char s = true.
Proof. apply str_forall_weaken, lower_hex_char. Qed.

Lemma ToLower_lower s : str_forall lower_char s = true -> ToLower s = s.
Proof.
  intros Hs. rewrite ToLower_ascii.
  - induction s as [|a s IH]; [done|]. simpl in *. apply andb_prop in Hs as [Ha Hs].
    apply lower_char_fixed in Ha as [_ ->%Ascii.eqb_eq]%andb_prop. by rewrite IH.
  - eapply str_forall_weaken; [|exact Hs]. intros a Ha. by apply lower_char_fixed in Ha as [? _]%andb_prop.
Qed.

(** Lower-case words are compared exactly. *)
Lemma collates_exact `{Collation} a b :
  str_forall lower_char a = true -> str_forall lower_char b = true -> collates a b = true -> a = b.
Proof.
  intros Ha Hb. assert (forall s, str_forall lower_char s = true -> str_forall word_char s = true) as Hw.
  { intros s. apply str_forall_weaken. intros c Hc. by apply andb_prop in Hc as [? _]. }
  rewrite collates_word by auto. rewrite !ToLower_lower by done. by intros ?%String.eqb_eq.
Qed.
