(* ===== verification/Sanitize.v ===== *)
(** * Column widths and secret masking (internal/analysis/failedtask.go)

    The three regular expressions are written as deterministic matchers on runes: their adjacent
    repetitions range over disjoint classes, so greedy matching never has to back off.  Case folding is
    Go's [(?i)], under which s also matches U+017F and k the Kelvin sign U+212A. *)

From S2P Require Import Prelude GoStrings.

Local Open Scope string_scope.
Local Open Scope list_scope.
Local Open Scope Z_scope.

(** ** UTF-16 truncation *)

(** [b.WriteRune(r)]: the bytes of the rune; an invalid byte is written as U+FFFD. *)
Definition write_rune (c : chunk) : string := if chunk_valid c then ck_text c else "�".

Fixpoint truncate_units (n maxLen : Z) (l : list chunk) : string :=
  match l with
  | [] => ""
  | c :: l' =>
      let w := rune_units (ck_rune c) in
      if maxLen <? n + w then "" else write_rune c +:+ truncate_units (n + w) maxLen l'
  end.

Definition truncateUTF16 (s : string) (maxLen : Z) : string :=
  if utf16Len s <=? maxLen then s else truncate_units 0 maxLen (chunks s).

Definition column (value fallback : string) (maxLen : Z) : string :=
  truncateUTF16 (if is_blank value then fallback else value) maxLen.

(** ** Secret patterns *)

(** [\s] of RE2. *)
Definition re_space (r : Z) : bool := (r =? 9) || (r =? 10) || (r =? 12) || (r =? 13) || (r =? 32).

(** A letter matched case-insensitively ([l] is a lower-case ASCII letter). *)
Definition re_fold (l r : Z) : bool :=
  (r =? l) || (r =? l - 32) || ((l =? 115) && (r =? 0x17F)) || ((l =? 107) && (r =? 0x212A)).

Definition re_alnum (r : Z) : bool :=
  in_range 97 122 r || in_range 65 90 r || in_range 48 57 r || (r =? 0x17F) || (r =? 0x212A).

(** [._~+/=-] *)
Definition bearer_class (r : Z) : bool :=
  re_alnum r || (r =? 46) || (r =? 95) || (r =? 126) || (r =? 43) || (r =? 47) || (r =? 61) || (r =? 45).

Definition named_class (r : Z) : bool := negb (re_space r || (r =? 44) || (r =? 59)).

Definition prefixed_class (r : Z) : bool := re_alnum r || (r =? 95) || (r =? 45).

Fixpoint span (p : Z -> bool) (l : list chunk) : list chunk * list chunk :=
  match l with
  | [] => ([], [])
  | c :: l' => if p (ck_rune c) then let '(a, b) := span p l' in (c :: a, b) else ([], l)
  end.

(** A case-insensitive word at the head of the text. *)
Fixpoint word (w : list Z) (l : list chunk) : option (list chunk * list chunk) :=
  match w, l with
  | [], _ => Some ([], l)
  | x :: w', c :: l' =>
      if re_fold x (ck_rune c)
      then match word w' l' with Some (a, b) => Some (c :: a, b) | None => None end
      else None
  | _, [] => None
  end.

(** [p{n,}], greedy. *)
Definition at_least (n : nat) (p : Z -> bool) (l : list chunk) : option (list chunk) :=
  let '(a, b) := span p l in if Nat.leb n (length a) then Some b else None.

Definition letters (s : string) : list Z := map byte (String.list_ascii_of_string s).

(** A matcher gives the text of group 1 and the text after the match. *)
Definition matcher := list chunk -> option (list chunk * list chunk).

Definition bearerSecret : matcher := fun l =>
  match word (letters "bearer") l with
  | Some (w, l1) =>
      let '(sp, l2) := span re_space l1 in
      if Nat.leb 1 (length sp) then
        match at_least 8 bearer_class l2 with Some rest => Some (w ++ sp, rest) | None => None end
      else None
  | None => None
  end.

(** [api[-_ ]?key] *)
Definition api_key (l : list chunk) : option (list chunk * list chunk) :=
  match word (letters "api") l with
  | Some (a, l1) =>
      let '(sep, l2) :=
        match l1 with
        | c :: l' => if (ck_rune c =? 45) || (ck_rune c =? 95) || (ck_rune c =? 32)
                     then ([c], l') else ([], l1)
        | [] => ([], [])
        end in
      match word (letters "key") l2 with Some (k, l3) => Some (a ++ sep ++ k, l3) | None => None end
  | None => None
  end.

Definition secret_name (l : list chunk) : option (list chunk * list chunk) :=
  match api_key l with
  | Some m => Some m
  | None => match word (letters "token") l with
            | Some m => Some m
            | None => word (letters "secret") l
            end
  end.

Definition namedSecret : matcher := fun l =>
  match secret_name l with
  | Some (w, l1) =>
      let '(sp1, l2) := span re_space l1 in
      match l2 with
      | c :: l3 =>
          if (ck_rune c =? 61) || (ck_rune c =? 58) then
            let '(sp2, l4) := span re_space l3 in
            match at_least 8 named_class l4 with
            | Some rest => Some (w ++ sp1 ++ [c] ++ sp2, rest)
            | None => None
            end
          else None
      | [] => None
      end
  | None => None
  end.

Definition prefixedSecret : matcher := fun l =>
  match word (letters "sk") l with
  | Some (_, c :: l1) =>
      if ck_rune c =? 45
      then match at_least 16 prefixed_class l1 with Some rest => Some ([], rest) | None => None end
      else None
  | _ => None
  end.

Definition stars : list chunk := chunks "****".

(** [ReplaceAllString] with the replacement "group 1, four stars".  Every step consumes a rune, so the
    number of runes is enough fuel. *)
Fixpoint replace_all (fuel : nat) (m : matcher) (l : list chunk) : list chunk :=
  match fuel, l with
  | S f, c :: l' =>
      match m l with
      | Some (g, rest) => g ++ stars ++ replace_all f m rest
      | None => c :: replace_all f m l'
      end
  | _, _ => []
  end.

Definition ReplaceAll (m : matcher) (s : string) : string :=
  unchunk (replace_all (length (chunks s)) m (chunks s)).

Definition SanitizeError (value : string) : string :=
  let s := ReplaceAll bearerSecret value in
  let s := ReplaceAll namedSecret s in
  let s := ReplaceAll prefixedSecret s in
  truncateUTF16 s 1000.


(** ** Lemmas: lists of chunks that decode to themselves whatever follows *)

Definition good (c : chunk) : Prop :=
  exists a t, ck_text c = String a t /\ forall x, decode_rune a (t +:+ x) = (c, x).

Lemma decode_good a r c rest : decode_rune a r = (c, rest) -> chunk_valid c = true -> good c.
Proof.
  intros H Hv. decode_cases;
    try (unfold chunk_valid in Hv; simpl in Hv; discriminate Hv);
    (eexists _, _; split; [reflexivity|]; intros x; simpl; unfold decode_rune, one;
     repeat (match goal with H : _ = _ |- _ => rewrite H end; simpl); done).
Qed.

Lemma chunks_good s : forall c, c ∈ chunks s -> chunk_valid c = true -> good c.
Proof.
  induction s as [|a r IH] using chunks_ind; [by intros c ?%elem_of_nil|].
  intros c. rewrite chunks_cons. destruct (decode_rune a r) as [c' rest] eqn:E. simpl in *.
  intros [->|Hc]%elem_of_cons Hv; [by eapply decode_good|auto].
Qed.

Lemma good_stable l : Forall good l -> stable l.
Proof.
  unfold stable. induction 1 as [|c l (a & t & Ht & Hd) _ IH]; [done|].
  simpl. rewrite Ht. change (String a t +:+ unchunk l) with (String a (t +:+ unchunk l)).
  rewrite chunks_cons, Hd. simpl. by rewrite IH.
Qed.

Lemma ValidString_good s : ValidString s = true -> Forall good (chunks s).
Proof.
  intros Hv. apply Forall_forall. intros c Hc. apply (chunks_good s c Hc).
  unfold ValidString in Hv. rewrite forallb_forall in Hv. by apply Hv, list_elem_of_In.
Qed.

(** ** Truncation *)

Definition units (l : list chunk) : Z := foldr (fun c n => rune_units (ck_rune c) + n) 0 l.

(** The rune [WriteRune] writes for a decoded one. *)
Definition clean (c : chunk) : chunk := Chunk (ck_rune c) (write_rune c).

Lemma clean_valid c : chunk_valid c = true -> clean c = c.
Proof. unfold clean, write_rune. intros ->. by destruct c. Qed.

Lemma clean_good c : good c \/ chunk_valid c = false -> good (clean c).
Proof.
  assert (good (Chunk rune_error "�")) as Hre by (eexists _, _; split; [reflexivity|intros x; reflexivity]).
  intros Hc. destruct (chunk_valid c) eqn:Hv.
  - rewrite clean_valid by done. by destruct Hc.
  - unfold clean, write_rune. rewrite Hv. unfold chunk_valid in Hv.
    apply negb_false_iff, andb_prop in Hv as [->%Z.eqb_eq _]. done.
Qed.

(** [truncate_units] writes a prefix of the runes, within the limit. *)
Lemma truncate_prefix n maxLen l :
  n <= maxLen ->
  exists k, truncate_units n maxLen l = unchunk (clean <$> take k l) /\ n + units (take k l) <= maxLen
    /\ (take k l = l \/ maxLen < n + units (take k l) + 2).
Proof.
  revert n. induction l as [|c l IH]; intros n Hn; [exists 0%nat; simpl; split; [done|split; [lia|by left]]|]. simpl.
  assert (rune_units (ck_rune c) <= 2) by (unfold rune_units; case_match; lia).
  destruct (Z.ltb_spec maxLen (n + rune_units (ck_rune c))) as [Hlt|Hge].
  - exists 0%nat. simpl. split; [done|]. split; [|right]; lia.
  - destruct (IH _ Hge) as (k & -> & Hk & Hfull). exists (S k). simpl. split; [done|]. split; [lia|].
    destruct Hfull as [->|?]; [by left|right; lia].
Qed.

Lemma units_clean l : units (clean <$> l) = units l.
Proof. induction l as [|c l IH]; [done|]. rewrite fmap_cons. simpl. by rewrite IH. Qed.

Lemma cleaned_stable s k : stable (clean <$> take k (chunks s)).
Proof.
  apply good_stable, Forall_fmap, Forall_forall. intros c Hc. apply clean_good.
  destruct (chunk_valid c) eqn:Hv; [|auto]. left. eapply chunks_good; [|done].
  apply elem_of_take in Hc as (i & Hi & _). by eapply list_elem_of_lookup_2.
Qed.

Lemma truncateUTF16_bound s maxLen : 0 <= maxLen -> utf16Len (truncateUTF16 s maxLen) <= maxLen.
Proof.
  intros Hm. unfold truncateUTF16. destruct (Z.leb_spec (utf16Len s) maxLen) as [?|_]; [done|].
  destruct (truncate_prefix 0 maxLen (chunks s) Hm) as (k & -> & Hk & _).
  unfold utf16Len. rewrite (cleaned_stable s k). fold (units (clean <$> take k (chunks s))).
  rewrite units_clean. lia.
Qed.

(** A text that is cut loses no more than it must. *)
Lemma truncateUTF16_full s maxLen : 0 <= maxLen ->
  truncateUTF16 s maxLen = s \/ maxLen - 1 <= utf16Len (truncateUTF16 s maxLen).
Proof.
  intros Hm. unfold truncateUTF16. destruct (Z.leb_spec (utf16Len s) maxLen) as [?|Hlong]; [by left|right].
  destruct (truncate_prefix 0 maxLen (chunks s) Hm) as (k & -> & Hk & Hfull).
  unfold utf16Len. rewrite (cleaned_stable s k). fold (units (clean <$> take k (chunks s))).
  rewrite units_clean. unfold utf16Len in Hlong. fold (units (chunks s)) in Hlong.
  destruct Hfull as [E|?]; [rewrite E in Hk|]; lia.
Qed.

(** ** No prefixed secret survives *)

(** A pattern that tests the runes one by one. *)
Fixpoint prefix_match (q : list (Z -> bool)) (l : list chunk) : bool :=
  match q, l with
  | [], _ => true
  | p :: q', c :: l' => p (ck_rune c) && prefix_match q' l'
  | _ :: _, [] => false
  end.

Definition skShape : list (Z -> bool) :=
  [re_fold 115; re_fold 107; (fun r => r =? 45)] ++ replicate 16 prefixed_class.

Lemma at_least_match n p l : (match at_least n p l with Some _ => true | None => false end) = prefix_match (replicate n p) l.
Proof.
  unfold at_least. revert n. induction l as [|c l IH]; intros n; simpl; [by destruct n|].
  destruct n as [|n]; [by repeat case_match|]. simpl. rewrite <- IH.
  destruct (p (ck_rune c)); simpl; [|done]. by destruct (span p l).
Qed.

Lemma prefixedSecret_match l :
  (match prefixedSecret l with Some _ => true | None => false end) = prefix_match skShape l.
Proof.
  unfold prefixedSecret, skShape. change (letters "sk") with [115; 107].
  generalize (at_least_match 16 prefixed_class). generalize (replicate 16 prefixed_class). intros q Hq.
  destruct l as [|c1 [|c2 [|c3 l]]]; simpl;
    repeat (match goal with |- context[re_fold ?a ?b] => destruct (re_fold a b) end; simpl); try done.
  destruct (ck_rune c3 =? 45); [|done]. simpl. rewrite <- Hq. by destruct (at_least 16 prefixed_class l).
Qed.

Lemma prefix_match_app q l x : prefix_match q l = true -> prefix_match q (l ++ x) = true.
Proof.
  revert l. induction q as [|p q IH]; intros [|c l]; simpl; try done.
  intros [-> H]%andb_prop. simpl. auto.
Qed.

Definition no_star (p : Z -> bool) : Prop := p 42 = false.

Lemma skShape_no_star : Forall no_star skShape.
Proof. repeat constructor. Qed.

(** A match after the replacement starts with runes that were there before it. *)
Lemma replace_all_match fuel q l :
  Forall no_star q -> prefix_match q (replace_all fuel prefixedSecret l) = true -> prefix_match q l = true.
Proof.
  revert fuel l. induction q as [|p q IH]; intros fuel l Hq; [done|]. apply Forall_cons in Hq as [Hp Hq]. red in Hp.
  destruct fuel as [|fuel]; [done|]. destruct l as [|c l]; [done|]. simpl.
  destruct (prefixedSecret (c :: l)) as [[g rest]|] eqn:Em.
  - assert (g = []) as -> by (unfold prefixedSecret in Em; repeat case_match; by simplify_eq).
    cbn. change (byte "*") with 42. by rewrite Hp.
  - simpl. intros [-> H]%andb_prop. simpl. by eapply IH.
Qed.

Lemma star_suffix k l : (k < 4)%nat -> prefix_match skShape (drop k stars ++ l) = false.
Proof. intros Hk. destruct k as [|[|[|[|k]]]]; [done..|lia]. Qed.

Lemma replace_all_clean fuel l k :
  prefix_match skShape (drop k (replace_all fuel prefixedSecret l)) = false.
Proof.
  revert l k. induction fuel as [|fuel IH]; intros l k; [by destruct k|].
  destruct l as [|c l]; [by destruct k|]. cbn [replace_all].
  destruct (prefixedSecret (c :: l)) as [[g rest]|] eqn:Em.
  - assert (g = []) as -> by (unfold prefixedSecret in Em; repeat case_match; by simplify_eq).
    cbn [app]. destruct (decide (k < 4)%nat) as [Hk|Hk].
    + rewrite drop_app_le by (change (length stars) with 4%nat; lia). by apply star_suffix.
    + rewrite drop_app_ge by (change (length stars) with 4%nat; lia). apply IH.
  - destruct k as [|k]; [|apply IH]. cbn [drop].
    destruct (prefix_match skShape (c :: replace_all fuel prefixedSecret l)) eqn:E; [|done].
    pose proof (prefixedSecret_match (c :: l)) as Hm. rewrite Em in Hm. rewrite Hm.
    change skShape with (re_fold 115 :: tail skShape) in E |- *. cbn [prefix_match] in E |- *.
    apply andb_prop in E as [-> E]. symmetry.
    apply (replace_all_match fuel (tail skShape)); [|exact E]. apply Forall_tail, skShape_no_star.
Qed.

Lemma prefix_match_mono q l k l' : prefix_match q (drop k l) = true -> prefix_match q (drop k (l ++ l')) = true.
Proof.
  intros H. destruct (decide (k <= length l)%nat) as [Hk|Hk].
  - rewrite drop_app_le by done. by apply prefix_match_app.
  - rewrite drop_ge in H by lia. destruct q; [done|discriminate].
Qed.

Lemma stars_good : Forall good stars.
Proof.
  unfold stars. change (chunks "****") with (replicate 4 (Chunk 42 "*")). apply Forall_replicate.
  by exists "*"%char, "".
Qed.

(** A matcher's group and rest are taken from the text. *)
Definition partial (m : matcher) : Prop := forall l g rest, m l = Some (g, rest) -> g ⊆ l /\ rest ⊆ l.

Lemma replace_all_good m fuel l : partial m -> Forall good l -> Forall good (replace_all fuel m l).
Proof.
  intros Hm. revert l. induction fuel as [|fuel IH]; intros l Hl; [constructor|].
  destruct l as [|c l]; [constructor|]. cbn [replace_all]. destruct (m (c :: l)) as [[g rest]|] eqn:E.
  - destruct (Hm _ _ _ E) as [Hg Hr]. apply Forall_app. split; [|apply Forall_app; split; [apply stars_good|apply IH]];
      rewrite Forall_forall in *; auto.
  - apply Forall_cons in Hl as [? ?]. constructor; auto.
Qed.

Lemma span_split p l : (span p l).1 ++ (span p l).2 = l.
Proof.
  induction l as [|c l IH]; simpl; [done|]. destruct (p (ck_rune c)); [|done].
  destruct (span p l). simpl in *. by f_equal.
Qed.

Lemma word_split w l a b : word w l = Some (a, b) -> l = a ++ b.
Proof.
  revert l a b. induction w as [|x w IH]; intros l a b; simpl; [by intros [= <- <-]|].
  destruct l as [|c l]; [done|]. destruct (re_fold x (ck_rune c)); [|done].
  destruct (word w l) as [[a' b']|] eqn:E; [|done]. intros [= <- <-]. by rewrite (IH _ _ _ E).
Qed.

Lemma at_least_split n p l rest : at_least n p l = Some rest -> exists a, l = a ++ rest.
Proof.
  unfold at_least. pose proof (span_split p l). destruct (span p l) as [a b]. case_match; [|done].
  intros [= <-]. by exists a.
Qed.

Lemma bearer_partial : partial bearerSecret.
Proof.
  intros l g rest. unfold bearerSecret. destruct (word _ l) as [[w l1]|] eqn:Ew; [|done].
  apply word_split in Ew as ->. pose proof (span_split re_space l1) as Hs.
  destruct (span re_space l1) as [sp l2]. simpl in Hs. subst l1. case_match; [|done].
  destruct (at_least 8 bearer_class l2) as [r|] eqn:Ea; [|done]. apply at_least_split in Ea as [a ->].
  intros [= <- <-]. split; intros x; repeat (rewrite elem_of_app || rewrite elem_of_cons || rewrite elem_of_nil); tauto.
Qed.

Lemma api_key_split l a b : api_key l = Some (a, b) -> l = a ++ b.
Proof.
  unfold api_key. destruct (word _ l) as [[w l1]|] eqn:Ew; [|done]. apply word_split in Ew as ->.
  assert (exists sep l2, (match l1 with
        | c :: l' => if (ck_rune c =? 45) || (ck_rune c =? 95) || (ck_rune c =? 32)
                     then ([c], l') else ([], l1)
        | [] => ([], [])
        end) = (sep, l2) /\ l1 = sep ++ l2) as (sep & l2 & -> & ->).
  { destruct l1 as [|c l']; [by exists [], []|]. destruct (_ || _); [by exists [c], l'|by exists [], (c :: l')]. }
  destruct (word _ l2) as [[k l3]|] eqn:Ek; [|done]. apply word_split in Ek as ->.
  intros [= <- <-]. by rewrite <- !app_assoc.
Qed.

Lemma secret_name_split l a b : secret_name l = Some (a, b) -> l = a ++ b.
Proof.
  unfold secret_name. destruct (api_key l) as [m|] eqn:E1; [intros [= ->]; by apply api_key_split|].
  destruct (word (letters "token") l) as [m|] eqn:E2; [intros [= ->]; by eapply word_split|apply word_split].
Qed.

Lemma named_partial : partial namedSecret.
Proof.
  intros l g rest. unfold namedSecret. destruct (secret_name l) as [[w l1]|] eqn:Ew; [|done].
  apply secret_name_split in Ew as ->. pose proof (span_split re_space l1) as Hs.
  destruct (span re_space l1) as [sp1 l2]. simpl in Hs. subst l1. destruct l2 as [|c l3]; [done|].
  case_match; [|done]. pose proof (span_split re_space l3) as Hs.
  destruct (span re_space l3) as [sp2 l4]. simpl in Hs. subst l3.
  destruct (at_least 8 named_class l4) as [r|] eqn:Ea; [|done]. apply at_least_split in Ea as [a ->].
  intros [= <- <-]. split; intros x; repeat (rewrite elem_of_app || rewrite elem_of_cons || rewrite elem_of_nil); tauto.
Qed.

Lemma prefixed_partial : partial prefixedSecret.
Proof.
  intros l g rest. unfold prefixedSecret. destruct (word _ l) as [[w [|c l1]]|] eqn:Ew; [done| |done].
  apply word_split in Ew as ->. case_match; [|done].
  destruct (at_least 16 prefixed_class l1) as [r|] eqn:Ea; [|done]. apply at_least_split in Ea as [a ->].
  intros [= <- <-]. split; intros x; repeat (rewrite elem_of_app || rewrite elem_of_cons || rewrite elem_of_nil); tauto.
Qed.

Lemma ReplaceAll_good m s : partial m -> Forall good (chunks s) -> Forall good (chunks (ReplaceAll m s)).
Proof.
  intros Hm Hs. unfold ReplaceAll.
  pose proof (replace_all_good m (length (chunks s)) _ Hm Hs) as Hg. by rewrite (good_stable _ Hg).
Qed.

Lemma prefix_match_clean q l : prefix_match q (clean <$> l) = prefix_match q l.
Proof. revert l. induction q as [|p q IH]; intros [|c l]; try done. rewrite fmap_cons. simpl. by rewrite IH. Qed.

(** Truncation cannot make a match appear. *)
Lemma truncate_match q s maxLen k : 0 <= maxLen ->
  prefix_match q (drop k (chunks (truncateUTF16 s maxLen))) = true -> prefix_match q (drop k (chunks s)) = true.
Proof.
  intros Hm. unfold truncateUTF16. case_match; [done|].
  destruct (truncate_prefix 0 maxLen (chunks s) Hm) as (n & -> & _ & _).
  rewrite (cleaned_stable s n), <- fmap_drop, prefix_match_clean. intros Hq.
  rewrite <- (take_drop n (chunks s)). by apply prefix_match_mono.
Qed.

(** C37. No API key reaches the ledger or a record header. The sanitised text is at most 1000 UTF-16 units
    long, the width of the column, and when the message is valid UTF-8 no [sk-...] key of 16 or more
    characters (the pattern [prefixedSecret], case folding included) can be found at any position of it,
    whatever the two earlier passes and the final truncation did to the text. *)
Theorem SanitizeError_masks (value : string) :
  utf16Len (SanitizeError value) <= 1000
  /\ (ValidString value = true ->
      forall k, prefixedSecret (drop k (chunks (SanitizeError value))) = None).
Proof.
  split; [by apply truncateUTF16_bound|]. intros Hv k. unfold SanitizeError. cbv zeta.
  set (s := ReplaceAll namedSecret (ReplaceAll bearerSecret value)).
  assert (Forall good (chunks s)) as Hs.
  { apply ReplaceAll_good, ReplaceAll_good, ValidString_good; [apply named_partial|apply bearer_partial|done]. }
  assert (prefix_match skShape (drop k (chunks (truncateUTF16 (ReplaceAll prefixedSecret s) 1000))) = false) as H.
  { apply not_true_is_false. intros H%truncate_match; [|lia]. revert H. unfold ReplaceAll.
    rewrite (good_stable (replace_all _ _ _)), replace_all_clean by (by apply replace_all_good; [apply prefixed_partial|]).
    done. }
  rewrite <- prefixedSecret_match in H. by destruct (prefixedSecret _).
Qed.

Lemma SanitizeError_masks_witness :
  ValidString "call failed: token sk-abcdefghijklmnop0123" = true
  /\ utf16Len (SanitizeError "call failed: token sk-abcdefghijklmnop0123") <= 1000
  /\ forall k, prefixedSecret (drop k (chunks (SanitizeError "call failed: token sk-abcdefghijklmnop0123"))) = None.
Proof.
  split; [vm_compute; reflexivity|].
  destruct (SanitizeError_masks "call failed: token sk-abcdefghijklmnop0123") as [H1 H2].
  split; [exact H1|]. apply H2. vm_compute. reflexivity.
Defined.
