(* ===== verification/Routing.v ===== *)
(** * Kafka topics, retry routing and task headers (internal/mq: topics.go, routing.go, headers.go)

    Record keys and values are byte strings; a nil byte slice is the empty one.  The JSON codec of the
    task message ([encoding/json] on [AnalysisTaskMsg]) is the class [MsgCodec]. *)

From S2P Require Import Prelude GoStrings Proc Errors Model GoContext.

Local Open Scope string_scope.
Local Open Scope list_scope.
Local Open Scope Z_scope.

(** ** Topics *)

Definition TopicAnalysis : string := "video.analysis".
Definition TopicRetry10s : string := "video.analysis.retry.10s".
Definition TopicRetry60s : string := "video.analysis.retry.60s".
Definition TopicDLQ : string := "video.analysis.dlq".
Definition ConsumerGroup : string := "video-analysis-worker".

Record TopicSpec := mkTopicSpec { tp_Name : string; tp_Partitions : Z }.

Definition Topics : list TopicSpec :=
  [mkTopicSpec TopicAnalysis 6; mkTopicSpec TopicRetry10s 3; mkTopicSpec TopicRetry60s 3;
   mkTopicSpec TopicDLQ 1].

Definition ConsumedTopics : list string := [TopicAnalysis; TopicRetry10s; TopicRetry60s].

(** The admin client: the answer to one CreateTopic request, and one wait of the retry loop. *)
Inductive create_answer := Created | TopicAlreadyExists | CreateFailed (e : gerror).

Inductive TopicsE : Type -> Type :=
| CreateTopic (partitions : Z) (name : string) : TopicsE create_answer
| WaitBackoff (d : Z) : TopicsE (option gerror). (* None: the timer fired; Some e: ctx.Done() with ctx.Err() *)

Fixpoint createMissing (specs : list TopicSpec) : proc TopicsE (res unit) :=
  match specs with
  | [] => Ret (Ok ())
  | s :: rest =>
      Do (CreateTopic (tp_Partitions s) (tp_Name s)) (fun r =>
        match r with
        | CreateFailed e => Ret (Err (wrapf ("create " +:+ tp_Name s) e))
        | Created | TopicAlreadyExists => createMissing rest
        end)
  end.

(** The retry loop; [None] when the fuel (number of passes) is used up before it returns. *)
Fixpoint EnsureTopics_loop (fuel : nat) (specs : list TopicSpec) (backoff : Z)
  : proc TopicsE (option (res unit)) :=
  match fuel with
  | O => Ret None
  | S fuel =>
      bind (createMissing specs) (fun r =>
        match r with
        | Ok _ => Ret (Some (Ok ()))
        | Err _ =>
            Do (WaitBackoff backoff) (fun w =>
              match w with
              | Some ctxErr => Ret (Some (Err (wrapf "ensure kafka topics" ctxErr)))
              | None => EnsureTopics_loop fuel specs (Z.min (backoff * 2) (5 * second))
              end)
        end)
  end.

Definition EnsureTopics (fuel : nat) (specs : list TopicSpec) : proc TopicsE (option (res unit)) :=
  EnsureTopics_loop fuel specs (500 * millisecond).

(** ** Routing of failures *)

Definition MaxAttempts : Z := 3.

Definition ReasonPermanent : string := "permanent".
Definition ReasonExhausted : string := "exhausted".
Definition ReasonPoison : string := "poison".

Record Route := mkRoute { rt_Topic : string; rt_Delay : Z; rt_Reason : string }.

(** The map of retry topics to delays; a missing key reads as 0. *)
Definition RetryDelays (topic : string) : Z :=
  if String.eqb topic TopicRetry10s then 10 * second
  else if String.eqb topic TopicRetry60s then 60 * second
  else 0.

Definition RouteFailure (permanent : bool) (attempt : Z) : Route :=
  if permanent then mkRoute TopicDLQ 0 ReasonPermanent
  else if attempt <=? 1 then mkRoute TopicRetry10s (RetryDelays TopicRetry10s) ""
  else if attempt <? MaxAttempts then mkRoute TopicRetry60s (RetryDelays TopicRetry60s) ""
  else mkRoute TopicDLQ 0 ReasonExhausted.

(** ** Records and headers *)

Record RecordHeader := mkHeader { hd_Key : string; hd_Value : string }.

Record KRecord := mkRecord {
  rec_Topic : string; rec_Key : string; rec_Value : string; rec_Headers : list RecordHeader;
  rec_Partition : Z; rec_Offset : Z }.

Definition HeaderAttempt : string := "x-attempt".
Definition HeaderNotBefore : string := "x-not-before".
Definition HeaderFirstError : string := "x-first-error".
Definition HeaderDLQReason : string := "x-dlq-reason".

Definition maxFirstErrorBytes : Z := 512.

Record Delivery := mkDelivery {
  d_Topic : string; d_Partition : Z; d_Offset : Z; d_Key : string; d_Value : string;
  d_Msg : option AnalysisTaskMsg; d_DecodeErr : option gerror;
  d_Attempt : Z; d_NotBefore : Z; d_FirstError : string }.

(** [json.Unmarshal] into a nil [*AnalysisTaskMsg] (the JSON text [null] leaves it nil) and
    [json.Marshal]. *)
Class MsgCodec := {
  unmarshalMsg : string -> res (option AnalysisTaskMsg);
  marshalMsg : AnalysisTaskMsg -> res string }.

Fixpoint header_in (hs : list RecordHeader) (key : string) : option string :=
  match hs with
  | [] => None
  | h :: rest => if String.eqb (hd_Key h) key then Some (hd_Value h) else header_in rest key
  end.

(** [header]: the first header with the key. *)
Definition header (rec : KRecord) (key : string) : option string := header_in (rec_Headers rec) key.

Definition DecodeRecord `{MsgCodec} (rec : KRecord) : Delivery :=
  let '(msg, decodeErr) :=
    match unmarshalMsg (rec_Value rec) with
    | Ok m => (m, None)
    | Err e => (None, Some e)
    end in
  let attempt :=
    match header rec HeaderAttempt with
    | Some v => match Atoi v with Some n => if 0 <? n then n else 1 | None => 1 end
    | None => 1
    end in
  let notBefore :=
    match header rec HeaderNotBefore with
    | Some v => match ParseInt 64 v with
                | Some ms => if 0 <? ms then of_UnixMilli ms else zero_time
                | None => zero_time
                end
    | None => zero_time
    end in
  let firstError := match header rec HeaderFirstError with Some v => v | None => "" end in
  mkDelivery (rec_Topic rec) (rec_Partition rec) (rec_Offset rec) (rec_Key rec) (rec_Value rec)
    msg decodeErr attempt notBefore firstError.

(** Drop bytes from the end until what is left is valid UTF-8 ([k] bytes are left). *)
Fixpoint shrink_valid (k : nat) (s : string) : string :=
  let t := str_take k s in
  if ValidString t then t
  else match k with O => t | S k' => shrink_valid k' s end.

Definition truncateBytes (s : string) (n : Z) : string :=
  if strlen s <=? n then s else shrink_valid (Z.to_nat n) s.

Definition taskHeaders (attempt notBefore : Z) (firstError : string) (extra : list RecordHeader)
  : list RecordHeader :=
  [mkHeader HeaderAttempt (Itoa attempt)]
  ++ (if IsZero notBefore then [] else [mkHeader HeaderNotBefore (FormatInt (UnixMilli notBefore))])
  ++ (if String.eqb firstError "" then []
      else [mkHeader HeaderFirstError (truncateBytes firstError maxFirstErrorBytes)])
  ++ extra.

(** ** The Kafka client's options *)

Inductive Acks := NoAcks | LeaderAcks | AllISRAcks.
Inductive ResetOffset := AtStart | AtEnd.

(** Those the code uses; hooks are for metrics and traces. *)
Inductive KgoOpt :=
| SeedBrokers (brokers : list string) | ClientID (id : string)
| RequiredAcks (acks : Acks) | RecordDeliveryTimeout (d : Z) | ProducerLinger (d : Z)
| ConsumerGroupOpt (group : string) | ConsumeTopics (topics : list string)
| DisableAutoCommit | ConsumeResetOffset (o : ResetOffset) | BlockRebalanceOnPoll.

(** What the client does by its options: an acknowledgement means that the record is on all replicas in sync; the
    polled offsets are committed without being told; where a partition without a committed offset is read
    from. Without an option the client's default counts. *)
Definition durable (opts : list KgoOpt) : bool :=
  forallb (fun o => match o with RequiredAcks AllISRAcks => true | RequiredAcks _ => false | _ => true end) opts.
Definition autoCommits (opts : list KgoOpt) : bool :=
  negb (existsb (fun o => match o with DisableAutoCommit => true | _ => false end) opts).
Definition readsFrom (opts : list KgoOpt) : ResetOffset :=
  fold_left (fun at_ o => match o with ConsumeResetOffset o => o | _ => at_ end) opts AtStart.
Definition blocksRebalances (opts : list KgoOpt) : bool :=
  existsb (fun o => match o with BlockRebalanceOnPoll => true | _ => false end) opts.

(** ** Producing a first attempt (producer.go) *)

Definition ProducerOptions (brokers : list string) : list KgoOpt :=
  [SeedBrokers brokers; ClientID "server-go"; RequiredAcks AllISRAcks; RecordDeliveryTimeout (15 * second); ProducerLinger 0].

Inductive ProducerE : Type -> Type :=
| ProduceSync (ctx : Context) (rec : KRecord) : ProducerE (res unit).

(** [Producer.Produce]. *)
Definition Produce (ctx : Context) (rec : KRecord) : proc ProducerE (res unit) :=
  call (ProduceSync ctx rec).

Definition PublishTask `{MsgCodec} (ctx : Context) (msg : AnalysisTaskMsg) : proc ProducerE (res unit) :=
  match marshalMsg msg with
  | Err e => Ret (Err e)
  | Ok body =>
      let key := match msg_ContentHash msg with Some h => h | None => "" end in
      Produce ctx (mkRecord TopicAnalysis key body (taskHeaders 1 zero_time "" []) 0 0)
  end.

(** ** Lemmas *)

Lemma shrink_valid_spec k s :
  exists j, (j <= k)%nat /\ shrink_valid k s = str_take j s /\ ValidString (str_take j s) = true
    /\ (forall i, (j < i <= k)%nat -> ValidString (str_take i s) = false).
Proof.
  induction k as [|k (j & Hj & IH & Hv & Hmax)].
  - exists 0%nat. cbn [shrink_valid str_take]. change (ValidString "") with true.
    repeat split; try done; lia.
  - cbn [shrink_valid]. destruct (ValidString (str_take (S k) s)) eqn:E.
    + exists (S k). repeat split; try done; lia.
    + exists j. repeat split; try done; [lia|]. intros i Hi.
      destruct (decide (i = S k)) as [->|]; [done|]. apply Hmax. lia.
Qed.

Lemma str_take_app_ge w j s t :
  w = String.length s -> str_take (w + j) (s +:+ t) = s +:+ str_take j t.
Proof.
  intros ->. induction s as [|a s IH]; [done|].
  change (String a s +:+ t) with (String a (s +:+ t)). cbn [String.length str_take Nat.add].
  by rewrite IH.
Qed.

Lemma decode_rune_width a r c rest :
  decode_rune a r = (c, rest) -> (String.length (ck_text c) <= 4)%nat.
Proof. intros H. decode_cases; lia. Qed.

(** Within three bytes of any position of valid text there is an earlier valid cut. *)
Lemma valid_boundary s : ValidString s = true ->
  forall k, (k <= String.length s)%nat ->
  exists j, (j <= k <= j + 3)%nat /\ ValidString (str_take j s) = true.
Proof.
  unfold ValidString. induction s as [|a r IH] using chunks_ind; intros Hv k Hk.
  - exists 0%nat. simpl in *. split; [lia|done].
  - rewrite chunks_cons in Hv. destruct (decode_rune a r) as [c rest] eqn:E. simpl in Hv, IH.
    apply andb_prop in Hv as [Hc Hv].
    pose proof (decode_rune_text _ _ _ _ E) as Htext.
    pose proof (decode_rune_width _ _ _ _ E) as Hw.
    destruct (decode_rune_nonempty _ _ _ _ E) as [t Ht].
    destruct (decide (k < String.length (ck_text c))%nat) as [Hlt|Hge].
    + exists 0%nat. split; [lia|done].
    + rewrite <- Htext, str_app_length in Hk.
      destruct (IH Hv (k - String.length (ck_text c))%nat ltac:(lia)) as (j & Hj & Hvj).
      exists (String.length (ck_text c) + j)%nat. split; [lia|].
      rewrite <- Htext, str_take_app_ge, Ht by done.
      change (String a t +:+ str_take j rest) with (String a (t +:+ str_take j rest)).
      rewrite chunks_cons, (decode_rune_cut _ _ _ _ t (str_take j rest) (str_drop j rest) E).
      * simpl. by rewrite Hc, Hvj.
      * by rewrite str_take_drop.
      * done.
Qed.

Lemma header_in_app hs hs' k :
  header_in (hs ++ hs') k = match header_in hs k with Some v => Some v | None => header_in hs' k end.
Proof.
  induction hs as [|h hs IH]; simpl; [done|]. by destruct (String.eqb (hd_Key h) k).
Qed.

Lemma header_in_taskHeaders a nb fe extra k :
  header_in (taskHeaders a nb fe extra) k =
    if String.eqb HeaderAttempt k then Some (Itoa a)
    else if String.eqb HeaderNotBefore k && negb (IsZero nb) then Some (FormatInt (UnixMilli nb))
    else if String.eqb HeaderFirstError k && negb (String.eqb fe "")
         then Some (truncateBytes fe maxFirstErrorBytes)
    else header_in extra k.
Proof.
  unfold taskHeaders. rewrite !header_in_app. cbn [header_in hd_Key].
  destruct (String.eqb HeaderAttempt k); [done|].
  destruct (IsZero nb); cbn [header_in hd_Key]; rewrite ?andb_false_r, ?andb_true_r;
    destruct (String.eqb HeaderNotBefore k);
    destruct (String.eqb fe ""); cbn [header_in hd_Key]; rewrite ?andb_false_r, ?andb_true_r;
    destruct (String.eqb HeaderFirstError k); done.
Qed.

Lemma RouteFailure_cases permanent attempt :
  RouteFailure permanent attempt =
    if permanent then mkRoute TopicDLQ 0 ReasonPermanent
    else if attempt <? MaxAttempts then RouteFailure false attempt
    else mkRoute TopicDLQ 0 ReasonExhausted.
Proof.
  unfold RouteFailure, MaxAttempts. destruct permanent; [done|].
  destruct (Z.leb_spec attempt 1), (Z.ltb_spec attempt 3); try done; lia.
Qed.

(** A transient failure below the limit goes to a retry topic with that topic's delay. *)
Lemma RouteFailure_retry attempt :
  attempt < MaxAttempts ->
  let r := RouteFailure false attempt in
  (rt_Topic r = TopicRetry10s \/ rt_Topic r = TopicRetry60s)
  /\ rt_Delay r = RetryDelays (rt_Topic r) /\ 10 * second <= rt_Delay r
  /\ String.eqb (rt_Topic r) TopicDLQ = false.
Proof.
  intros H r. subst r. unfold RouteFailure. destruct (Z.leb_spec attempt 1).
  - split; [by left|]. by vm_compute.
  - destruct (Z.ltb_spec attempt MaxAttempts); [|lia]. split; [by right|]. by vm_compute.
Qed.

(** ** Properties *)

(** The first-error header keeps as much of the message as fits: the result is a prefix of at most
    [n] bytes; when the message had to be cut it is valid UTF-8, no longer prefix within the limit is,
    and at most three bytes of the limit are lost when the message itself was valid UTF-8. *)
Theorem truncateBytes_spec (s : string) (n : Z) :
  0 <= n ->
  exists j, truncateBytes s n = str_take j s /\ strlen (truncateBytes s n) <= n
    /\ (strlen s <= n -> truncateBytes s n = s)
    /\ (n < strlen s ->
          ValidString (truncateBytes s n) = true
          /\ (forall i, (j < i)%nat -> Z.of_nat i <= n -> ValidString (str_take i s) = false)
          /\ (ValidString s = true -> n - 3 <= Z.of_nat j)).
Proof.
  intros Hn. unfold truncateBytes, strlen. destruct (Z.leb_spec (Z.of_nat (String.length s)) n) as [Hle|Hgt].
  - exists (String.length s). rewrite str_take_all by lia. repeat split; try done; lia.
  - destruct (shrink_valid_spec (Z.to_nat n) s) as (j & Hj & Heq & Hv & Hmax).
    exists j. rewrite Heq. pose proof (str_take_length j s).
    split; [done|]. split; [lia|]. split; [lia|]. intros _. split; [done|]. split.
    + intros i Hi Hin. apply Hmax. lia.
    + intros Hs. destruct (valid_boundary s Hs (Z.to_nat n) ltac:(lia)) as (j' & Hj' & Hv').
      destruct (decide (j < j')%nat) as [Hlt|]; [|lia].
      rewrite Hmax in Hv' by lia. done.
Qed.

Lemma truncateBytes_spec_witness :
  0 <= 4 /\ exists j, truncateBytes "消息体" 4 = str_take j "消息体" /\ strlen (truncateBytes "消息体" 4) <= 4
    /\ (strlen "消息体" <= 4 -> truncateBytes "消息体" 4 = "消息体")
    /\ (4 < strlen "消息体" ->
          ValidString (truncateBytes "消息体" 4) = true
          /\ (forall i, (j < i)%nat -> Z.of_nat i <= 4 -> ValidString (str_take i "消息体") = false)
          /\ (ValidString "消息体" = true -> 4 - 3 <= Z.of_nat j)).
Proof. split; [lia|]. apply (truncateBytes_spec "消息体" 4). lia. Defined.

(** Task headers survive the broker: decoding a record built with [taskHeaders] gives back the
    attempt number, the due time (cut to the millisecond, so never later and less than 1 ms early) and
    the first error (cut to 512 bytes), with key and value untouched. *)
Theorem taskHeaders_decode `{MsgCodec} (topic key value fe : string) (a nb p off : Z)
    (extra : list RecordHeader) :
  0 < a -> int_ok 64 a = true ->
  0 < UnixMilli nb -> int_ok 64 (UnixMilli nb) = true ->
  header_in extra HeaderFirstError = None ->
  let d := DecodeRecord (mkRecord topic key value (taskHeaders a nb fe extra) p off) in
  d_Attempt d = a /\ d_NotBefore d <= nb < d_NotBefore d + millisecond
  /\ d_FirstError d = truncateBytes fe maxFirstErrorBytes
  /\ d_Key d = key /\ d_Value d = value /\ d_Topic d = topic.
Proof.
  intros Ha Hok Hnb Hnbok Hextra d. subst d. unfold DecodeRecord, header. cbn [rec_Headers rec_Value].
  assert (IsZero nb = false) as Hz.
  { apply Z.eqb_neq. intros ->. vm_compute in Hnb. discriminate. }
  rewrite !header_in_taskHeaders, Hz.
  change (String.eqb HeaderAttempt HeaderAttempt) with true.
  change (String.eqb HeaderAttempt HeaderNotBefore) with false.
  change (String.eqb HeaderAttempt HeaderFirstError) with false.
  change (String.eqb HeaderNotBefore HeaderNotBefore) with true.
  change (String.eqb HeaderNotBefore HeaderFirstError) with false.
  change (String.eqb HeaderFirstError HeaderFirstError) with true.
  cbn [negb andb]. rewrite Atoi_Itoa, ParseInt_FormatInt by done.
  replace (0 <? a) with true by lia. replace (0 <? UnixMilli nb) with true by lia.
  destruct (unmarshalMsg value); cbn [d_Attempt d_NotBefore d_FirstError d_Key d_Value d_Topic rec_Key rec_Topic];
    (split; [done|]; split;
      [ unfold of_UnixMilli, UnixMilli, millisecond;
        pose proof (Z.div_mod nb 1000000); pose proof (Z.mod_pos_bound nb 1000000); lia
      | destruct (String.eqb_spec fe "") as [->|]; cbn [negb]; rewrite ?Hextra; done ]).
Qed.

#[local] Instance example_codec : MsgCodec := {
  unmarshalMsg := fun _ => Ok None; marshalMsg := fun _ => Ok "{}" }.

Lemma taskHeaders_decode_witness :
  let d := DecodeRecord (mkRecord TopicRetry10s "k" "v"
             (taskHeaders 2 (of_UnixMilli 1700000000000 + 5) "boom" []) 0 0) in
  d_Attempt d = 2
  /\ d_NotBefore d <= of_UnixMilli 1700000000000 + 5 < d_NotBefore d + millisecond
  /\ d_FirstError d = truncateBytes "boom" maxFirstErrorBytes
  /\ d_Key d = "k" /\ d_Value d = "v" /\ d_Topic d = TopicRetry10s.
Proof.
  apply (taskHeaders_decode TopicRetry10s "k" "v" "boom" 2 (of_UnixMilli 1700000000000 + 5) 0 0 []);
    first [lia | reflexivity | vm_compute; reflexivity].
Defined.
