(* ===== verification/AgentClient.v ===== *)
(** * The gRPC client of the agent service (internal/agentclient)

    The domain-typed answers of the client, the mapping of gRPC statuses to the error taxonomy and the
    conversions between protocol messages and the domain types. *)

From S2P Require Import Prelude GoStrings Proc Errors Model GoContext.

Local Open Scope string_scope.
Local Open Scope list_scope.
Local Open Scope Z_scope.

(** ** Domain-typed answers (client.go) *)

Record ResultResponse := mkResultResponse {
  rr_Found : bool; rr_Markdown : option string; rr_TaskStatus : option TaskStatus }.

Record ReuseResponse := mkReuseResponse {
  ru_Reused : bool; ru_Markdown : option string; ru_TaskStatus : option TaskStatus }.

Record RunResult := mkRunResult { rn_Markdown : string; rn_Round : Z; rn_TaskStatus : TaskStatus }.

Record StageSeed := mkStageSeed { sd_DurationMs : Z; sd_Success : bool }.

Record TelemetrySeed := mkTelemetrySeed {
  tm_TraceID : string; tm_Stages : gmap string StageSeed; tm_Counters : gmap string Z }.

Record RunRequest := mkRunRequest {
  rq_MediaID : Z; rq_Goal : string; rq_Mode : AnalysisMode; rq_TelemetrySeed : option TelemetrySeed }.

Record EvidenceHit := mkEvidenceHit {
  eh_StartMs : Z; eh_EndMs : Z; eh_Source : string; eh_Snippet : string; eh_Transcript : string;
  eh_OcrTexts : list string }.

Record Plan := mkPlan { pl_UnderstoodGoal : string; pl_Tasks : list string }.
