(* ===== verification/Consumer.v ===== *)
(** * The analysis task consumer (internal/mq/consumer.go)

    [Handle] and everything below it, over the interface [ConsumerE] of what the [Consumer] struct
    holds: Redis, the lock factory, the analyzer, the agent, the stage store, the record publisher, the
    failure ledger, the media service, the event hub and the clock.  The watcher goroutine that turns a
    lost lease into a cancelled context is the [LeaseLost] source of the working context.  Log lines and
    metric counters are not calls here. *)

From S2P Require Import Prelude GoStrings Proc Errors Model GoContext TaskKeys Sanitize Routing AgentClient.

Local Open Scope string_scope.
Local Open Scope list_scope.
Local Open Scope Z_scope.

Definition activeTTL : Z := 6 * hour.
Definition completedTTL : Z := 7 * 24 * hour.

Inductive Outcome :=
| OutcomeSuccess | OutcomeSkipped | OutcomeRetry | OutcomeDLQ | OutcomeBudget | OutcomePoison.

#[export] Instance Outcome_eq_dec : EqDecision Outcome.
Proof. solve_decision. Defined.

(** ** The consumer's dependencies *)

Inductive ConsumerE : Type -> Type :=
| RdbDel (ctx : Context) (key : string) : ConsumerE (res unit)
| RdbExpire (ctx : Context) (key : string) (ttl : Z) : ConsumerE (res unit)
| RdbGet (ctx : Context) (key : string) : ConsumerE (res (option string)) (* Ok None: redis.Nil *)
| RdbSet (ctx : Context) (key value : string) (ttl : Z) : ConsumerE (res unit)
| LockerTryLock (ctx : Context) (key : string) (wait : Z) : ConsumerE (res (option Lock))
| LockIsHeld (l : Lock) : ConsumerE bool
| LockUnlock (ctx : Context) (l : Lock) : ConsumerE (res unit)
| AnalyzerAsyncAnalyze (ctx : Context) (mediaID : Z) (goal : string) (mode : AnalysisMode)
  : ConsumerE (res unit)
| AnalyzerReuseResult (ctx : Context) (mediaID sourceMediaID : Z) (goal : string) (mode : AnalysisMode)
  : ConsumerE (res ReuseResponse)
| AgentResult (ctx : Context) (mediaID : Z) (goal : string) (mode : AnalysisMode)
  : ConsumerE (res ResultResponse)
| AgentBeginRevision (ctx : Context) (mediaID : Z) (goal : string) (mode : AnalysisMode)
  : ConsumerE (res bool)
| AgentCompleteRevision (ctx : Context) (mediaID : Z) (goal : string) (mode : AnalysisMode)
  : ConsumerE (res unit)
| StagesSaveStage (ctx : Context) (mediaID : Z) (goal : string) (mode : AnalysisMode) (stage : TaskStage)
  : ConsumerE (res unit)
| PublisherProduce (ctx : Context) (rec : KRecord) : ConsumerE (res unit)
| LedgerRecord (ctx : Context) (msg : AnalysisTaskMsg) (attempts : Z) (cause : gerror)
  : ConsumerE (res unit)
| MediaExists (ctx : Context) (mediaID : Z) : ConsumerE (res bool)
| MediaPurgeRuntimeArtifacts (ctx : Context) (mediaID : Z) : ConsumerE unit
| EventsPublishAnalysis (ctx : Context) (mediaID : Z) (goal : string) (mode : AnalysisMode)
    (status : TaskStatus) (stage : TaskStage) : ConsumerE (res unit)
| ClockNow : ConsumerE Z.

(** ** Message validation *)

Definition deref_null (s : option string) : string := match s with Some v => v | None => "null" end.

Definition RejectionReason (msg : option AnalysisTaskMsg) : string :=
  match msg with
  | None => "消息体为空"
  | Some m =>
      match msg_MediaID m with
      | None => "缺少 mediaId"
      | Some _ =>
          if match msg_UserGoal m with None => true | Some g => is_blank g end then "缺少分析目标"
          else if negb (HasSupportedAction m) then "不支持的 action=" +:+ deref_null (msg_Action m)
          else ""
      end
  end.

(** ** Best-effort bookkeeping: errors are logged and dropped *)

Definition saveStage (ctx : Context) (mediaID : Z) (goal : string) (mode : AnalysisMode)
    (stage : TaskStage) : proc ConsumerE unit :=
  Do (StagesSaveStage ctx mediaID goal mode stage) (fun _ => Ret tt).

Definition publish (ctx : Context) (mediaID : Z) (goal : string) (mode : AnalysisMode)
    (st : TaskStatus) (stage : TaskStage) : proc ConsumerE unit :=
  Do (EventsPublishAnalysis ctx mediaID goal mode st stage) (fun _ => Ret tt).

(** ** One attempt under the lock *)

Definition tryReuse (ctx : Context) (mediaID : Z) (goal : string) (mode : AnalysisMode)
    (completedKey completedMediaID : string) : proc ConsumerE (res bool) :=
  let forget := Do (RdbDel ctx completedKey) (fun r =>
    match r with Ok _ => Ret (Ok false) | Err e => Ret (Err e) end) in
  match ParseInt 64 completedMediaID with
  | None => Do (RdbDel ctx completedKey) (fun _ => forget)
  | Some sourceID =>
      src ←? call (AgentResult ctx sourceID goal mode);
      if rr_Found src then
        reuse ←? call (AnalyzerReuseResult ctx mediaID sourceID goal mode);
        if ru_Reused reuse then
          let status := match ru_TaskStatus reuse with Some st => Some st | None => rr_TaskStatus src end in
          match status with
          | Some st =>
              _ ←? call (EventsPublishAnalysis ctx mediaID goal mode st StageCompletedReused);
              Ret (Ok true)
          | None => Ret (Ok true)
          end
        else forget
      else forget
  end.

(** The part of [process] after the message's own preparation. *)
Definition analyse (ctx : Context) (msg : AnalysisTaskMsg) (mediaID : Z) (goal : string)
    (mode : AnalysisMode) (completedKey : string) : proc ConsumerE (res Outcome) :=
  bind (saveStage ctx mediaID goal mode StageConsuming) (fun _ =>
  _ ←? call (AnalyzerAsyncAnalyze ctx mediaID goal mode);
  _ ←? (if IsRevision msg then call (AgentCompleteRevision ctx mediaID goal mode) else Ret (Ok tt));
  there ←? call (MediaExists ctx mediaID);
  if negb there then
    Do (MediaPurgeRuntimeArtifacts ctx mediaID) (fun _ => Ret (Ok OutcomeSuccess))
  else
    _ ←? call (RdbSet ctx completedKey (FormatInt mediaID) completedTTL);
    out ←? call (AgentResult ctx mediaID goal mode);
    match rr_Found out, rr_TaskStatus out with
    | true, Some st =>
        _ ←? call (EventsPublishAnalysis ctx mediaID goal mode st StageCompleted);
        Ret (Ok OutcomeSuccess)
    | _, _ => Ret (Ok OutcomeSuccess)
    end).

Definition process (ctx : Context) (msg : AnalysisTaskMsg) (mediaID : Z) (goal : string)
    (mode : AnalysisMode) (completedKey : string) : proc ConsumerE (res Outcome) :=
  there ←? call (MediaExists ctx mediaID);
  if negb there then Ret (Ok OutcomeSkipped)
  else
    _ ←? call (EventsPublishAnalysis ctx mediaID goal mode
                 (StatusOf StateProcessing "视频分析任务开始执行") StageConsuming);
    if IsRevision msg then
      begun ←? call (AgentBeginRevision ctx mediaID goal mode);
      if negb begun then Ret (Err (Internal "修订任务状态不存在，等待重试" None))
      else
        _ ←? call (RdbDel ctx completedKey);
        analyse ctx msg mediaID goal mode completedKey
    else
      found ←? call (RdbGet ctx completedKey);
      match found with
      | None => analyse ctx msg mediaID goal mode completedKey
      | Some completedMediaID =>
          reused ←? tryReuse ctx mediaID goal mode completedKey completedMediaID;
          if reused : bool then Ret (Ok OutcomeSuccess)
          else analyse ctx msg mediaID goal mode completedKey
      end.

(** ** Ends of a delivery *)

Definition deadLetter (ctx : Context) (d : Delivery) (attempt : Z) (firstError reason : string)
  : proc ConsumerE (res unit) :=
  call (PublisherProduce ctx
    (mkRecord TopicDLQ (d_Key d) (d_Value d)
       (taskHeaders attempt zero_time firstError [mkHeader HeaderDLQReason reason]) 0 0)).

Fixpoint budget_msg (e : gerror) : option string :=
  match e with
  | TypedErr KindBudgetExhausted _ msg _ => Some msg
  | TypedErr _ _ _ (Some c) | OtherErr _ _ (Some c) => budget_msg c
  | _ => None
  end.

Definition budgetMessage (e : gerror) : string :=
  match budget_msg e with
  | Some m => if is_blank m then "Agent 已达到本次任务预算" else m
  | None => "Agent 已达到本次任务预算"
  end.

Section consumer.
Context `{Sha256}.

Definition releasePoisonTaskState (ctx : Context) (msg : AnalysisTaskMsg) : proc ConsumerE unit :=
  match msg_MediaID msg, msg_UserGoal msg with
  | Some mediaID, Some goal =>
      if is_blank goal then Ret tt
      else
        let mode := ModeFromNullable (deref (msg_Mode msg)) in
        let contentHash := NormalizeContentHash mediaID (deref (msg_ContentHash msg)) in
        match GoalDigest goal mode with
        | Err _ => Ret tt
        | Ok digest =>
            Do (RdbDel ctx (Active contentHash digest)) (fun r =>
              match r with
              | Err _ => Ret tt
              | Ok _ =>
                  bind (saveStage ctx mediaID goal mode StageDeadLettered) (fun _ =>
                  publish ctx mediaID goal mode (StatusOf StateFailed "任务消息非法，已终止") StageDeadLettered)
              end)
        end
  | _, _ => Ret tt
  end.

Definition discardPoison (ctx : Context) (d : Delivery) (reason : string) : proc ConsumerE (res Outcome) :=
  let msg := match d_Msg d with Some m => m | None => emptyMsg end in
  let cause := InvalidArgument ("invalid video analysis message: " +:+ reason) in
  Do (LedgerRecord ctx msg 0 cause) (fun r1 =>
  let recorded := match r1 with Ok _ => true | Err _ => false end in
  bind (deadLetter ctx d (d_Attempt d) ("INVALID_ARGUMENT: " +:+ reason) ReasonPoison) (fun r2 =>
  let deadLettered := match r2 with Ok _ => true | Err _ => false end in
  if negb recorded && negb deadLettered then
    Ret (Err (Internal "毒消息无法收敛：失败台账与死信主题均不可用，暂不提交位点" (Some cause)))
  else bind (releasePoisonTaskState ctx msg) (fun _ => Ret (Ok OutcomePoison)))).

(** The keys and parameters [Handle] derives from an acceptable message. *)
Record Task := mkTask {
  t_Msg : AnalysisTaskMsg; t_MediaID : Z; t_Goal : string; t_Mode : AnalysisMode;
  t_ActiveKey : string; t_CompletedKey : string; t_LockKey : string }.

(** The closure that takes the lock and runs the attempt: the lock it leaves held, and its result. *)
Definition attemptBody (ctx : Context) (t : Task) : proc ConsumerE (option Lock * res Outcome) :=
  Do (LockerTryLock ctx (t_LockKey t) 0) (fun r =>
    match r with
    | Err e => Ret (None, Err e)
    | Ok None => Ret (None, Ok OutcomeSkipped)
    | Ok (Some l) =>
        bind (process (WithSource (LeaseLost l) ctx) (t_Msg t) (t_MediaID t) (t_Goal t) (t_Mode t)
                (t_CompletedKey t)) (fun o => Ret (Some l, o))
    end).

(** What follows a failed attempt. *)
Definition conclude (ctx : Context) (d : Delivery) (t : Task) (bodyErr : gerror)
  : proc ConsumerE (res Outcome) :=
  let bg := WithoutCancel ctx in
  let attempt := Z.max (d_Attempt d) 1 in
  if Has (Some bodyErr) KindBudgetExhausted then
    Do (RdbDel bg (t_ActiveKey t)) (fun _ =>
    bind (saveStage bg (t_MediaID t) (t_Goal t) (t_Mode t) StageBudgetExhausted) (fun _ =>
    bind (publish bg (t_MediaID t) (t_Goal t) (t_Mode t)
            (StatusOf StateFailed (budgetMessage bodyErr)) StageBudgetExhausted) (fun _ =>
    Ret (Ok OutcomeBudget))))
  else
    let route := RouteFailure (IsPermanentFailure (Some bodyErr)) attempt in
    let firstError :=
      if String.eqb (d_FirstError d) ""
      then CodeOf (Some bodyErr) +:+ ": " +:+ SanitizeError (Describe (Some bodyErr))
      else d_FirstError d in
    if negb (String.eqb (rt_Topic route) TopicDLQ) then
      Do ClockNow (fun now =>
      Do (PublisherProduce ctx
            (mkRecord (rt_Topic route) (d_Key d) (d_Value d)
               (taskHeaders (attempt + 1) (now + rt_Delay route) firstError []) 0 0)) (fun r =>
      match r with
      | Err e => Ret (Err (wrapf ("forward to " +:+ rt_Topic route) e))
      | Ok _ =>
          Do (RdbExpire bg (t_ActiveKey t) activeTTL) (fun _ =>
          bind (saveStage bg (t_MediaID t) (t_Goal t) (t_Mode t) StageRetrying) (fun _ =>
          bind (publish bg (t_MediaID t) (t_Goal t) (t_Mode t)
                  (StatusOf StateProcessing "本次执行失败，等待自动重试") StageRetrying) (fun _ =>
          Ret (Ok OutcomeRetry))))
      end))
    else
      Do (LedgerRecord bg (t_Msg t) attempt bodyErr) (fun _ =>
      _ ←? deadLetter ctx d attempt firstError (rt_Reason route);
      Do (RdbDel bg (t_ActiveKey t)) (fun _ =>
      bind (saveStage bg (t_MediaID t) (t_Goal t) (t_Mode t) StageDeadLettered) (fun _ =>
      bind (publish bg (t_MediaID t) (t_Goal t) (t_Mode t)
              (StatusOf StateFailed "分析失败，已进入人工处理队列") StageDeadLettered) (fun _ =>
      Ret (Ok OutcomeDLQ))))).

(** The deferred function. *)
Definition releaseLock (bg : Context) (lock : option Lock) : proc ConsumerE unit :=
  match lock with
  | None => Ret tt
  | Some l => Do (LockIsHeld l) (fun held =>
      if held : bool then Do (LockUnlock bg l) (fun _ => Ret tt) else Ret tt)
  end.

Definition Handle (ctx : Context) (d : Delivery) : proc ConsumerE (res Outcome) :=
  let reason :=
    match d_DecodeErr d with
    | Some e => "消息无法解析: " +:+ ErrorString e
    | None => RejectionReason (d_Msg d)
    end in
  if negb (String.eqb reason "") then discardPoison ctx d reason
  else
    match d_Msg d with
    | None => Panic "nil message"
    | Some msg =>
        match msg_MediaID msg, msg_UserGoal msg with
        | Some mediaID, Some goal =>
            let mode := ModeFromNullable (deref (msg_Mode msg)) in
            let contentHash := NormalizeContentHash mediaID (deref (msg_ContentHash msg)) in
            match GoalDigest goal mode with
            | Err e => discardPoison ctx d (ErrorString e)
            | Ok digest =>
                let t := mkTask msg mediaID goal mode (Active contentHash digest)
                           (CompletedKey contentHash digest) (LockKey contentHash digest) in
                let bg := WithoutCancel ctx in
                bind (attemptBody ctx t) (fun '(lock, r) =>
                bind (match r with
                      | Ok outcome =>
                          match lock with
                          | Some _ => Do (RdbDel bg (t_ActiveKey t)) (fun _ => Ret (Ok outcome))
                          | None => Ret (Ok outcome)
                          end
                      | Err bodyErr => conclude ctx d t bodyErr
                      end) (fun out =>
                bind (releaseLock bg lock) (fun _ => Ret out)))
            end
        | _, _ => Panic "nil field"
        end
    end.

End consumer.

(** ** Specification vocabulary *)

(** The records the broker acknowledged. *)
Definition produced : trace ConsumerE -> list KRecord :=
  select (fun X c =>
    match c in ConsumerE X return X -> option KRecord with
    | PublisherProduce _ rec => fun r => match r with Ok _ => Some rec | Err _ => None end
    | _ => fun _ => None
    end).

Inductive keyop := KDel | KExpire (ttl : Z) | KGet | KSet (value : string) (ttl : Z).

(** What is done to one Redis key, in order, and under which context. *)
Definition keyops (k : string) : trace ConsumerE -> list (Context * keyop) :=
  select (fun X c =>
    match c in ConsumerE X return X -> option (Context * keyop) with
    | RdbDel ctx key => fun _ => if String.eqb key k then Some (ctx, KDel) else None
    | RdbExpire ctx key ttl => fun _ => if String.eqb key k then Some (ctx, KExpire ttl) else None
    | RdbGet ctx key => fun _ => if String.eqb key k then Some (ctx, KGet) else None
    | RdbSet ctx key v ttl => fun _ => if String.eqb key k then Some (ctx, KSet v ttl) else None
    | _ => fun _ => None
    end).

(** Steps of an attempt that took effect, in order. *)
Inductive milestone :=
| RevisionBegun | ResultForgotten | ResultReused | Analysed | RevisionCompleted
| ResultRecorded (value : string) (ttl : Z) | Purged.

Definition milestones (k : string) : trace ConsumerE -> list milestone :=
  select (fun X c =>
    match c in ConsumerE X return X -> option milestone with
    | AgentBeginRevision _ _ _ _ => fun r => match r with Ok true => Some RevisionBegun | _ => None end
    | AgentCompleteRevision _ _ _ _ => fun r => match r with Ok _ => Some RevisionCompleted | _ => None end
    | AnalyzerAsyncAnalyze _ _ _ _ => fun r => match r with Ok _ => Some Analysed | _ => None end
    | AnalyzerReuseResult _ _ _ _ _ => fun r =>
        match r with Ok u => if ru_Reused u then Some ResultReused else None | _ => None end
    | RdbDel _ key => fun r =>
        match r with Ok _ => if String.eqb key k then Some ResultForgotten else None | _ => None end
    | RdbSet _ key v ttl => fun r =>
        match r with Ok _ => if String.eqb key k then Some (ResultRecorded v ttl) else None | _ => None end
    | MediaPurgeRuntimeArtifacts _ _ => fun _ => Some Purged
    | _ => fun _ => None
    end).

(** The context a call runs under. *)
Definition ctxOf {X} (c : ConsumerE X) : option Context :=
  match c with
  | RdbDel ctx _ | RdbExpire ctx _ _ | RdbGet ctx _ | RdbSet ctx _ _ _ | LockerTryLock ctx _ _
  | LockUnlock ctx _ | AnalyzerAsyncAnalyze ctx _ _ _ | AnalyzerReuseResult ctx _ _ _ _
  | AgentResult ctx _ _ _ | AgentBeginRevision ctx _ _ _ | AgentCompleteRevision ctx _ _ _
  | StagesSaveStage ctx _ _ _ _ | PublisherProduce ctx _ | LedgerRecord ctx _ _ _ | MediaExists ctx _
  | MediaPurgeRuntimeArtifacts ctx _ | EventsPublishAnalysis ctx _ _ _ _ _ => Some ctx
  | LockIsHeld _ | ClockNow => None
  end.

(** The task an acceptable delivery describes, or the reason it is rejected. *)
Definition taskOf `{Sha256} (d : Delivery) : result string Task :=
  let reason :=
    match d_DecodeErr d with
    | Some e => "消息无法解析: " +:+ ErrorString e
    | None => RejectionReason (d_Msg d)
    end in
  if negb (String.eqb reason "") then Err reason
  else
    match d_Msg d with
    | Some msg =>
        let mediaID := match msg_MediaID msg with Some id => id | None => 0 end in
        let mode := ModeFromNullable (deref (msg_Mode msg)) in
        let contentHash := NormalizeContentHash mediaID (deref (msg_ContentHash msg)) in
        match GoalDigest (deref (msg_UserGoal msg)) mode with
        | Err e => Err (ErrorString e)
        | Ok digest =>
            Ok (mkTask msg mediaID (deref (msg_UserGoal msg)) mode (Active contentHash digest)
                  (CompletedKey contentHash digest) (LockKey contentHash digest))
        end
    | None => Err ""
    end.

Definition finish `{Sha256} (ctx : Context) (d : Delivery) (t : Task) : proc ConsumerE (res Outcome) :=
  bind (attemptBody ctx t) (fun '(lock, r) =>
  bind (match r with
        | Ok outcome =>
            match lock with
            | Some _ => Do (RdbDel (WithoutCancel ctx) (t_ActiveKey t)) (fun _ => Ret (Ok outcome))
            | None => Ret (Ok outcome)
            end
        | Err bodyErr => conclude ctx d t bodyErr
        end) (fun out =>
  bind (releaseLock (WithoutCancel ctx) lock) (fun _ => Ret out))).

(** The dereferences of [Handle] are guarded: it is the rejection or the attempt, never a panic. *)
Lemma Handle_eq `{Sha256} ctx d :
  Handle ctx d = match taskOf d with
                 | Err reason => discardPoison ctx d reason
                 | Ok t => finish ctx d t
                 end.
Proof.
  unfold Handle, taskOf. destruct (d_DecodeErr d) as [e|]; [done|].
  destruct (negb (String.eqb (RejectionReason (d_Msg d)) "")) eqn:E; [done|].
  apply negb_false_iff, String.eqb_eq in E. unfold RejectionReason in E.
  destruct (d_Msg d) as [m|]; [|done]. destruct (msg_MediaID m); [|done].
  destruct (msg_UserGoal m) as [g|]; [|done]. cbn [deref]. by destruct (GoalDigest g _).
Qed.

(** The records [Handle] writes. *)
Definition firstErrorOf (d : Delivery) (e : gerror) : string :=
  if String.eqb (d_FirstError d) ""
  then CodeOf (Some e) +:+ ": " +:+ SanitizeError (Describe (Some e))
  else d_FirstError d.

Definition retryRecord (d : Delivery) (e : gerror) (now : Z) : KRecord :=
  let attempt := Z.max (d_Attempt d) 1 in
  let route := RouteFailure false attempt in
  mkRecord (rt_Topic route) (d_Key d) (d_Value d)
    (taskHeaders (attempt + 1) (now + rt_Delay route) (firstErrorOf d e) []) 0 0.

Definition deadRecord (d : Delivery) (attempt : Z) (firstError reason : string) : KRecord :=
  mkRecord TopicDLQ (d_Key d) (d_Value d)
    (taskHeaders attempt zero_time firstError [mkHeader HeaderDLQReason reason]) 0 0.

Definition poisonCause (reason : string) : gerror :=
  InvalidArgument ("invalid video analysis message: " +:+ reason).

(** ** Specifications of the parts *)

Lemma produced_app tr tr' : produced (tr ++ tr') = produced tr ++ produced tr'.
Proof. apply select_app. Qed.

Lemma keyops_app k tr tr' : keyops k (tr ++ tr') = keyops k tr ++ keyops k tr'.
Proof. apply select_app. Qed.

Definition under (w : Context) X (c : ConsumerE X) : Prop := ctxOf c = Some w.

(** Calls made after the attempt: the forwarding of the record is under the caller's context, every
    other one is out of reach of cancellation. *)
Definition bookkeeping (ctx : Context) X (c : ConsumerE X) : Prop :=
  match c with
  | PublisherProduce c' _ => c' = ctx
  | ClockNow => True
  | _ => ctxOf c = Some (WithoutCancel ctx)
  end.

Lemma process_under ctx msg id goal mode k : calls (under ctx) (process ctx msg id goal mode k).
Proof. unfold process, tryReuse, analyse, saveStage, under. calls_go. Qed.

Ltac leaf := first
  [ exact I | done
  | left; ev_in; fail
  | right; eexists _, _; split; [eassumption|]; ev_in; fail ].

(** An attempt never writes a record, and claims success only after the analysis or a reuse. *)
Lemma process_spec ctx msg id goal mode k :
  wp (process ctx msg id goal mode k) (fun tr r =>
    produced tr = []
    /\ match r with
       | Ok OutcomeSkipped => tr = [Ev (MediaExists ctx id) (Ok false)]
       | Ok OutcomeSuccess =>
           Ev (AnalyzerAsyncAnalyze ctx id goal mode) (Ok tt) ∈ tr
           \/ exists src u, ru_Reused u = true
                /\ Ev (AnalyzerReuseResult ctx id src goal mode) (Ok u) ∈ tr
       | Ok _ => False
       | Err _ => True
       end).
Proof.
  unfold process, tryReuse, analyse, saveStage. wp_go; (split; [reflexivity|]; answers; leaf).
Qed.

(** It works on the completion key only. *)
Lemma process_keys ctx msg id goal mode k k' :
  k <> k' -> wp (process ctx msg id goal mode k) (fun tr _ => keyops k' tr = []).
Proof.
  intros Hk%String.eqb_neq. unfold process, tryReuse, analyse, saveStage.
  wp_go; cbn [keyops select omap list_omap]; rewrite ?Hk; reflexivity.
Qed.

(** What follows a failed attempt, as a relation between its error, the calls and the outcome. *)
Definition conclude_post (ctx : Context) (d : Delivery) (t : Task) (e : gerror)
    (tr : trace ConsumerE) (r : res Outcome) : Prop :=
  let bg := WithoutCancel ctx in
  let attempt := Z.max (d_Attempt d) 1 in
  let budget := HasErr e KindBudgetExhausted in
  let permanent := IsPermanentFailure (Some e) in
  match r with
  | Err _ => produced tr = [] /\ keyops (t_ActiveKey t) tr = []
      /\ exists rec e', Ev (PublisherProduce ctx rec) (Err e') ∈ tr
  | Ok OutcomeBudget => produced tr = [] /\ keyops (t_ActiveKey t) tr = [(bg, KDel)] /\ budget = true
  | Ok OutcomeRetry =>
      keyops (t_ActiveKey t) tr = [(bg, KExpire activeTTL)] /\ budget = false /\ permanent = false
      /\ attempt < MaxAttempts
      /\ exists now, Ev ClockNow now ∈ tr /\ produced tr = [retryRecord d e now]
  | Ok OutcomeDLQ =>
      keyops (t_ActiveKey t) tr = [(bg, KDel)] /\ budget = false
      /\ (permanent = true \/ MaxAttempts <= attempt)
      /\ produced tr = [deadRecord d attempt (firstErrorOf d e)
                          (if permanent then ReasonPermanent else ReasonExhausted)]
      /\ exists u, Ev (LedgerRecord bg (t_Msg t) attempt e) u ∈ tr
  | Ok _ => False
  end.

Lemma conclude_spec ctx d t e : wp (conclude ctx d t e) (conclude_post ctx d t e).
Proof.
  unfold conclude_post. set (bg := WithoutCancel ctx). set (attempt := Z.max (d_Attempt d) 1).
  set (budget := HasErr e KindBudgetExhausted). set (permanent := IsPermanentFailure (Some e)). unfold conclude, saveStage, publish, deadLetter.
  fold bg attempt permanent. cbn [Has]. fold budget. destruct budget.
  { wp_go. cbn [keyops select omap list_omap]. by rewrite String.eqb_refl. }
  rewrite (RouteFailure_cases permanent attempt).
  destruct permanent; [|destruct (Z.ltb_spec attempt MaxAttempts) as [Hlt|Hge]].
  - change (negb (String.eqb (rt_Topic (mkRoute TopicDLQ 0 ReasonPermanent)) TopicDLQ)) with false.
    wp_go; cbn [keyops select omap list_omap]; rewrite ?String.eqb_refl; repeat split; eauto.
    all: repeat eexists; ev_in.
  - destruct (RouteFailure_retry attempt Hlt) as (_ & _ & _ & ->). cbn [negb].
    wp_go; cbn [keyops select omap list_omap]; rewrite ?String.eqb_refl; repeat split; eauto.
    + eexists. split; [ev_in|reflexivity].
    + repeat eexists; ev_in.
  - change (negb (String.eqb (rt_Topic (mkRoute TopicDLQ 0 ReasonExhausted)) TopicDLQ)) with false.
    wp_go; cbn [keyops select omap list_omap]; rewrite ?String.eqb_refl; repeat split; eauto.
    all: repeat eexists; ev_in.
Qed.


Definition workCtx (ctx : Context) (l : Lock) : Context := WithSource (LeaseLost l) ctx.

Lemma conclude_bookkeeping ctx d t e : calls (bookkeeping ctx) (conclude ctx d t e).
Proof. unfold conclude, saveStage, publish, deadLetter, bookkeeping. calls_go. Qed.

(** What the closure of [Handle] did, by how the lock was answered. *)
Definition attempt_post (ctx : Context) (t : Task) (tr : trace ConsumerE) (lock : option Lock)
    (r : res Outcome) : Prop :=
  produced tr = [] /\ keyops (t_ActiveKey t) tr = []
  /\ match lock with
     | Some l => exists work,
         tr = Ev (LockerTryLock ctx (t_LockKey t) 0) (Ok (Some l)) :: work
         /\ called (under (workCtx ctx l)) work
         /\ match r with
            | Ok OutcomeSkipped => work = [Ev (MediaExists (workCtx ctx l) (t_MediaID t)) (Ok false)]
            | Ok OutcomeSuccess =>
                Ev (AnalyzerAsyncAnalyze (workCtx ctx l) (t_MediaID t) (t_Goal t) (t_Mode t)) (Ok tt) ∈ work
                \/ exists src u, ru_Reused u = true
                     /\ Ev (AnalyzerReuseResult (workCtx ctx l) (t_MediaID t) src (t_Goal t) (t_Mode t)) (Ok u)
                          ∈ work
            | Ok _ => False
            | Err _ => True
            end
     | None =>
         (r = Ok OutcomeSkipped /\ tr = [Ev (LockerTryLock ctx (t_LockKey t) 0) (Ok None)])
         \/ exists e, r = Err e /\ tr = [Ev (LockerTryLock ctx (t_LockKey t) 0) (Err e)]
     end.

Lemma attemptBody_spec ctx t :
  t_CompletedKey t <> t_ActiveKey t ->
  wp (attemptBody ctx t) (fun tr '(lock, r) => attempt_post ctx t tr lock r).
Proof.
  intros Hk. unfold attemptBody. cbn [wp]. intros [[l|]|e]; proc_simpl.
  - apply wp_bind. eapply wp_mono;
      [apply (wp_calls _ _ _ (process_under _ _ _ _ _ _)
                (wp_and _ _ _ (process_spec _ _ _ _ _ _) (process_keys _ _ _ _ _ _ _ Hk)))|].
    cbn beta. intros work o (Hc & [Hp Ho] & Hkeys). cbn [wp]. rewrite app_nil_r.
    split; [done|]. split; [done|]. exists work. done.
  - split; [done|]. split; [done|]. by left.
  - split; [done|]. split; [done|]. right. eauto.
Qed.

Lemma discardPoison_spec `{Sha256} ctx d reason :
  let msg := match d_Msg d with Some m => m | None => emptyMsg end in
  let cause := poisonCause reason in
  wp (discardPoison ctx d reason) (fun tr r =>
    match r with
    | Ok OutcomePoison =>
        produced tr = [deadRecord d (d_Attempt d) ("INVALID_ARGUMENT: " +:+ reason) ReasonPoison]
        \/ (produced tr = [] /\ Ev (LedgerRecord ctx msg 0 cause) (Ok tt) ∈ tr)
    | Ok _ => False
    | Err _ => produced tr = []
        /\ (exists e, Ev (LedgerRecord ctx msg 0 cause) (Err e) ∈ tr)
        /\ exists rec e, Ev (PublisherProduce ctx rec) (Err e) ∈ tr
    end).
Proof.
  intros msg cause. unfold discardPoison, releasePoisonTaskState, saveStage, publish, deadLetter.
  fold msg. fold (poisonCause reason). fold cause.
  wp_go; simplify_eq; destruct x as [[]|e1], x0 as [[]|e2]; simplify_eq/=; first
    [ by left
    | right; split; [reflexivity|]; ev_in; fail
    | split; [reflexivity|]; split; repeat eexists; ev_in ].
Qed.

Definition release_post (bg : Context) (lock : option Lock) (tr : trace ConsumerE) : Prop :=
  match lock with
  | None => tr = []
  | Some l => tr = [Ev (LockIsHeld l) false]
      \/ exists u, tr = [Ev (LockIsHeld l) true; Ev (LockUnlock bg l) u]
  end.

Lemma releaseLock_spec bg lock : wp (releaseLock bg lock) (fun tr _ => release_post bg lock tr).
Proof. unfold releaseLock, release_post. destruct lock; wp_go; eauto. Qed.

Lemma release_quiet bg lock tr k :
  release_post bg lock tr -> produced tr = [] /\ keyops k tr = [].
Proof. unfold release_post. destruct lock; [intros [->|[u ->]]|intros ->]; done. Qed.

(** The keys of a task are those of [TaskKeys], and the completion key is none of the active ones. *)
Lemma taskOf_keys `{Sha256} d t : taskOf d = Ok t -> t_CompletedKey t <> t_ActiveKey t.
Proof.
  unfold taskOf. intros E. repeat case_match; simplify_eq; cbn [t_CompletedKey t_ActiveKey];
    intros Hk; apply (f_equal (str_take 14)) in Hk; discriminate Hk.
Qed.

(** What happens between the attempt and the deferred unlock. *)
Definition settle_post (ctx : Context) (d : Delivery) (t : Task) (lock : option Lock) (r : res Outcome)
    (tr : trace ConsumerE) (out : res Outcome) : Prop :=
  match r with
  | Ok o => out = Ok o
      /\ match lock with
         | Some _ => exists x, tr = [Ev (RdbDel (WithoutCancel ctx) (t_ActiveKey t)) x]
         | None => tr = []
         end
  | Err e => conclude_post ctx d t e tr out
  end.

(** A run of [Handle] on an acceptable message is an attempt, its settlement and the deferred unlock. *)
Lemma finish_wp `{Sha256} ctx d t (Q : trace ConsumerE -> res Outcome -> Prop) :
  taskOf d = Ok t ->
  (forall tr1 tr2 tr3 lock r out,
     execs (attemptBody ctx t) tr1 (lock, r) -> attempt_post ctx t tr1 lock r ->
     called (bookkeeping ctx) tr2 -> settle_post ctx d t lock r tr2 out -> release_post (WithoutCancel ctx) lock tr3 ->
     Q (tr1 ++ tr2 ++ tr3) out) ->
  wp (finish ctx d t) Q.
Proof.
  intros Et HQ. unfold finish. apply wp_bind.
  eapply wp_mono; [apply wp_self, attemptBody_spec; by eapply taskOf_keys|].
  intros tr1 [lock r] [Hex H1]. apply wp_bind.
  eapply wp_mono with (Q := fun tr2 out => called (bookkeeping ctx) tr2 /\ settle_post ctx d t lock r tr2 out).
  { apply wp_calls; unfold settle_post.
    - destruct r as [o|e]; [destruct lock; calls_go|apply conclude_bookkeeping].
    - destruct r as [o|e]; [destruct lock; wp_go; eauto|apply conclude_spec]. }
  intros tr2 out [Hc2 H2]. apply wp_bind. eapply wp_mono; [apply releaseLock_spec|].
  intros tr3 [] H3. cbn [wp]. rewrite app_nil_r. by eapply HQ.
Qed.

(** The attempt of this run failed with [e]. *)
Definition failedWith (ctx : Context) (t : Task) (tr : trace ConsumerE) (e : gerror) : Prop :=
  exists tr1 tr2 lock, tr = tr1 ++ tr2 /\ execs (attemptBody ctx t) tr1 (lock, Err e).

(** What [Handle] owes for a delivery of task [t], outcome by outcome. *)
Definition discharged (ctx : Context) (d : Delivery) (t : Task) (tr : trace ConsumerE)
    (r : res Outcome) : Prop :=
  let attempt := Z.max (d_Attempt d) 1 in
  match r with
  | Err _ => produced tr = [] /\ exists rec e, Ev (PublisherProduce ctx rec) (Err e) ∈ tr
  | Ok OutcomeSuccess => produced tr = []
      /\ exists l, Ev (LockerTryLock ctx (t_LockKey t) 0) (Ok (Some l)) ∈ tr
           /\ (Ev (AnalyzerAsyncAnalyze (workCtx ctx l) (t_MediaID t) (t_Goal t) (t_Mode t)) (Ok tt) ∈ tr
               \/ exists src u, ru_Reused u = true
                    /\ Ev (AnalyzerReuseResult (workCtx ctx l) (t_MediaID t) src (t_Goal t) (t_Mode t)) (Ok u)
                         ∈ tr)
  | Ok OutcomeSkipped => produced tr = []
      /\ (Ev (LockerTryLock ctx (t_LockKey t) 0) (Ok None) ∈ tr
          \/ exists w, Ev (MediaExists w (t_MediaID t)) (Ok false) ∈ tr)
  | Ok OutcomeBudget => produced tr = []
      /\ exists e, failedWith ctx t tr e /\ HasErr e KindBudgetExhausted = true
  | Ok OutcomeRetry => attempt < MaxAttempts
      /\ exists e now, failedWith ctx t tr e /\ HasErr e KindBudgetExhausted = false
           /\ IsPermanentFailure (Some e) = false
           /\ Ev ClockNow now ∈ tr /\ produced tr = [retryRecord d e now]
  | Ok OutcomeDLQ =>
      exists e u, failedWith ctx t tr e /\ HasErr e KindBudgetExhausted = false
        /\ (IsPermanentFailure (Some e) = true \/ MaxAttempts <= attempt)
        /\ produced tr = [deadRecord d attempt (firstErrorOf d e)
             (if IsPermanentFailure (Some e) then ReasonPermanent else ReasonExhausted)]
        /\ Ev (LedgerRecord (WithoutCancel ctx) (t_Msg t) attempt e) u ∈ tr
  | Ok OutcomePoison => False
  end.

Lemma finish_discharged `{Sha256} ctx d t :
  taskOf d = Ok t -> wp (finish ctx d t) (discharged ctx d t).
Proof.
  intros Et.
  apply finish_wp; [done|]. intros tr1 tr2 tr3 lock r out Hex (Hp1 & _ & H1) _ H2 H3.
  assert (produced (tr1 ++ tr2 ++ tr3) = produced tr2) as Hp.
  { rewrite !produced_app, Hp1. simpl. by rewrite (proj1 (release_quiet _ _ _ "" H3)), app_nil_r. }
  assert (forall e, e ∈ tr1 \/ e ∈ tr2 -> e ∈ tr1 ++ tr2 ++ tr3) as Hin by (intros ?; rewrite !elem_of_app; tauto).
  unfold discharged. rewrite Hp. destruct r as [o|e]; simpl in H2.
  - destruct H2 as [-> Hl]. assert (produced tr2 = []) as -> by (destruct lock; [destruct Hl as [x ->]|subst]; done).
    destruct lock as [l|].
    + destruct H1 as (work & -> & _ & Hr). destruct o; try done; (split; [done|]).
      * exists l. split; [apply Hin; left; ev_in|].
        destruct Hr as [Hr|(src & u & Hu & Hr)]; [left|right; exists src, u; split; [done|]];
          apply Hin; left; by apply list_elem_of_further.
      * right. exists (workCtx ctx l). subst work. apply Hin. left. ev_in.
    + destruct H1 as [[[= ->] ->]|(e & [=] & _)]. split; [done|]. left. apply Hin. left. ev_in.
  - assert (failedWith ctx t (tr1 ++ tr2 ++ tr3) e) as Hf by by exists tr1, (tr2 ++ tr3), lock.
    unfold conclude_post in H2. destruct out as [[]|e']; try done.
    + destruct H2 as (_ & Hb & Hperm & Hatt & now & Hn & Hpr). split; [done|]. exists e, now. auto 7.
    + destruct H2 as (_ & Hb & Hperm & Hpr & u & Hu). exists e, u. auto 7.
    + destruct H2 as (Hpr & _ & Hb). split; [done|]. by exists e.
    + destruct H2 as (Hpr & _ & rec & e2 & He). split; [done|]. exists rec, e2. auto.
Qed.

(** A retry is scheduled below the limit only, by the record of [retryRecord]. *)
Lemma Handle_retries `{Sha256} ctx d :
  wp (Handle ctx d) (fun tr r => r = Ok OutcomeRetry ->
    Z.max (d_Attempt d) 1 < MaxAttempts /\ exists e now, produced tr = [retryRecord d e now]).
Proof.
  rewrite Handle_eq. destruct (taskOf d) as [t|reason] eqn:Et.
  - eapply wp_mono; [by apply finish_discharged|]. intros tr r H2 ->.
    destruct H2 as (? & e & now & _ & _ & _ & _ & ?). eauto.
  - eapply wp_mono; [apply discardPoison_spec|]. by intros tr r H2 ->.
Qed.

(** C5. No task is lost and none is duplicated by the consumer. Every run of [Handle] ends without a
    panic, and when it reports the record as handled (so its offset may be committed) the obligation
    has gone somewhere: the analysis ran or a finished one was attached while holding the task lock;
    or another worker holds the lock, or the media is gone; or exactly one record, with this
    delivery's key and value, was acknowledged on the retry topic of this attempt (only for a
    non-permanent failure below the attempt limit) or on the dead-letter topic; or, for a message that
    cannot be handled, the ledger or the dead-letter topic has it. When it reports an error, nothing
    was published and the broker refused the record it tried. *)
Theorem Handle_discharge `{Sha256} (ctx : Context) (d : Delivery) :
  wp (Handle ctx d) (fun tr r =>
    match taskOf d with
    | Ok t => discharged ctx d t tr r
    | Err reason =>
        let msg := match d_Msg d with Some m => m | None => emptyMsg end in
        match r with
        | Ok o => o = OutcomePoison
            /\ (produced tr = [deadRecord d (d_Attempt d) ("INVALID_ARGUMENT: " +:+ reason) ReasonPoison]
                \/ (produced tr = [] /\ Ev (LedgerRecord ctx msg 0 (poisonCause reason)) (Ok tt) ∈ tr))
        | Err _ => produced tr = []
            /\ (exists e, Ev (LedgerRecord ctx msg 0 (poisonCause reason)) (Err e) ∈ tr)
            /\ exists rec e, Ev (PublisherProduce ctx rec) (Err e) ∈ tr
        end
    end).
Proof.
  rewrite Handle_eq. destruct (taskOf d) as [t|reason] eqn:Et.
  2: { eapply wp_mono; [apply discardPoison_spec|]. intros tr [[]|e]; done. }
  by apply finish_discharged.
Qed.

(** The idempotency key a message names that cannot be handled: it has a media id and a goal, which some other
    fault keeps from being worked on. *)
Definition poisonKey `{Sha256} (msg : AnalysisTaskMsg) : option string :=
  match msg_MediaID msg, msg_UserGoal msg with
  | Some mediaID, Some goal =>
      if is_blank goal then None
      else match GoalDigest goal (ModeFromNullable (deref (msg_Mode msg))) with
           | Ok digest => Some (Active (NormalizeContentHash mediaID (deref (msg_ContentHash msg))) digest)
           | Err _ => None
           end
  | _, _ => None
  end.

(** What is done to a key when a message is discarded. *)
Definition poison_keyops `{Sha256} (ctx : Context) (msg : AnalysisTaskMsg) (r : res Outcome) (k : string)
  : list (Context * keyop) :=
  match r with
  | Ok _ => if bool_decide (poisonKey msg = Some k) then [(ctx, KDel)] else []
  | Err _ => []
  end.

Lemma releasePoisonTaskState_keys `{Sha256} ctx msg :
  wp (releasePoisonTaskState ctx msg) (fun tr _ => forall k, keyops k tr = poison_keyops ctx msg (Ok OutcomePoison) k).
Proof.
  unfold releasePoisonTaskState, poison_keyops, poisonKey, saveStage, publish.
  destruct (msg_MediaID msg) as [id|], (msg_UserGoal msg) as [goal|]; try done.
  destruct (is_blank goal); [done|]. destruct (GoalDigest goal _) as [digest|e]; [|done].
  set (key := Active _ _). cbn [wp]. intros [n|e]; cbn [bind wp]; intros;
    cbn [keyops select omap list_omap]; destruct (String.eqb_spec key k);
    case_bool_decide; simplify_eq; done.
Qed.

Lemma discardPoison_keys `{Sha256} ctx d reason :
  wp (discardPoison ctx d reason) (fun tr r =>
    forall k, keyops k tr = poison_keyops ctx (match d_Msg d with Some m => m | None => emptyMsg end) r k).
Proof.
  unfold discardPoison, deadLetter. cbn [wp call bind]. intros r1 r2. cbn [bind wp].
  destruct (negb _ && negb _); [done|]. apply wp_bind. eapply wp_mono; [apply releasePoisonTaskState_keys|].
  intros tr u Hk k. cbn [wp]. rewrite app_nil_r. exact (Hk k).
Qed.


(** C27. The task lock protects the whole attempt. A run that acquires the lock of its task makes all
    the calls of the attempt under a context that the loss of that lease cancels, and whatever
    happened its last act on the lock is the deferred release: either the handle reports the lock as
    no longer held, or it is unlocked once, under a context that cannot be cancelled. The bookkeeping in between is out of reach of cancellation,
    except for the forwarding of the record itself. *)
Theorem Handle_lock_discipline `{Sha256} (ctx : Context) (d : Delivery) (t : Task) :
  taskOf d = Ok t ->
  wp (Handle ctx d) (fun tr _ =>
    (exists a rest, tr = Ev (LockerTryLock ctx (t_LockKey t) 0) a :: rest
       /\ (forall l, a <> Ok (Some l)) /\ called (bookkeeping ctx) rest)
    \/ (exists l work settle rel,
          tr = Ev (LockerTryLock ctx (t_LockKey t) 0) (Ok (Some l)) :: work ++ settle ++ rel
          /\ called (under (workCtx ctx l)) work
          /\ called (bookkeeping ctx) settle
          /\ (rel = [Ev (LockIsHeld l) false]
              \/ exists u, rel = [Ev (LockIsHeld l) true; Ev (LockUnlock (WithoutCancel ctx) l) u]))).
Proof.
  intros Et. rewrite Handle_eq, Et.
  apply finish_wp; [done|].
  intros tr1 tr2 tr3 lock r out Hex (_ & _ & H1) Hs H2 H3.
  destruct lock as [l|].
  - right. destruct H1 as (work & -> & Hc & _). exists l, work, tr2, tr3. done.
  - left. simpl in H3. subst tr3. rewrite app_nil_r.
    destruct H1 as [[-> ->]|(e & -> & ->)]; eexists _, tr2; (split; [done|]; split; [done|done]).
Qed.


(** ** The protocol of an attempt *)

(** The orders in which an attempt's steps may take effect. *)
Definition attempt_scripts (revision : bool) (id : Z) : list (list milestone) :=
  let record := ResultRecorded (FormatInt id) completedTTL in
  if revision then
    [ [RevisionBegun; ResultForgotten; Analysed; RevisionCompleted; record];
      [RevisionBegun; ResultForgotten; Analysed; RevisionCompleted; Purged] ]
  else
    [ [ResultReused];
      [Analysed; record]; [Analysed; Purged];
      [ResultForgotten; Analysed; record]; [ResultForgotten; Analysed; Purged];
      [ResultForgotten; ResultForgotten; Analysed; record];
      [ResultForgotten; ResultForgotten; Analysed; Purged] ].

(** Some element of a concrete list, with backtracking into the next one. *)
Ltac pick := apply list_elem_of_here + (apply list_elem_of_further; pick).

Ltac script_prep :=
  cbn [milestones select omap list_omap]; rewrite ?String.eqb_refl;
  repeat match goal with
         | H : ru_Reused _ = _ |- _ => rewrite ?H; clear H
         | |- context [match ?x with _ => _ end] => is_var x; destruct x
         end.

Ltac script_leaf := solve [
  eexists; split; [pick|]; split; [eexists; reflexivity|];
  split; [first [reflexivity|discriminate]|first [reflexivity|discriminate]]].

(** Order within an attempt. The steps of an attempt that take effect are always an initial part
    of one of a few scripts, and success means a whole script: a revision is begun and the old result
    forgotten before the analysis, the revision is completed only after it, and the content's result
    is recorded for reuse (for seven days) only after the analysis succeeded and the media was seen to
    exist still, otherwise its artifacts are purged; a stored reference that cannot be used is
    forgotten before the task is analysed afresh. *)
Theorem process_protocol (ctx : Context) (msg : AnalysisTaskMsg) (id : Z) (goal : string)
    (mode : AnalysisMode) (k : string) :
  wp (process ctx msg id goal mode k) (fun tr r =>
    exists script, script ∈ attempt_scripts (IsRevision msg) id
      /\ milestones k tr `prefix_of` script
      /\ (r = Ok OutcomeSuccess -> milestones k tr = script)
      /\ (r = Ok OutcomeSkipped -> milestones k tr = [])).
Proof.
  unfold process, tryReuse, analyse, saveStage. destruct (IsRevision msg).
  all: cbv zeta beta iota delta [attempt_scripts]; wp_go; script_prep.
  all: script_leaf.
Qed.

(** ** Chains of retries *)

(** [rec'] is what a consumer reads after handling [rec] ended in a retry: the record that was
    published, at whatever partition and offset the broker gave it. *)
Definition forwards `{Sha256, MsgCodec} (rec rec' : KRecord) : Prop :=
  exists ctx tr out, execs (Handle ctx (DecodeRecord rec)) tr (Ok OutcomeRetry) /\ produced tr = [out]
    /\ rec_Topic rec' = rec_Topic out /\ rec_Key rec' = rec_Key out /\ rec_Value rec' = rec_Value out
    /\ rec_Headers rec' = rec_Headers out.

Lemma DecodeRecord_attempt `{MsgCodec} rec : 1 <= d_Attempt (DecodeRecord rec).
Proof.
  unfold DecodeRecord. destruct (unmarshalMsg (rec_Value rec)); cbn [d_Attempt];
    (destruct (header rec HeaderAttempt) as [v|]; [|lia]); (destruct (Atoi v); [|lia]);
    destruct (Z.ltb_spec 0 z); lia.
Qed.

Lemma DecodeRecord_fields `{MsgCodec} rec :
  d_Key (DecodeRecord rec) = rec_Key rec /\ d_Value (DecodeRecord rec) = rec_Value rec.
Proof. unfold DecodeRecord. by destruct (unmarshalMsg (rec_Value rec)). Qed.

Lemma forwards_step `{Sha256, MsgCodec} rec rec' :
  forwards rec rec' ->
  d_Attempt (DecodeRecord rec) < MaxAttempts
  /\ d_Attempt (DecodeRecord rec') = d_Attempt (DecodeRecord rec) + 1
  /\ rec_Key rec' = rec_Key rec /\ rec_Value rec' = rec_Value rec.
Proof.
  intros (ctx & tr & out & Hex & Hp & Ht & Hk & Hv & Hh).
  pose proof (DecodeRecord_attempt rec) as Ha.
  assert (Z.max (d_Attempt (DecodeRecord rec)) 1 < MaxAttempts
          /\ exists e now, produced tr = [retryRecord (DecodeRecord rec) e now]) as (Hlt & e & now & Hp').
  { by apply (wp_execs _ _ _ _ (Handle_retries ctx (DecodeRecord rec)) Hex). }
  rewrite Hp in Hp'. injection Hp' as ->.
  unfold retryRecord in *. cbn [rec_Key rec_Value rec_Headers rec_Topic] in *.
  destruct (DecodeRecord_fields rec) as [HK HV]. rewrite HK in Hk. rewrite HV in Hv.
  assert (Z.max (d_Attempt (DecodeRecord rec)) 1 = d_Attempt (DecodeRecord rec)) as Hm by lia.
  rewrite Hm in *. split; [done|]. split; [|done].
  unfold DecodeRecord at 1, header. rewrite Hh, !header_in_taskHeaders.
  change (String.eqb HeaderAttempt HeaderAttempt) with true. cbn iota.
  rewrite Atoi_Itoa by (unfold MaxAttempts in *; unfold int_ok; lia).
  destruct (unmarshalMsg (rec_Value rec')); cbn [d_Attempt]; destruct (Z.ltb_spec 0 (d_Attempt (DecodeRecord rec) + 1)); lia.
Qed.

(** Automatic retries terminate. However the attempts fail, a task record is forwarded to a retry
    topic at most twice, so it is attempted at most three times before it is dead-lettered: each
    forward raises the attempt number by one, is possible only below the limit, and keeps the key (the
    content hash, hence the partition order) and the message. *)
Theorem retry_chain_bounded `{Sha256, MsgCodec} (n : nat) (rec rec' : KRecord) :
  nsteps forwards n rec rec' ->
  (n <= 2)%nat /\ d_Attempt (DecodeRecord rec') = d_Attempt (DecodeRecord rec) + Z.of_nat n
  /\ rec_Key rec' = rec_Key rec /\ rec_Value rec' = rec_Value rec.
Proof.
  intros Hn. assert (d_Attempt (DecodeRecord rec') = d_Attempt (DecodeRecord rec) + Z.of_nat n
    /\ (n <> 0%nat -> d_Attempt (DecodeRecord rec') <= MaxAttempts)
    /\ rec_Key rec' = rec_Key rec /\ rec_Value rec' = rec_Value rec) as (Ha & Hm & Hk & Hv).
  { induction Hn as [rec|n rec r2 rec' Hf Hn IH]; [split; [lia|]; split; done|].
    destruct (forwards_step _ _ Hf) as (Hlt & Ha & Hk & Hv). destruct IH as (IHa & IHm & IHk & IHv).
    split; [lia|]. split; [|split; congruence].
    intros _. destruct n as [|n]; [|by apply IHm]. unfold MaxAttempts in *. lia. }
  pose proof (DecodeRecord_attempt rec). unfold MaxAttempts in *.
  split; [|done]. destruct n as [|n]; lia.
Qed.

(** ** Concrete runs *)

(** A world in which the lock is free, the media lookup fails and every write succeeds. *)
Definition failing_world : env ConsumerE := fun _ X c =>
  match c in ConsumerE X return X with
  | RdbDel _ _ | RdbExpire _ _ _ | RdbSet _ _ _ _ | LockUnlock _ _ | AnalyzerAsyncAnalyze _ _ _ _
  | AgentCompleteRevision _ _ _ _ | StagesSaveStage _ _ _ _ _ | PublisherProduce _ _
  | LedgerRecord _ _ _ _ | EventsPublishAnalysis _ _ _ _ _ _ => Ok tt
  | RdbGet _ _ => Ok None
  | LockerTryLock _ key _ => Ok (Some (mkLock 0 key))
  | LockIsHeld _ => true
  | AnalyzerReuseResult _ _ _ _ _ => Ok (mkReuseResponse false None None)
  | AgentResult _ _ _ _ => Ok (mkResultResponse false None None)
  | AgentBeginRevision _ _ _ _ => Ok true
  | MediaExists _ _ => Err (Transient "mysql: connection refused" None)
  | MediaPurgeRuntimeArtifacts _ _ => tt
  | ClockNow => of_UnixMilli 1700000000000
  end.

Definition example_msg : AnalysisTaskMsg := NewTaskMsg 7 ActionStart "" "notes" ModeGeneral.

#[local] Instance plain_hash : Sha256 := fun v => v.
#[local] Instance constant_codec : MsgCodec := {
  unmarshalMsg := fun _ => Ok (Some example_msg); marshalMsg := fun _ => Ok "{}" }.

Definition example_record : KRecord := mkRecord TopicAnalysis "h" "{}" (taskHeaders 1 zero_time "" []) 0 0.

Definition example_run : trace ConsumerE * option (res Outcome) :=
  run failing_world [] (Handle RequestContext (DecodeRecord example_record)).

Definition example_retry : KRecord := List.hd example_record (produced (fst example_run)).

Lemma example_forwards : forwards example_record example_retry.
Proof.
  exists RequestContext, (fst example_run), example_retry.
  split; [apply (run_execs failing_world []); vm_compute; reflexivity|].
  split; [vm_compute; reflexivity|done].
Qed.

Lemma retry_chain_bounded_witness :
  nsteps forwards 1 example_record example_retry
  /\ (1 <= 2)%nat /\ d_Attempt (DecodeRecord example_retry) = d_Attempt (DecodeRecord example_record) + 1
  /\ rec_Key example_retry = "h" /\ rec_Value example_retry = "{}".
Proof.
  split; [apply nsteps_once, example_forwards|].
  apply (retry_chain_bounded 1 example_record example_retry), nsteps_once, example_forwards.
Defined.

Definition example_task : Task :=
  mkTask example_msg 7 "notes" ModeGeneral "analysis:active:media-7:notes"
    "analysis:completed:media-7:notes" "lock:analysis:media-7:notes".

Lemma Handle_lock_discipline_witness :
  taskOf (DecodeRecord example_record) = Ok example_task
  /\ wp (Handle RequestContext (DecodeRecord example_record)) (fun tr _ =>
    (exists a rest, tr = Ev (LockerTryLock RequestContext (t_LockKey example_task) 0) a :: rest
       /\ (forall l, a <> Ok (Some l)) /\ called (bookkeeping RequestContext) rest)
    \/ (exists l work settle rel,
          tr = Ev (LockerTryLock RequestContext (t_LockKey example_task) 0) (Ok (Some l)) :: work ++ settle ++ rel
          /\ called (under (workCtx RequestContext l)) work
          /\ called (bookkeeping RequestContext) settle
          /\ (rel = [Ev (LockIsHeld l) false]
              \/ exists u, rel = [Ev (LockIsHeld l) true;
                                  Ev (LockUnlock (WithoutCancel RequestContext) l) u]))).
Proof.
  split; [vm_compute; reflexivity|].
  apply (Handle_lock_discipline RequestContext (DecodeRecord example_record) example_task).
  vm_compute. reflexivity.
Defined.
