(* ===== verification/RedisLock.v ===== *)
(** * The lease lock (internal/redislock/lock.go)

    [TryLock] is a program over the Redis client, the clock and the random source; the two Lua scripts
    are functions of the keyspace; the watchdog goroutine is the function that takes one tick.  Redis
    itself is the class [RedisKV] with its documented laws [RedisLaws] (SET NX PX, GET, DEL, PEXPIRE and
    expiry); [GmapRedis] is a keyspace with those laws.  [step] interleaves any number of lock owners,
    the network and the clock.  Times and durations are nanoseconds. *)

From S2P Require Import Prelude GoStrings Proc Errors GoContext.

Local Open Scope string_scope.
Local Open Scope list_scope.
Local Open Scope Z_scope.

(** ** Lock names and options *)

(** [strings.SplitN(strings.TrimPrefix(key, "lock:"), ":", 2)[0]]. *)
Definition LockName (key : string) : string := before_first ":" (TrimPrefix key "lock:").

Definition DefaultTTL : Z := 30 * second.
Definition DefaultRenewInterval : Z := 10 * second.
Definition DefaultPollInterval : Z := 100 * millisecond.

Record Options := mkOptions { op_TTL : Z; op_RenewInterval : Z; op_PollInterval : Z }.

Definition NewLocker (opts : option Options) : Options :=
  let o := match opts with Some o => o | None => mkOptions 0 0 0 end in
  mkOptions (if op_TTL o <=? 0 then DefaultTTL else op_TTL o)
    (if op_RenewInterval o <=? 0 then DefaultRenewInterval else op_RenewInterval o)
    (if op_PollInterval o <=? 0 then DefaultPollInterval else op_PollInterval o).

(** ** Acquisition *)

Inductive LockerE : Type -> Type :=
| SetNX (ctx : Context) (key token : string) (ttl : Z) : LockerE (res bool)
| TimeNow : LockerE Z
| RandomToken : LockerE string
| SleepOrDone (ctx : Context) (d : Z) : LockerE (option gerror) (* Some e: ctx.Done() first, with ctx.Err() *)
| StartWatchdog (key token : string) : LockerE Lock.

Section trylock.
Context (opts : Options).

(** [acquire]. *)
Definition acquire (ctx : Context) (key token : string) : proc LockerE (res bool) :=
  call (SetNX ctx key token (op_TTL opts)).

(** The loop of [TryLock]; [None] when the fuel (number of attempts) is used up before it returns. *)
Fixpoint TryLock_loop (fuel : nat) (ctx : Context) (key token : string) (wait deadline : Z)
  : proc LockerE (option (res (option Lock))) :=
  match fuel with
  | O => Ret None
  | S fuel =>
      bind (acquire ctx key token) (fun r =>
      match r with
      | Err e => Ret (Some (Err e))
      | Ok true => Do (StartWatchdog key token) (fun lk => Ret (Some (Ok (Some lk))))
      | Ok false =>
          Do TimeNow (fun now =>
          let remaining := deadline - now in
          if (wait <=? 0) || (remaining <=? 0) then Ret (Some (Ok None))
          else
            let sleep := if remaining <? op_PollInterval opts then remaining else op_PollInterval opts in
            Do (SleepOrDone ctx sleep) (fun w =>
            match w with
            | Some ctxErr => Ret (Some (Err ctxErr))
            | None => TryLock_loop fuel ctx key token wait deadline
            end))
      end)
  end.

Definition TryLock (fuel : nat) (ctx : Context) (key : string) (wait : Z)
  : proc LockerE (option (res (option Lock))) :=
  Do RandomToken (fun token =>
  Do TimeNow (fun now => TryLock_loop fuel ctx key token wait (now + wait))).

End trylock.

(** ** Redis *)

Class RedisKV := {
  rstate : Type;
  r_get : rstate -> Z -> string -> option string;
  r_setnx : rstate -> Z -> string -> string -> Z -> bool * rstate;
  r_del : rstate -> Z -> string -> Z * rstate;
  r_pexpire : rstate -> Z -> string -> Z -> Z * rstate }.

(** What Redis documents of these commands, at the server's time [t]. *)
Class RedisLaws `{RedisKV} := {
  setnx_free r t k v ttl : r_get r t k = None ->
    fst (r_setnx r t k v ttl) = true
    /\ forall t', t <= t' -> r_get (snd (r_setnx r t k v ttl)) t' k = if t' <? t + ttl then Some v else None;
  setnx_taken r t k v w ttl : r_get r t k = Some w -> r_setnx r t k v ttl = (false, r);
  setnx_other r t k v ttl t' k' : k <> k' ->
    r_get (snd (r_setnx r t k v ttl)) t' k' = r_get r t' k';
  del_gone r t k t' : t <= t' -> r_get (snd (r_del r t k)) t' k = None;
  del_other r t k t' k' : k <> k' -> r_get (snd (r_del r t k)) t' k' = r_get r t' k';
  pexpire_live r t k v ms : r_get r t k = Some v ->
    fst (r_pexpire r t k ms) = 1
    /\ forall t', t <= t' ->
         r_get (snd (r_pexpire r t k ms)) t' k = if t' <? t + ms * millisecond then Some v else None;
  pexpire_other r t k ms t' k' : k <> k' ->
    r_get (snd (r_pexpire r t k ms)) t' k' = r_get r t' k' }.

Section scripts.
Context `{RedisKV}.

(** [redis.call('get', KEYS[1]) == ARGV[1]] *)
Definition owns (r : rstate) (now : Z) (key token : string) : bool :=
  match r_get r now key with Some v => String.eqb v token | None => false end.

Definition unlockScript (r : rstate) (now : Z) (key token : string) : Z * rstate :=
  if owns r now key token then r_del r now key else (0, r).

Definition renewScript (r : rstate) (now : Z) (key token : string) (ms : Z) : Z * rstate :=
  if owns r now key token then r_pexpire r now key ms else (0, r).

End scripts.

(** ** The lock object *)

(** The fields of [Lock] and the watchdog's local [lastOK]; [lo_reply] is the answer of a renewal that
    the server has executed and the watchdog has not read yet. *)
Record LockObj := mkLockObj {
  lo_key : string; lo_token : string; lo_released : bool; lo_isLost : bool; lo_lastOK : Z;
  lo_reply : option Z }.

Definition IsHeld (lk : LockObj) : bool := negb (lo_released lk) && negb (lo_isLost lk).

Definition markLost (lk : LockObj) : LockObj :=
  if lo_isLost lk || lo_released lk then lk
  else mkLockObj (lo_key lk) (lo_token lk) (lo_released lk) true (lo_lastOK lk) (lo_reply lk).

(** The part of [Unlock] before the script: true when the script is to be run. *)
Definition release (lk : LockObj) : bool * LockObj :=
  if lo_released lk then (false, lk)
  else (true, mkLockObj (lo_key lk) (lo_token lk) true (lo_isLost lk) (lo_lastOK lk) (lo_reply lk)).

(** One tick of the watchdog, once the renewal answered or failed, at time [now]; the boolean says
    whether the goroutine goes on. *)
Definition watchdog_tick (opts : Options) (now : Z) (n : res Z) (lk : LockObj) : bool * LockObj :=
  match n with
  | Ok n =>
      if n =? 1 then (true, mkLockObj (lo_key lk) (lo_token lk) (lo_released lk) (lo_isLost lk) now None)
      else (false, markLost lk)
  | Err _ => if op_TTL opts <=? now - lo_lastOK lk then (false, markLost lk) else (true, lk)
  end.

(** The watchdog over the ticks it gets: when it answers, and what. *)
Fixpoint watchdog (opts : Options) (ticks : list (Z * res Z)) (lk : LockObj) : LockObj :=
  match ticks with
  | [] => lk
  | (now, n) :: rest =>
      let '(go_on, lk) := watchdog_tick opts now n lk in
      if go_on : bool then watchdog opts rest lk else lk
  end.

(** ** Interleavings

    [w_locks] is every lock ever handed out; [w_lease] is the server time up to which the last applied
    SET or PEXPIRE of that lock keeps its key.  The network may deliver a renewal at any time after
    acquisition and an unlock at any time after [release], and may lose the answers. *)

Section world.
Context `{RedisLaws} (opts : Options).

Record world := mkWorld {
  w_redis : rstate; w_now : Z; w_locks : list LockObj; w_lease : list Z; w_tokens : list string }.

Definition tick_reply (lk : LockObj) (err : option gerror) : res Z :=
  match err, lo_reply lk with
  | Some e, _ => Err e
  | None, Some n => Ok n
  | None, None => Err (OtherErr "no answer" None None)
  end.

Inductive step : world -> world -> Prop :=
| step_time w d : 0 <= d ->
    step w (mkWorld (w_redis w) (w_now w + d) (w_locks w) (w_lease w) (w_tokens w))
| step_acquire w key token r' : (* SetNX answered true; tokens are random and never repeat *)
    token ∉ w_tokens w ->
    r_setnx (w_redis w) (w_now w) key token (op_TTL opts) = (true, r') ->
    step w (mkWorld r' (w_now w) (w_locks w ++ [mkLockObj key token false false (w_now w) None])
              (w_lease w ++ [w_now w + op_TTL opts]) (token :: w_tokens w))
| step_acquire_lost w key token b r' : (* the answer of SetNX was lost or was false: no lock object *)
    token ∉ w_tokens w ->
    r_setnx (w_redis w) (w_now w) key token (op_TTL opts) = (b, r') ->
    step w (mkWorld r' (w_now w) (w_locks w) (w_lease w) (token :: w_tokens w))
| step_renew w i lk n r' : (* the server runs the renewal script of lock i *)
    w_locks w !! i = Some lk ->
    renewScript (w_redis w) (w_now w) (lo_key lk) (lo_token lk) (op_TTL opts / millisecond) = (n, r') ->
    step w (mkWorld r' (w_now w)
              (<[i := mkLockObj (lo_key lk) (lo_token lk) (lo_released lk) (lo_isLost lk) (lo_lastOK lk) (Some n)]>
                 (w_locks w))
              (if n =? 1 then <[i := w_now w + op_TTL opts / millisecond * millisecond]> (w_lease w)
               else w_lease w) (w_tokens w))
| step_watch w i lk err : (* a tick of the watchdog of lock i, on the answer or on an error *)
    w_locks w !! i = Some lk -> lo_isLost lk = false ->
    step w (mkWorld (w_redis w) (w_now w)
              (<[i := snd (watchdog_tick opts (w_now w) (tick_reply lk err) lk)]> (w_locks w))
              (w_lease w) (w_tokens w))
| step_release w i lk : (* Unlock, before the script *)
    w_locks w !! i = Some lk -> fst (release lk) = true ->
    step w (mkWorld (w_redis w) (w_now w) (<[i := snd (release lk)]> (w_locks w)) (w_lease w) (w_tokens w))
| step_unlock w i lk n r' : (* the server runs the unlock script of lock i *)
    w_locks w !! i = Some lk -> lo_released lk = true ->
    unlockScript (w_redis w) (w_now w) (lo_key lk) (lo_token lk) = (n, r') ->
    step w (mkWorld r' (w_now w) (w_locks w) (w_lease w) (w_tokens w)).

Definition initial (r : rstate) (now : Z) : world := mkWorld r now [] [] [].

Definition reachable (w : world) : Prop := exists r now, rtc step (initial r now) w.

(** Lock [i] of key [key], not released, within its lease. *)
Definition leased (w : world) (i : nat) (key : string) : Prop :=
  exists lk lease, w_locks w !! i = Some lk /\ w_lease w !! i = Some lease
    /\ lo_key lk = key /\ lo_released lk = false /\ w_now w < lease.

(** *** The invariant *)

Record lock_inv (w : world) : Prop := {
  inv_len : length (w_lease w) = length (w_locks w);
  inv_nodup : NoDup (lo_token <$> w_locks w);
  inv_used : forall lk, lk ∈ w_locks w -> lo_token lk ∈ w_tokens w;
  inv_live : forall i lk lease, w_locks w !! i = Some lk -> w_lease w !! i = Some lease ->
    lo_released lk = false ->
    forall t, w_now w <= t < lease -> r_get (w_redis w) t (lo_key lk) = Some (lo_token lk) }.

Lemma owns_spec r now key token : owns r now key token = true <-> r_get r now key = Some token.
Proof.
  unfold owns. destruct (r_get r now key) as [v|]; [|done]. split.
  - intros ->%String.eqb_eq. done.
  - intros [= ->]. apply String.eqb_refl.
Qed.

(** Replacing a lock object by one with the same key and token keeps the token list. *)
Lemma tokens_insert (i : nat) lk lk' (l : list LockObj) :
  l !! i = Some lk -> lo_token lk' = lo_token lk -> lo_token <$> <[i := lk']> l = lo_token <$> l.
Proof.
  intros Hi Ht. rewrite list_fmap_insert, Ht. apply list_insert_id. by rewrite list_lookup_fmap, Hi.
Qed.

Lemma lookup_same_token w (i j : nat) lk lk' :
  lock_inv w -> w_locks w !! i = Some lk -> w_locks w !! j = Some lk' -> lo_token lk = lo_token lk' -> i = j.
Proof.
  intros Hw Hi Hj Ht. eapply NoDup_lookup; [apply (inv_nodup _ Hw)| |].
  - rewrite list_lookup_fmap, Hi. done.
  - rewrite list_lookup_fmap, Hj. simpl. by rewrite Ht.
Qed.

(** Changing flags of one lock, without un-releasing it, keeps the invariant. *)
Lemma inv_update w i lk lk' :
  lock_inv w -> w_locks w !! i = Some lk -> lo_key lk' = lo_key lk -> lo_token lk' = lo_token lk ->
  (lo_released lk' = false -> lo_released lk = false) ->
  lock_inv (mkWorld (w_redis w) (w_now w) (<[i := lk']> (w_locks w)) (w_lease w) (w_tokens w)).
Proof.
  intros Hw Hi Hk Ht Hr. pose proof (lookup_lt_Some _ _ _ Hi) as Hlt. split; simpl.
  - rewrite length_insert. apply Hw.
  - rewrite (tokens_insert _ _ _ _ Hi Ht). apply Hw.
  - intros l [j Hj]%list_elem_of_lookup. apply list_lookup_insert_Some in Hj as [(<- & -> & _)|[_ Hj]].
    + rewrite Ht. eapply (inv_used _ Hw), list_elem_of_lookup_2, Hi.
    + eapply (inv_used _ Hw), list_elem_of_lookup_2, Hj.
  - intros j l lease Hj Hl Hrel t Htime.
    apply list_lookup_insert_Some in Hj as [(<- & -> & _)|[_ Hj]].
    + rewrite Hk, Ht. eapply (inv_live _ Hw); eauto.
    + eapply (inv_live _ Hw); eauto.
Qed.

(** A command on a key that is not held under another lock's lease leaves the leases intact. *)
Lemma inv_redis w r' :
  lock_inv w ->
  (forall i lk lease, w_locks w !! i = Some lk -> w_lease w !! i = Some lease -> lo_released lk = false ->
     w_now w < lease -> forall t, w_now w <= t < lease ->
     r_get r' t (lo_key lk) = r_get (w_redis w) t (lo_key lk)) ->
  lock_inv (mkWorld r' (w_now w) (w_locks w) (w_lease w) (w_tokens w)).
Proof.
  intros Hw Hr. split; simpl; try apply Hw. intros i lk lease Hi Hl Hrel t Ht.
  rewrite (Hr i lk lease) by (auto; lia). by eapply (inv_live _ Hw).
Qed.

(** While a lock is within its lease its key holds its token. *)
Lemma leased_get w i lk lease :
  lock_inv w -> w_locks w !! i = Some lk -> w_lease w !! i = Some lease -> lo_released lk = false ->
  w_now w < lease -> r_get (w_redis w) (w_now w) (lo_key lk) = Some (lo_token lk).
Proof. intros Hw Hi Hl Hr Hlt. eapply (inv_live _ Hw); eauto. lia. Qed.

(** SET NX never disturbs a lease. *)
Lemma setnx_leases w key token b r' :
  lock_inv w -> r_setnx (w_redis w) (w_now w) key token (op_TTL opts) = (b, r') ->
  lock_inv (mkWorld r' (w_now w) (w_locks w) (w_lease w) (w_tokens w)).
Proof.
  intros Hw Hs. apply inv_redis; [done|]. intros i lk lease Hi Hl Hr Hlt t Ht.
  pose proof (leased_get _ _ _ _ Hw Hi Hl Hr Hlt) as Hget.
  destruct (decide (key = lo_key lk)) as [->|Hne].
  - erewrite setnx_taken in Hs by exact Hget. by injection Hs as _ <-.
  - replace r' with (snd (r_setnx (w_redis w) (w_now w) key token (op_TTL opts))) by (by rewrite Hs).
    by apply setnx_other.
Qed.

Lemma watchdog_tick_frame now n lk :
  let lk' := snd (watchdog_tick opts now n lk) in
  lo_key lk' = lo_key lk /\ lo_token lk' = lo_token lk /\ lo_released lk' = lo_released lk.
Proof.
  unfold watchdog_tick, markLost.
  repeat case_match; simpl; done.
Qed.

Lemma renew_inv w i lk n r' :
  lock_inv w -> w_locks w !! i = Some lk ->
  renewScript (w_redis w) (w_now w) (lo_key lk) (lo_token lk) (op_TTL opts / millisecond) = (n, r') ->
  lock_inv (mkWorld r' (w_now w)
         (<[i := mkLockObj (lo_key lk) (lo_token lk) (lo_released lk) (lo_isLost lk) (lo_lastOK lk) (Some n)]>
            (w_locks w))
         (if n =? 1 then <[i := w_now w + op_TTL opts / millisecond * millisecond]> (w_lease w)
          else w_lease w) (w_tokens w)).
Proof.
  intros Hw Hi Hs. unfold renewScript in Hs. set (ms := op_TTL opts / millisecond) in *.
  set (lk' := mkLockObj _ _ _ _ _ _).
  assert (lock_inv (mkWorld (w_redis w) (w_now w) (<[i := lk']> (w_locks w)) (w_lease w) (w_tokens w))) as Hw1
    by by eapply inv_update.
  destruct (owns _ _ _ _) eqn:Ho; [|by injection Hs as <- <-]. apply owns_spec in Ho.
  destruct (pexpire_live _ _ _ _ ms Ho) as [Hn Hp]. rewrite Hs in Hn, Hp. simpl in Hn, Hp. subst n.
  change (1 =? 1) with true. cbv iota. split; simpl.
  - rewrite !length_insert. apply Hw.
  - apply Hw1.
  - apply Hw1.
  - intros j lkj lease Hj Hl Hr t Ht. destruct (decide (i = j)) as [<-|Hne].
    + rewrite list_lookup_insert_eq in Hj by (by eapply lookup_lt_Some). injection Hj as <-.
      rewrite list_lookup_insert_eq in Hl
        by (rewrite (inv_len _ Hw); by eapply lookup_lt_Some). injection Hl as <-.
      simpl. rewrite Hp by lia. destruct (Z.ltb_spec t (w_now w + ms * millisecond)); [done|lia].
    + rewrite list_lookup_insert_ne in Hj by done. rewrite list_lookup_insert_ne in Hl by done.
      pose proof (leased_get _ _ _ _ Hw Hj Hl Hr ltac:(lia)) as Hget.
      assert (lo_key lk <> lo_key lkj) as Hk.
      { intros Heq. rewrite <- Heq, Ho in Hget. injection Hget as Htok.
        by apply Hne, (lookup_same_token _ _ _ _ _ Hw Hi Hj). }
      replace r' with (snd (r_pexpire (w_redis w) (w_now w) (lo_key lk) ms)) by (by rewrite Hs).
      rewrite pexpire_other by done. by eapply (inv_live _ Hw).
Qed.

Lemma lock_step_inv w w' : lock_inv w -> step w w' -> lock_inv w'.
Proof.
  intros Hw Hstep. destruct Hstep as
    [w d Hd | w key token r' Hfresh Hs | w key token b r' Hfresh Hs | w i lk n r' Hi Hs
    | w i lk err Hi Hlost | w i lk Hi Hrel | w i lk n r' Hi Hrel Hs].
  - split; simpl; try apply Hw. intros i lk lease Hi Hl Hr t Ht. eapply (inv_live _ Hw); eauto. lia.
  - assert (r_get (w_redis w) (w_now w) key = None) as Hfree.
    { destruct (r_get _ _ key) eqn:E; [|done]. by erewrite setnx_taken in Hs. }
    pose proof (setnx_leases _ _ _ _ _ Hw Hs) as Hw1.
    destruct (setnx_free (w_redis w) (w_now w) key token (op_TTL opts) Hfree) as [_ Hset].
    rewrite Hs in Hset. simpl in Hset. split; simpl.
    + rewrite !length_app. simpl. by rewrite (inv_len _ Hw).
    + rewrite fmap_app. cbn [fmap list_fmap lo_token].
      apply NoDup_app. split; [apply Hw|]. split; [|apply NoDup_singleton].
      intros tk Htk ->%list_elem_of_singleton. apply list_elem_of_fmap in Htk as (l & Htok & Hl).
      apply Hfresh. rewrite Htok. by apply (inv_used _ Hw).
    + intros l [Hl|Hl]%elem_of_app; apply elem_of_cons; [right; by apply (inv_used _ Hw)|left].
      by apply list_elem_of_singleton in Hl as ->.
    + intros i lk lease Hi Hl Hr t Ht. apply lookup_app_Some in Hi as [Hi|[Hge Hi]].
      * assert (w_lease w !! i = Some lease) as Hl'.
        { apply lookup_lt_Some in Hi. rewrite lookup_app_l in Hl; [done|]. by rewrite (inv_len _ Hw). }
        by eapply (inv_live _ Hw1).
      * apply list_lookup_singleton_Some in Hi as [Hz <-].
        rewrite lookup_app_r in Hl by (by rewrite (inv_len _ Hw)).
        rewrite (inv_len _ Hw), Hz in Hl. simpl in Hl. injection Hl as <-. simpl.
        rewrite Hset by lia. destruct (Z.ltb_spec t (w_now w + op_TTL opts)); [done|lia].
  - pose proof (setnx_leases _ _ _ _ _ Hw Hs) as Hw1. split; simpl; try apply Hw1.
    intros l Hl. apply elem_of_cons. right. by apply (inv_used _ Hw).
  - by eapply renew_inv.
  - destruct (watchdog_tick_frame (w_now w) (tick_reply lk err) lk) as (Hk & Ht & Hr).
    eapply inv_update; eauto; congruence.
  - unfold release in *. destruct (lo_released lk) eqn:E; [done|]. eapply inv_update; eauto.
  - unfold unlockScript in Hs. destruct (owns _ _ _ _) eqn:Ho; [|injection Hs as _ <-; by destruct w].
    apply owns_spec in Ho. apply inv_redis; [done|]. intros j lk' lease Hj Hl Hr Hlt t Ht.
    pose proof (leased_get _ _ _ _ Hw Hj Hl Hr Hlt) as Hget.
    destruct (decide (lo_key lk = lo_key lk')) as [Heq|Hne].
    + rewrite <- Heq, Ho in Hget. injection Hget as Htok.
      assert (i = j) as -> by (by eapply lookup_same_token). congruence.
    + replace r' with (snd (r_del (w_redis w) (w_now w) (lo_key lk))) by (by rewrite Hs).
      by apply del_other.
Qed.

Lemma initial_inv r now : lock_inv (initial r now).
Proof. split; simpl; [done|constructor|by intros lk ?%elem_of_nil|done]. Qed.

Lemma lock_reachable_inv w : reachable w -> lock_inv w.
Proof.
  intros (r & now & Hr). assert (lock_inv (initial r now)) as Hi by apply initial_inv.
  revert Hi. induction Hr as [|w1 w2 w3 Hs Hr IH]; [done|]. intros Hi. apply IH. by eapply lock_step_inv.
Qed.

(** C15. Mutual exclusion. In every interleaving of owners, network and clock, two locks on the same key
    that are both unreleased and within their lease are the same lock, and while there is one nobody
    else can acquire the key. *)
Theorem lock_mutual_exclusion (w : world) (i j : nat) (key : string) :
  reachable w -> leased w i key -> leased w j key ->
  i = j /\ forall token, r_setnx (w_redis w) (w_now w) key token (op_TTL opts) = (false, w_redis w).
Proof.
  intros Hw%lock_reachable_inv (lk & lease & Hi & Hl & Hk & Hr & Hlt) (lk' & lease' & Hj & Hl' & Hk' & Hr' & Hlt').
  pose proof (leased_get _ _ _ _ Hw Hi Hl Hr Hlt) as Hg. pose proof (leased_get _ _ _ _ Hw Hj Hl' Hr' Hlt') as Hg'.
  rewrite Hk in Hg. rewrite Hk', Hg in Hg'. injection Hg' as Ht. split.
  - by eapply lookup_same_token.
  - intros token. by eapply setnx_taken.
Qed.

(** An owner whose lease ran out cannot harm its successor: whenever its renewal or unlock script
    reaches the server, it changes nothing while another lock on the key is within its lease. *)
Theorem stale_owner_harmless (w : world) (i j : nat) (lk : LockObj) (ms : Z) :
  reachable w -> w_locks w !! i = Some lk -> leased w j (lo_key lk) -> i <> j ->
  unlockScript (w_redis w) (w_now w) (lo_key lk) (lo_token lk) = (0, w_redis w)
  /\ renewScript (w_redis w) (w_now w) (lo_key lk) (lo_token lk) ms = (0, w_redis w).
Proof.
  intros Hw%lock_reachable_inv Hi (lk' & lease & Hj & Hl & Hk & Hr & Hlt) Hne.
  pose proof (leased_get _ _ _ _ Hw Hj Hl Hr Hlt) as Hg. rewrite Hk in Hg.
  assert (owns (w_redis w) (w_now w) (lo_key lk) (lo_token lk) = false) as Ho.
  { apply not_true_iff_false. rewrite owns_spec, Hg. intros [= Ht].
    by apply Hne, (lookup_same_token _ _ _ _ _ Hw Hi Hj). }
  unfold unlockScript, renewScript. by rewrite Ho.
Qed.

End world.

(** ** A keyspace with these laws *)

(** Values with their expiry time; an entry whose time has come is as good as absent. *)
#[export] Instance GmapRedis : RedisKV := {
  rstate := gmap string (string * Z);
  r_get r t k := match r !! k with Some (v, e) => if t <? e then Some v else None | None => None end;
  r_setnx r t k v ttl :=
    if match r !! k with Some (_, e) => t <? e | None => false end then (false, r)
    else (true, <[k := (v, t + ttl)]> r);
  r_del r t k := (if match r !! k with Some (_, e) => t <? e | None => false end then 1 else 0, delete k r);
  r_pexpire r t k ms :=
    match r !! k with
    | Some (v, e) => if t <? e then (1, <[k := (v, t + ms * millisecond)]> r) else (0, r)
    | None => (0, r)
    end }.

#[export] Instance GmapRedisLaws : RedisLaws.
Proof.
  split; cbn [r_get r_setnx r_del r_pexpire GmapRedis rstate].
  - intros r t k v ttl Hg.
    assert (match r !! k with Some (_, e) => t <? e | None => false end = false) as ->.
    { destruct (r !! k) as [[w e]|]; [|done]. by destruct (t <? e). }
    split; [done|]. intros t' Ht. simpl. by rewrite lookup_insert_eq.
  - intros r t k v w ttl Hg. destruct (r !! k) as [[w' e]|]; [|done]. by destruct (t <? e).
  - intros r t k v ttl t' k' Hne. destruct (match r !! k with Some _ => _ | None => _ end); simpl; [done|].
    by rewrite lookup_insert_ne.
  - intros r t k t' _. simpl. by rewrite lookup_delete_eq.
  - intros r t k t' k' Hne. simpl. by rewrite lookup_delete_ne.
  - intros r t k v ms Hg. destruct (r !! k) as [[w e]|] eqn:E; [|done]. destruct (t <? e); [|done].
    injection Hg as ->. split; [done|]. intros t' _. simpl. by rewrite lookup_insert_eq.
  - intros r t k ms t' k' Hne. destruct (r !! k) as [[w e]|]; [|done]. destruct (t <? e); [|done].
    simpl. by rewrite lookup_insert_ne.
Qed.

(** ** Detection of a lost lease *)

(** A tick of a live lock reports the loss, confirms the lease, or is within a lease of the last
    confirmation. *)
Lemma watchdog_tick_live opts now n lk :
  lo_released lk = false -> lo_isLost lk = false ->
  let '(go_on, lk') := watchdog_tick opts now n lk in
  lo_isLost lk' = negb go_on /\ lo_released lk' = false
  /\ (go_on = true ->
        (n = Ok 1 /\ lo_lastOK lk' = now) \/ (lo_lastOK lk' = lo_lastOK lk /\ now < lo_lastOK lk + op_TTL opts)).
Proof.
  intros Hr Hl. unfold watchdog_tick, markLost. rewrite Hl, Hr. simpl. destruct n as [n|e].
  - destruct (Z.eqb_spec n 1) as [->|]; simpl; [auto|done].
  - destruct (Z.leb_spec (op_TTL opts) (now - lo_lastOK lk)); simpl; [done|].
    split; [done|]. split; [done|]. intros _. right. split; [done|lia].
Qed.

(** How long a lost lease can go unnoticed. A watchdog that has not reported the loss has had its
    last tick less than one lease after the last renewal the server confirmed (or after it started), so
    the owner believes in the lock for less than TTL plus one tick beyond that confirmation. *)
Theorem watchdog_detects (opts : Options) (ticks : list (Z * res Z)) (lk : LockObj) (now : Z) (n : res Z) :
  0 < op_TTL opts -> lo_released lk = false -> lo_isLost lk = false ->
  let lk' := watchdog opts (ticks ++ [(now, n)]) lk in
  lo_isLost lk' = false ->
  now < lo_lastOK lk' + op_TTL opts
  /\ (lo_lastOK lk' = lo_lastOK lk \/ (lo_lastOK lk', Ok 1) ∈ ticks ++ [(now, n)]).
Proof.
  intros Httl. revert lk. induction ticks as [|[t m] ticks IH]; intros lk Hr Hl; cbn [app watchdog];
    [pose proof (watchdog_tick_live opts now n lk Hr Hl) as Ht; destruct (watchdog_tick opts now n lk) as [go_on lk1]
    |pose proof (watchdog_tick_live opts t m lk Hr Hl) as Ht; destruct (watchdog_tick opts t m lk) as [go_on lk1]];
    destruct Ht as (Hl1 & Hr1 & Hok); (destruct go_on; [|by rewrite Hl1]); specialize (Hok eq_refl); intros Hf.
  - destruct Hok as [[-> ->]|[-> Hlt]]; (split; [lia|]); [right; left|by left].
  - destruct (IH lk1 Hr1 Hl1 Hf) as [Hlt Hin]. split; [done|].
    destruct Hin as [Hin|Hin]; [|right; by right]. rewrite Hin.
    destruct Hok as [[-> ->]|[-> _]]; [right; left|by left].
Qed.

Definition heldExample (now : Z) : LockObj := mkLockObj "lock:analysis:h:d" "t1" false false now None.

Lemma watchdog_detects_witness :
  let opts := NewLocker None in
  let unreachable := Err (OtherErr "redis: i/o timeout" None None) in
  let ticks := [(10 * second, Ok 1); (20 * second, unreachable); (30 * second, unreachable)] in
  let lk' := watchdog opts (ticks ++ [(39 * second, unreachable)]) (heldExample 0) in
  lo_isLost lk' = false
  /\ 39 * second < lo_lastOK lk' + op_TTL opts
  /\ (lo_lastOK lk' = 0 \/ (lo_lastOK lk', Ok 1) ∈ ticks ++ [(39 * second, unreachable)]).
Proof.
  intros opts unreachable ticks lk'. split; [vm_compute; reflexivity|].
  apply (watchdog_detects opts ticks (heldExample 0) (39 * second) unreachable); vm_compute; reflexivity.
Defined.

(** ** Reachable worlds *)

Definition defaults : Options := NewLocker None.

Definition exampleKey : string := "lock:analysis:h:d".
Definition timeout_error : gerror := OtherErr "redis: i/o timeout" None None.

(** The world after one owner acquired a key at time 0. *)
Definition oneOwner : world :=
  mkWorld {[exampleKey := ("t1", 30 * second)]} 0 [mkLockObj exampleKey "t1" false false 0 None]
    [30 * second] ["t1"].

Lemma oneOwner_step : step defaults (initial ∅ 0) oneOwner.
Proof.
  refine (step_acquire defaults (initial ∅ 0) exampleKey "t1" _ _ _); [apply not_elem_of_nil|].
  vm_compute. reflexivity.
Qed.

Lemma lock_mutual_exclusion_witness :
  reachable defaults oneOwner /\ leased oneOwner 0 exampleKey
  /\ (0%nat = 0%nat
      /\ forall token, r_setnx (w_redis oneOwner) (w_now oneOwner) exampleKey token (op_TTL defaults)
           = (false, w_redis oneOwner)).
Proof.
  assert (reachable defaults oneOwner) as Hr by (exists ∅, 0; apply rtc_once, oneOwner_step).
  assert (leased oneOwner 0 exampleKey) as Hl by (eexists _, _; repeat split).
  split; [exact Hr|]. split; [exact Hl|]. exact (lock_mutual_exclusion defaults _ 0 0 exampleKey Hr Hl Hl).
Defined.

(** The first owner lost contact with Redis at time 0 and the lease of its key ran out at 30 s: a second
    owner acquires the key. *)
Definition twoOwners : world :=
  mkWorld {[exampleKey := ("t2", 60 * second)]} (30 * second)
    [mkLockObj exampleKey "t1" false false 0 None; mkLockObj exampleKey "t2" false false (30 * second) None]
    [30 * second; 60 * second] ["t2"; "t1"].

Lemma twoOwners_reachable : reachable defaults twoOwners.
Proof.
  assert (forall t, step defaults (mkWorld (w_redis oneOwner) t (w_locks oneOwner) (w_lease oneOwner) ["t1"])
    (mkWorld (w_redis oneOwner) (t + 10 * second) (w_locks oneOwner) (w_lease oneOwner) ["t1"])) as Htime.
  { intros t. apply (step_time defaults (mkWorld _ t _ _ _)). vm_compute. discriminate. }
  assert (forall t, t < 30 * second ->
    step defaults (mkWorld (w_redis oneOwner) t (w_locks oneOwner) (w_lease oneOwner) ["t1"])
      (mkWorld (w_redis oneOwner) t (w_locks oneOwner) (w_lease oneOwner) ["t1"])) as Hwatch.
  { intros t Ht. pose proof (step_watch defaults (mkWorld (w_redis oneOwner) t (w_locks oneOwner) (w_lease oneOwner) ["t1"])
      0 _ (Some timeout_error) eq_refl eq_refl) as Hs.
    cbn [w_now w_locks w_redis w_lease w_tokens tick_reply watchdog_tick] in Hs.
    change (op_TTL defaults) with (30 * second) in Hs. cbn [oneOwner w_locks lo_lastOK] in Hs.
    destruct (Z.leb_spec (30 * second) (t - 0)) in Hs; [lia|exact Hs]. }
  exists ∅, 0. eapply rtc_l; [apply oneOwner_step|].
  eapply rtc_l; [apply (Htime 0)|]. eapply rtc_l; [apply Hwatch; vm_compute; reflexivity|].
  eapply rtc_l; [apply Htime|]. eapply rtc_l; [apply Hwatch; vm_compute; reflexivity|].
  eapply rtc_l; [apply Htime|]. apply rtc_once.
  refine (step_acquire defaults (mkWorld _ _ _ _ _) exampleKey "t2" _ _ _).
  - by intros ?%list_elem_of_singleton.
  - vm_compute. reflexivity.
Qed.

(** The other side of the detection delay: with the default timings there is a reachable state in
    which two owners of the same key both report [IsHeld] and neither [Lost] channel is closed, although
    the first owner's lease has run out. The failed renewals at 10 s and 20 s leave its flag alone and
    nothing happens at 30 s, so the flag is not raised when the lease can no longer be guaranteed but
    at the first failing tick after that. *)
Theorem two_owners_believe :
  exists w l1 l2, reachable defaults w /\ w_locks w = [l1; l2] /\ lo_key l1 = lo_key l2
    /\ IsHeld l1 = true /\ IsHeld l2 = true /\ ~ leased w 0 (lo_key l1) /\ leased w 1 (lo_key l1).
Proof.
  eexists twoOwners, _, _. split; [apply twoOwners_reachable|]. repeat split.
  - intros (lk & lease & Hi & Hl & _ & _ & Hlt). injection Hl as <-. vm_compute in Hlt. discriminate.
  - eexists _, _. repeat split.
Qed.

Lemma stale_owner_harmless_witness :
  reachable defaults twoOwners /\ leased twoOwners 1 exampleKey
  /\ unlockScript (w_redis twoOwners) (30 * second) exampleKey "t1" = (0, w_redis twoOwners)
  /\ renewScript (w_redis twoOwners) (30 * second) exampleKey "t1" 30000 = (0, w_redis twoOwners).
Proof.
  assert (leased twoOwners 1 exampleKey) as Hl by (eexists _, _; repeat split).
  split; [exact twoOwners_reachable|]. split; [exact Hl|].
  exact (stale_owner_harmless defaults twoOwners 0 1 (mkLockObj exampleKey "t1" false false 0 None) 30000
           twoOwners_reachable eq_refl Hl ltac:(discriminate)).
Defined.

(** ** Acquisition: what [TryLock] does and that it returns *)

(** The attempts of a trace: the token each used and the answer. *)
Definition attempts : trace LockerE -> list (string * string * Z * res bool) :=
  select (fun X c =>
    match c in LockerE X return X -> option (string * string * Z * res bool) with
    | SetNX _ key token ttl => fun r => Some (key, token, ttl, r)
    | _ => fun _ => None
    end).

(** The clock does not run backwards and a sleep lasts at least its duration. *)
Fixpoint timely (lo : Z) (tr : trace LockerE) : Prop :=
  match tr with
  | [] => True
  | Ev c x :: tr' =>
      match c in LockerE X return X -> Prop with
      | TimeNow => fun t => lo <= t /\ timely t tr'
      | SleepOrDone _ d => fun _ => timely (lo + d) tr'
      | _ => fun _ => timely lo tr'
      end x
  end.

Lemma TryLock_loop_spec opts fuel ctx key token wait deadline :
  wp (TryLock_loop opts fuel ctx key token wait deadline) (fun tr r =>
    exists k, match r with
    | None => attempts tr = replicate k (key, token, op_TTL opts, Ok false)
    | Some (Ok (Some _)) =>
        attempts tr = replicate k (key, token, op_TTL opts, Ok false) ++ [(key, token, op_TTL opts, Ok true)]
    | Some (Ok None) => attempts tr = replicate (S k) (key, token, op_TTL opts, Ok false)
        /\ (wait <= 0 -> k = 0%nat)
    | Some (Err e) =>
        attempts tr = replicate (S k) (key, token, op_TTL opts, Ok false)
        \/ attempts tr = replicate k (key, token, op_TTL opts, Ok false) ++ [(key, token, op_TTL opts, Err e)]
    end).
Proof.
  induction fuel as [|fuel IH]; cbn [TryLock_loop]; [by exists 0%nat|].
  unfold acquire. wp_go.
  - exists 0%nat. done.
  - exists 0%nat. done.
  - exists 0%nat. by left.
  - eapply wp_mono; [apply IH|]. intros tr r (k & Hk). exists (S k).
    unfold attempts, select in *. cbn [omap list_omap]. apply orb_false_iff in Heqb0 as [Hw _].
    destruct r as [[[lk|]|e]|]; [by rewrite Hk| |destruct Hk as [Hk|Hk]; rewrite Hk; auto|by rewrite Hk].
    destruct Hk as [-> _]. split; [done|lia].
  - exists 0%nat. by right.
Qed.

Lemma TryLock_loop_returns opts fuel ctx key token wait deadline :
  0 < op_PollInterval opts ->
  wp (TryLock_loop opts fuel ctx key token wait deadline) (fun tr r =>
    forall lo, timely lo tr -> (0 < fuel)%nat -> deadline - lo <= Z.of_nat (fuel - 1) * op_PollInterval opts ->
    r <> None).
Proof.
  intros Hpoll. induction fuel as [|fuel IH]; cbn [TryLock_loop]; [intros lo _ ?; lia|].
  unfold acquire. wp_go; try done.
  eapply wp_mono; [apply IH|]. intros tr r Hr lo Ht _ Hlo. cbn [timely] in Ht. destruct Ht as [Hx0 Ht].
  apply orb_false_iff in Heqb0 as [_ Hrem]. apply Z.leb_gt in Hrem.
  assert (1 <= Z.of_nat fuel) as Hf by nia.
  eapply Hr; [exact Ht|lia|]. replace (Z.of_nat (fuel - 1)) with (Z.of_nat fuel - 1) by lia.
  replace (Z.of_nat (S fuel - 1)) with (Z.of_nat fuel) in Hlo by lia.
  destruct (Z.ltb_spec (deadline - x0) (op_PollInterval opts)); nia.
Qed.

(** [TryLock] keeps its contract: all its attempts use one fresh token, the configured key and the
    full lease; it hands out a lock exactly when the last attempt set the key, it never retries after
    that or after a Redis error, with no waiting time it makes a single attempt, and (if the clock does
    not run backwards) it returns after at most wait / poll interval + 2 attempts. *)
Theorem TryLock_contract (opts : Options) (fuel : nat) (ctx : Context) (key : string) (wait : Z) :
  0 < op_PollInterval opts -> wait <= Z.of_nat (fuel - 1) * op_PollInterval opts -> (0 < fuel)%nat ->
  wp (TryLock opts fuel ctx key wait) (fun tr r =>
    (forall lo, timely lo tr -> r <> None)
    /\ exists token k, let try a := (key, token, op_TTL opts, a) in
       match r with
       | None => attempts tr = replicate k (try (Ok false))
       | Some (Ok (Some _)) => attempts tr = replicate k (try (Ok false)) ++ [try (Ok true)]
       | Some (Ok None) => attempts tr = replicate (S k) (try (Ok false)) /\ (wait <= 0 -> k = 0%nat)
       | Some (Err e) => attempts tr = replicate (S k) (try (Ok false))
                         \/ attempts tr = replicate k (try (Ok false)) ++ [try (Err e)]
       end).
Proof.
  intros Hpoll Hwait Hfuel. unfold TryLock. cbn [wp]. intros token now.
  eapply wp_mono; [apply (wp_and _ _ _ (TryLock_loop_spec _ _ _ _ _ _ _)
                            (TryLock_loop_returns _ _ _ _ _ _ _ Hpoll))|].
  cbn beta. intros tr r [[k Hk] Hret]. split.
  - intros lo [_ Ht]. eapply Hret; [exact Ht|lia|lia].
  - exists token, k. exact Hk.
Qed.

Lemma TryLock_contract_witness :
  0 < op_PollInterval defaults /\ 2 * second <= Z.of_nat (21 - 1) * op_PollInterval defaults
  /\ wp (TryLock defaults 21 RequestContext exampleKey (2 * second)) (fun tr r =>
    (forall lo, timely lo tr -> r <> None)
    /\ exists token k, let try a := (exampleKey, token, op_TTL defaults, a) in
       match r with
       | None => attempts tr = replicate k (try (Ok false))
       | Some (Ok (Some _)) => attempts tr = replicate k (try (Ok false)) ++ [try (Ok true)]
       | Some (Ok None) => attempts tr = replicate (S k) (try (Ok false)) /\ (2 * second <= 0 -> k = 0%nat)
       | Some (Err e) => attempts tr = replicate (S k) (try (Ok false))
                         \/ attempts tr = replicate k (try (Ok false)) ++ [try (Err e)]
       end).
Proof.
  split; [vm_compute; reflexivity|]. split; [vm_compute; discriminate|].
  apply (TryLock_contract defaults 21 RequestContext exampleKey (2 * second));
    [vm_compute; reflexivity|vm_compute; discriminate|lia].
Defined.
