(* ===== verification/Runner.v ===== *)
(** * The consumer-group poll loop and its partition workers (internal/mq/runner.go)

    [handle] is the program a worker runs for one record.  The [Runner] itself (poll loop, rebalance
    callback, shutdown and any number of worker goroutines) is the transition system [step], whose
    transitions are the critical sections and channel operations of the source.  The Kafka client is
    what its documentation says of fetch pausing: a poll never returns records of a paused partition. *)

From S2P Require Import Prelude GoStrings Proc Errors Model GoContext Routing Consumer.

Local Open Scope string_scope.
Local Open Scope list_scope.
Local Open Scope Z_scope.

(** ** One record *)

Inductive WorkerE : Type -> Type :=
| WkNow : WorkerE Z
| WkTimer (d : Z) : WorkerE bool          (* true: the timer fired; false: the worker was stopped *)
| WkStopped : WorkerE bool
| WkHandle (d : Delivery) : WorkerE (res Outcome)
| WkCommit (rec : KRecord) : WorkerE (res unit).

Definition sleep (d : Z) : proc WorkerE bool :=
  if d <=? 0 then Do WkStopped (fun s => Ret (negb s)) else call (WkTimer d).

(** [commit]: a failure is logged. *)
Definition commit (rec : KRecord) : proc WorkerE unit := Do (WkCommit rec) (fun _ => Ret tt).

Definition maxBackoff : Z := 30 * second.

(** The loop of [handle]; [None] when the fuel (number of calls of the handler) is used up. *)
Fixpoint handle_loop (fuel : nat) (d : Delivery) (rec : KRecord) (backoff : Z)
  : proc WorkerE (option bool) :=
  match fuel with
  | O => Ret None
  | S fuel =>
      Do (WkHandle d) (fun r =>
      match r with
      | Ok _ => bind (commit rec) (fun _ => Ret (Some true))
      | Err _ =>
          bind (sleep backoff) (fun awake =>
          if negb awake then Ret (Some false)
          else handle_loop fuel d rec (Z.min (backoff * 2) maxBackoff))
      end)
  end.

Definition handle `{MsgCodec} (fuel : nat) (RedeliverBackoff : Z) (rec : KRecord)
  : proc WorkerE (option bool) :=
  let d := DecodeRecord rec in
  bind (if IsZero (d_NotBefore d) then Ret true
        else Do WkNow (fun now => sleep (d_NotBefore d - now))) (fun awake =>
  if negb awake then Ret (Some false) else handle_loop fuel d rec RedeliverBackoff).

(** ** The client *)

(** The options of [NewRunner], without its callbacks, which are transitions below. *)
Definition RunnerOptions (brokers : list string) : list KgoOpt :=
  [SeedBrokers brokers; ClientID "server-go"; ConsumerGroupOpt ConsumerGroup; ConsumeTopics ConsumedTopics;
   DisableAutoCommit; ConsumeResetOffset AtStart; BlockRebalanceOnPoll].

(** ** The transition system *)

Definition topicPartition : Type := string * Z.

(** Where the goroutine of a worker is: at the top of its inner loop, about to call [next], between the
    emptiness check of [next] and its call of ResumeFetchPartitions, in the select, inside [handle], or
    returned. *)
Inductive position := AtTop | AtNext | AtResume | AtSelect | InHandle (rec : KRecord) | Returned.

Record partitionWorker := mkPW {
  pw_tp : topicPartition; pw_q : list KRecord; pw_wake : bool; pw_done : bool; pw_at : position }.

(** [ru_all] is every worker ever started, [ru_workers] the map of the live ones, [ru_paused] the
    client's paused partitions, [ru_log] what happened to records, latest last. *)
Inductive entry := Fetched (w : nat) (rec : KRecord) | Taken (w : nat) (rec : KRecord) | Committed (w : nat) (rec : KRecord).

Record Runner := mkRunner {
  ru_all : list partitionWorker; ru_workers : gmap topicPartition nat; ru_paused : gset topicPartition;
  ru_log : list entry }.

Definition set_at (w : partitionWorker) (p : position) : partitionWorker :=
  mkPW (pw_tp w) (pw_q w) (pw_wake w) (pw_done w) p.

Definition stop (w : partitionWorker) : partitionWorker :=
  mkPW (pw_tp w) (pw_q w) (pw_wake w) true (pw_at w).

Definition enqueue (w : partitionWorker) (recs : list KRecord) : partitionWorker :=
  mkPW (pw_tp w) (pw_q w ++ recs) true (pw_done w) (pw_at w).

Definition newWorker (tp : topicPartition) : partitionWorker := mkPW tp [] false false AtTop.

(** [dispatch] of one partition of a poll. *)
Definition dispatch (r : Runner) (tp : topicPartition) (recs : list KRecord) : Runner :=
  let '(i, all, workers) :=
    match ru_workers r !! tp with
    | Some i => (i, ru_all r, ru_workers r)
    | None => (length (ru_all r), ru_all r ++ [newWorker tp], <[tp := length (ru_all r)]> (ru_workers r))
    end in
  mkRunner (alter (fun w => enqueue w recs) i all) workers (ru_paused r ∪ {[tp]})
    (ru_log r ++ (Fetched i <$> recs)).

(** [onRevoked]; [Shutdown] stops the workers the same way, for every partition. *)
Fixpoint stop_all (r : Runner) (tps : list topicPartition) : Runner :=
  match tps with
  | [] => r
  | tp :: rest =>
      stop_all
        match ru_workers r !! tp with
        | Some i => mkRunner (alter stop i (ru_all r)) (delete tp (ru_workers r)) (ru_paused r) (ru_log r)
        | None => r
        end rest
  end.

Definition onRevoked (r : Runner) (revoked : list topicPartition) : Runner :=
  let r := stop_all r revoked in
  mkRunner (ru_all r) (ru_workers r) (ru_paused r ∖ list_to_set revoked) (ru_log r).

Definition shutdown (r : Runner) : Runner := stop_all r (fst <$> map_to_list (ru_workers r)).

Definition upd (r : Runner) (i : nat) (w : partitionWorker) : Runner :=
  mkRunner (<[i := w]> (ru_all r)) (ru_workers r) (ru_paused r) (ru_log r).

Definition log (r : Runner) (e : entry) : Runner :=
  mkRunner (ru_all r) (ru_workers r) (ru_paused r) (ru_log r ++ [e]).

Section steps.
Context `{MsgCodec} (RedeliverBackoff : Z).

Inductive step : Runner -> Runner -> Prop :=
| step_poll r tp recs : tp ∉ ru_paused r -> recs <> [] -> step r (dispatch r tp recs)
| step_revoked r tps : step r (onRevoked r tps)
| step_shutdown r : step r (shutdown r)
| step_top r i w : ru_all r !! i = Some w -> pw_at w = AtTop ->
    step r (upd r i (set_at w (if pw_done w then Returned else AtNext)))
| step_next r i w rec q : (* next() has a record *)
    ru_all r !! i = Some w -> pw_at w = AtNext -> pw_q w = rec :: q ->
    step r (log (upd r i (mkPW (pw_tp w) q (pw_wake w) (pw_done w) (InHandle rec))) (Taken i rec))
| step_next_empty r i w : (* ... or finds the queue empty and looks whether the worker is stopped *)
    ru_all r !! i = Some w -> pw_at w = AtNext -> pw_q w = [] ->
    step r (upd r i (set_at w (if pw_done w then AtSelect else AtResume)))
| step_resume r i w : ru_all r !! i = Some w -> pw_at w = AtResume ->
    step r (mkRunner (<[i := set_at w AtSelect]> (ru_all r)) (ru_workers r)
              (ru_paused r ∖ {[pw_tp w]}) (ru_log r))
| step_handled r i w rec fuel tr : ru_all r !! i = Some w -> pw_at w = InHandle rec ->
    execs (handle fuel RedeliverBackoff rec) tr (Some true) ->
    step r (log (upd r i (set_at w AtTop)) (Committed i rec))
| step_not_handled r i w rec fuel tr : ru_all r !! i = Some w -> pw_at w = InHandle rec ->
    pw_done w = true -> execs (handle fuel RedeliverBackoff rec) tr (Some false) ->
    step r (upd r i (set_at w Returned))
| step_woken r i w : ru_all r !! i = Some w -> pw_at w = AtSelect -> pw_wake w = true ->
    step r (upd r i (mkPW (pw_tp w) (pw_q w) false (pw_done w) AtTop))
| step_select_done r i w : ru_all r !! i = Some w -> pw_at w = AtSelect -> pw_done w = true ->
    step r (upd r i (set_at w Returned)).

End steps.

(** ** What the log says of one worker *)

Definition fetched (i : nat) (l : list entry) : list KRecord :=
  omap (fun e => match e with Fetched j rec => if Nat.eqb j i then Some rec else None | _ => None end) l.
Definition taken (i : nat) (l : list entry) : list KRecord :=
  omap (fun e => match e with Taken j rec => if Nat.eqb j i then Some rec else None | _ => None end) l.
Definition committed (i : nat) (l : list entry) : list KRecord :=
  omap (fun e => match e with Committed j rec => if Nat.eqb j i then Some rec else None | _ => None end) l.

Lemma fetched_app i l l' : fetched i (l ++ l') = fetched i l ++ fetched i l'.
Proof. apply omap_app. Qed.
Lemma taken_app i l l' : taken i (l ++ l') = taken i l ++ taken i l'.
Proof. apply omap_app. Qed.
Lemma committed_app i l l' : committed i (l ++ l') = committed i l ++ committed i l'.
Proof. apply omap_app. Qed.

Lemma log_fetched i j recs :
  fetched i (Fetched j <$> recs) = (if Nat.eqb j i then recs else [])
  /\ taken i (Fetched j <$> recs) = [] /\ committed i (Fetched j <$> recs) = [].
Proof.
  unfold fetched, taken, committed.
  induction recs as [|rec recs (IH1 & IH2 & IH3)]; [by destruct (Nat.eqb j i)|].
  rewrite fmap_cons. csimpl. rewrite IH1, IH2, IH3. by destruct (Nat.eqb j i).
Qed.

(** The worker's queue is what it fetched and has not taken; what it has taken and not committed is the
    record it is handling, or the one it abandoned when it returned. *)
Definition worker_ok (l : list entry) (i : nat) (w : partitionWorker) : Prop :=
  fetched i l = taken i l ++ pw_q w
  /\ exists rest, taken i l = committed i l ++ rest
     /\ match pw_at w with
        | InHandle rec => rest = [rec]
        | Returned => (length rest <= 1)%nat
        | _ => rest = []
        end.

Record runner_inv (r : Runner) : Prop := {
  inv_workers : forall i w, ru_all r !! i = Some w -> worker_ok (ru_log r) i w;
  inv_fresh : forall i, (length (ru_all r) <= i)%nat ->
    fetched i (ru_log r) = [] /\ taken i (ru_log r) = [] /\ committed i (ru_log r) = [];
  inv_map : forall tp i, ru_workers r !! tp = Some i <->
    exists w, ru_all r !! i = Some w /\ pw_tp w = tp /\ pw_done w = false }.

(** A worker moved, and possibly logged one entry of its own. *)
Lemma inv_move r i w w' l paused :
  runner_inv r -> ru_all r !! i = Some w -> pw_tp w' = pw_tp w -> pw_done w' = pw_done w ->
  (forall j, j <> i -> fetched j l = [] /\ taken j l = [] /\ committed j l = []) ->
  worker_ok (ru_log r ++ l) i w' ->
  runner_inv (mkRunner (<[i := w']> (ru_all r)) (ru_workers r) paused (ru_log r ++ l)).
Proof.
  intros Hr Hi Htp Hd Hl Hw. pose proof (lookup_lt_Some _ _ _ Hi) as Hlt.
  assert (forall j w, j <> i -> worker_ok (ru_log r) j w -> worker_ok (ru_log r ++ l) j w) as Hother.
  { intros j wj Hne. destruct (Hl j Hne) as (H1 & H2 & H3). unfold worker_ok.
    by rewrite fetched_app, taken_app, committed_app, H1, H2, H3, !app_nil_r. }
  split; simpl.
  - intros j wj Hj. apply list_lookup_insert_Some in Hj as [(<- & -> & _)|[Hne Hj]]; [done|].
    apply Hother; [done|]. by apply (inv_workers _ Hr).
  - intros j Hj. rewrite length_insert in Hj. assert (j <> i) as Hne by lia.
    destruct (Hl j Hne) as (H1 & H2 & H3). destruct (inv_fresh _ Hr j Hj) as (F1 & F2 & F3).
    by rewrite fetched_app, taken_app, committed_app, H1, H2, H3, F1, F2, F3.
  - intros tp j. rewrite (inv_map _ Hr). split; intros (wj & Hj & Ht & Hdj).
    + destruct (decide (j = i)) as [->|Hne].
      * exists w'. rewrite list_lookup_insert_eq by done. assert (wj = w) as -> by congruence. repeat split; congruence.
      * exists wj. by rewrite list_lookup_insert_ne.
    + apply list_lookup_insert_Some in Hj as [(<- & -> & _)|[Hne Hj]]; [|by exists wj].
      exists w. split; [done|]. split; congruence.
Qed.

Lemma alter_insert {A} (f : A -> A) (i : nat) (l : list A) x :
  l !! i = Some x -> alter f i l = <[i := f x]> l.
Proof.
  revert i. induction l as [|y l IH]; intros [|i] H; simpl in *; simplify_eq; [done|].
  f_equal. by apply IH.
Qed.

Lemma worker_ok_enqueue l i w recs :
  worker_ok l i w -> worker_ok (l ++ (Fetched i <$> recs)) i (enqueue w recs).
Proof.
  intros (Hf & rest & Ht & Hat). destruct (log_fetched i i recs) as (L1 & L2 & L3).
  rewrite Nat.eqb_refl in L1. unfold worker_ok. rewrite fetched_app, taken_app, committed_app, L1, L2, L3, !app_nil_r.
  split; [|by exists rest]. cbn [enqueue pw_q]. by rewrite Hf, app_assoc.
Qed.

Lemma inv_add r tp :
  runner_inv r -> ru_workers r !! tp = None ->
  runner_inv (mkRunner (ru_all r ++ [newWorker tp]) (<[tp := length (ru_all r)]> (ru_workers r)) (ru_paused r) (ru_log r)).
Proof.
  intros Hr Hnone. split; simpl.
  - intros i w [Hi|[Hge Hi]]%lookup_app_Some; [by apply (inv_workers _ Hr)|].
    apply list_lookup_singleton_Some in Hi as [_ <-]. destruct (inv_fresh _ Hr i Hge) as (F1 & F2 & F3).
    unfold worker_ok. rewrite F1, F2, F3. split; [done|]. by exists [].
  - intros i Hi. rewrite length_app in Hi. simpl in Hi. apply (inv_fresh _ Hr). lia.
  - intros tp' i. split.
    + intros [[<- <-]|[Hne Hi]]%lookup_insert_Some.
      * exists (newWorker tp). split; [|done]. by rewrite lookup_app_r, Nat.sub_diag by done.
      * apply (inv_map _ Hr) in Hi as (w & Hi & Htp). exists w. split; [|done]. by apply lookup_app_l_Some.
    + intros (w & [Hi|[Hge Hi]]%lookup_app_Some & Htp & Hd).
      * assert (ru_workers r !! tp' = Some i) as Hw by (apply (inv_map _ Hr); by exists w).
        rewrite lookup_insert_ne; [done|]. intros ->. congruence.
      * apply list_lookup_singleton_Some in Hi as [Hz <-]. simpl in Htp. subst tp'.
        rewrite lookup_insert_eq. f_equal. lia.
Qed.

Lemma inv_dispatch r tp recs : runner_inv r -> runner_inv (dispatch r tp recs).
Proof.
  intros Hr. unfold dispatch. destruct (ru_workers r !! tp) as [i|] eqn:E.
  - destruct (proj1 (inv_map _ Hr tp i) E) as (w & Hi & Htp & Hd).
    rewrite (alter_insert _ _ _ _ Hi). eapply inv_move; [done|done|done|done| |].
    + intros j Hne. destruct (log_fetched j i recs) as (-> & -> & ->).
      rewrite (proj2 (Nat.eqb_neq i j)) by done. done.
    + apply worker_ok_enqueue. by apply (inv_workers _ Hr).
  - pose proof (inv_add _ tp Hr E) as Hr1.
    assert ((ru_all r ++ [newWorker tp]) !! length (ru_all r) = Some (newWorker tp)) as Hi
      by by rewrite lookup_app_r, Nat.sub_diag.
    rewrite (alter_insert _ _ _ _ Hi).
    eapply (inv_move (mkRunner _ _ _ _)); [exact Hr1|exact Hi|done|done| |].
    + intros j Hne. destruct (log_fetched j (length (ru_all r)) recs) as (-> & -> & ->).
      rewrite (proj2 (Nat.eqb_neq (length (ru_all r)) j)) by done. done.
    + apply worker_ok_enqueue. by apply (inv_workers _ Hr1).
Qed.

Lemma inv_stop_all r tps : runner_inv r -> runner_inv (stop_all r tps).
Proof.
  revert r. induction tps as [|tp tps IH]; intros r Hr; [done|]. simpl. apply IH.
  destruct (ru_workers r !! tp) as [i|] eqn:E; [|done].
  destruct (proj1 (inv_map _ Hr tp i) E) as (w & Hi & Htp & Hd). rewrite (alter_insert _ _ _ _ Hi).
  split; simpl.
  - intros j wj [(<- & <- & _)|[Hne Hj]]%list_lookup_insert_Some; [|by apply (inv_workers _ Hr)].
    apply (inv_workers _ Hr _ _ Hi).
  - intros j Hj. rewrite length_insert in Hj. by apply (inv_fresh _ Hr).
  - intros tp' j. rewrite lookup_delete_Some, (inv_map _ Hr). split.
    + intros (Hne & wj & Hj & Ht & Hdj). exists wj. split; [|done].
      rewrite list_lookup_insert_ne; [done|]. intros ->. congruence.
    + intros (wj & [(<- & <- & _)|[Hne Hj]]%list_lookup_insert_Some & Ht & Hdj); [done|].
      split; [|by exists wj]. intros <-. apply Hne.
      assert (ru_workers r !! tp = Some j) by (apply (inv_map _ Hr); by exists wj). congruence.
Qed.

Lemma inv_paused r paused : runner_inv r -> runner_inv (mkRunner (ru_all r) (ru_workers r) paused (ru_log r)).
Proof. intros [H1 H2 H3]. by split. Qed.

(** A worker moved without logging. *)
Lemma inv_quiet r i w w' :
  runner_inv r -> ru_all r !! i = Some w -> pw_tp w' = pw_tp w -> pw_done w' = pw_done w ->
  worker_ok (ru_log r) i w' -> runner_inv (upd r i w').
Proof.
  intros Hr Hi Htp Hd Hw. unfold upd. rewrite <- (app_nil_r (ru_log r)). eapply inv_move; eauto.
  by rewrite app_nil_r.
Qed.

Section invariants.
Context `{MsgCodec} (RedeliverBackoff : Z).

Lemma runner_step_inv r r' : runner_inv r -> step RedeliverBackoff r r' -> runner_inv r'.
Proof.
  intros Hr Hs. destruct Hs as
    [r tp recs _ _|r tps|r|r i w Hi Hat|r i w rec q Hi Hat Hq|r i w Hi Hat Hq|r i w Hi Hat
    |r i w rec fuel tr Hi Hat _|r i w rec fuel tr Hi Hat Hd _|r i w Hi Hat Hw|r i w Hi Hat Hd];
    try (pose proof (inv_workers _ Hr _ _ Hi) as (Hf & rest & Ht & Hrest); rewrite Hat in Hrest).
  - by apply inv_dispatch.
  - by apply inv_paused, inv_stop_all.
  - by apply inv_stop_all.
  - eapply inv_quiet; eauto. split; [done|]. exists rest. split; [done|]. subst rest. destruct (pw_done w); simpl; [lia|done].
  - subst rest. unfold log, upd. cbn [ru_all ru_workers ru_paused ru_log].
    eapply inv_move; eauto; [intros j Hne; unfold fetched, taken, committed; simpl;
      by rewrite (proj2 (Nat.eqb_neq i j))|].
    unfold worker_ok. rewrite fetched_app, taken_app, committed_app. unfold fetched, taken, committed in *.
    simpl. rewrite Nat.eqb_refl, !app_nil_r in *. rewrite Hf, Hq. split; [by rewrite <- app_assoc|].
    exists [rec]. by rewrite Ht.
  - eapply inv_quiet; eauto. split; [done|]. exists rest. split; [done|]. subst rest. by destruct (pw_done w).
  - apply (inv_paused (upd r i (set_at w AtSelect))). eapply inv_quiet; eauto. split; [done|]. by exists rest.
  - subst rest. unfold log, upd. cbn [ru_all ru_workers ru_paused ru_log].
    eapply inv_move; eauto; [intros j Hne; unfold fetched, taken, committed; simpl;
      by rewrite (proj2 (Nat.eqb_neq i j))|].
    unfold worker_ok. rewrite fetched_app, taken_app, committed_app. unfold fetched, taken, committed in *.
    simpl. rewrite Nat.eqb_refl, !app_nil_r in *. split; [done|]. exists []. by rewrite Ht, app_nil_r.
  - subst rest. eapply inv_quiet; eauto. split; [done|]. exists [rec]. split; [done|simpl; lia].
  - eapply inv_quiet; eauto. split; [done|]. by exists rest.
  - eapply inv_quiet; eauto. split; [done|]. exists rest. subst rest. split; [done|]. simpl. lia.
Qed.
End invariants.

(** Stopping the workers of partitions takes them out of the map and pauses nothing. *)
Lemma stop_all_workers r tps tp :
  ru_workers (stop_all r tps) !! tp = if decide (tp ∈ tps) then None else ru_workers r !! tp.
Proof.
  revert r. induction tps as [|tp' tps IH]; intros r; cbn [stop_all]; [by rewrite decide_False by (by intros ?%elem_of_nil)|].
  rewrite IH. destruct (decide (tp ∈ tps)) as [Hin|Hin]; [by rewrite decide_True by (by right)|].
  destruct (decide (tp = tp')) as [->|Hne].
  - rewrite decide_True by left. destruct (ru_workers r !! tp') eqn:E; cbn; [by rewrite lookup_delete_eq|done].
  - rewrite decide_False by (by intros [?|?]%elem_of_cons).
    destruct (ru_workers r !! tp') eqn:E; cbn; [|done]. by rewrite lookup_delete_ne.
Qed.

Lemma stop_all_paused r tps : ru_paused (stop_all r tps) = ru_paused r.
Proof. revert r. induction tps as [|tp tps IH]; intros r; [done|]. cbn [stop_all]. rewrite IH. by destruct (ru_workers r !! tp). Qed.

Definition empty : Runner := mkRunner [] ∅ ∅ [].

Lemma empty_inv : runner_inv empty.
Proof.
  split; simpl; [done|done|]. intros tp i. rewrite lookup_empty. split; [done|]. by intros (w & ? & _).
Qed.

Lemma runner_reachable_inv `{MsgCodec} b r : rtc (step b) empty r -> runner_inv r.
Proof.
  generalize empty_inv. generalize empty. intros r0 H0 Hr.
  induction Hr as [|r1 r2 r3 Hs Hr IH]; [done|]. apply IH. by eapply runner_step_inv.
Qed.

(** C25. At-least-once, in order. Whatever the interleaving of polls, rebalances, shutdown and workers,
    each worker takes the records it was given in the order the broker delivered them and commits them
    in that order, one at a time: what it committed is an initial part of what it took, what it took is
    an initial part of what it was given, at most one taken record is uncommitted, and outside [handle]
    (and the return from it) none is. *)
Theorem worker_order `{MsgCodec} (b : Z) (r : Runner) (i : nat) (w : partitionWorker) :
  rtc (step b) empty r -> ru_all r !! i = Some w ->
  fetched i (ru_log r) = taken i (ru_log r) ++ pw_q w
  /\ (exists rest, taken i (ru_log r) = committed i (ru_log r) ++ rest /\ (length rest <= 1)%nat)
  /\ match pw_at w with
     | InHandle rec => taken i (ru_log r) = committed i (ru_log r) ++ [rec]
     | Returned => True
     | _ => taken i (ru_log r) = committed i (ru_log r)
     end.
Proof.
  intros Hr%runner_reachable_inv Hi. destruct (inv_workers _ Hr _ _ Hi) as (Hf & rest & Ht & Hat).
  split; [done|]. split.
  - exists rest. split; [done|]. destruct (pw_at w); subst; simpl; lia.
  - destruct (pw_at w); subst; rewrite ?Ht, ?app_nil_r; done.
Qed.

(** One live worker per partition: two workers of the same partition that are both not stopped are
    the same worker, and it is the one the runner's map names; a stopped one is never in the map. *)
Theorem one_live_worker `{MsgCodec} (b : Z) (r : Runner) (i j : nat) (w w' : partitionWorker) :
  rtc (step b) empty r ->
  ru_all r !! i = Some w -> ru_all r !! j = Some w' -> pw_tp w = pw_tp w' ->
  pw_done w = false -> pw_done w' = false ->
  i = j /\ ru_workers r !! pw_tp w = Some i.
Proof.
  intros Hr%runner_reachable_inv Hi Hj Htp Hd Hd'.
  assert (ru_workers r !! pw_tp w = Some i) as H1 by (apply (inv_map _ Hr); eauto).
  assert (ru_workers r !! pw_tp w' = Some j) as H2 by (apply (inv_map _ Hr); eauto).
  rewrite Htp in *. split; congruence.
Qed.

(** ** One record: handled means committed *)

Definition commits : trace WorkerE -> list KRecord :=
  select (fun X c =>
    match c in WorkerE X return X -> option KRecord with
    | WkCommit rec => fun _ => Some rec
    | _ => fun _ => None
    end).

Definition handlings : trace WorkerE -> list (Delivery * res Outcome) :=
  select (fun X c =>
    match c in WorkerE X return X -> option (Delivery * res Outcome) with
    | WkHandle d => fun r => Some (d, r)
    | _ => fun _ => None
    end).

Definition timers : trace WorkerE -> list Z :=
  select (fun X c =>
    match c in WorkerE X return X -> option Z with
    | WkTimer d => fun _ => Some d
    | _ => fun _ => None
    end).

(** The waits between attempts: doubled each time, at most 30 s. *)
Fixpoint backoffs (n : nat) (b : Z) : list Z :=
  match n with O => [] | S n => b :: backoffs n (Z.min (b * 2) maxBackoff) end.

Lemma handle_loop_spec fuel d rec b :
  0 < b ->
  wp (handle_loop fuel d rec b) (fun tr r =>
    exists fails, Forall (fun e => exists err, e = (d, Err err)) fails
      /\ timers tr = backoffs (length fails) b
      /\ match r with
         | Some true => exists o, handlings tr = fails ++ [(d, Ok o)] /\ commits tr = [rec]
             /\ exists pre c, tr = pre ++ [Ev (WkHandle d) (Ok o); Ev (WkCommit rec) c]
         | _ => handlings tr = fails /\ commits tr = []
         end).
Proof.
  revert b. induction fuel as [|fuel IH]; intros b Hb; cbn [handle_loop]; [by exists []|].
  unfold sleep, commit. destruct (Z.leb_spec b 0) as [|_]; [lia|]. wp_go.
  - exists []. split; [constructor|]. split; [done|]. exists a. split; [done|]. split; [done|].
    exists []. eauto.
  - eapply wp_mono; [apply IH; unfold maxBackoff, second, millisecond; lia|].
    intros tr r (fails & Hf & Ht & Hr). exists ((d, Err e) :: fails).
    split; [constructor; eauto|]. unfold timers, handlings, commits, select in *. cbn [omap list_omap].
    split; [by rewrite Ht|]. destruct r as [[]|]; [|destruct Hr as [-> ->]; done..].
    destruct Hr as (o & -> & -> & pre & c & ->). exists o. split; [done|]. split; [done|].
    by exists (Ev (WkHandle d) (Err e) :: Ev (WkTimer b) true :: pre), c.
  - exists [(d, Err e)]. split; [repeat constructor; eauto|]. done.
Qed.

Lemma timers_app tr tr' : timers (tr ++ tr') = timers tr ++ timers tr'.
Proof. apply select_app. Qed.
Lemma handlings_app tr tr' : handlings (tr ++ tr') = handlings tr ++ handlings tr'.
Proof. apply select_app. Qed.
Lemma commits_app tr tr' : commits (tr ++ tr') = commits tr ++ commits tr'.
Proof. apply select_app. Qed.

(** The wait for the due time neither handles nor commits. *)
Lemma await_due_spec d :
  wp (if IsZero (d_NotBefore d) then Ret true
      else Do WkNow (fun now => sleep (d_NotBefore d - now))) (fun tr _ =>
    handlings tr = [] /\ commits tr = []
    /\ forall t, t ∈ timers tr -> exists now, Ev WkNow now ∈ tr /\ t = d_NotBefore d - now /\ 0 < t).
Proof.
  destruct (IsZero _); [cbn [wp]; split; [done|]; split; [done|]; by intros t ?%elem_of_nil|].
  unfold sleep. cbn [wp]. intros now. destruct (Z.leb_spec (d_NotBefore d - now) 0); wp_go;
    (split; [done|]); (split; [done|]).
  - by intros t ?%elem_of_nil.
  - intros t Ht. unfold timers, select in Ht. cbn [omap list_omap] in Ht.
    apply list_elem_of_singleton in Ht as ->. exists now. split; [ev_in|lia].
Qed.

(** A record is committed only when it was handled. [handle] first waits for the record's due time;
    then it hands the same delivery to the handler until one call succeeds, pausing between calls for
    the redelivery backoff (doubled each time up to 30 s); it commits the record exactly once, right
    after the successful call, and never when it returns because the worker was stopped. *)
Theorem handle_commits `{MsgCodec} (fuel : nat) (b : Z) (rec : KRecord) :
  0 < b ->
  wp (handle fuel b rec) (fun tr r =>
    let d := DecodeRecord rec in
    exists wait fails,
      Forall (fun e => exists err, e = (d, Err err)) fails
      /\ timers tr = wait ++ backoffs (length fails) b
      /\ (forall t, t ∈ wait -> exists now, Ev WkNow now ∈ tr /\ t = d_NotBefore d - now /\ 0 < t)
      /\ match r with
         | Some true => exists o, handlings tr = fails ++ [(d, Ok o)] /\ commits tr = [rec]
             /\ exists pre c, tr = pre ++ [Ev (WkHandle d) (Ok o); Ev (WkCommit rec) c]
         | _ => handlings tr = fails /\ commits tr = []
         end).
Proof.
  intros Hb. cbv zeta. unfold handle. set (d := DecodeRecord rec).
  apply wp_bind. eapply wp_mono; [apply await_due_spec|].
  intros tr0 awake (Hh & Hc & Hw). destruct awake; cbn [negb].
  - eapply wp_mono; [by apply handle_loop_spec|]. intros tr r (fails & Hf & Ht & Hr).
    exists (timers tr0), fails. split; [done|].
    rewrite timers_app, handlings_app, commits_app, Hh, Hc, Ht. split; [done|]. split.
    { intros t Ht0. destruct (Hw t Ht0) as (now & Hin & Heq). exists now. rewrite elem_of_app. auto. }
    destruct r as [[]|]; [|done|done]. destruct Hr as (o & -> & -> & pre & c & ->). exists o.
    split; [done|]. split; [done|]. exists (tr0 ++ pre), c. by rewrite app_assoc.
  - exists (timers tr0), []. rewrite !app_nil_r. split; [constructor|]. split; [done|]. split; [done|]. done.
Qed.

#[local] Instance null_codec : MsgCodec := {
  unmarshalMsg := fun _ => Ok None; marshalMsg := fun _ => Ok "null" }.

Lemma handle_commits_witness :
  0 < second
  /\ wp (handle 3 second example_record) (fun tr r =>
    let d := DecodeRecord example_record in
    exists wait fails,
      Forall (fun e => exists err, e = (d, Err err)) fails
      /\ timers tr = wait ++ backoffs (length fails) second
      /\ (forall t, t ∈ wait -> exists now, Ev WkNow now ∈ tr /\ t = d_NotBefore d - now /\ 0 < t)
      /\ match r with
         | Some true => exists o, handlings tr = fails ++ [(d, Ok o)] /\ commits tr = [example_record]
             /\ exists pre c, tr = pre ++ [Ev (WkHandle d) (Ok o); Ev (WkCommit example_record) c]
         | _ => handlings tr = fails /\ commits tr = []
         end).
Proof. split; [vm_compute; reflexivity|]. apply (handle_commits 3 second example_record). vm_compute. reflexivity. Defined.

(** ** Concrete interleavings *)

Definition examplePartition : topicPartition := (TopicAnalysis, 0).

Definition obliging_world : env WorkerE := fun _ X c =>
  match c in WorkerE X return X with
  | WkNow => 0
  | WkTimer _ => true
  | WkStopped => false
  | WkHandle _ => Ok OutcomeSuccess
  | WkCommit _ => Ok tt
  end.

Lemma example_handled :
  execs (handle 1 second example_record) (fst (run obliging_world [] (handle 1 second example_record))) (Some true).
Proof. apply (run_execs obliging_world []). vm_compute. reflexivity. Qed.

(** The state after one poll. *)
Definition s_polled : Runner := dispatch empty examplePartition [example_record].

Lemma s_polled_reachable : rtc (step second) empty s_polled.
Proof. apply rtc_once, step_poll; [apply not_elem_of_empty|done]. Qed.

Lemma worker_order_witness :
  rtc (step second) empty s_polled
  /\ exists w, ru_all s_polled !! 0%nat = Some w
     /\ fetched 0 (ru_log s_polled) = taken 0 (ru_log s_polled) ++ pw_q w
     /\ (exists rest, taken 0 (ru_log s_polled) = committed 0 (ru_log s_polled) ++ rest /\ (length rest <= 1)%nat)
     /\ match pw_at w with
        | InHandle rec => taken 0 (ru_log s_polled) = committed 0 (ru_log s_polled) ++ [rec]
        | Returned => True
        | _ => taken 0 (ru_log s_polled) = committed 0 (ru_log s_polled)
        end.
Proof.
  split; [exact s_polled_reachable|]. eexists. split; [vm_compute; reflexivity|].
  apply (worker_order second s_polled 0 _ s_polled_reachable). vm_compute. reflexivity.
Defined.

Lemma one_live_worker_witness :
  rtc (step second) empty s_polled
  /\ exists w, ru_all s_polled !! 0%nat = Some w /\ 0%nat = 0%nat /\ ru_workers s_polled !! pw_tp w = Some 0%nat.
Proof.
  split; [exact s_polled_reachable|].
  exists (mkPW examplePartition [example_record] true false AtTop). split; [vm_compute; reflexivity|].
  apply (one_live_worker second s_polled 0 0 _ (mkPW examplePartition [example_record] true false AtTop) s_polled_reachable);
    vm_compute; reflexivity.
Defined.

(** The pause does not bound a partition to one outstanding batch. A buffered wake-up makes an idle
    worker call [next] again while its partition is already open; if the poll loop hands over a batch
    at that moment, the worker's resume comes after the dispatcher's pause, and a state is reachable in
    which a live worker has a non-empty queue and its partition is not paused, so that the next poll
    may add a second batch. Order and commits are not affected. *)
Theorem pause_race :
  exists r i w, rtc (step second) empty r /\ ru_workers r !! examplePartition = Some i
    /\ ru_all r !! i = Some w /\ pw_done w = false /\ pw_q w <> [] /\ examplePartition ∉ ru_paused r.
Proof.
  eexists _, 0%nat, _. split.
  { eapply rtc_l; [apply (step_poll _ empty examplePartition [example_record]); [apply not_elem_of_empty|done]|].
    eapply rtc_l; [eapply (step_top _ _ 0%nat); reflexivity|].
    eapply rtc_l; [eapply (step_next _ _ 0%nat); reflexivity|].
    eapply rtc_l; [eapply (step_handled _ _ 0%nat); [reflexivity|reflexivity|exact example_handled]|].
    eapply rtc_l; [eapply (step_top _ _ 0%nat); reflexivity|].
    eapply rtc_l; [eapply (step_next_empty _ _ 0%nat); reflexivity|].
    eapply rtc_l; [eapply (step_resume _ _ 0%nat); reflexivity|].
    eapply rtc_l; [eapply (step_woken _ _ 0%nat); reflexivity|].
    eapply rtc_l; [eapply (step_top _ _ 0%nat); reflexivity|].
    eapply rtc_l; [eapply (step_next_empty _ _ 0%nat); reflexivity|].
    eapply rtc_l; [eapply (step_poll _ _ examplePartition [example_record]); [|done];
                   apply (bool_decide_eq_false_1 _); vm_compute; reflexivity|].
    eapply rtc_once, (step_resume _ _ 0%nat); reflexivity. }
  split; [vm_compute; reflexivity|]. split; [reflexivity|]. split; [reflexivity|]. split; [done|].
  apply (bool_decide_eq_false_1 _). vm_compute. reflexivity.
Qed.
