(* ===== verification/PollLoop.v ===== *)
(** * The poll loop of the consumer group (internal/mq/runner.go, [Run])

    [Run] as a program over the Kafka client, and the system it is part of: the loop, the partition workers of
    Runner.v, and the rebalances of the group.  The client is what NewRunner configures and its documentation
    says: a poll returns records of partitions that are assigned and not paused, and from the moment it returned
    until AllowRebalance no partition is revoked or assigned, if it was told to block rebalances. *)

From S2P Require Import Prelude GoStrings Proc Concurrent Errors Model GoContext Routing Consumer Runner.

Local Open Scope string_scope.
Local Open Scope list_scope.
Local Open Scope Z_scope.

(** What a poll returns; fetch errors are only logged. *)
Record fetches := mkFetches { fe_Closed : bool; fe_Partitions : list (topicPartition * list KRecord) }.

Inductive PollE : Type -> Type :=
| PollRecords (max : Z) : PollE fetches
| CtxErr : PollE bool (* ctx.Err() != nil *)
| Dispatch (tp : topicPartition) (recs : list KRecord) : PollE unit
| AllowRebalance : PollE unit.

(** The callback of [fetches.EachPartition]. *)
Fixpoint eachPartition (ps : list (topicPartition * list KRecord)) : proc PollE unit :=
  match ps with
  | [] => Ret tt
  | (tp, recs) :: ps =>
      if (0 <? length recs)%nat then Do (Dispatch tp recs) (fun _ => eachPartition ps) else eachPartition ps
  end.

(** [fuel] is the number of polls. *)
Fixpoint Run (fuel : nat) : proc PollE unit :=
  match fuel with
  | O => Ret tt
  | S fuel =>
      Do (PollRecords 256) (fun f =>
      if fe_Closed f then Ret tt
      else Do CtxErr (fun cancelled =>
        if (cancelled : bool) then Ret tt
        else bind (eachPartition (fe_Partitions f)) (fun _ => Do AllowRebalance (fun _ => Run fuel))))
  end.

(** ** The calls of the loop *)

Definition filled (ps : list (topicPartition * list KRecord)) : list (topicPartition * list KRecord) :=
  List.filter (fun p => (0 <? length p.2)%nat) ps.

Definition dispatches (ps : list (topicPartition * list KRecord)) : trace PollE :=
  (fun p => Ev (Dispatch p.1 p.2) tt) <$> filled ps.

(** One round of the loop. *)
Definition round (f : fetches) : trace PollE :=
  [Ev (PollRecords 256) f; Ev CtxErr false] ++ dispatches (fe_Partitions f) ++ [Ev AllowRebalance tt].

(** The round in which the loop returns. *)
Definition lastRound (tr : trace PollE) : Prop :=
  exists f, (fe_Closed f = true /\ tr = [Ev (PollRecords 256) f])
    \/ (fe_Closed f = false /\ tr = [Ev (PollRecords 256) f; Ev CtxErr true]).

Lemma eachPartition_spec ps : wp (eachPartition ps) (fun tr _ => tr = dispatches ps).
Proof.
  unfold dispatches, filled. induction ps as [|[tp [|rec recs]] ps IH]; [done|exact IH|]. intros [].
  eapply wp_mono; [exact IH|]. by intros tr _ ->.
Qed.

(** The loop is its rounds: every poll is followed by the dispatch of each partition that has records, in the
    order and with the records of the poll, and by one AllowRebalance, before the next poll; it returns only
    when the client was closed or the context cancelled. *)
Theorem Run_rounds (fuel : nat) :
  wp (Run fuel) (fun tr _ =>
    exists rounds last, tr = concat (round <$> rounds) ++ last /\ (length rounds <= fuel)%nat
      /\ Forall (fun f => fe_Closed f = false) rounds
      /\ (lastRound last \/ (last = [] /\ length rounds = fuel))).
Proof.
  induction fuel as [|fuel IH]; cbn [Run].
  { exists [], []. split; [done|]. split; [done|]. split; [constructor|]. by right. }
  cbn. intros f. destruct (fe_Closed f) eqn:Ec; cbn.
  { exists [], [Ev (PollRecords 256) f]. split; [done|]. split; [cbn; lia|]. split; [constructor|]. left. exists f. by left. }
  intros [|]; cbn.
  { exists [], [Ev (PollRecords 256) f; Ev CtxErr true]. split; [done|]. split; [cbn; lia|]. split; [constructor|].
    left. exists f. by right. }
  apply wp_bind. eapply wp_mono; [apply eachPartition_spec|]. intros tr _ ->. cbn. intros [].
  eapply wp_mono; [exact IH|]. intros tr _ (rounds & last & -> & Hlen & Hopen & Hend).
  exists (f :: rounds), last. split; [|split; [cbn; lia|split; [by constructor|]]].
  - cbn. by rewrite <- !app_assoc.
  - destruct Hend as [Hl|[-> <-]]; [by left|by right].
Qed.

(** ** The loop among workers and rebalances *)

(** A member of the group: its runner, the partitions it owns, whether rebalances wait for AllowRebalance, and
    what the last poll returned and was not dispatched yet. *)
Record membership := mkMembership {
  gr_runner : Runner; gr_assigned : gset topicPartition; gr_blocked : bool;
  gr_batch : list (topicPartition * list KRecord) }.

Definition fetchable (g : membership) (p : topicPartition * list KRecord) : Prop :=
  p.1 ∈ gr_assigned g /\ p.1 ∉ ru_paused (gr_runner g).

Definition client (X : Type) (c : PollE X) : membership -> X -> membership -> Prop :=
  match c in PollE X return membership -> X -> membership -> Prop with
  | PollRecords _ => fun g f g' =>
      Forall (fetchable g) (fe_Partitions f) /\ NoDup (fe_Partitions f).*1
      /\ g' = mkMembership (gr_runner g) (gr_assigned g) (blocksRebalances (RunnerOptions [])) (filled (fe_Partitions f))
  | CtxErr => fun g _ g' => g' = g
  | Dispatch tp recs => fun g _ g' =>
      g' = mkMembership (dispatch (gr_runner g) tp recs) (gr_assigned g) (gr_blocked g) (tail (gr_batch g))
  | AllowRebalance => fun g _ g' => g' = mkMembership (gr_runner g) (gr_assigned g) false (gr_batch g)
  end.

Section system.
Context `{MsgCodec} (RedeliverBackoff : Z).

(** What happens beside the loop: workers take steps, in which they pause nothing and start nothing; partitions
    come and go while rebalances are allowed; Shutdown stops the workers. *)
Inductive beside : membership -> membership -> Prop :=
| by_worker g r' : step RedeliverBackoff (gr_runner g) r' ->
    ru_workers r' = ru_workers (gr_runner g) -> ru_paused r' ⊆ ru_paused (gr_runner g) ->
    beside g (mkMembership r' (gr_assigned g) (gr_blocked g) (gr_batch g))
| by_assignment g tps : gr_blocked g = false ->
    beside g (mkMembership (gr_runner g) (gr_assigned g ∪ tps) false (gr_batch g))
| by_revocation g tps : gr_blocked g = false ->
    beside g (mkMembership (onRevoked (gr_runner g) tps) (gr_assigned g ∖ list_to_set tps) false (gr_batch g))
| by_shutdown g : beside g (mkMembership (shutdown (gr_runner g)) (gr_assigned g) (gr_blocked g) (gr_batch g)).

Record member_inv (g : membership) : Prop := mkMemberInv {
  mi_runner : rtc (step RedeliverBackoff) empty (gr_runner g);
  mi_paused : ru_paused (gr_runner g) ⊆ gr_assigned g;
  mi_workers : forall tp i, ru_workers (gr_runner g) !! tp = Some i -> tp ∈ gr_assigned g;
  mi_batch : Forall (fun p => fetchable g p /\ p.2 <> []) (gr_batch g);
  mi_distinct : NoDup (gr_batch g).*1;
  mi_blocked : gr_batch g <> [] -> gr_blocked g = true }.

Definition joined : membership := mkMembership empty ∅ false [].

Lemma joined_inv : member_inv joined.
Proof. split; cbn; [apply rtc_refl|set_solver|intros tp i; by rewrite lookup_empty|constructor|constructor|done]. Qed.

Lemma dispatch_workers r tp recs :
  ru_paused (dispatch r tp recs) = ru_paused r ∪ {[tp]}
  /\ forall t i, ru_workers (dispatch r tp recs) !! t = Some i -> t = tp \/ ru_workers r !! t = Some i.
Proof.
  unfold dispatch. destruct (ru_workers r !! tp) as [i|]; (split; [done|]); cbn; intros t k Hk; [by right|].
  apply lookup_insert_Some in Hk as [[-> _]|[_ Hk]]; [by left|by right].
Qed.

Lemma beside_inv g g' : beside g g' -> member_inv g -> member_inv g'.
Proof.
  intros Hs [Hr Hp Hw Hb Hd Hk]. destruct Hs as [g r' Hs Hws Hps|g tps Hf|g tps Hf|g]; split; cbn in *.
  - by eapply rtc_r.
  - set_solver.
  - intros tp i. rewrite Hws. apply Hw.
  - eapply Forall_impl; [exact Hb|]. intros p [[Ha Hn] He]. split; [split|]; cbn; [done|set_solver|done].
  - done.
  - done.
  - done.
  - set_solver.
  - intros tp i Hi. apply elem_of_union. left. by eapply Hw.
  - destruct (gr_batch g); [constructor|]. by rewrite Hk in Hf.
  - done.
  - intros Hne. by rewrite Hk in Hf.
  - eapply rtc_r; [exact Hr|apply step_revoked].
  - rewrite stop_all_paused. set_solver.
  - intros tp i. rewrite stop_all_workers. case_decide as Hn; [done|]. intros Hi.
    apply elem_of_difference. rewrite elem_of_list_to_set. split; [by eapply Hw|done].
  - destruct (gr_batch g); [constructor|]. by rewrite Hk in Hf.
  - done.
  - intros Hne. by rewrite Hk in Hf.
  - eapply rtc_r; [exact Hr|apply step_shutdown].
  - unfold shutdown. by rewrite stop_all_paused.
  - intros tp i. unfold shutdown. rewrite stop_all_workers. case_decide; [done|]. apply Hw.
  - eapply Forall_impl; [exact Hb|]. intros p [[Ha Hn] He]. split; [split|]; cbn; [done| |done].
    unfold shutdown. by rewrite stop_all_paused.
  - done.
  - done.
Qed.

(** While a poll is being dispatched the surroundings leave its batch alone. *)
Lemma beside_batch g g' : rtc beside g g' -> gr_batch g' = gr_batch g.
Proof. intros Hr. induction Hr as [|g1 g2 g3 Hs _ IH]; [done|]. rewrite IH. by destruct Hs. Qed.

Lemma dispatched_inv g tp recs ps :
  member_inv g -> gr_batch g = (tp, recs) :: ps ->
  member_inv (mkMembership (dispatch (gr_runner g) tp recs) (gr_assigned g) (gr_blocked g) ps).
Proof.
  intros [Hr Hp Hw Hb Hd Hk] E. rewrite E in *. apply Forall_cons in Hb as [[[Ha Hn] Hne] Hb]. cbn in *.
  apply NoDup_cons in Hd as [Hnew Hd]. destruct (dispatch_workers (gr_runner g) tp recs) as [Ep Hws]. split; cbn.
  - eapply rtc_r; [exact Hr|by apply step_poll].
  - rewrite Ep. set_solver.
  - intros t i [->|Hi]%Hws; [done|by eapply Hw].
  - apply Forall_forall. intros p Hin. rewrite Forall_forall in Hb. destruct (Hb p Hin) as [[Ha' Hn'] He]. split; [split|done]; cbn; [done|].
    rewrite Ep. intros [?|Hs%elem_of_singleton]%elem_of_union; [done|]. apply Hnew. rewrite <- Hs. by apply list_elem_of_fmap_2.
  - done.
  - intros _. by apply Hk.
Qed.

(** The loop is the only thread; it may rely on what happens beside it. *)
Definition relies (i : nat) (g g' : membership) : Prop := i = O -> beside g g'.

Lemma relies_batch g g' : rtc (relies 0) g g' -> gr_batch g' = gr_batch g.
Proof. intros Hr. apply beside_batch. induction Hr as [|g1 g2 g3 Hs _ IH]; [apply rtc_refl|]. eapply rtc_l; [by apply Hs|done]. Qed.

Abbreviation inLoop := (rgwp (fun _ => client) member_inv relies 0).

Lemma eachPartition_ok ps g (Q : unit -> membership -> Prop) :
  gr_batch g = filled ps -> (forall g', gr_batch g' = [] -> Q tt g') -> inLoop (eachPartition ps) g Q.
Proof.
  intros Hg HQ. revert g Hg. induction ps as [|[tp [|rec recs]] ps IH]; intros g Hg.
  - intros g' Hr. apply HQ. by rewrite (relies_batch _ _ Hr).
  - apply IH, Hg.
  - intros g1 Hr Hi x g2 ->. pose proof (relies_batch _ _ Hr) as E. rewrite Hg in E.
    split; [|split; [by intros [|j]|]].
    + rewrite E. by apply dispatched_inv.
    + apply IH. cbn. by rewrite E.
Qed.

Lemma Run_ok fuel g : gr_batch g = [] -> inLoop (Run fuel) g (fun _ _ => True).
Proof.
  revert g. induction fuel as [|fuel IH]; intros g Hg; [by intros g' _|].
  intros g1 Hr1 Hi1 f g2 (Hf & Hd & ->). split; [|split; [by intros [|j]|]].
  - destruct Hi1 as [Hr Hp Hw _ _ _]. split; cbn; try done.
    + apply Forall_forall. intros p [Hin Hne]%list_elem_of_In%filter_In. rewrite Forall_forall in Hf.
      split; [by apply Hf, list_elem_of_In|]. intros E. by rewrite E in Hne.
    + clear Hf. induction (fe_Partitions f) as [|[tp [|rec recs]] ps IHd]; [constructor| |].
      * by apply IHd; apply NoDup_cons in Hd as [_ Hd].
      * cbn in Hd |- *. apply NoDup_cons in Hd as [Hn Hd]. constructor; [|by apply IHd].
        intros (p & Ep & [Hp' _]%list_elem_of_In%filter_In)%list_elem_of_fmap. apply Hn. rewrite Ep.
        apply list_elem_of_fmap_2. by apply list_elem_of_In.
  - destruct (fe_Closed f); [by intros g' _|]. intros g3 Hr3 Hi3 cancelled g4 ->.
    split; [done|]. split; [by intros [|j]|]. destruct cancelled; [by intros g' _|].
    apply rgwp_bind, eachPartition_ok; [by rewrite (relies_batch _ _ Hr3)|]. clear -IH. intros g5 E5.
    intros g6 Hr6 Hi6 [] g7 ->. pose proof (relies_batch _ _ Hr6) as E6. rewrite E5 in E6.
    split; [|split; [by intros [|j]|by apply IH]].
    destruct Hi6. split; cbn; done.
Qed.

(** The whole member: the loop, its surroundings. *)
Definition memberSystem (fuel : nat) : membership -> list (proc PollE unit) -> Prop :=
  fun g ts => rtc (sys_step (fun _ => client) beside (fun _ => False)) (mkSystem joined [Run fuel]) (mkSystem g ts).

(** C13. Rebalances cannot race with the dispatch of a batch. However the loop, the workers, assignments, revocations
    and a shutdown interleave, the runner only ever makes steps of its transition system, so that everything
    that holds of those holds here; every paused partition and every partition with a live worker is one the
    member owns; and when the loop is about to hand over records, their partition is still owned and has not
    been paused since they were fetched. *)
Theorem dispatch_never_races (fuel : nat) (g : membership) (ts : list (proc PollE unit)) :
  memberSystem fuel g ts ->
  rtc (step RedeliverBackoff) empty (gr_runner g)
  /\ ru_paused (gr_runner g) ⊆ gr_assigned g
  /\ (forall tp i, ru_workers (gr_runner g) !! tp = Some i -> tp ∈ gr_assigned g)
  /\ Forall (fun p => p.1 ∈ gr_assigned g /\ p.1 ∉ ru_paused (gr_runner g)) (gr_batch g).
Proof.
  intros Hr. assert (member_inv g) as [H1 H2 H3 H4 _ _].
  { assert (sys_ok (fun _ => client) member_inv relies (mkSystem joined [Run fuel])) as Hok.
    { split; [apply joined_inv|]. intros i p. cbn. intros Hp. apply list_lookup_singleton_Some in Hp as [-> <-]. by apply Run_ok. }
    assert (forall (y y' : system (T := unit)), rtc (sys_step (fun _ => client) beside (fun _ => False)) y y' ->
      sys_ok (fun _ => client) member_inv relies y -> sys_ok (fun _ => client) member_inv relies y') as Hpres.
    { intros y y' Hys. induction Hys as [|y1 y2 y3 Hs _ IH]; [done|]. intros Hy. apply IH.
      eapply sys_step_ok; [| | |exact Hy|exact Hs]; [intros i s s' Hb _ _; exact Hb|intros s s' Hb Hi; by eapply beside_inv|done]. }
    apply (Hpres _ _ Hr Hok). }
  split; [done|]. split; [done|]. split; [done|]. eapply Forall_impl; [exact H4|]. by intros p [? _].
Qed.

End system.

(** ** One poll *)

#[local] Existing Instance constant_codec.

Definition onePoll : fetches := mkFetches false [(examplePartition, [example_record])].

(** The partition was assigned and polled, and its record not handed over yet. *)
Definition polled : membership := mkMembership empty {[ examplePartition ]} true (fe_Partitions onePoll).

Definition afterPoll (f : fetches) : proc PollE unit :=
  if fe_Closed f then Ret tt
  else Do CtxErr (fun cancelled =>
    if (cancelled : bool) then Ret tt
    else bind (eachPartition (fe_Partitions f)) (fun _ => Do AllowRebalance (fun _ => Run 0))).

Lemma polled_reachable : memberSystem second 1 polled [afterPoll onePoll].
Proof.
  eapply rtc_l; [apply sys_env, (by_assignment _ joined {[ examplePartition ]}); reflexivity|].
  apply rtc_once. assert (polled = mkMembership empty (∅ ∪ {[ examplePartition ]}) true (fe_Partitions onePoll)) as ->.
  { unfold polled. f_equal. }
  apply (sys_call _ _ _ _ [Run 1] 0 _ (PollRecords 256) afterPoll onePoll); [reflexivity|].
  split; [|split; [|reflexivity]]; cbn.
  - constructor; [|constructor]. split; cbn; [set_solver|apply not_elem_of_empty].
  - apply NoDup_singleton.
Qed.

Lemma dispatch_never_races_witness :
  memberSystem second 1 polled [afterPoll onePoll]
  /\ Forall (fun p => p.1 ∈ gr_assigned polled /\ p.1 ∉ ru_paused (gr_runner polled)) (gr_batch polled).
Proof.
  split; [exact polled_reachable|].
  destruct (dispatch_never_races second 1 polled [afterPoll onePoll] polled_reachable) as (_ & _ & _ & Hb). exact Hb.
Defined.
