(* ===== verification/Pipeline.v ===== *)
(** * The task pipeline: topics, members of the consumer group, and what they did

    Kafka's partitions with their committed offsets, any number of gateway processes with the runner of
    Runner.v each, and the calls their handlers made, as one transition system.  The broker keeps what it
    acknowledged, gives a partition to one member at a time, and delivers a partition in order from the
    committed offset of the moment it was assigned, skipping paused partitions; a member may crash at any
    time, in the middle of a record, and partitions may move at any time. What depends on the options of the
    clients does so here: a member's client that commits by itself commits what was polled, one that reads a
    new partition from its end skips what is there, and a producer that does not wait for all replicas in sync
    may lose what was acknowledged.

    A worker step is a step of [Runner.step]; a record counts as handled when [handle] (runner.go) returned
    true, each answer of the handler in that run being the result of a run of [Handle] (consumer.go) whose
    calls took place. *)

From S2P Require Import Prelude GoStrings Proc Errors Model GoContext TaskKeys Routing AgentClient Consumer Runner.

Local Open Scope string_scope.
Local Open Scope list_scope.
Local Open Scope Z_scope.

(** A gateway process: its runner, the partitions it owns with the next offset it will fetch of each, and
    whether its poll loop runs. *)
Record member := mkMember { mb_runner : Runner; mb_assigned : gmap topicPartition nat; mb_polling : bool }.

(** [pl_world]: every call a handler made so far, with its answer. *)
Record pipeline := mkPipeline {
  pl_log : gmap topicPartition (list KRecord); pl_committed : gmap topicPartition nat;
  pl_members : list member; pl_world : list (event ConsumerE) }.

(** The options of the members' clients and of the producers. *)
Definition consuming : list KgoOpt := RunnerOptions [].
Definition producing : list KgoOpt := ProducerOptions [].

Definition logOf (p : pipeline) (tp : topicPartition) : list KRecord := default [] (pl_log p !! tp).
Definition committedOf (p : pipeline) (tp : topicPartition) : nat := default O (pl_committed p !! tp).

(** Where a member that is given a partition begins to read. *)
Definition firstOffset (p : pipeline) (tp : topicPartition) : nat :=
  match pl_committed p !! tp with
  | Some n => n
  | None => match readsFrom consuming with AtStart => O | AtEnd => length (logOf p tp) end
  end.

(** The record the broker stores at the end of a partition. *)
Definition placed (rec : KRecord) (tp : topicPartition) (offset : nat) : KRecord :=
  mkRecord tp.1 (rec_Key rec) (rec_Value rec) (rec_Headers rec) tp.2 (Z.of_nat offset).

Definition append (p : pipeline) (tp : topicPartition) (rec : KRecord) : pipeline :=
  mkPipeline (<[tp := logOf p tp ++ [placed rec tp (length (logOf p tp))]]> (pl_log p)) (pl_committed p)
    (pl_members p) (pl_world p).

Definition happened (p : pipeline) (e : event ConsumerE) : pipeline :=
  mkPipeline (pl_log p) (pl_committed p) (pl_members p) (pl_world p ++ [e]).

Definition set_member (p : pipeline) (j : nat) (m : member) : pipeline :=
  mkPipeline (pl_log p) (pl_committed p) (<[j := m]> (pl_members p)) (pl_world p).

Definition set_committed (p : pipeline) (tp : topicPartition) (n : nat) : pipeline :=
  mkPipeline (pl_log p) (<[tp := n]> (pl_committed p)) (pl_members p) (pl_world p).

Definition with_runner (m : member) (r : Runner) : member := mkMember r (mb_assigned m) (mb_polling m).

(** The record an event says the broker acknowledged. *)
Definition acknowledged (e : event ConsumerE) : option KRecord :=
  match e with
  | Ev c x => match c in ConsumerE X return X -> option KRecord with
              | PublisherProduce _ rec => fun r => match r with Ok _ => Some rec | Err _ => None end
              | _ => fun _ => None
              end x
  end.

(** A step of a runner in which it neither got records nor finished one nor gained or lost a worker. *)
Definition internal (r r' : Runner) : Prop :=
  ru_workers r' = ru_workers r /\ length (ru_all r') = length (ru_all r)
  /\ (forall i w w', ru_all r !! i = Some w -> ru_all r' !! i = Some w' -> pw_tp w' = pw_tp w)
  /\ forall i, fetched i (ru_log r') = fetched i (ru_log r) /\ committed i (ru_log r') = committed i (ru_log r).

Definition partitionOf (rec : KRecord) : topicPartition := (rec_Topic rec, rec_Partition rec).

Section pipeline.
Context `{Sha256, MsgCodec} (RedeliverBackoff : Z).

(** The handler's answers in a run of a worker are those of [Handle], and its calls took place. *)
Definition answered (p : pipeline) (tr : trace WorkerE) : Prop :=
  forall d r, (d, r) ∈ handlings tr ->
    exists ctx ctr, execs (Handle ctx d) ctr r /\ forall e, e ∈ ctr -> e ∈ pl_world p.

Inductive pstep : pipeline -> pipeline -> Prop :=
| p_publish p tp rec : pstep p (append p tp rec) (* a submission, a replay, another producer *)
| p_call p e : acknowledged e = None -> pstep p (happened p e)
| p_produced p e rec partition : acknowledged e = Some rec ->
    pstep p (happened (append p (rec_Topic rec, partition) rec) e)
| p_join p : pstep p (mkPipeline (pl_log p) (pl_committed p) (pl_members p ++ [mkMember empty ∅ true]) (pl_world p))
| p_crash p j m : pl_members p !! j = Some m -> pstep p (set_member p j (mkMember empty ∅ false))
| p_assign p j m tp : pl_members p !! j = Some m -> mb_polling m = true ->
    (forall m', m' ∈ pl_members p -> mb_assigned m' !! tp = None) ->
    pstep p (set_member p j (mkMember (mb_runner m) (<[tp := firstOffset p tp]> (mb_assigned m)) true))
| p_poll p j m tp pos n : pl_members p !! j = Some m -> mb_polling m = true ->
    mb_assigned m !! tp = Some pos -> tp ∉ ru_paused (mb_runner m) -> take n (drop pos (logOf p tp)) <> [] ->
    pstep p (set_member p j (mkMember (dispatch (mb_runner m) tp (take n (drop pos (logOf p tp))))
      (<[tp := (pos + length (take n (drop pos (logOf p tp))))%nat]> (mb_assigned m)) true))
| p_autocommit p j m tp pos : autoCommits consuming = true -> pl_members p !! j = Some m ->
    mb_assigned m !! tp = Some pos -> pstep p (set_committed p tp pos)
| p_failover p tp n : durable producing = false -> (* a new leader lacks the last records *)
    pstep p (mkPipeline (<[tp := take n (logOf p tp)]> (pl_log p)) (pl_committed p) (pl_members p) (pl_world p))
| p_revoked p j m tps : pl_members p !! j = Some m ->
    pstep p (set_member p j (mkMember (onRevoked (mb_runner m) tps)
      (filter (fun kv => kv.1 ∉ tps) (mb_assigned m)) (mb_polling m)))
| p_shutdown p j m : pl_members p !! j = Some m -> (* after the poll loop ended *)
    pstep p (set_member p j (mkMember (shutdown (mb_runner m)) (mb_assigned m) false))
| p_worker p j m r' : pl_members p !! j = Some m -> step RedeliverBackoff (mb_runner m) r' ->
    internal (mb_runner m) r' -> pstep p (set_member p j (with_runner m r'))
| p_handled p j m i w rec fuel tr n : pl_members p !! j = Some m ->
    ru_all (mb_runner m) !! i = Some w -> pw_at w = InHandle rec ->
    execs (handle fuel RedeliverBackoff rec) tr (Some true) -> answered p tr ->
    (* the commit took effect, or failed *)
    n = S (Z.to_nat (rec_Offset rec)) \/ n = committedOf p (partitionOf rec) ->
    pstep p (set_committed (set_member p j (with_runner m
      (log (upd (mb_runner m) i (set_at w AtTop)) (Committed i rec)))) (partitionOf rec) n).

Definition start : pipeline := mkPipeline ∅ ∅ [] [].

(** ** What was handled *)

(** [Handle] returned without an error for the record, and its calls took place. *)
Definition settled (p : pipeline) (rec : KRecord) : Prop :=
  exists ctx ctr o, execs (Handle ctx (DecodeRecord rec)) ctr (Ok o) /\ forall e, e ∈ ctr -> e ∈ pl_world p.

Definition settledUpTo (p : pipeline) (tp : topicPartition) (n : nat) : Prop :=
  (n <= length (logOf p tp))%nat /\ forall o rec, (o < n)%nat -> logOf p tp !! o = Some rec -> settled p rec.

(** A copy of the record is in some partition of its topic. *)
Definition stored (p : pipeline) (rec : KRecord) : Prop :=
  exists partition o, logOf p (rec_Topic rec, partition) !! o = Some (placed rec (rec_Topic rec, partition) o).

(** Logs and history only grow. *)
Record extends (p p' : pipeline) : Prop := mkExtends {
  ex_log : forall tp, logOf p tp `prefix_of` logOf p' tp;
  ex_world : forall e, e ∈ pl_world p -> e ∈ pl_world p' }.

Lemma extends_refl p : extends p p.
Proof. by split. Qed.

Lemma settled_extends p p' rec : extends p p' -> settled p rec -> settled p' rec.
Proof. intros Hp (ctx & ctr & o & Hex & Hin). exists ctx, ctr, o. split; [done|]. intros e He. by apply Hp, Hin. Qed.

Lemma settledUpTo_extends p p' tp n : extends p p' -> settledUpTo p tp n -> settledUpTo p' tp n.
Proof.
  intros Hp [Hn Hs]. pose proof (ex_log _ _ Hp tp) as Hpre. split; [pose proof (prefix_length _ _ Hpre); lia|].
  intros o rec Ho Hl. eapply settled_extends; [done|]. apply (Hs o rec Ho).
  destruct (lookup_lt_is_Some_2 (logOf p tp) o) as [rec' Hr]; [lia|].
  rewrite <- Hl. symmetry. rewrite Hr. by eapply prefix_lookup_Some.
Qed.

Lemma stored_extends p p' rec : extends p p' -> stored p rec -> stored p' rec.
Proof. intros Hp (part & o & Hl). exists part, o. eapply prefix_lookup_Some; [exact Hl|apply Hp]. Qed.

(** Worker [i] of a runner started at offset [s]: what it fetched is the part of the log from there, what is
    before it and what it committed was handled. *)
Record worker_at (p : pipeline) (r : Runner) (i : nat) (w : partitionWorker) (s : nat) : Prop := mkWorkerAt {
  wa_start : settledUpTo p (pw_tp w) s;
  wa_fetched : fetched i (ru_log r) = take (length (fetched i (ru_log r))) (drop s (logOf p (pw_tp w)));
  wa_committed : Forall (settled p) (committed i (ru_log r)) }.

Record member_ok (p : pipeline) (m : member) : Prop := mkMemberOk {
  mo_runner : runner_inv (mb_runner m);
  mo_workers : forall i w, ru_all (mb_runner m) !! i = Some w -> exists s, worker_at p (mb_runner m) i w s
    /\ forall pos, ru_workers (mb_runner m) !! pw_tp w = Some i -> mb_assigned m !! pw_tp w = Some pos ->
         pos = (s + length (fetched i (ru_log (mb_runner m))))%nat;
  mo_fresh : forall tp pos, mb_assigned m !! tp = Some pos -> ru_workers (mb_runner m) !! tp = None ->
    mb_polling m = true -> settledUpTo p tp pos;
  mo_owned : forall tp i, ru_workers (mb_runner m) !! tp = Some i -> is_Some (mb_assigned m !! tp) }.

Record pipeline_inv (p : pipeline) : Prop := mkPipelineInv {
  pi_placed : forall tp o rec, logOf p tp !! o = Some rec -> partitionOf rec = tp /\ rec_Offset rec = Z.of_nat o;
  pi_acked : forall e rec, e ∈ pl_world p -> acknowledged e = Some rec -> stored p rec;
  pi_committed : forall tp, settledUpTo p tp (committedOf p tp);
  pi_members : forall m, m ∈ pl_members p -> member_ok p m }.

Lemma worker_at_extends p p' r i w s : extends p p' -> worker_at p r i w s -> worker_at p' r i w s.
Proof.
  intros Hp [Hs Hf Hc]. split; [by eapply settledUpTo_extends| |].
  - destruct (ex_log _ _ Hp (pw_tp w)) as [k ->]. destruct Hs as [Hs _].
    rewrite drop_app_le by done. rewrite take_app_le; [exact Hf|].
    rewrite Hf at 1. rewrite length_take. lia.
  - eapply Forall_impl; [exact Hc|]. intros rec. by apply settled_extends.
Qed.

Lemma member_ok_extends p p' m : extends p p' -> member_ok p m -> member_ok p' m.
Proof.
  intros Hp [Hr Hw Hf Ho]. split; [done| | |done].
  - intros i w Hi. destruct (Hw i w Hi) as (s & Hs & Hpos). exists s. split; [by eapply worker_at_extends|done].
  - intros tp pos H1 H2 H3. by eapply settledUpTo_extends, Hf.
Qed.

Lemma logOf_append p tp rec tp' :
  logOf (append p tp rec) tp' = if decide (tp' = tp) then logOf p tp ++ [placed rec tp (length (logOf p tp))] else logOf p tp'.
Proof.
  unfold append, logOf. cbn. destruct (decide (tp' = tp)) as [->|Hne]; [by rewrite lookup_insert_eq|].
  by rewrite lookup_insert_ne.
Qed.

Lemma extends_append p tp rec : extends p (append p tp rec).
Proof.
  split; [|done]. intros tp'. rewrite logOf_append. destruct (decide (tp' = tp)) as [->|]; [by eexists|done].
Qed.

Lemma extends_happened p e : extends p (happened p e).
Proof. split; [done|]. intros e' He. apply elem_of_app. by left. Qed.

(** A step that leaves the members alone. *)
Lemma inv_extends p p' :
  pipeline_inv p -> extends p p' -> pl_members p' = pl_members p -> pl_committed p' = pl_committed p ->
  (forall tp o rec, logOf p' tp !! o = Some rec -> partitionOf rec = tp /\ rec_Offset rec = Z.of_nat o) ->
  (forall e rec, e ∈ pl_world p' -> acknowledged e = Some rec -> e ∈ pl_world p \/ stored p' rec) ->
  pipeline_inv p'.
Proof.
  intros [Hpl Ha Hc Hm] Hp Em Ec Hpl' Ha'. split; [done| | |].
  - intros e rec He Hk. destruct (Ha' e rec He Hk); [|done]. by eapply stored_extends, Ha.
  - intros tp. unfold committedOf. rewrite Ec. by eapply settledUpTo_extends, Hc.
  - intros m Hin. rewrite Em in Hin. by eapply member_ok_extends, Hm.
Qed.

Lemma placed_append p tp rec :
  (forall tp o rec, logOf p tp !! o = Some rec -> partitionOf rec = tp /\ rec_Offset rec = Z.of_nat o) ->
  forall tp' o rec', logOf (append p tp rec) tp' !! o = Some rec' -> partitionOf rec' = tp' /\ rec_Offset rec' = Z.of_nat o.
Proof.
  intros Hpl tp' o rec'. rewrite logOf_append. destruct (decide (tp' = tp)) as [->|]; [|apply Hpl].
  intros [Hl|[Ho Hl]]%lookup_app_Some; [by apply Hpl|]. apply list_lookup_singleton_Some in Hl as [Ez <-].
  split; [by destruct tp|]. cbn. lia.
Qed.

Lemma inv_publish p tp rec : pipeline_inv p -> pipeline_inv (append p tp rec).
Proof.
  intros Hi. eapply inv_extends; [done|apply extends_append|done|done|apply placed_append, Hi|]. intros e r He _. by left.
Qed.

Lemma inv_call p e : pipeline_inv p -> (forall rec, acknowledged e = Some rec -> stored p rec) -> pipeline_inv (happened p e).
Proof.
  intros Hi Hs. eapply inv_extends; [done|apply extends_happened|done|done|apply Hi|].
  intros e' rec [He|He]%elem_of_app Hk; [by left|right]. apply list_elem_of_singleton in He as ->. by apply Hs.
Qed.

Lemma inv_produced p e rec part : pipeline_inv p -> acknowledged e = Some rec ->
  pipeline_inv (happened (append p (rec_Topic rec, part) rec) e).
Proof.
  intros Hi Hk. apply inv_call; [by apply inv_publish|]. intros rec' Hk'. assert (rec' = rec) as -> by congruence.
  exists part, (length (logOf p (rec_Topic rec, part))). rewrite logOf_append, decide_True by done.
  by rewrite lookup_app_r, Nat.sub_diag by done.
Qed.

(** A step of one member. *)
Lemma inv_member p j m m' :
  pipeline_inv p -> pl_members p !! j = Some m -> member_ok p m' -> pipeline_inv (set_member p j m').
Proof.
  intros [Hpl Ha Hc Hm] Hj Hok. assert (forall q, member_ok p q -> member_ok (set_member p j m') q) as Hq.
  { intros q. by apply member_ok_extends. }
  split; [done|done|done|]. intros q [i Hi]%list_elem_of_lookup_1.
  apply list_lookup_insert_Some in Hi as [(_ & -> & _)|[_ Hi]]; [by apply Hq|].
  apply Hq, Hm. by eapply list_elem_of_lookup_2.
Qed.

#[local] Arguments fetched : simpl never.
#[local] Arguments taken : simpl never.
#[local] Arguments committed : simpl never.

Lemma member_at p j m : pipeline_inv p -> pl_members p !! j = Some m -> member_ok p m.
Proof. intros Hi Hj. apply Hi. by eapply list_elem_of_lookup_2. Qed.

Lemma member_empty p b : member_ok p (mkMember empty ∅ b).
Proof. split; cbn; [apply empty_inv|done|by intros|]; intros tp i; by rewrite lookup_empty. Qed.

Lemma member_assigned p m tp :
  pipeline_inv p -> member_ok p m -> mb_polling m = true -> mb_assigned m !! tp = None ->
  member_ok p (mkMember (mb_runner m) (<[tp := committedOf p tp]> (mb_assigned m)) true).
Proof.
  intros Hi [Hr Hw Hf Ho] Hpoll Hnone.
  assert (ru_workers (mb_runner m) !! tp = None) as Hnw.
  { destruct (ru_workers (mb_runner m) !! tp) as [i|] eqn:E; [|done]. apply Ho in E as [? ?]. congruence. }
  split; cbn; [done| | |].
  - intros i w Hw0. destruct (Hw i w Hw0) as (s & Hs & Hpos). exists s. split; [done|].
    intros pos Hwi. rewrite lookup_insert_ne; [by apply Hpos|]. intros E. rewrite E in Hnw. congruence.
  - intros tp' pos [[<- <-]|[Hne Hp]]%lookup_insert_Some Hn _; [by apply Hi|by apply Hf].
  - intros tp' i Hwi. destruct (decide (tp' = tp)) as [->|Hne]; [congruence|]. rewrite lookup_insert_ne by done. by eapply Ho.
Qed.

(** What a poll hands to a worker continues what it has. *)
Lemma take_more {A} (l : list A) s a n :
  length (take a (drop s l)) = a ->
  take a (drop s l) ++ take n (drop (s + a) l) = take (a + length (take n (drop (s + a) l))) (drop s l).
Proof.
  intros Ha. rewrite <- drop_drop, (Nat.add_comm a). generalize (drop s l) Ha. clear. intros k Ha.
  transitivity (take (length (take n (drop a k)) + a) (take a k ++ drop a k)); [|by rewrite take_drop].
  rewrite take_app_ge by lia. rewrite Ha. f_equal.
  replace (length (take n (drop a k)) + a - a)%nat with (length (take n (drop a k))) by lia.
  rewrite length_take. destruct (decide (n <= length (drop a k))%nat) as [Hle|Hgt].
  - by rewrite Nat.min_l.
  - rewrite Nat.min_r, !take_ge by lia. done.
Qed.

Lemma member_polled p m tp pos n :
  member_ok p m -> mb_polling m = true -> mb_assigned m !! tp = Some pos ->
  let recs := take n (drop pos (logOf p tp)) in
  member_ok p (mkMember (dispatch (mb_runner m) tp recs) (<[tp := (pos + length recs)%nat]> (mb_assigned m)) true).
Proof.
  intros [Hr Hw Hf Ho] Hpoll Hpos recs. pose proof (inv_dispatch _ tp recs Hr) as Hr'. unfold dispatch in *.
  destruct (ru_workers (mb_runner m) !! tp) as [i|] eqn:Ei; cbn [ru_all ru_workers ru_log] in *.
  - (* the worker of the partition gets more *)
    destruct (proj1 (inv_map _ Hr tp i) Ei) as (w0 & Hi0 & Htp0 & _). rewrite (alter_insert _ _ _ _ Hi0) in *.
    split; cbn; [done| | |].
    + intros k w Hk. apply list_lookup_insert_Some in Hk as [(<- & <- & _)|[Hne Hk]].
      * destruct (Hw i w0 Hi0) as (s & [Hs Hfe Hc] & Hp). rewrite Htp0 in *. specialize (Hp pos Ei Hpos).
        destruct (log_fetched i i recs) as (L1 & L2 & L3). rewrite Nat.eqb_refl in L1.
        exists s. split.
        -- split; cbn; rewrite ?fetched_app, ?committed_app, ?L1, ?L3, ?app_nil_r, ?Htp0; try done.
           rewrite length_app. unfold recs in *. rewrite Hp. rewrite Hfe at 1. apply take_more. by rewrite <- Hfe.
        -- intros pos' _. cbn. rewrite Htp0, lookup_insert_eq. intros [= <-]. rewrite fetched_app, L1, length_app. lia.
      * destruct (Hw k w Hk) as (s & [Hs Hfe Hc] & Hp). destruct (log_fetched k i recs) as (L1 & L2 & L3).
        rewrite (proj2 (Nat.eqb_neq i k)) in L1 by done. exists s. split.
        -- split; cbn; by rewrite ?fetched_app, ?committed_app, ?L1, ?L3, ?app_nil_r.
        -- intros pos' Hwk. rewrite fetched_app, L1, app_nil_r. rewrite lookup_insert_ne; [by apply Hp|].
           intros Etp. rewrite Etp in Ei. congruence.
    + intros tp' pos' [[<- _]|[Hne Hp']]%lookup_insert_Some Hn _; [congruence|by apply Hf].
    + intros tp' k Hk. destruct (decide (tp' = tp)) as [->|Hne]; [by rewrite lookup_insert_eq|].
      rewrite lookup_insert_ne by done. by eapply Ho.
  - (* a new worker starts at the fetch position *)
    set (i := length (ru_all (mb_runner m))) in *.
    assert ((ru_all (mb_runner m) ++ [newWorker tp]) !! i = Some (newWorker tp)) as Hi0
      by (unfold i; by rewrite lookup_app_r, Nat.sub_diag).
    rewrite (alter_insert _ _ _ _ Hi0) in *. destruct (inv_fresh _ Hr i ltac:(unfold i; lia)) as (F1 & F2 & F3).
    split; cbn; [done| | |].
    + intros k w Hk. apply list_lookup_insert_Some in Hk as [(<- & <- & _)|[Hne Hk]].
      * destruct (log_fetched i i recs) as (L1 & L2 & L3). rewrite Nat.eqb_refl in L1. exists pos. split.
        -- split; cbn; rewrite ?fetched_app, ?committed_app, ?L1, ?L3, ?F1, ?F3; [by apply Hf| |constructor].
           cbn. unfold recs. rewrite length_take. destruct (decide (n <= length (drop pos (logOf p tp)))%nat).
           ++ by rewrite Nat.min_l.
           ++ rewrite Nat.min_r, !take_ge by lia. done.
        -- intros pos' _. rewrite lookup_insert_eq. intros [= <-]. by rewrite fetched_app, L1, F1.
      * apply lookup_app_Some in Hk as [Hk|[Hge Hk]].
        2: { apply list_lookup_singleton_Some in Hk as [Ek _]. exfalso. fold i in Ek, Hge. lia. }
        destruct (Hw k w Hk) as (s & [Hs Hfe Hc] & Hp). destruct (log_fetched k i recs) as (L1 & L2 & L3).
        rewrite (proj2 (Nat.eqb_neq i k)) in L1 by done. exists s. split.
        -- split; cbn; by rewrite ?fetched_app, ?committed_app, ?L1, ?L3, ?app_nil_r.
        -- intros pos' [[Etp Ek]|[Hnt Hwk]]%lookup_insert_Some; [congruence|].
           rewrite fetched_app, L1, app_nil_r, lookup_insert_ne by done. by apply Hp.
    + intros tp' pos' [[<- _]|[Hne Hp']]%lookup_insert_Some Hn _; [by rewrite lookup_insert_eq in Hn|].
      rewrite lookup_insert_ne in Hn by done. by apply Hf.
    + intros tp' k [[<- _]|[Hne Hk]]%lookup_insert_Some; [by rewrite lookup_insert_eq|].
      rewrite lookup_insert_ne by done. by eapply Ho.
Qed.

(** Stopping workers touches nothing but their flags and the map. *)
Lemma stop_all_all r tps i w' :
  ru_all (stop_all r tps) !! i = Some w' -> exists w, ru_all r !! i = Some w /\ pw_tp w' = pw_tp w.
Proof.
  revert r. induction tps as [|tp tps IH]; intros r; cbn [stop_all]; [by eexists|]. intros (w1 & Hw1 & E1)%IH.
  destruct (ru_workers r !! tp) as [j|]; cbn [ru_all] in Hw1; [|by exists w1].
  destruct (decide (j = i)) as [->|Hne].
  - rewrite list_lookup_alter_eq in Hw1. apply fmap_Some in Hw1 as (w & Hw & ->). by exists w.
  - rewrite list_lookup_alter_ne in Hw1 by done. by exists w1.
Qed.

Lemma stop_all_log r tps : ru_log (stop_all r tps) = ru_log r.
Proof. revert r. induction tps as [|tp tps IH]; intros r; cbn [stop_all]; [done|]. rewrite IH. by destruct (ru_workers r !! tp). Qed.

(** A member whose runner stopped the workers of some partitions, and which owns no more than before. *)
Lemma member_stopped p m r' (tps : list topicPartition) assigned' polling' :
  member_ok p m -> runner_inv r' ->
  (forall i w', ru_all r' !! i = Some w' -> exists w, ru_all (mb_runner m) !! i = Some w /\ pw_tp w' = pw_tp w) ->
  ru_log r' = ru_log (mb_runner m) ->
  (forall tp, ru_workers r' !! tp = if decide (tp ∈ tps) then None else ru_workers (mb_runner m) !! tp) ->
  (forall tp pos, assigned' !! tp = Some pos -> mb_assigned m !! tp = Some pos) ->
  (forall tp, tp ∉ tps -> assigned' !! tp = mb_assigned m !! tp) ->
  (polling' = true -> mb_polling m = true /\ forall tp, tp ∈ tps -> assigned' !! tp = None) ->
  member_ok p (mkMember r' assigned' polling').
Proof.
  intros [Hr Hw Hf Ho] Hr' Hall Hlog Hwk Hsub Hsame Hpoll. split; cbn; [done| | |].
  - intros i w' Hi. destruct (Hall i w' Hi) as (w & Hi0 & Etp). destruct (Hw i w Hi0) as (s & [Hs Hfe Hc] & Hp).
    exists s. split; [by split; rewrite ?Hlog, ?Etp|]. intros pos Hwi Hpos. rewrite Hlog, Etp in *. apply Hp; [|by apply Hsub].
    rewrite Hwk in Hwi. by case_decide.
  - intros tp pos Hpos Hn Hpl. destruct (Hpoll Hpl) as [Hpl0 Hgone].
    destruct (decide (tp ∈ tps)) as [Hin|Hin]; [by rewrite Hgone in Hpos|].
    apply Hf; [by apply Hsub| |done]. rewrite Hwk in Hn. by rewrite decide_False in Hn.
  - intros tp i Hi. rewrite Hwk in Hi. case_decide as Hin; [done|]. rewrite Hsame by done. by eapply Ho.
Qed.

Lemma member_revoked p m tps :
  member_ok p m ->
  member_ok p (mkMember (onRevoked (mb_runner m) tps) (filter (fun kv => kv.1 ∉ tps) (mb_assigned m)) (mb_polling m)).
Proof.
  intros Hm. eapply (member_stopped p m _ tps); [done|by apply inv_paused, inv_stop_all, Hm| | | | | |].
  - intros i w'. apply stop_all_all.
  - apply stop_all_log.
  - intros tp. apply stop_all_workers.
  - intros tp pos. by intros [? _]%map_lookup_filter_Some.
  - intros tp Hin. destruct (mb_assigned m !! tp) as [pos|] eqn:E.
    + by apply map_lookup_filter_Some.
    + apply map_lookup_filter_None. by left.
  - intros Hp. split; [done|]. intros tp Hin. apply map_lookup_filter_None. right. intros pos _ Hn. by apply Hn.
Qed.

Lemma member_shutdown p m : member_ok p m -> member_ok p (mkMember (shutdown (mb_runner m)) (mb_assigned m) false).
Proof.
  intros Hm. eapply (member_stopped p m _ (fst <$> map_to_list (ru_workers (mb_runner m)))); [done|by apply inv_stop_all, Hm| | | | | |]; try done.
  - intros i w'. apply stop_all_all.
  - apply stop_all_log.
  - intros tp. apply stop_all_workers.
Qed.

Lemma member_internal p m r' :
  member_ok p m -> runner_inv r' -> internal (mb_runner m) r' -> member_ok p (with_runner m r').
Proof.
  intros [Hr Hw Hf Ho] Hr' (Ewk & Elen & Etp & Elog). unfold with_runner. split; cbn; [done| | |].
  - intros i w' Hi. destruct (lookup_lt_is_Some_2 (ru_all (mb_runner m)) i) as [w Hi0].
    { rewrite <- Elen. by eapply lookup_lt_Some. }
    destruct (Hw i w Hi0) as (s & [Hs Hfe Hc] & Hp). destruct (Elog i) as [E1 E2].
    exists s. split; [split; by rewrite ?E1, ?E2, ?(Etp i w w' Hi0 Hi)|].
    rewrite E1, Ewk, (Etp i w w' Hi0 Hi). exact Hp.
  - intros tp pos. rewrite Ewk. apply Hf.
  - intros tp i. rewrite Ewk. apply Ho.
Qed.

(** *** A record is handled *)

Lemma handled_settled p fuel rec tr :
  0 < RedeliverBackoff -> execs (handle fuel RedeliverBackoff rec) tr (Some true) -> answered p tr -> settled p rec.
Proof.
  intros Hb Hex Ha. pose proof (wp_execs _ _ _ _ (handle_commits fuel RedeliverBackoff rec Hb) Hex) as Hh.
  cbv zeta in Hh. destruct Hh as (_ & fails & _ & _ & _ & o & Hhs & _ & _).
  destruct (Ha (DecodeRecord rec) (Ok o)) as (ctx & ctr & Hc & Hin).
  { rewrite Hhs. apply elem_of_app. right. apply list_elem_of_here. }
  by exists ctx, ctr, o.
Qed.

(** The record a worker has in hand is the one after those it committed. *)
Lemma in_hand p m i w rec :
  pipeline_inv p -> member_ok p m -> ru_all (mb_runner m) !! i = Some w -> pw_at w = InHandle rec ->
  exists s, worker_at p (mb_runner m) i w s
    /\ logOf p (pw_tp w) !! (s + length (committed i (ru_log (mb_runner m))))%nat = Some rec.
Proof.
  intros Hi Hm Hl Hat. destruct (mo_workers _ _ Hm i w Hl) as (s & Hs & _). exists s. split; [done|].
  destruct (inv_workers _ (mo_runner _ _ Hm) _ _ Hl) as (Hf & rest & Ht & Hrest). rewrite Hat in Hrest. subst rest.
  assert (fetched i (ru_log (mb_runner m)) !! length (committed i (ru_log (mb_runner m))) = Some rec) as Hlk.
  { rewrite Hf, Ht, <- app_assoc. by rewrite lookup_app_r, Nat.sub_diag by done. }
  pose proof (lookup_lt_Some _ _ _ Hlk) as Hlt. rewrite (wa_fetched _ _ _ _ _ Hs) in Hlk.
  rewrite lookup_take_lt in Hlk by done. by rewrite lookup_drop in Hlk.
Qed.

(** Everything up to and including it was handled, once it was. *)
Lemma settled_through p m i w rec s :
  pipeline_inv p -> member_ok p m -> ru_all (mb_runner m) !! i = Some w -> pw_at w = InHandle rec ->
  worker_at p (mb_runner m) i w s ->
  logOf p (pw_tp w) !! (s + length (committed i (ru_log (mb_runner m))))%nat = Some rec -> settled p rec ->
  settledUpTo p (pw_tp w) (S (s + length (committed i (ru_log (mb_runner m))))).
Proof.
  intros Hi Hm Hl Hat [[Hsn Hs] Hfe Hc] Hrec Hset. split; [pose proof (lookup_lt_Some _ _ _ Hrec); lia|].
  intros o r Ho Hr. destruct (decide (o < s)%nat) as [Hlt|Hge]; [by eapply Hs|].
  destruct (decide (o = s + length (committed i (ru_log (mb_runner m))))%nat) as [->|Hne].
  - assert (r = rec) as -> by congruence. done.
  - assert (committed i (ru_log (mb_runner m)) !! (o - s)%nat = Some r) as Hcm.
    { destruct (inv_workers _ (mo_runner _ _ Hm) _ _ Hl) as (Hf & rest & Ht & _).
      assert (fetched i (ru_log (mb_runner m)) !! (o - s)%nat = Some r) as Hfo.
      { assert (o - s < length (fetched i (ru_log (mb_runner m))))%nat as Hlen.
        { rewrite Hf, Ht, !length_app. lia. }
        rewrite Hfe, lookup_take_lt, lookup_drop by done. by replace (s + (o - s))%nat with o by lia. }
      rewrite Hf, Ht, <- app_assoc, lookup_app_l in Hfo by lia. done. }
    eapply Forall_lookup_1; [exact Hc|exact Hcm].
Qed.

Lemma committed_log i j rec l :
  committed i (l ++ [Committed j rec]) = committed i l ++ (if Nat.eqb j i then [rec] else [])
  /\ fetched i (l ++ [Committed j rec]) = fetched i l.
Proof.
  rewrite fetched_app, committed_app. unfold committed, fetched. cbn. rewrite app_nil_r. by destruct (Nat.eqb j i).
Qed.

Lemma member_handled p m i w rec r' :
  member_ok p m -> ru_all (mb_runner m) !! i = Some w -> settled p rec ->
  r' = log (upd (mb_runner m) i (set_at w AtTop)) (Committed i rec) -> runner_inv r' ->
  member_ok p (with_runner m r').
Proof.
  intros [Hr Hw Hf Ho] Hi Hset -> Hr'. split; cbn; [done| |done|done].
  intros k w' Hk. destruct (committed_log k i rec (ru_log (mb_runner m))) as [E1 E2].
  assert (exists w0, ru_all (mb_runner m) !! k = Some w0 /\ pw_tp w' = pw_tp w0) as (w0 & Hk0 & Etp).
  { apply list_lookup_insert_Some in Hk as [(<- & <- & _)|[Hne Hk]]; [by exists w|by exists w']. }
  destruct (Hw k w0 Hk0) as (s & [Hs Hfe Hc] & Hp). exists s. split.
  - split; cbn; rewrite ?E1, ?E2, ?Etp; try done. apply Forall_app. split; [done|].
    destruct (Nat.eqb i k); [by constructor|constructor].
  - rewrite E2, Etp. exact Hp.
Qed.

Lemma inv_handled p j m i w rec fuel tr n :
  0 < RedeliverBackoff -> pipeline_inv p -> pl_members p !! j = Some m ->
  ru_all (mb_runner m) !! i = Some w -> pw_at w = InHandle rec ->
  execs (handle fuel RedeliverBackoff rec) tr (Some true) -> answered p tr ->
  n = S (Z.to_nat (rec_Offset rec)) \/ n = committedOf p (partitionOf rec) ->
  pipeline_inv (set_committed (set_member p j (with_runner m
      (log (upd (mb_runner m) i (set_at w AtTop)) (Committed i rec)))) (partitionOf rec) n).
Proof.
  intros Hb Hi Hj Hl Hat Hex Ha Hn. pose proof (member_at _ _ _ Hi Hj) as Hm.
  pose proof (handled_settled p fuel rec tr Hb Hex Ha) as Hset.
  destruct (in_hand p m i w rec Hi Hm Hl Hat) as (s & Hs & Hrec).
  pose proof (settled_through p m i w rec s Hi Hm Hl Hat Hs Hrec Hset) as Hupto.
  destruct (pi_placed _ Hi _ _ _ Hrec) as [Etp Eoff].
  assert (runner_inv (log (upd (mb_runner m) i (set_at w AtTop)) (Committed i rec))) as Hr'.
  { eapply (runner_step_inv RedeliverBackoff); [apply Hm|]. by eapply step_handled. }
  assert (pipeline_inv (set_member p j (with_runner m (log (upd (mb_runner m) i (set_at w AtTop)) (Committed i rec))))) as Hi'.
  { eapply inv_member; [done|done|]. by eapply member_handled. }
  destruct Hi' as [Hpl Hak Hc Hms]. set (q := set_member p j _) in *.
  assert (extends q (set_committed q (partitionOf rec) n)) as Hext by (by split).
  split; [done|done| |].
  - intros tp. unfold committedOf, set_committed. cbn. destruct (decide (tp = partitionOf rec)) as [->|Hne].
    + rewrite lookup_insert_eq. cbn. destruct Hn as [->| ->]; [|apply (settledUpTo_extends q _ _ _ Hext), Hc].
      rewrite Eoff, Nat2Z.id. rewrite Etp. apply (settledUpTo_extends p); [by split|exact Hupto].
    + rewrite lookup_insert_ne by done. apply (settledUpTo_extends q _ _ _ Hext), Hc.
  - intros m0 Hm0. apply (member_ok_extends q _ _ Hext), Hms, Hm0.
Qed.

(** A new group begins at the first record. *)
Lemma firstOffset_committed p tp : firstOffset p tp = committedOf p tp.
Proof. unfold firstOffset, committedOf. by destruct (pl_committed p !! tp). Qed.

Lemma pstep_inv p p' : 0 < RedeliverBackoff -> pipeline_inv p -> pstep p p' -> pipeline_inv p'.
Proof.
  intros Hb Hi Hs. destruct Hs as [p tp rec|p e He|p e rec part He|p|p j m Hj|p j m tp Hj Hpl Hfree|p j m tp pos n Hj Hpl Hpos Hpa Hne
    |p j m tp pos Hauto Hj Hpos|p tp n Hdur|p j m tps Hj|p j m Hj|p j m r' Hj Hst Hint|p j m i w rec fuel tr n Hj Hl Hat Hex Ha Hn].
  - by apply inv_publish.
  - apply inv_call; [done|]. intros rec Hk. congruence.
  - by apply inv_produced.
  - destruct Hi as [Hpl Ha Hc Hm]. split; [done|done|done|]. intros m [Hin|Hin]%elem_of_app; [by apply (member_ok_extends p); [split|apply Hm]|].
    apply list_elem_of_singleton in Hin as ->. apply member_empty.
  - eapply inv_member; [done|done|apply member_empty].
  - rewrite firstOffset_committed. eapply inv_member; [done|done|]. apply member_assigned; [done|by eapply member_at|done|].
    apply Hfree. by eapply list_elem_of_lookup_2.
  - eapply inv_member; [done|done|]. by eapply member_polled; [eapply member_at|..].
  - discriminate Hauto.
  - discriminate Hdur.
  - eapply inv_member; [done|done|]. by eapply member_revoked, member_at.
  - eapply inv_member; [done|done|]. by eapply member_shutdown, member_at.
  - eapply inv_member; [done|done|]. apply member_internal; [by eapply member_at| |done].
    eapply (runner_step_inv RedeliverBackoff); [by eapply mo_runner, member_at|done].
  - by eapply inv_handled.
Qed.

Lemma start_inv : pipeline_inv start.
Proof.
  split.
  - intros tp o rec. unfold logOf. cbn. by rewrite lookup_empty.
  - by intros e rec He%elem_of_nil.
  - intros tp. unfold committedOf, logOf. cbn. rewrite lookup_empty. cbn. split; [done|]. lia.
  - by intros m Hm%elem_of_nil.
Qed.

(** ** Where every record is *)

Definition inLog (p : pipeline) (rec : KRecord) : Prop := exists tp o, logOf p tp !! o = Some rec.

(** Not handled as far as the broker knows: the group will be given the record (again). *)
Definition pendingIn (p : pipeline) (rec : KRecord) : Prop :=
  exists tp o, logOf p tp !! o = Some rec /\ (committedOf p tp <= o)%nat.

Definition deadLettered (p : pipeline) (d : Delivery) : Prop :=
  exists attempt firstError reason, stored p (deadRecord d attempt firstError reason).

(** The task of a record came to an end, and how. *)
Definition concluded (p : pipeline) (rec : KRecord) : Prop :=
  let d := DecodeRecord rec in
  match taskOf d with
  | Ok t =>
      (exists w, Ev (AnalyzerAsyncAnalyze w (t_MediaID t) (t_Goal t) (t_Mode t)) (Ok tt) ∈ pl_world p)
      \/ (exists w src u, ru_Reused u = true
            /\ Ev (AnalyzerReuseResult w (t_MediaID t) src (t_Goal t) (t_Mode t)) (Ok u) ∈ pl_world p)
      \/ (exists ctx, Ev (LockerTryLock ctx (t_LockKey t) 0) (Ok None) ∈ pl_world p)
      \/ (exists w, Ev (MediaExists w (t_MediaID t)) (Ok false) ∈ pl_world p)
      \/ (exists ctx tr e, failedWith ctx t tr e /\ HasErr e KindBudgetExhausted = true /\ forall x, x ∈ tr -> x ∈ pl_world p)
      \/ deadLettered p d
  | Err reason =>
      deadLettered p d
      \/ exists ctx, Ev (LedgerRecord ctx (match d_Msg d with Some m => m | None => emptyMsg end) 0 (poisonCause reason)) (Ok tt)
           ∈ pl_world p
  end.

Lemma produced_event rec tr : rec ∈ produced tr -> exists ctx r, Ev (PublisherProduce ctx rec) (Ok r) ∈ tr.
Proof.
  unfold produced. intros ([X c x] & Hin & Hf)%list_elem_of_omap.
  destruct c; try done. destruct x as [u|e]; [|done]. injection Hf as ->. by exists ctx, u.
Qed.

Lemma produced_stored p ctr rec : pipeline_inv p -> (forall e, e ∈ ctr -> e ∈ pl_world p) -> rec ∈ produced ctr -> stored p rec.
Proof. intros Hi Hin (ctx & r & He)%produced_event. by apply (pi_acked _ Hi _ rec (Hin _ He)). Qed.

(** [rec'] is the forward of [rec], in the log of a retry topic, which the group consumes. *)
Definition forwardedTo (p : pipeline) (rec rec' : KRecord) : Prop :=
  forwards rec rec' /\ inLog p rec' /\ rec_Topic rec' ∈ [TopicRetry10s; TopicRetry60s].

(** A record that was handled is concluded, or forwarded to a retry topic. *)
Lemma settled_cases p rec : pipeline_inv p -> settled p rec ->
  concluded p rec \/ exists rec', forwardedTo p rec rec'.
Proof.
  intros Hi (ctx & ctr & o & Hex & Hin). set (d := DecodeRecord rec) in *.
  pose proof (produced_stored p ctr) as Hst. unfold concluded. cbv zeta. fold d.
  destruct (taskOf d) as [t|reason] eqn:Et.
  - assert (discharged ctx d t ctr (Ok o)) as Hd.
    { apply (wp_execs (Handle ctx d) (discharged ctx d t)); [|done]. rewrite Handle_eq, Et. by apply finish_discharged. }
    destruct o; cbn [discharged] in Hd.
    + destruct Hd as (_ & l & _ & [Hr|(src & u & Hu & Hr)]); left; [left; by eexists; apply Hin, Hr|].
      right; left. exists (workCtx ctx l), src, u. split; [done|]. by apply Hin.
    + destruct Hd as (_ & [Hr|[w Hr]]); left; right; right; [left|right; left]; by eexists; apply Hin, Hr.
    + destruct Hd as (Hatt & e & now & _ & _ & _ & _ & Hp). right.
      destruct (Hst (retryRecord d e now) Hi Hin) as (part & off & Hl); [rewrite Hp; apply list_elem_of_here|].
      exists (placed (retryRecord d e now) (rec_Topic (retryRecord d e now), part) off). split; [|split; [by eexists _, _|]].
      * exists ctx, ctr, (retryRecord d e now). by split_and!.
      * destruct (RouteFailure_retry _ Hatt) as [[Ht|Ht] _]; cbn [placed rec_Topic retryRecord fst]; rewrite Ht; set_solver.
    + destruct Hd as (e & u & _ & _ & _ & Hp & _). left. do 5 right. do 3 eexists. apply Hst; [done|done|].
      rewrite Hp. apply list_elem_of_here.
    + destruct Hd as (_ & e & Hf & Hb). left. do 4 right. left. by exists ctx, ctr, e.
    + done.
  - left. assert (match o with
      | OutcomePoison => produced ctr = [deadRecord d (d_Attempt d) ("INVALID_ARGUMENT: " +:+ reason) ReasonPoison]
          \/ (produced ctr = [] /\ Ev (LedgerRecord ctx (match d_Msg d with Some m => m | None => emptyMsg end) 0 (poisonCause reason)) (Ok tt) ∈ ctr)
      | _ => False end) as Hd.
    { rewrite Handle_eq, Et in Hex. pose proof (wp_execs _ _ _ _ (discardPoison_spec ctx d reason) Hex) as Hw.
      cbv zeta in Hw. by destruct o. }
    destruct o; try done. destruct Hd as [Hp|[_ Hr]]; [left|right; eexists; by apply Hin].
    do 3 eexists. apply Hst; [done|done|]. rewrite Hp. apply list_elem_of_here.
Qed.

(** In a state that satisfies the invariant, a record of a log can be followed to its end. *)
Lemma followed (p : pipeline) (rec : KRecord) :
  pipeline_inv p -> inLog p rec ->
  exists n rec', (n <= 2)%nat /\ nsteps (forwardedTo p) n rec rec'
    /\ rec_Key rec' = rec_Key rec /\ rec_Value rec' = rec_Value rec
    /\ (pendingIn p rec' \/ concluded p rec').
Proof.
  intros Hi Hin.
  pose proof (DecodeRecord_attempt rec) as Hatt.
  assert (exists n rec', (n <= Z.to_nat (MaxAttempts - d_Attempt (DecodeRecord rec)))%nat
    /\ nsteps (forwardedTo p) n rec rec'
    /\ rec_Key rec' = rec_Key rec /\ rec_Value rec' = rec_Value rec
    /\ (pendingIn p rec' \/ concluded p rec')) as (n & rec' & Hn & Hrest).
  2: { exists n, rec'. split; [|done]. unfold MaxAttempts in Hn. lia. }
  clear Hatt. remember (Z.to_nat (MaxAttempts - d_Attempt (DecodeRecord rec))) as k eqn:Ek.
  revert rec Hin Ek. induction k as [k IH] using lt_wf_ind. intros rec [tp [o Hl]] Ek.
  destruct (decide (committedOf p tp <= o)%nat) as [Hle|Hgt].
  { exists O, rec. split; [lia|]. split; [constructor|]. split; [done|]. split; [done|]. left. by exists tp, o. }
  destruct (pi_committed _ Hi tp) as [_ Hset].
  destruct (settled_cases p rec Hi (Hset o rec ltac:(lia) Hl)) as [Hc|(rec1 & Hfw)].
  { exists O, rec. split; [lia|]. split; [constructor|]. split; [done|]. split; [done|]. by right. }
  pose proof Hfw as (Hf & Hin1 & _). destruct (forwards_step _ _ Hf) as (Hlt & Ha & Hk & Hv).
  destruct (IH (Z.to_nat (MaxAttempts - d_Attempt (DecodeRecord rec1)))) with (rec := rec1)
    as (n & rec' & Hn & Hsteps & Hk' & Hv' & Hend); [lia|done|done|].
  exists (S n), rec'. split; [lia|]. split; [by eapply nsteps_l|]. split; [congruence|]. split; [congruence|done].
Qed.

Lemma reachable_inv (p : pipeline) : 0 < RedeliverBackoff -> rtc pstep start p -> pipeline_inv p.
Proof.
  intros Hb Hr. eapply rtc_invariant; [|apply start_inv|exact Hr]. intros x y Hxy Hx. by eapply pstep_inv.
Qed.

(** C1. No task is lost, from the topic to its end. Start from empty topics and let any number of gateway
    processes join the group, poll, work, commit or fail to, crash in the middle of a record, shut down, and
    have partitions taken away and given to others, in any order, while anything is published. Then every
    record of a task topic can be followed: through at most two forwards, each to a record that is in the log
    of a retry topic, with the same key and message, it leads to a record that is either still pending - at or
    above the committed offset of its partition, so the group will be given it - or concluded: the analysis
    ran or a finished one was attached, another worker held the task, the media is gone, the budget ran out,
    or it is on the dead-letter topic or in the ledger. An offset is never committed past a record that was
    not handled. *)
Theorem no_task_lost (p : pipeline) (tp : topicPartition) (o : nat) (rec : KRecord) :
  0 < RedeliverBackoff -> rtc pstep start p -> logOf p tp !! o = Some rec ->
  exists n rec', (n <= 2)%nat /\ nsteps (forwardedTo p) n rec rec'
    /\ rec_Key rec' = rec_Key rec /\ rec_Value rec' = rec_Value rec
    /\ (pendingIn p rec' \/ concluded p rec').
Proof. intros Hb Hr Hl. apply followed; [by apply reachable_inv|by exists tp, o]. Qed.

End pipeline.

(** ** A task that fails once *)

#[local] Existing Instances plain_hash constant_codec.

(** The calls of a handler take place, its records going to partition 0. *)
Definition happen (p : pipeline) (l : list (event ConsumerE)) : pipeline :=
  fold_left (fun p e => match acknowledged e with
                        | Some rec => happened (append p (rec_Topic rec, 0) rec) e
                        | None => happened p e
                        end) l p.

Lemma happen_steps b p l : rtc (pstep b) p (happen p l).
Proof.
  revert p. induction l as [|e l IH]; intros p; [apply rtc_refl|]. unfold happen. cbn [fold_left].
  eapply rtc_l; [|apply IH]. destruct (acknowledged e) as [rec|] eqn:E; [by apply p_produced|by apply p_call].
Qed.

Definition retrying_world : env WorkerE := fun _ X c =>
  match c in WorkerE X return X with
  | WkNow => 0 | WkTimer _ => true | WkStopped => false | WkHandle _ => Ok OutcomeRetry | WkCommit _ => Ok tt
  end.

Definition worked : trace WorkerE := fst (run retrying_world [] (handle 1 second example_record)).

(** One member polled the record and its worker has it in hand; the handler's calls took place. *)
Definition inHand : Runner :=
  log (upd (upd s_polled 0 (mkPW examplePartition [example_record] true false AtNext)) 0
        (mkPW examplePartition [] true false (InHandle example_record))) (Taken 0 example_record).

Definition beforeCommit : pipeline :=
  happen (mkPipeline {[ examplePartition := [example_record] ]} ∅ [mkMember inHand {[ examplePartition := 1%nat ]} true] [])
    (fst example_run).

Definition afterCommit : pipeline :=
  set_committed (set_member beforeCommit 0 (mkMember
    (log (upd inHand 0 (mkPW examplePartition [] true false AtTop)) (Committed 0 example_record))
    {[ examplePartition := 1%nat ]} true)) (partitionOf example_record) 1.

Lemma internal_upd r i w w' : ru_all r !! i = Some w -> pw_tp w' = pw_tp w -> internal r (upd r i w').
Proof.
  intros Hi Htp. split; [done|]. split; [apply length_insert|]. split; [|done]. cbn. intros k v v' Hv Hv'.
  apply list_lookup_insert_Some in Hv' as [(<- & <- & _)|[_ Hv']]; congruence.
Qed.

Lemma afterCommit_reachable : rtc (pstep second) start afterCommit.
Proof.
  eapply rtc_l; [apply (p_publish _ start examplePartition example_record)|].
  eapply rtc_l; [apply p_join|].
  eapply rtc_l; [apply (p_assign _ _ 0 (mkMember empty ∅ true) examplePartition); [done|done|]|].
  { intros m Hm%list_elem_of_singleton. by subst. }
  eapply rtc_l; [eapply (p_poll _ _ 0 _ examplePartition 0 1); [reflexivity|done|vm_compute; reflexivity|cbn; apply not_elem_of_empty|vm_compute; discriminate]|].
  eapply rtc_l; [eapply (p_worker _ _ 0 _ (upd s_polled 0 (mkPW examplePartition [example_record] true false AtNext))); [reflexivity| |]|].
  { by apply (step_top _ s_polled 0 (mkPW examplePartition [example_record] true false AtTop)). }
  { by apply (internal_upd s_polled 0 (mkPW examplePartition [example_record] true false AtTop)). }
  eapply rtc_l; [eapply (p_worker _ _ 0 _ inHand); [reflexivity| |]|].
  { by apply (step_next _ (upd s_polled 0 (mkPW examplePartition [example_record] true false AtNext)) 0
      (mkPW examplePartition [example_record] true false AtNext)). }
  { split; [done|]. split; [done|]. split; [|done]. intros [|i] w w' Hi Hi'; [by injection Hi as <-; injection Hi' as <-|done]. }
  etrans; [apply (happen_steps _ _ (fst example_run))|].
  eapply (eq_ind beforeCommit (fun q => rtc (pstep second) q afterCommit)); [|vm_compute; reflexivity].
  apply rtc_once. eapply (eq_ind _ (pstep second beforeCommit)); [apply (p_handled second beforeCommit 0 (mkMember inHand {[ examplePartition := 1%nat ]} true) 0
    (mkPW examplePartition [] true false (InHandle example_record)) example_record 1 worked 1);
    [reflexivity|reflexivity|reflexivity| | |by left]|vm_compute; reflexivity].
  - apply (run_execs retrying_world []). vm_compute. reflexivity.
  - intros d r Hdr. assert ((d, r) = (DecodeRecord example_record, Ok OutcomeRetry)) as [= -> ->].
    { apply list_elem_of_singleton. exact Hdr. }
    exists RequestContext, (fst example_run). split; [apply (run_execs failing_world []); vm_compute; reflexivity|].
    intros e He. assert (pl_world beforeCommit = fst example_run) as ->; [|done]. vm_compute. reflexivity.
Qed.

Lemma no_task_lost_witness :
  0 < second /\ logOf afterCommit examplePartition !! 0%nat = Some example_record
  /\ committedOf afterCommit examplePartition = 1%nat
  /\ exists n rec', (n <= 2)%nat /\ nsteps (forwardedTo afterCommit) n example_record rec'
       /\ rec_Key rec' = "h" /\ rec_Value rec' = "{}" /\ (pendingIn afterCommit rec' \/ concluded afterCommit rec').
Proof.
  split; [vm_compute; reflexivity|]. split; [vm_compute; reflexivity|]. split; [vm_compute; reflexivity|].
  apply (no_task_lost second afterCommit examplePartition 0 example_record); [vm_compute; reflexivity|apply afterCommit_reachable|vm_compute; reflexivity].
Defined.
