(* ===== verification/RateLimit.v ===== *)
(** * The token bucket (internal/ratelimit/limiter.go)

    [takeScript] is the Lua script.  Lua numbers are doubles: [rnd] is the rounding of an arithmetic
    result and [fmt] what is left of a number after [tostring] and [tonumber]; they are arguments of the
    definitions, and the theorems say which of their properties they use.  Times are milliseconds. *)

From Stdlib Require Import QArith Qminmax Qround Lqa.
From S2P Require Import Prelude GoStrings Proc Errors GoContext.

Local Open Scope string_scope.
Local Open Scope list_scope.
Local Open Scope Z_scope.

(** ** Buckets and keys *)

Record Bucket := mkBucket { Capacity : Z; Refill : Z; Period : Z }.

Definition perMinute (n : Z) : Bucket := mkBucket n n minute.

Definition AnalysisUser : Bucket := perMinute 5.
Definition AnalysisGlobal : Bucket := perMinute 30.
Definition RouteUser : Bucket := perMinute 10.
Definition RouteGlobal : Bucket := perMinute 60.

Definition ScopeAnalysis : string := "analysis".
Definition ScopeRoute : string := "route".

Definition UserKey (scope : string) (userID : Z) : string :=
  "ratelimit:" +:+ scope +:+ ":user:" +:+ FormatInt userID.
Definition GlobalKey (scope : string) : string := "ratelimit:" +:+ scope +:+ ":global".

(** ** The script *)

Section script.
Context (rnd fmt : Q -> Q).

(** The hash at the key: [tokens] and [ts]. *)
Definition bucketState : Type := option (Q * Z).

(** [tonumber(ARGV[2]) / tonumber(ARGV[3])] *)
Definition rateOf (refill period : Z) : Q := rnd (inject_Z refill / inject_Z period)%Q.

(** The bucket brought up to [now]. *)
Definition refilled (capacity : Z) (rate : Q) (now : Z) (st : bucketState) : Q * Z :=
  let '(tokens, ts) := match st with Some s => s | None => (inject_Z capacity, now) end in
  if ts <? now
  then (Qmin (inject_Z capacity) (rnd (tokens + rnd (inject_Z (now - ts) * rate)))%Q, now)
  else (tokens, ts).

(** The answer (allowed), the hash written back and the PEXPIRE argument. *)
Definition takeScript (capacity refill period now : Z) (st : bucketState) : bool * (Q * Z) * Z :=
  let rate := rateOf refill period in
  let '(tokens, ts) := refilled capacity rate now st in
  let allowed := Qle_bool 1 tokens in
  let tokens := if allowed then rnd (tokens - 1)%Q else tokens in
  let ttl := Qceiling (rnd (rnd (inject_Z capacity - tokens) / rate))%Q in
  (allowed, (fmt tokens, ts), if ttl <? 1 then 1 else ttl).

End script.

(** ** The limiter *)

Inductive LimiterE : Type -> Type :=
| RunTakeScript (ctx : Context) (key : string) (capacity refill periodMs nowMs : Z) : LimiterE (res Z)
| LimiterNow : LimiterE Z.

Definition Take (ctx : Context) (key : string) (b : Bucket) : proc LimiterE (res bool) :=
  Do LimiterNow (fun now =>
  r ←? call (RunTakeScript ctx key (Capacity b) (Refill b) (Period b / millisecond) (UnixMilli now));
  Ret (Ok (r =? 1))).

Definition TakeUserThenGlobal (ctx : Context) (scope : string) (userID : Z) (user global : Bucket)
  : proc LimiterE (res bool) :=
  ok ←? Take ctx (UserKey scope userID) user;
  if negb ok then Ret (Ok false) else Take ctx (GlobalKey scope) global.

(** ** Bounds *)

(** Monotone, and exact on the whole numbers up to the capacity, as rounding to nearest is. *)
Class Rounding (capacity : Z) (rnd : Q -> Q) := {
  rnd_mono x y : (x <= y)%Q -> (rnd x <= rnd y)%Q;
  rnd_int n : 0 <= n <= capacity -> (rnd (inject_Z n) == inject_Z n)%Q }.

#[export] Instance exact_rounding capacity : Rounding capacity (fun x => x).
Proof. split; [done|reflexivity]. Qed.

Section bounds.
Context (capacity : Z) (Hc : 0 <= capacity).
Context (rnd fmt : Q -> Q) `{Rounding capacity rnd, Rounding capacity fmt}.

Definition in_bucket (st : bucketState) : Prop :=
  match st with Some (tokens, _) => (0 <= tokens <= inject_Z capacity)%Q | None => True end.

Lemma rnd_nonneg (f : Q -> Q) `{Rounding capacity f} x : (0 <= x)%Q -> (0 <= f x)%Q.
Proof.
  intros Hx. pose proof (rnd_mono 0 x Hx) as Hm.
  assert (f (inject_Z 0) == inject_Z 0)%Q as Hz by (apply rnd_int; lia).
  change (inject_Z 0) with 0%Q in Hz. lra.
Qed.

Lemma rnd_le_capacity (f : Q -> Q) `{Rounding capacity f} x :
  (x <= inject_Z capacity)%Q -> (f x <= inject_Z capacity)%Q.
Proof.
  intros Hx. pose proof (rnd_mono x _ Hx).
  assert (f (inject_Z capacity) == inject_Z capacity)%Q by (apply rnd_int; lia). lra.
Qed.

Lemma rate_nonneg refill period : 0 <= refill -> 0 < period -> (0 <= rateOf rnd refill period)%Q.
Proof.
  intros Hr Hp. apply rnd_nonneg; [done|]. apply Qle_shift_div_l.
  - change 0%Q with (inject_Z 0). by rewrite <- Zlt_Qlt.
  - rewrite Qmult_0_l. change 0%Q with (inject_Z 0). by rewrite <- Zle_Qle.
Qed.

Lemma refilled_bounds rate now st :
  (0 <= rate)%Q -> in_bucket st ->
  (0 <= fst (refilled rnd capacity rate now st) <= inject_Z capacity)%Q.
Proof.
  intros Hrate Hst. unfold refilled.
  assert (0 <= inject_Z capacity)%Q as Hc' by (change 0%Q with (inject_Z 0); by rewrite <- Zle_Qle).
  assert (exists tokens ts, match st with Some s => s | None => (inject_Z capacity, now) end = (tokens, ts)
            /\ (0 <= tokens <= inject_Z capacity)%Q) as (tokens & ts & -> & Ht).
  { destruct st as [[tokens ts]|]; eexists _, _; (split; [done|]); [done|lra]. }
  destruct (Z.ltb_spec ts now) as [Hlt|]; simpl; [|done].
  assert (0 <= inject_Z (now - ts))%Q as Hd by (change 0%Q with (inject_Z 0); rewrite <- Zle_Qle; lia).
  assert (0 <= rnd (inject_Z (now - ts) * rate))%Q as Hm.
  { apply rnd_nonneg; [done|]. by apply Qmult_le_0_compat. }
  assert (0 <= rnd (tokens + rnd (inject_Z (now - ts) * rate)))%Q as Hs by (apply rnd_nonneg; [done|lra]).
  split; [by apply Q.min_glb|apply Q.le_min_l].
Qed.

Lemma takeScript_stays refill period now st :
  0 <= refill -> 0 < period -> in_bucket st ->
  in_bucket (Some (takeScript rnd fmt capacity refill period now st).1.2).
Proof.
  intros Hr Hp Hst. unfold takeScript.
  pose proof (refilled_bounds (rateOf rnd refill period) now st (rate_nonneg _ _ Hr Hp) Hst) as Hb.
  destruct (refilled rnd capacity (rateOf rnd refill period) now st) as [tokens ts]. simpl in *.
  destruct (Qle_bool 1 tokens) eqn:Ea; [apply Qle_bool_iff in Ea|].
  - assert (0 <= rnd (tokens - 1) <= inject_Z capacity)%Q as Hs.
    { split; [apply rnd_nonneg; [done|lra]|apply rnd_le_capacity; [done|lra]]. }
    split; [apply rnd_nonneg|apply rnd_le_capacity]; [done|apply Hs|done|apply Hs].
  - split; [apply rnd_nonneg|apply rnd_le_capacity]; [done|apply Hb|done|apply Hb].
Qed.

(** A bucket never leaves its range: whatever the stored state within it, the clocks of the gateways
    and the rounding of Lua numbers, one call leaves between 0 and [capacity] tokens, takes a token only
    if a whole one is there, and sets a time-out of at least one millisecond. *)
Theorem takeScript_bounds (refill period now : Z) (st : bucketState) :
  0 <= refill -> 0 < period -> in_bucket st ->
  let '(allowed, st', ttl) := takeScript rnd fmt capacity refill period now st in
  in_bucket (Some st') /\ 1 <= ttl
  /\ (allowed = true -> (1 <= fst (refilled rnd capacity (rateOf rnd refill period) now st))%Q).
Proof.
  intros Hr Hp Hst. pose proof (takeScript_stays refill period now st Hr Hp Hst) as Hs. revert Hs.
  unfold takeScript. destruct (refilled rnd capacity (rateOf rnd refill period) now st) as [tokens ts]. simpl.
  intros Hs. split; [exact Hs|]. split.
  - match goal with |- context [?t <? 1] => destruct (Z.ltb_spec t 1) end; lia.
  - apply Qle_bool_iff.
Qed.

End bounds.

(** ** The long-run rate *)

Section rate.
Context (capacity : Z) (Hc : 0 <= capacity) (refill period : Z) (Hr : 0 <= refill) (Hp : 0 < period).
Context (rnd fmt : Q -> Q) `{Rounding capacity rnd, Rounding capacity fmt}.
(** The error of one rounding, for numbers of the order of the capacity. *)
Context (eps : Q) (Heps : (0 <= eps <= 1)%Q).
Context (Hrnd : forall x, (x <= 3 * inject_Z capacity + 3)%Q -> (rnd x <= x + eps)%Q).
Context (Hfmt : forall x, (x <= 3 * inject_Z capacity + 3)%Q -> (fmt x <= x + eps)%Q).

(** Calls at the clock readings [nows] (of any gateway, in any order): how many are admitted. *)
Fixpoint takes (st : Q * Z) (nows : list Z) : Z * (Q * Z) :=
  match nows with
  | [] => (0, st)
  | now :: rest =>
      let '(allowed, st', _) := takeScript rnd fmt capacity refill period now (Some st) in
      let '(n, st'') := takes st' rest in
      ((if allowed : bool then 1 else 0) + n, st'')
  end.

Local Abbreviation rate := (rateOf rnd refill period).

Lemma take_step tokens ts now :
  in_bucket capacity (Some (tokens, ts)) ->
  let '(allowed, (tokens', ts'), _) := takeScript rnd fmt capacity refill period now (Some (tokens, ts)) in
  ts' = Z.max ts now /\ in_bucket capacity (Some (tokens', ts'))
  /\ ((if allowed then 1 else 0) + tokens' <= tokens + rate * inject_Z (ts' - ts) + 4 * eps)%Q.
Proof.
  intros Hst.
  pose proof (takeScript_stays capacity Hc rnd fmt refill period now (Some (tokens, ts)) Hr Hp Hst) as Hb.
  revert Hb. unfold takeScript.
  assert (exists t1, refilled rnd capacity rate now (Some (tokens, ts)) = (t1, Z.max ts now)
            /\ (t1 <= tokens + rate * inject_Z (Z.max ts now - ts) + 2 * eps)%Q
            /\ (t1 <= inject_Z capacity)%Q) as (t1 & Href & Ht1 & Hcap).
  { unfold refilled. destruct (Z.ltb_spec ts now) as [Hlt|Hge]; eexists; (split; [f_equal; lia|]).
    - replace (Z.max ts now) with now by lia.
      pose proof (Q.le_min_r (inject_Z capacity) (rnd (tokens + rnd (inject_Z (now - ts) * rate)))) as Hm.
      pose proof (Q.le_min_l (inject_Z capacity) (rnd (tokens + rnd (inject_Z (now - ts) * rate)))) as Hm'.
      split; [|exact Hm']. simpl in Hst.
      destruct (Qlt_le_dec (inject_Z (now - ts) * rate) (inject_Z capacity + 1)) as [Hs|Hl]; [|lra].
      pose proof (Hrnd (inject_Z (now - ts) * rate) ltac:(lra)) as H2.
      pose proof (Hrnd (tokens + rnd (inject_Z (now - ts) * rate)) ltac:(lra)) as H1. lra.
    - replace (Z.max ts now - ts) with 0 by lia. change (inject_Z 0) with 0%Q. simpl in Hst. lra. }
  assert (0 <= inject_Z capacity)%Q as Hc' by (change 0%Q with (inject_Z 0); by rewrite <- Zle_Qle).
  rewrite Href. destruct (Qle_bool 1 t1); simpl; intros Hb; (split; [done|]); (split; [apply Hb|]).
  - pose proof (Hrnd (t1 - 1) ltac:(lra)). pose proof (Hfmt (rnd (t1 - 1)) ltac:(lra)). lra.
  - pose proof (Hfmt t1 ltac:(lra)). lra.
Qed.

Lemma takes_spec st nows tmax :
  in_bucket capacity (Some st) -> snd st <= tmax -> Forall (fun now => now <= tmax) nows ->
  let '(n, st') := takes st nows in
  snd st <= snd st' <= tmax /\ in_bucket capacity (Some st')
  /\ (inject_Z n + fst st' <= fst st + rate * inject_Z (snd st' - snd st)
        + 4 * eps * inject_Z (Z.of_nat (length nows)))%Q.
Proof.
  intros Hst Hts Hall. revert st Hst Hts. induction Hall as [|now nows Hnow Hall IH]; intros [tokens ts] Hst Hts;
    cbn [takes fst snd length] in *.
  - split; [lia|]. split; [done|]. rewrite Z.sub_diag. change (Z.of_nat 0) with 0.
    change (inject_Z 0) with 0%Q. lra.
  - pose proof (take_step tokens ts now Hst) as Hstep.
    destruct (takeScript rnd fmt capacity refill period now (Some (tokens, ts))) as [[allowed [tokens' ts']] ttl].
    destruct Hstep as (Hts' & Hb & Hq).
    specialize (IH (tokens', ts') Hb ltac:(cbn [snd]; lia)). destruct (takes (tokens', ts') nows) as [n st''].
    destruct IH as (IH1 & IH2 & IH3). cbn [fst snd] in *. split; [lia|]. split; [done|].
    replace (snd st'' - ts) with ((snd st'' - ts') + (ts' - ts)) by lia.
    rewrite Nat2Z.inj_succ, <- Z.add_1_r, !inject_Z_plus.
    assert (inject_Z (if allowed then 1 else 0) == if allowed then 1 else 0)%Q as -> by by destruct allowed.
    change (inject_Z 1) with 1%Q. lra.
Qed.

(** C39. The long-run rate is enforced. Over any sequence of calls, from any mix of gateway clocks, the
    number of admissions is at most the capacity plus the refill rate times the time the bucket's own
    clock has advanced (plus four roundings per call): a gateway with a lagging clock adds nothing,
    because that clock only moves forward. *)
Theorem admissions_bounded (tokens : Q) (ts tmax : Z) (nows : list Z) :
  in_bucket capacity (Some (tokens, ts)) -> ts <= tmax -> Forall (fun now => now <= tmax) nows ->
  (inject_Z (fst (takes (tokens, ts) nows))
   <= inject_Z capacity + rateOf rnd refill period * inject_Z (tmax - ts)
      + 4 * eps * inject_Z (Z.of_nat (length nows)))%Q.
Proof.
  intros Hst Hts Hall. pose proof (takes_spec (tokens, ts) nows tmax Hst Hts Hall) as Hs.
  destruct (takes (tokens, ts) nows) as [n st']. destruct Hs as (Ht & Hb & Hq).
  destruct st' as [tokens' ts']. cbn [fst snd in_bucket] in *.
  assert (rate * inject_Z (ts' - ts) <= rate * inject_Z (tmax - ts))%Q as Hm.
  { rewrite !(Qmult_comm rate). apply Qmult_le_compat_r; [rewrite <- Zle_Qle; lia|eapply (rate_nonneg capacity); eassumption]. }
  lra.
Qed.

End rate.

(** Expiry is invisible. With exact arithmetic, a bucket that the script's time-out has removed
    behaves as the one that is still there: once as many milliseconds as the time-out have passed since
    the stored clock, the refill is complete, so dropping the key changes neither the tokens nor the
    clock of the next call. *)
Theorem expiry_neutral (capacity refill period now : Z) (st : bucketState) (now' : Z) :
  0 <= capacity -> 0 < refill -> 0 < period ->
  let exact := fun x : Q => x in
  let '(_, (tokens, ts), ttl) := takeScript exact exact capacity refill period now st in
  ts + ttl <= now' ->
  let kept := refilled exact capacity (rateOf exact refill period) now' (Some (tokens, ts)) in
  let dropped := refilled exact capacity (rateOf exact refill period) now' None in
  (fst kept == fst dropped)%Q /\ snd kept = snd dropped.
Proof.
  intros Hc Hr Hp exact. unfold takeScript. subst exact. cbv beta.
  destruct (refilled _ capacity _ now st) as [t1 ts]. cbv zeta.
  set (tokens := if Qle_bool 1 t1 then (t1 - 1)%Q else t1).
  set (rate := rateOf (fun x => x) refill period).
  set (ttl := Qceiling ((inject_Z capacity - tokens) / rate)). intros Hnow.
  assert (0 < rate)%Q as Hrate.
  { apply Qlt_shift_div_l; [|rewrite Qmult_0_l]; change 0%Q with (inject_Z 0); by rewrite <- Zlt_Qlt. }
  assert (1 <= (if ttl <? 1 then 1 else ttl) /\ ttl <= (if ttl <? 1 then 1 else ttl)) as [H1 H2]
    by (destruct (Z.ltb_spec ttl 1); lia).
  unfold refilled. rewrite Z.ltb_irrefl. destruct (Z.ltb_spec ts now') as [_|]; [|lia]. simpl. split; [|done].
  apply Q.min_l.
  assert ((inject_Z capacity - tokens) / rate <= inject_Z (now' - ts))%Q as Hd.
  { eapply Qle_trans; [apply Qle_ceiling|]. fold ttl. rewrite <- Zle_Qle. lia. }
  assert (inject_Z capacity - tokens <= inject_Z (now' - ts) * rate)%Q as Hm.
  { apply (Qmult_le_compat_r _ _ rate) in Hd; [|lra].
    assert ((inject_Z capacity - tokens) / rate * rate == inject_Z capacity - tokens)%Q as E
      by (field; lra). lra. }
  lra.
Qed.

(** ** Concrete instances *)

Lemma takeScript_bounds_witness :
  let id := fun x : Q => x in
  let '(allowed, st', ttl) := takeScript id id 5 5 60000 1000 None in
  in_bucket 5 (Some st') /\ 1 <= ttl
  /\ (allowed = true -> (1 <= fst (refilled id 5 (rateOf id 5 60000) 1000 None))%Q).
Proof.
  exact (takeScript_bounds 5 ltac:(lia) (fun x => x) (fun x => x) 5 60000 1000 None ltac:(lia) ltac:(lia) I).
Defined.

Definition exampleCalls : list Z := [0; 0; 0; 0; 0; 0; 12000; 3000].

Definition exampleAdmissions : Z := fst (takes 5 5 60000 (fun x => x) (fun x => x) (5%Q, 0) exampleCalls).

Lemma admissions_bounded_witness :
  exampleAdmissions = 6
  /\ (inject_Z exampleAdmissions
      <= inject_Z 5 + rateOf (fun x => x) 5 60000 * inject_Z (12000 - 0)
         + 4 * 0 * inject_Z (Z.of_nat (length exampleCalls)))%Q.
Proof.
  split; [vm_compute; reflexivity|].
  apply (admissions_bounded 5 ltac:(lia) 5 60000 ltac:(lia) ltac:(lia) (fun x => x) (fun x => x) 0
           ltac:(split; discriminate) ltac:(intros; cbv beta; lra) ltac:(intros; cbv beta; lra) 5 0 12000).
  - split; discriminate.
  - lia.
  - repeat constructor; lia.
Defined.

Lemma expiry_neutral_witness :
  let exact := fun x : Q => x in
  takeScript exact exact 5 5 60000 1000 None = (true, (4%Q, 1000), 12000)
  /\ (fst (refilled exact 5 (rateOf exact 5 60000) 20000 (Some (4%Q, 1000%Z)))
      == fst (refilled exact 5 (rateOf exact 5 60000) 20000 None))%Q
  /\ snd (refilled exact 5 (rateOf exact 5 60000) 20000 (Some (4%Q, 1000%Z)))
     = snd (refilled exact 5 (rateOf exact 5 60000) 20000 None).
Proof.
  intros exact. split; [vm_compute; reflexivity|].
  pose proof (expiry_neutral 5 5 60000 1000 None 20000 ltac:(lia) ltac:(lia) ltac:(lia)) as Hn.
  cbv zeta in Hn. apply Hn. vm_compute. discriminate.
Defined.
