(* ===== verification/WorkerPool.v ===== *)
(** * The bounded executor (internal/workerpool/pool.go)

    A transition system whose steps are the atomic operations of the source: the additions to the
    counter, the send and receive on the slot channel, the return of the task, and WaitGroup.Done. *)

From S2P Require Import Prelude GoStrings Errors.

Local Open Scope list_scope.
Local Open Scope Z_scope.

(** [ErrRejected]. *)
Definition errRejected : gerror := OtherErr "worker pool is full"%string (Some ErrRejected) None.

(** Where one call of [Submit], and then its goroutine, is. *)
Inductive phase :=
| Rejecting   (* the counter went over the capacity; Add(-1) is pending *)
| Rejected
| Waiting     (* accepted; blocked on the slot channel *)
| Running
| Releasing   (* the slot is free again; Add(-1) is pending *)
| Counted     (* the counter is down; wg.Done() is pending *)
| Finished.

Record Pool := mkPool {
  p_workers : Z; p_capacity : Z;   (* cap(p.run) and p.capacity *)
  p_inflight : Z; p_slots : Z;     (* p.inflight and len(p.run) *)
  p_wg : Z; p_tasks : list phase }.

Definition NewPool (workers queue : Z) : Pool :=
  let workers := if workers <? 1 then 1 else workers in
  mkPool workers (workers + queue) 0 0 0 [].

(** The first atomic operation of [Submit], with what it decides. *)
Definition submit (p : Pool) : Pool :=
  let n := p_inflight p + 1 in
  if p_capacity p <? n
  then mkPool (p_workers p) (p_capacity p) n (p_slots p) (p_wg p) (p_tasks p ++ [Rejecting])
  else mkPool (p_workers p) (p_capacity p) n (p_slots p) (p_wg p + 1) (p_tasks p ++ [Waiting]).

Definition move (p : Pool) (i : nat) (ph : phase) (dInflight dSlots dWg : Z) : Pool :=
  mkPool (p_workers p) (p_capacity p) (p_inflight p + dInflight) (p_slots p + dSlots) (p_wg p + dWg)
    (<[i := ph]> (p_tasks p)).

Inductive step : Pool -> Pool -> Prop :=
| step_submit p : step p (submit p)
| step_reject p i : p_tasks p !! i = Some Rejecting -> step p (move p i Rejected (-1) 0 0)
| step_start p i : p_tasks p !! i = Some Waiting -> p_slots p < p_workers p -> (* the send does not block *)
    step p (move p i Running 0 1 0)
| step_return p i : p_tasks p !! i = Some Running -> step p (move p i Releasing 0 (-1) 0)
| step_count p i : p_tasks p !! i = Some Releasing -> step p (move p i Counted (-1) 0 0)
| step_done p i : p_tasks p !! i = Some Counted -> step p (move p i Finished 0 0 (-1)).

(** [Shutdown] returns through [done] only when the wait group is at zero. *)
Definition shutdownDone (p : Pool) : bool := p_wg p =? 0.

(** ** Counting *)

Definition is_phase (ph ph' : phase) : Z :=
  match ph, ph' with
  | Rejecting, Rejecting | Rejected, Rejected | Waiting, Waiting | Running, Running
  | Releasing, Releasing | Counted, Counted | Finished, Finished => 1
  | _, _ => 0
  end.

Fixpoint count (ph : phase) (l : list phase) : Z :=
  match l with [] => 0 | x :: l' => is_phase ph x + count ph l' end.

Lemma count_app ph l l' : count ph (l ++ l') = count ph l + count ph l'.
Proof. induction l as [|x l IH]; simpl; lia. Qed.

Lemma count_nonneg ph l : 0 <= count ph l.
Proof. induction l as [|x l IH]; simpl; [lia|]. destruct ph, x; simpl; lia. Qed.

Lemma count_insert ph l i x y :
  l !! i = Some x -> count ph (<[i := y]> l) = count ph l - is_phase ph x + is_phase ph y.
Proof.
  revert i. induction l as [|z l IH]; intros [|i] H; simplify_eq/=; [lia|]. rewrite IH by done. lia.
Qed.

(** The counters mean what they are for. *)
Record pool_inv (p : Pool) : Prop := {
  inv_inflight : p_inflight p = count Rejecting (p_tasks p) + count Waiting (p_tasks p)
    + count Running (p_tasks p) + count Releasing (p_tasks p);
  inv_slots : p_slots p = count Running (p_tasks p);
  inv_wg : p_wg p = count Waiting (p_tasks p) + count Running (p_tasks p) + count Releasing (p_tasks p)
    + count Counted (p_tasks p);
  inv_running : count Running (p_tasks p) <= p_workers p;
  inv_accepted : count Waiting (p_tasks p) + count Running (p_tasks p) + count Releasing (p_tasks p)
    <= p_capacity p }.

Ltac count_go H :=
  constructor; cbn [move submit p_inflight p_slots p_wg p_tasks p_workers p_capacity];
  rewrite ?count_app, ?(count_insert _ _ _ _ _ H); simpl; lia.

Lemma pool_step_inv p p' : pool_inv p -> step p p' -> pool_inv p'.
Proof.
  intros [H1 H2 H3 H4 H5] Hs.
  pose proof (count_nonneg Rejecting (p_tasks p)). 
  destruct Hs as [p|p i Hi|p i Hi Hslot|p i Hi|p i Hi|p i Hi]; [|count_go Hi..].
  unfold submit. destruct (Z.ltb_spec (p_capacity p) (p_inflight p + 1)); count_go H1.
Qed.

(** The workers and the queue length a pool was made with never change. *)
Lemma step_limits p p' : step p p' -> p_workers p' = p_workers p /\ p_capacity p' = p_capacity p.
Proof. destruct 1; try done. unfold submit. by destruct (_ <? _). Qed.

Lemma pool_reachable_inv workers queue p :
  0 <= queue -> rtc step (NewPool workers queue) p ->
  pool_inv p /\ p_workers p = Z.max 1 workers /\ p_capacity p = Z.max 1 workers + queue.
Proof.
  intros Hq Hr.
  assert (pool_inv (NewPool workers queue) /\ p_workers (NewPool workers queue) = Z.max 1 workers
          /\ p_capacity (NewPool workers queue) = Z.max 1 workers + queue) as H0.
  { unfold NewPool. destruct (Z.ltb_spec workers 1); split; try (split; simpl; lia); constructor; simpl; lia. }
  revert H0. induction Hr as [|p1 p2 p3 Hs Hr IH]; [done|]. intros (Hi & Hw & Hc). apply IH.
  destruct (step_limits _ _ Hs). split; [by eapply pool_step_inv|]. split; congruence.
Qed.

(** The pool's limits hold in every interleaving: at most [workers] tasks run at once, at most
    [workers + queue] accepted tasks are unfinished, a submission is refused only while that many calls
    are unfinished or being refused, and the shutdown wait ends only when every accepted task is over. *)
Theorem pool_bounds (workers queue : Z) (p : Pool) :
  0 <= queue -> rtc step (NewPool workers queue) p ->
  count Running (p_tasks p) <= Z.max 1 workers
  /\ count Waiting (p_tasks p) + count Running (p_tasks p) + count Releasing (p_tasks p)
     <= Z.max 1 workers + queue
  /\ (last (p_tasks (submit p)) = Some Rejecting ->
        Z.max 1 workers + queue <= count Rejecting (p_tasks p) + count Waiting (p_tasks p)
          + count Running (p_tasks p) + count Releasing (p_tasks p))
  /\ (shutdownDone p = true ->
        count Waiting (p_tasks p) + count Running (p_tasks p) + count Releasing (p_tasks p)
        + count Counted (p_tasks p) = 0).
Proof.
  intros Hq Hr. destruct (pool_reachable_inv _ _ _ Hq Hr) as ([H1 H2 H3 H4 H5] & Hw & Hc).
  split; [lia|]. split; [lia|]. split.
  - unfold submit. destruct (Z.ltb_spec (p_capacity p) (p_inflight p + 1)); [lia|].
    cbn [p_tasks]. by rewrite last_snoc.
  - unfold shutdownDone. intros Hz%Z.eqb_eq. lia.
Qed.

Definition onePool : Pool := move (submit (NewPool 1 0)) 0 Running 0 1 0.

Lemma onePool_reachable : rtc step (NewPool 1 0) onePool.
Proof. eapply rtc_l; [apply step_submit|]. apply rtc_once, step_start; [reflexivity|vm_compute; reflexivity]. Qed.

Lemma pool_bounds_witness :
  rtc step (NewPool 1 0) onePool
  /\ count Running (p_tasks onePool) <= Z.max 1 1
  /\ count Waiting (p_tasks onePool) + count Running (p_tasks onePool) + count Releasing (p_tasks onePool)
     <= Z.max 1 1 + 0
  /\ (last (p_tasks (submit onePool)) = Some Rejecting ->
        Z.max 1 1 + 0 <= count Rejecting (p_tasks onePool) + count Waiting (p_tasks onePool)
          + count Running (p_tasks onePool) + count Releasing (p_tasks onePool))
  /\ (shutdownDone onePool = true ->
        count Waiting (p_tasks onePool) + count Running (p_tasks onePool) + count Releasing (p_tasks onePool)
        + count Counted (p_tasks onePool) = 0).
Proof.
  split; [exact onePool_reachable|]. apply (pool_bounds 1 0 onePool); [lia|exact onePool_reachable].
Defined.

(** The counter is shared by accepted and refused calls, so a refusal can be spurious: with one
    worker and no queue, a state is reachable in which no accepted task is left and a submission is
    still refused, because another refused call has not taken its increment back yet. *)
Theorem spurious_rejection :
  exists p, rtc step (NewPool 1 0) p /\ last (p_tasks (submit p)) = Some Rejecting
    /\ count Waiting (p_tasks p) + count Running (p_tasks p) + count Releasing (p_tasks p) = 0.
Proof.
  exists (move (move (submit onePool) 0 Releasing 0 (-1) 0) 0 Counted (-1) 0 0). split; [|done].
  etrans; [apply onePool_reachable|].
  eapply rtc_l; [apply step_submit|]. eapply rtc_l; [by apply (step_return _ 0)|]. by apply rtc_once, (step_count _ 0).
Qed.
