(* ===== verification/Billing.v ===== *)
(** * The daily spend cap (internal/billing/billing.go)

    Money is float64: [spec_float] with IEEE comparison, so NaN and infinities behave as in Go.  Times
    are nanoseconds since the Unix epoch; the date of a key is the civil date at UTC+8. *)

From Stdlib Require Import SpecFloat.
From S2P Require Import Prelude GoStrings Proc Errors GoContext.

Local Open Scope string_scope.
Local Open Scope list_scope.
Local Open Scope Z_scope.

Definition float64 : Type := spec_float.

Definition BillingHeader : string := "x-billing-user".

(** ** Dates *)

(** Days since 1970-01-01 at UTC+8. *)
Definition beijingDay (now : Z) : Z := (now / second + 8 * 3600) / 86400.

Definition isLeap (y : Z) : bool := (y mod 4 =? 0) && (negb (y mod 100 =? 0) || (y mod 400 =? 0)).

Definition monthLengths (leap : bool) : list Z :=
  [31; if leap then 29 else 28; 31; 30; 31; 30; 31; 31; 30; 31; 30; 31].

(** Month (from [m] on) and day of the month of a day of the year. *)
Fixpoint monthDay (m yday : Z) (lengths : list Z) : Z * Z :=
  match lengths with
  | [] => (m, yday + 1)
  | n :: rest => if yday <? n then (m, yday + 1) else monthDay (m + 1) (yday - n) rest
  end.

(** The cycles of 400, 100, 4 and 1 years a day lies in, counted from 1 January of year 1, and the day
    of the year; the last century of 400 years and the last year of 4 are a day longer. *)
Definition cycles (day : Z) : Z * Z * Z * Z * Z :=
  let z := day + 719162 in
  let n400 := z / 146097 in
  let r := z mod 146097 in
  let n100 := r / 36524 - r / 36524 / 4 in
  let r := r - 36524 * n100 in
  let n4 := r / 1461 in
  let r := r mod 1461 in
  let n1 := r / 365 - r / 365 / 4 in
  (n400, n100, n4, n1, r - 365 * n1).

(** Year, month and day. *)
Definition dateOfDay (day : Z) : Z * Z * Z :=
  let '(n400, n100, n4, n1, yday) := cycles day in
  let y := 400 * n400 + 100 * n100 + 4 * n4 + n1 + 1 in
  let '(m, d) := monthDay 1 yday (monthLengths (isLeap y)) in
  (y, m, d).

Definition pad2 (n : Z) : string := if n <? 10 then "0" +:+ FormatInt n else FormatInt n.
Definition pad4 (n : Z) : string :=
  (if n <? 10 then "000" else if n <? 100 then "00" else if n <? 1000 then "0" else "") +:+ FormatInt n.

(** [now.In(zone).Format("2006-01-02")], for years from 0 on. *)
Definition formatDate (day : Z) : string :=
  let '(y, m, d) := dateOfDay day in pad4 y +:+ "-" +:+ pad2 m +:+ "-" +:+ pad2 d.

Definition Key (uid now : Z) : string :=
  "billing:spend:" +:+ FormatInt uid +:+ ":" +:+ formatDate (beijingDay now).

(** ** The user a context acts for *)

Definition WithUser (ctx : Context) (uid : Z) : Context := mkCtx (ctx_sources ctx) (Some uid).
Definition UserFrom (ctx : Context) : option Z := ctx_user ctx.

(** ** The ledger *)

Record Ledger := mkLedger { Limit : float64; Unlimited : list Z }.

Inductive BillingE : Type -> Type :=
| SpendNow : BillingE Z
| SpendGet (ctx : Context) (key : string) : BillingE (res (option float64)). (* Ok None: redis.Nil *)

Definition Limited (l : option Ledger) (uid : Z) : bool :=
  match l with
  | None => false
  | Some l => SFltb (S754_zero false) (Limit l) && negb (existsb (Z.eqb uid) (Unlimited l))
  end.

Definition Spent (ctx : Context) (uid : Z) : proc BillingE (res float64) :=
  Do SpendNow (fun now =>
  Do (SpendGet ctx (Key uid now)) (fun r =>
  match r with
  | Ok None => Ret (Ok (S754_zero false))
  | Ok (Some v) => Ret (Ok v)
  | Err e => Ret (Err e)
  end)).

Definition quotaExhausted : gerror :=
  Business CodeQuotaExhausted "这个账号今天的 AI 额度已用完，明天再来，或联系作者获取内测账号".

Definition Check (l : option Ledger) (ctx : Context) (uid : Z) : proc BillingE (res unit) :=
  if negb (Limited l uid) then Ret (Ok tt)
  else
    bind (Spent ctx uid) (fun r =>
    match r, l with
    | Ok spent, Some l => if SFleb (Limit l) spent then Ret (Err quotaExhausted) else Ret (Ok tt)
    | _, _ => Ret (Ok tt)
    end).

(** ** Lemmas *)

Lemma cycles_spec day :
  let '(n400, n100, n4, n1, yday) := cycles day in
  day + 719162 = 146097 * n400 + 36524 * n100 + 1461 * n4 + 365 * n1 + yday
  /\ 0 <= n100 <= 3 /\ 0 <= n4 <= 24 /\ 0 <= n1 <= 3 /\ 0 <= yday <= 365.
Proof.
  unfold cycles. set (z := day + 719162).
  pose proof (Z.div_mod z 146097 ltac:(lia)). pose proof (Z.mod_pos_bound z 146097 ltac:(lia)).
  set (n400 := z / 146097) in *. set (r := z mod 146097) in *.
  assert (0 <= r / 36524 - r / 36524 / 4 <= 3
    /\ 0 <= r - 36524 * (r / 36524 - r / 36524 / 4) <= 36524) as [Hn100 Hr1] by (Z.to_euclidean_division_equations; lia).
  set (n100 := r / 36524 - r / 36524 / 4) in *. set (r1 := r - 36524 * n100) in *.
  pose proof (Z.div_mod r1 1461 ltac:(lia)). pose proof (Z.mod_pos_bound r1 1461 ltac:(lia)).
  assert (0 <= r1 / 1461 <= 24) by (Z.to_euclidean_division_equations; lia).
  set (n4 := r1 / 1461) in *. set (r2 := r1 mod 1461) in *.
  assert (0 <= r2 / 365 - r2 / 365 / 4 <= 3
    /\ 0 <= r2 - 365 * (r2 / 365 - r2 / 365 / 4) <= 365) as [Hn1 Hr3] by (Z.to_euclidean_division_equations; lia).
  set (n1 := r2 / 365 - r2 / 365 / 4) in *. lia.
Qed.

Definition yearDays : list Z := Z.of_nat <$> seq 0 366.

Lemma yearDays_spec n : 0 <= n <= 365 -> In n yearDays.
Proof.
  intros H. apply list_elem_of_In, list_elem_of_fmap. exists (Z.to_nat n). split; [lia|].
  apply elem_of_seq. lia.
Qed.

(** Month and day as one number. *)
Definition monthDayCode (leap : bool) (yday : Z) : Z :=
  let '(m, d) := monthDay 1 yday (monthLengths leap) in 32 * m + d.

(** The 366 days, checked one by one (the last one exceeds a common year). *)
Lemma monthDay_ok leap yday : 0 <= yday <= 365 ->
  let '(m, d) := monthDay 1 yday (monthLengths leap) in 1 <= m <= 13 /\ 1 <= d <= 31.
Proof.
  intros H.
  assert (forallb (fun yday => let '(m, d) := monthDay 1 yday (monthLengths leap) in
    (1 <=? m) && (m <=? 13) && (1 <=? d) && (d <=? 31)) yearDays = true) as Hc
    by (destruct leap; vm_compute; reflexivity).
  rewrite forallb_forall in Hc. specialize (Hc yday (yearDays_spec yday H)).
  destruct (monthDay 1 yday (monthLengths leap)). lia.
Qed.

Lemma monthDay_inj leap yday yday' : 0 <= yday <= 365 -> 0 <= yday' <= 365 ->
  monthDay 1 yday (monthLengths leap) = monthDay 1 yday' (monthLengths leap) -> yday = yday'.
Proof.
  intros H H' Heq.
  assert (NoDup (monthDayCode leap <$> yearDays)) as Hnd
    by (apply (bool_decide_eq_true_1 _); destruct leap; vm_compute; reflexivity).
  assert (forall n, 0 <= n <= 365 -> yearDays !! Z.to_nat n = Some n) as Hl.
  { intros n Hn. unfold yearDays. rewrite list_lookup_fmap, lookup_seq_lt by lia. simpl. f_equal. lia. }
  assert (Z.to_nat yday = Z.to_nat yday') as Hi; [|lia].
  eapply NoDup_lookup; [exact Hnd| |].
  - rewrite list_lookup_fmap, Hl by done. reflexivity.
  - rewrite list_lookup_fmap, Hl by done. simpl. unfold monthDayCode. by rewrite Heq.
Qed.

Lemma dateOfDay_inj day day' : dateOfDay day = dateOfDay day' -> day = day'.
Proof.
  unfold dateOfDay. pose proof (cycles_spec day) as H. pose proof (cycles_spec day') as H'.
  destruct (cycles day) as [[[[a b] c] e] yday], (cycles day') as [[[[a' b'] c'] e'] yday'].
  destruct (monthDay 1 yday (monthLengths (isLeap (400 * a + 100 * b + 4 * c + e + 1)))) as [m d] eqn:E.
  destruct (monthDay 1 yday' (monthLengths (isLeap (400 * a' + 100 * b' + 4 * c' + e' + 1)))) as [m' d'] eqn:E'.
  intros Heq. injection Heq as Hy <- <-.
  assert (a = a' /\ b = b' /\ c = c' /\ e = e') as (<- & <- & <- & <-) by lia.
  assert (yday = yday') as <- by (eapply monthDay_inj; [lia|lia|]; by rewrite E, E'). lia.
Qed.

Lemma dateOfDay_range day : 0 <= day ->
  let '(y, m, d) := dateOfDay day in 1000 <= y /\ 1 <= m <= 31 /\ 1 <= d <= 31.
Proof.
  intros Hd. unfold dateOfDay. pose proof (cycles_spec day) as H.
  destruct (cycles day) as [[[[a b] c] e] yday].
  pose proof (monthDay_ok (isLeap (400 * a + 100 * b + 4 * c + e + 1)) yday ltac:(lia)) as Hm.
  destruct (monthDay 1 yday _) as [m d]. lia.
Qed.

Lemma digit_no_dash a : is_digit a = true -> negb (Ascii.eqb a "-") = true.
Proof. revert a. by_bytes. Qed.

Lemma dec_char_no_colon a : dec_char a = true -> negb (Ascii.eqb a ":") = true.
Proof. revert a. by_bytes. Qed.

Lemma digits_no_dash n : 0 <= n -> str_forall (fun a => negb (Ascii.eqb a "-")) (FormatInt n) = true.
Proof. intros H. eapply str_forall_weaken; [apply digit_no_dash|by apply FormatInt_digits]. Qed.

Definition range31 : list Z := Z.of_nat <$> seq 1 31.

Lemma range31_spec n : 1 <= n <= 31 -> In n range31.
Proof.
  intros H. apply list_elem_of_In, list_elem_of_fmap. exists (Z.to_nat n). split; [lia|].
  apply elem_of_seq. lia.
Qed.

(** Two-digit fields, checked case by case. *)
Lemma pad2_ok n n' : 1 <= n <= 31 -> 1 <= n' <= 31 ->
  String.length (pad2 n) = 2%nat /\ (pad2 n = pad2 n' -> n = n').
Proof.
  intros Hn Hn'.
  assert (forallb (fun i => Nat.eqb (String.length (pad2 i)) 2
            && forallb (fun j => implb (String.eqb (pad2 i) (pad2 j)) (i =? j)) range31) range31 = true) as Hc
    by (vm_compute; reflexivity).
  rewrite forallb_forall in Hc. specialize (Hc n (range31_spec n Hn)). apply andb_prop in Hc as [Hl Hc].
  rewrite forallb_forall in Hc. specialize (Hc n' (range31_spec n' Hn')). split; [by apply Nat.eqb_eq|].
  intros Heq. rewrite Heq, String.eqb_refl in Hc. simpl in Hc. by apply Z.eqb_eq.
Qed.

Lemma formatDate_inj day day' : 0 <= day -> 0 <= day' -> formatDate day = formatDate day' -> day = day'.
Proof.
  intros Hd Hd' Heq. apply dateOfDay_inj. unfold formatDate in Heq.
  pose proof (dateOfDay_range day Hd) as H. pose proof (dateOfDay_range day' Hd') as H'.
  destruct (dateOfDay day) as [[y m] d], (dateOfDay day') as [[y' m'] d'].
  destruct H as (Hy & Hm & Hdd), H' as (Hy' & Hm' & Hdd').
  assert (forall y, 1000 <= y -> pad4 y = FormatInt y) as Hp4.
  { intros k Hk. unfold pad4. destruct (Z.ltb_spec k 10); [lia|]. destruct (Z.ltb_spec k 100); [lia|].
    by destruct (Z.ltb_spec k 1000); [lia|]. }
  rewrite !Hp4 in Heq by done.
  apply (str_app_sep_inj "-"%char (FormatInt y) (FormatInt y')) in Heq as [Hyy Heq];
    [|apply digits_no_dash; lia..].
  apply str_app_inj_len in Heq as [Hmm Heq];
    [|by rewrite (proj1 (pad2_ok m m ltac:(lia) ltac:(lia))), (proj1 (pad2_ok m' m' ltac:(lia) ltac:(lia)))].
  apply (str_app_inj_l "-") in Heq.
  apply FormatInt_inj in Hyy as ->.
  apply (pad2_ok m m') in Hmm as ->; [|lia..]. apply (pad2_ok d d') in Heq as ->; [done|lia..].
Qed.

(** ** Properties *)

(** The spend counter is per user and per Beijing day: two moments (since 1970) share a key exactly
    when the user is the same and the calendar day at UTC+8 is the same. *)
Theorem billing_key_per_day (uid uid' now now' : Z) :
  0 <= now -> 0 <= now' ->
  Key uid now = Key uid' now' <-> uid = uid' /\ beijingDay now = beijingDay now'.
Proof.
  intros Hn Hn'. split; [|by intros [-> Hd]; unfold Key; rewrite Hd].
  unfold Key. intros H. apply (str_app_inj_l "billing:spend:") in H.
  assert (forall n, str_forall (fun a => negb (Ascii.eqb a ":")) (FormatInt n) = true) as Hc.
  { intros n. eapply str_forall_weaken; [apply dec_char_no_colon|apply FormatInt_chars]. }
  apply (str_app_sep_inj ":"%char (FormatInt uid) (FormatInt uid')) in H as [Hu Hd]; [|apply Hc..].
  split; [by apply FormatInt_inj|].
  assert (forall n, 0 <= n -> 0 <= beijingDay n) as Hb.
  { intros n Hpos. unfold beijingDay. apply Z.div_pos; [|lia].
    pose proof (Z.div_pos n second Hpos ltac:(vm_compute; reflexivity)). lia. }
  apply formatDate_inj; auto.
Qed.

Lemma billing_key_per_day_witness :
  Key 7 0 = "billing:spend:7:1970-01-01"
  /\ Key 7 (1709136000 * second) = "billing:spend:7:2024-02-29"
  /\ (Key 7 0 = Key 7 (15 * hour) <-> 7 = 7 /\ beijingDay 0 = beijingDay (15 * hour)).
Proof.
  split; [vm_compute; reflexivity|]. split; [vm_compute; reflexivity|].
  apply (billing_key_per_day 7 7 0 (15 * hour)); vm_compute; discriminate.
Defined.

(** The cap. A user who is limited is refused exactly when today's counter was read and is at least
    the limit; an unreadable counter, a missing one, a disabled ledger and an exempt user let the
    request through, and only a limited user costs a read. *)
Theorem Check_spec (l : option Ledger) (ctx : Context) (uid : Z) :
  wp (Check l ctx uid) (fun tr r =>
    match l with
    | Some led =>
        if Limited l uid then
          exists now ans, tr = [Ev SpendNow now; Ev (SpendGet ctx (Key uid now)) ans]
            /\ r = match ans with
                   | Ok (Some v) => if SFleb (Limit led) v then Err quotaExhausted else Ok tt
                   | Ok None => if SFleb (Limit led) (S754_zero false) then Err quotaExhausted else Ok tt
                   | Err _ => Ok tt
                   end
        else tr = [] /\ r = Ok tt
    | None => tr = [] /\ r = Ok tt
    end).
Proof.
  unfold Check. destruct l as [led|]; [|done]. destruct (Limited (Some led) uid); [|done].
  unfold Spent. cbn [negb]. wp_go; answers; eexists _, _; (split; [reflexivity|]); cbn beta iota;
    repeat match goal with H : SFleb _ _ = _ |- _ => rewrite H; clear H end; done.
Qed.
