(* ===== verification/DateTime.v ===== *)
(** * Zone-less timestamps (internal/model/entity.go, [DateTime])

    Instants are nanoseconds since the Unix epoch, as everywhere.  The zone of a process is what Go's tables say of
    it: the offset at an instant and the period in which that offset holds ([Zone]).  [Format] and
    [ParseInLocation] are package time's functions for the one layout used, [Date] its resolution of a local time. *)

From S2P Require Import Prelude GoStrings Errors GoContext Billing.

Local Open Scope string_scope.
Local Open Scope list_scope.
Local Open Scope Z_scope.

(** [lookup sec]: the offset in seconds at [sec], and the start and end of its period. *)
Class Zone := { lookup_zone : Z -> Z * Z * Z }.

(** JSON string literals (package encoding/json), and the error of package time for a text. *)
Class JsonStrings := { json_quote : string -> string; json_unquote : string -> res string; ParseError : string -> gerror }.

(** ** Dates and days *)

Definition daysIn (y m : Z) : Z := nth (Z.to_nat (m - 1)) (monthLengths (isLeap y)) 0.

Definition daysBefore (leap : bool) (m : Z) : Z := foldr Z.add 0 (take (Z.to_nat (m - 1)) (monthLengths leap)).

(** Days since 1970-01-01 of a civil date. *)
Definition dayOfDate (y m d : Z) : Z :=
  365 * (y - 1) + (y - 1) / 4 - (y - 1) / 100 + (y - 1) / 400 + daysBefore (isLeap y) m + (d - 1) - 719162.

(** ** Fractions of a second *)

Fixpoint fixed_digits (w : nat) (n : Z) : list Z :=
  match w with O => [] | S w => fixed_digits w (n / 10) ++ [n mod 10] end.

Definition render (l : list Z) : string := foldr (fun d s => String (digit_char d) s) "" l.

Definition trim_zeros (l : list Z) : list Z := rev (drop_while (Z.eqb 0) (rev l)).

(** The chunk [.999999999]: nine digits without trailing zeros, nothing for a whole second. *)
Definition formatFraction (nsec : Z) : string :=
  match trim_zeros (fixed_digits 9 nsec) with [] => "" | l => "." +:+ render l end.

(** ** Formatting and parsing *)

Definition secondOf (t : Z) : Z := t / second.

Section zone.
Context `{Zone}.

Definition offsetAt (sec : Z) : Z := (lookup_zone sec).1.1.

(** [t.Format("2006-01-02T15:04:05.999999999")], for years from 0 on. *)
Definition Format (t : Z) : string :=
  let abs := secondOf t + offsetAt (secondOf t) in
  let sod := abs mod 86400 in
  formatDate (abs / 86400) +:+ "T" +:+ pad2 (sod / 3600) +:+ ":" +:+ pad2 (sod / 60 mod 60) +:+ ":" +:+ pad2 (sod mod 60)
    +:+ formatFraction (t mod second).

(** [time.Date]: the local reading is looked up as if it were an instant, and once more if the instant it gives
    lies outside the period found. *)
Definition Date (local nsec : Z) : Z :=
  let '(offset, start, stop) := lookup_zone local in
  let unix :=
    if negb (offset =? 0) then
      let utc := local - offset in
      local - (if (utc <? start) || (stop <=? utc) then offsetAt utc else offset)
    else local in
  unix * second + nsec.

End zone.

Definition digit_value (a : ascii) : Z := byte a - 48.

(** [getnum] with two digits, and with one or two. *)
Definition getnum2 (s : string) : option (Z * string) :=
  match s with
  | String a (String b r) => if is_digit a && is_digit b then Some (10 * digit_value a + digit_value b, r) else None
  | _ => None
  end.

Definition getnum (s : string) : option (Z * string) :=
  match s with
  | String a r => if is_digit a then match getnum2 s with Some x => Some x | None => Some (digit_value a, r) end else None
  | EmptyString => None
  end.

(** The four digits of the year. *)
Definition getyear (s : string) : option (Z * string) :=
  match getnum2 s with
  | Some (hi, r) => match getnum2 r with Some (lo, r) => Some (100 * hi + lo, r) | None => None end
  | None => None
  end.

Definition skip (c : ascii) (s : string) : option string :=
  match s with String a r => if Ascii.eqb a c then Some r else None | EmptyString => None end.

(** The digits at the front of a text. *)
Fixpoint span_digits (s : string) : list Z * string :=
  match s with
  | String a r => if is_digit a then let '(l, r) := span_digits r in (digit_value a :: l, r) else ([], s)
  | EmptyString => ([], "")
  end.

Definition number (l : list Z) : Z := fold_left (fun n d => 10 * n + d) l 0.

(** [parseNanoseconds]: at most nine digits count. *)
Definition nanoseconds (l : list Z) : Z := let l := take 9 l in number l * 10 ^ (9 - Z.of_nat (length l)).

Definition parseFraction (s : string) : Z * string :=
  match s with
  | String a r =>
      if Ascii.eqb a "." || Ascii.eqb a "," then match span_digits r with ([], _) => (0, s) | (l, r) => (nanoseconds l, r) end
      else (0, s)
  | EmptyString => (0, s)
  end.

Section parse.
Context `{Zone, JsonStrings}.

(** [time.Parse] up to the resolution of the zone: local seconds and nanoseconds. *)
Definition parseLocal (s : string) : option (Z * Z) :=
  '(y, s) ← getyear s; s ← skip "-" s;
  '(mo, s) ← getnum2 s; guard (1 <= mo <= 12);; s ← skip "-" s;
  '(d, s) ← getnum2 s; s ← skip "T" s;
  '(h, s) ← getnum s; guard (h < 24);; s ← skip ":" s;
  '(mi, s) ← getnum2 s; guard (mi < 60);; s ← skip ":" s;
  '(sec, s) ← getnum2 s; guard (sec < 60);;
  let '(nsec, s) := parseFraction s in
  guard (s = "");; guard (1 <= d <= daysIn y mo);;
  Some (dayOfDate y mo d * 86400 + h * 3600 + mi * 60 + sec, nsec).

Definition ParseInLocation (s : string) : res Z :=
  match parseLocal s with
  | Some (local, nsec) => Ok (Date local nsec)
  | None => Err (ParseError s)
  end.

(** ** The methods *)

(** The values a database driver hands to [Scan]. *)
Inductive driverValue := DriverTime (t : Z) | DriverNil | DriverOther (typ : string).

Definition Scan (v : driverValue) : res Z :=
  match v with
  | DriverTime t => Ok t
  | DriverNil => Ok zero_time
  | DriverOther typ => Err (OtherErr ("cannot scan " +:+ typ +:+ " into DateTime") None None)
  end.

Definition Value (t : Z) : driverValue := DriverTime t.

Definition MarshalJSON (t : Z) : string := if IsZero t then "null" else json_quote (Format t).

Definition UnmarshalJSON (b : string) : res Z :=
  if String.eqb b "null" then Ok zero_time
  else match json_unquote b with Err e => Err e | Ok s => ParseInLocation s end.

End parse.

(** ** Days and dates are inverse *)

Lemma cycles_leap day :
  let '(n400, n100, n4, n1, yday) := cycles day in
  yday = 365 -> isLeap (400 * n400 + 100 * n100 + 4 * n4 + n1 + 1) = true.
Proof.
  pose proof (cycles_spec day) as Hs. unfold cycles in *. set (z := day + 719162) in *.
  pose proof (Z.mod_pos_bound z 146097 ltac:(lia)). set (n400 := z / 146097) in *. set (r := z mod 146097) in *.
  set (n100 := r / 36524 - r / 36524 / 4) in *. set (r1 := r - 36524 * n100) in *.
  pose proof (Z.div_mod r1 1461 ltac:(lia)) as E1. set (n4 := r1 / 1461) in *. set (r2 := r1 mod 1461) in *.
  set (n1 := r2 / 365 - r2 / 365 / 4) in *. intros Hy.
  assert (r2 = 1460 /\ n1 = 3) as [Hr2 Hn1].
  { assert (0 <= r2 < 1461) by (apply Z.mod_pos_bound; lia). clearbody r2. unfold n1 in *.
    Z.to_euclidean_division_equations. lia. }
  assert (n4 = 24 -> n100 = 3) as H24.
  { intros H4. rewrite H4, Hr2 in E1. unfold r1, n100 in *. clear -E1 H. Z.to_euclidean_division_equations. lia. }
  unfold isLeap. destruct Hs as (_ & Hb & Hc & _ & _). clearbody n400 n100 n4 n1.
  destruct (Z.eqb_spec ((400 * n400 + 100 * n100 + 4 * n4 + n1 + 1) mod 4) 0); cbn; [|Z.to_euclidean_division_equations; lia].
  destruct (Z.eqb_spec ((400 * n400 + 100 * n100 + 4 * n4 + n1 + 1) mod 100) 0); cbn; [|done].
  apply Z.eqb_eq. assert (n4 = 24) by (Z.to_euclidean_division_equations; lia). rewrite H24 by done. Z.to_euclidean_division_equations. lia.
Qed.

(** The days of a year, checked one by one. *)
Lemma monthDay_back leap yday : 0 <= yday <= 365 -> (yday = 365 -> leap = true) ->
  let '(m, d) := monthDay 1 yday (monthLengths leap) in
  1 <= m <= 12 /\ 1 <= d <= nth (Z.to_nat (m - 1)) (monthLengths leap) 0 /\ daysBefore leap m + (d - 1) = yday.
Proof.
  intros Hy Hl.
  assert (forallb (fun yday => let '(m, d) := monthDay 1 yday (monthLengths leap) in
    (yday =? 365) && negb leap || (1 <=? m) && (m <=? 12) && (1 <=? d) && (d <=? nth (Z.to_nat (m - 1)) (monthLengths leap) 0)
      && (daysBefore leap m + (d - 1) =? yday)) yearDays = true) as Hc by (destruct leap; vm_compute; reflexivity).
  rewrite forallb_forall in Hc. specialize (Hc yday (yearDays_spec yday Hy)).
  destruct (monthDay 1 yday (monthLengths leap)) as [m d]. apply orb_prop in Hc as [Hc|Hc]; [|lia].
  apply andb_prop in Hc as [H1 H2]. rewrite Hl in H2 by lia. done.
Qed.

(** The civil date of a day is one, and its day is that day. *)
Theorem dayOfDate_inverse (day : Z) :
  let '(y, m, d) := dateOfDay day in
  1 <= m <= 12 /\ 1 <= d <= daysIn y m /\ dayOfDate y m d = day.
Proof.
  unfold dateOfDay. pose proof (cycles_spec day) as Hs. pose proof (cycles_leap day) as Hl.
  destruct (cycles day) as [[[[a b] c] e] yday]. destruct Hs as (Hd & Hb & Hc & He & Hy).
  set (y := 400 * a + 100 * b + 4 * c + e + 1) in *.
  pose proof (monthDay_back (isLeap y) yday Hy Hl) as Hm. destruct (monthDay 1 yday (monthLengths (isLeap y))) as [m d].
  destruct Hm as (Hm & Hdd & Hyd). split; [done|]. split; [done|]. unfold dayOfDate. rewrite <- Hyd in Hd.
  assert ((y - 1) / 4 = 100 * a + 25 * b + c /\ (y - 1) / 100 = 4 * a + b /\ (y - 1) / 400 = a) as (-> & -> & ->).
  { unfold y. clear -Hb Hc He. Z.to_euclidean_division_equations. lia. }
  lia.
Qed.

(** ** Numbers read back *)

Lemma forall_below (p : Z -> bool) (n : nat) : forallb p (Z.of_nat <$> seq 0 n) = true -> forall z, 0 <= z < Z.of_nat n -> p z = true.
Proof.
  rewrite forallb_forall. intros Hp z Hz. apply Hp, list_elem_of_In, list_elem_of_fmap.
  exists (Z.to_nat z). split; [lia|]. apply elem_of_seq. lia.
Qed.

Lemma pad2_digits n : 0 <= n < 100 -> pad2 n = String (digit_char (n / 10)) (String (digit_char (n mod 10)) "").
Proof.
  intros Hn. apply String.eqb_eq. revert n Hn.
  apply (forall_below (fun n => String.eqb (pad2 n) (String (digit_char (n / 10)) (String (digit_char (n mod 10)) ""))) 100).
  vm_compute. reflexivity.
Qed.

Lemma pad2_app n r : 0 <= n < 100 -> pad2 n +:+ r = String (digit_char (n / 10)) (String (digit_char (n mod 10)) r).
Proof. intros Hn. by rewrite pad2_digits. Qed.

Lemma pad4_halves n : 0 <= n < 10000 -> pad4 n = pad2 (n / 100) +:+ pad2 (n mod 100).
Proof.
  intros Hn. apply String.eqb_eq. revert n Hn.
  apply (forall_below (fun n => String.eqb (pad4 n) (pad2 (n / 100) +:+ pad2 (n mod 100))) (100 * 100)). vm_compute. reflexivity.
Qed.

Lemma getnum2_pad2 n r : 0 <= n < 100 -> getnum2 (pad2 n +:+ r) = Some (n, r).
Proof.
  intros Hn. rewrite pad2_app by done. unfold getnum2, digit_value.
  rewrite !is_digit_char, !byte_digit_char by (Z.to_euclidean_division_equations; lia). cbn [andb].
  do 2 f_equal. Z.to_euclidean_division_equations; lia.
Qed.

Lemma getnum_pad2 n r : 0 <= n < 100 -> getnum (pad2 n +:+ r) = Some (n, r).
Proof.
  intros Hn. pose proof (getnum2_pad2 n r Hn) as Hg. rewrite pad2_app in * by done.
  unfold getnum. rewrite is_digit_char by (Z.to_euclidean_division_equations; lia). by rewrite Hg.
Qed.

Lemma getyear_pad4 n r : 0 <= n < 10000 -> getyear (pad4 n +:+ r) = Some (n, r).
Proof.
  intros Hn. unfold getyear. rewrite pad4_halves, str_app_assoc by done.
  rewrite !getnum2_pad2 by (Z.to_euclidean_division_equations; lia). do 2 f_equal. Z.to_euclidean_division_equations; lia.
Qed.

Definition digits_ok (l : list Z) : Prop := Forall (fun d => 0 <= d < 10) l.

Lemma fixed_digits_spec w n :
  digits_ok (fixed_digits w n) /\ length (fixed_digits w n) = w /\ number (fixed_digits w n) = n mod 10 ^ Z.of_nat w.
Proof.
  revert n. induction w as [|w IH]; intros n; cbn [fixed_digits]; [split; [constructor|split; [done|]]; cbn; by rewrite Z.mod_1_r|].
  destruct (IH (n / 10)) as (Hd & Hl & Hv). split; [|split].
  - apply Forall_app. split; [done|]. constructor; [|constructor]. apply Z.mod_pos_bound. lia.
  - rewrite length_app, Hl. cbn. lia.
  - unfold number in *. rewrite fold_left_app, Hv. cbn [fold_left].
    rewrite Nat2Z.inj_succ, Z.pow_succ_r, (Z.rem_mul_r n 10) by lia. lia.
Qed.

Lemma number_zeros l k : number (l ++ repeat 0 k) = number l * 10 ^ Z.of_nat k.
Proof.
  unfold number. rewrite fold_left_app. generalize (fold_left (fun n d => 10 * n + d) l 0). clear l.
  induction k as [|k IH]; intros a; cbn [repeat fold_left]; [cbn; lia|]. rewrite IH, Nat2Z.inj_succ, Z.pow_succ_r by lia. lia.
Qed.

(** Trimming drops zeros only. *)
Lemma trim_zeros_spec l : exists k, l = trim_zeros l ++ repeat 0 k.
Proof.
  unfold trim_zeros. destruct (drop_while_suffix (Z.eqb 0) (rev l)) as (z & Hl & Hz). exists (length z).
  apply (f_equal (@rev Z)) in Hl. rewrite rev_involutive, rev_app_distr in Hl. rewrite Hl at 1. f_equal.
  clear Hl. induction Hz as [|x z Hx _ IH]; [done|]. cbn [rev length]. apply Z.eqb_eq in Hx as <-. rewrite IH, <- repeat_cons. done.
Qed.

Lemma span_render l : digits_ok l -> span_digits (render l) = (l, "").
Proof.
  intros Hl. induction Hl as [|d l Hd _ IH]; [done|]. cbn [render foldr span_digits]. rewrite is_digit_char by done.
  unfold render in IH. rewrite IH. unfold digit_value. rewrite byte_digit_char by done. do 2 f_equal. lia.
Qed.

Lemma fraction_roundtrip n : 0 <= n < second -> parseFraction (formatFraction n) = (n, "").
Proof.
  intros Hn. destruct (fixed_digits_spec 9 n) as (Hd & Hl & Hv). rewrite Z.mod_small in Hv by (change second with (10 ^ 9) in Hn; lia).
  unfold formatFraction. destruct (trim_zeros_spec (fixed_digits 9 n)) as [k Hk]. rewrite Hk in Hd, Hl, Hv.
  apply Forall_app in Hd as [Hd _]. rewrite length_app, repeat_length in Hl. rewrite number_zeros in Hv.
  destruct (trim_zeros (fixed_digits 9 n)) as [|x l]; [by rewrite <- Hv|].
   remember (x :: l) as ds eqn:E. change (parseFraction ("." +:+ render ds)) with
    (match span_digits (render ds) with ([], _) => (0, "." +:+ render ds) | (l, r) => (nanoseconds l, r) end).
  rewrite span_render, E, <- E by done. f_equal. unfold nanoseconds.
  rewrite take_ge by lia. by replace (9 - Z.of_nat (length ds)) with (Z.of_nat k) by lia.
Qed.

Lemma skip_app c r : skip c (String c "" +:+ r) = Some r.
Proof. change (String c "" +:+ r) with (String c r). cbn. by rewrite Ascii.eqb_refl. Qed.

Lemma daysIn_bound y m : daysIn y m <= 31.
Proof.
  unfold daysIn. destruct (nth_in_or_default (Z.to_nat (m - 1)) (monthLengths (isLeap y)) 0) as [Hin| ->]; [|done].
  revert Hin. generalize (nth (Z.to_nat (m - 1)) (monthLengths (isLeap y)) 0). intros n.
  destruct (isLeap y); cbn; intros Hn; repeat destruct Hn as [<-|Hn]; try lia; done.
Qed.

(** ** Out and back *)

(** The characters of a string literal that stand for themselves. *)
Definition json_char (a : ascii) : bool :=
  in_range 32 126 (byte a) && negb (Ascii.eqb a (ascii_of_Z 34) || Ascii.eqb a "\" || Ascii.eqb a "<" || Ascii.eqb a ">" || Ascii.eqb a "&").

Class JsonStringsLaws `{JsonStrings} := {
  json_plain : forall s, str_forall json_char s = true -> json_unquote (json_quote s) = Ok s;
  json_string : forall s, json_quote s <> "null" }.

Section roundtrip.
Context `{Zone, JsonStringsLaws}.

(** The civil year of an instant in the zone. *)
Definition yearAt (t : Z) : Z := (dateOfDay ((secondOf t + offsetAt (secondOf t)) / 86400)).1.1.

#[local] Ltac read_fields :=
  repeat (cbn [mbind option_bind]; first [rewrite skip_app | rewrite getnum2_pad2 by lia | rewrite getnum_pad2 by lia
                                         | rewrite option_guard_True by (lia || done)]).

Lemma parseLocal_Format t : 0 <= yearAt t <= 9999 ->
  parseLocal (Format t) = Some (secondOf t + offsetAt (secondOf t), t mod second).
Proof.
  unfold yearAt, Format, formatDate. set (abs := secondOf t + offsetAt (secondOf t)). clearbody abs.
  pose proof (dayOfDate_inverse (abs / 86400)) as Hday. destruct (dateOfDay (abs / 86400)) as [[y m] d]. cbn [fst].
  destruct Hday as (Hm & Hd & Hday). intros Hy.
  pose proof (Z.mod_pos_bound abs 86400 ltac:(lia)) as Hsod. pose proof (Z.div_mod abs 86400 ltac:(lia)) as Habs.
  set (sod := abs mod 86400) in *. clearbody sod.
  pose proof (daysIn_bound y m) as Hd31.
  rewrite !str_app_assoc. unfold parseLocal.
  assert (0 <= sod / 3600 < 24 /\ 0 <= sod / 60 mod 60 < 60 /\ 0 <= sod mod 60 < 60
    /\ sod = sod / 3600 * 3600 + sod / 60 mod 60 * 60 + sod mod 60) as (Hh & Hmi & Hs & Hsum)
    by (clear -Hsod; Z.to_euclidean_division_equations; lia).
  rewrite getyear_pad4 by lia. read_fields. rewrite fraction_roundtrip by (apply Z.mod_pos_bound; done). read_fields.
  do 2 f_equal. lia.
Qed.

Lemma render_chars l : digits_ok l -> str_forall json_char (render l) = true.
Proof.
  intros Hl. induction Hl as [|d l Hd _ IH]; [done|]. cbn [render foldr str_forall]. unfold render in IH. rewrite IH, andb_true_r.
  revert d Hd. apply (forall_below (fun d => json_char (digit_char d)) 10). vm_compute. reflexivity.
Qed.

Lemma pad2_chars n : 0 <= n < 100 -> str_forall json_char (pad2 n) = true.
Proof. revert n. apply (forall_below (fun n => str_forall json_char (pad2 n)) 100). vm_compute. reflexivity. Qed.

Lemma fraction_chars n : str_forall json_char (formatFraction n) = true.
Proof.
  unfold formatFraction. destruct (fixed_digits_spec 9 n) as (Hd & _ & _). destruct (trim_zeros_spec (fixed_digits 9 n)) as [k Hk].
  rewrite Hk in Hd. apply Forall_app in Hd as [Hd _]. destruct (trim_zeros _) as [|x l]; [done|]. by rewrite str_forall_app, render_chars.
Qed.

Lemma Format_chars t : 0 <= yearAt t <= 9999 -> str_forall json_char (Format t) = true.
Proof.
  unfold yearAt, Format, formatDate. set (abs := secondOf t + offsetAt (secondOf t)). clearbody abs.
  pose proof (dayOfDate_inverse (abs / 86400)) as Hday. destruct (dateOfDay (abs / 86400)) as [[y m] d]. cbn [fst].
  destruct Hday as (Hm & Hd & _). intros Hy. pose proof (daysIn_bound y m) as Hd31.
  pose proof (Z.mod_pos_bound abs 86400 ltac:(lia)) as Hsod. set (sod := abs mod 86400) in *. clearbody sod.
  rewrite pad4_halves by lia. rewrite !str_forall_app, fraction_chars.
  rewrite !pad2_chars by (clear -Hsod Hm Hd Hd31 Hy; Z.to_euclidean_division_equations; lia). done.
Qed.

(** C35. A timestamp survives JSON. What [MarshalJSON] writes for an instant of the years 0 to 9999, [UnmarshalJSON]
    reads back in the same zone as the same instant, to the nanosecond, unless the clock of the zone was changed
    between the instant and its local reading; the zero time, written as null, always is. *)
Theorem datetime_roundtrip (t offset start stop : Z) :
  lookup_zone (secondOf t) = (offset, start, stop) ->
  (forall sec, start <= sec < stop -> lookup_zone sec = (offset, start, stop)) ->
  start <= secondOf t < stop -> start <= secondOf t + offset < stop ->
  0 <= yearAt t <= 9999 ->
  UnmarshalJSON (MarshalJSON t) = Ok t.
Proof.
  intros El Hz Ht Hlocal Hy.
  unfold MarshalJSON, IsZero. destruct (Z.eqb_spec t zero_time) as [->|_]; [done|]. unfold UnmarshalJSON.
  destruct (String.eqb_spec (json_quote (Format t)) "null") as [E|_]; [by apply json_string in E|].
  rewrite json_plain by (by apply Format_chars). unfold ParseInLocation. rewrite parseLocal_Format by done.
  unfold Date, offsetAt. rewrite El. cbn [fst]. rewrite (Hz (secondOf t + offset)) by done.
  f_equal. pose proof (Z.div_mod t second ltac:(done)) as Hdm. fold (secondOf t) in Hdm.
  destruct (Z.eqb_spec offset 0) as [->|_]; cbn [negb]; [lia|].
  replace (secondOf t + offset - offset) with (secondOf t) by lia.
  destruct (Z.ltb_spec (secondOf t) start); [lia|]. destruct (Z.leb_spec stop (secondOf t)); [lia|]. cbn [orb]. lia.
Qed.

End roundtrip.

(** ** A morning in Shanghai *)

#[local] Instance shanghai : Zone := { lookup_zone := fun _ => (28800, - 2 ^ 62, 2 ^ 62) }.

Definition quotes : string := char 34.

#[local] Instance plainStrings : JsonStrings := {
  json_quote := fun s => quotes +:+ s +:+ quotes;
  json_unquote := fun b => match b with
                           | String _ r => Ok (str_take (String.length r - 1) r)
                           | EmptyString => Err (OtherErr "unexpected end of JSON input" None None)
                           end;
  ParseError := fun s => OtherErr ("parsing time " +:+ s) None None }.

Lemma take_app s t : str_take (String.length s) (s +:+ t) = s.
Proof. induction s as [|a s IH]; [by destruct t|]. change (String a s +:+ t) with (String a (s +:+ t)). cbn. by rewrite IH. Qed.

#[local] Instance plainStrings_laws : JsonStringsLaws.
Proof.
  split; [|by intros s].
  intros s _. unfold json_unquote, json_quote, plainStrings. change (quotes +:+ ?x) with (String (ascii_of_Z 34) x).
  f_equal. rewrite str_app_length. change (String.length quotes) with 1%nat. rewrite Nat.add_sub. apply take_app.
Qed.

Definition morning : Z := 1714528800 * second + 123 * millisecond.

Example morning_text : Format morning = "2024-05-01T10:00:00.123".
Proof. vm_compute. reflexivity. Qed.

Lemma datetime_roundtrip_witness :
  MarshalJSON morning = quotes +:+ "2024-05-01T10:00:00.123" +:+ quotes /\ UnmarshalJSON (MarshalJSON morning) = Ok morning.
Proof.
  split; [vm_compute; reflexivity|].
  apply (datetime_roundtrip morning 28800 (- 2 ^ 62) (2 ^ 62)); [done|by intros sec _|vm_compute; split; congruence..].
Defined.
