(* ===== verification/TaskEvents.v ===== *)
(** * The SSE hub (internal/taskevents/hub.go)

    The hub is its map of subscriber sets and the subscriptions with their channel buffers; a
    subscription is named by its index.  Each operation is one atomic transformation; a publication is
    delivered subscriber by subscriber, as the source does outside its mutex.  The JSON form of the
    Pub/Sub payload is the class [EnvelopeCodec]. *)

From S2P Require Import Prelude GoStrings Proc Errors Model GoContext TaskKeys.

Local Open Scope string_scope.
Local Open Scope list_scope.
Local Open Scope Z_scope.

Definition TypeAnalysis : string := "analysis".
Definition TypeTranscription : string := "transcription".
Definition RedisChannel : string := "dovideo:task-events".
Definition subscriberBuffer : nat := 64.

Record Envelope := mkEnvelope { env_Key : string; env_Event : TaskEvent }.

(** [common.MarshalNoEscape] and [json.Unmarshal] of an envelope. *)
Class EnvelopeCodec := {
  marshalEnvelope : Envelope -> res string;
  unmarshalEnvelope : string -> res Envelope }.

Section key.
Context `{Sha256}.

Definition EventKey (mediaID : Z) (typ goal : string) (mode : AnalysisMode) : res string :=
  let with_suffix suffix := Ok (typ +:+ ":" +:+ FormatInt mediaID +:+ ":" +:+ suffix) in
  if String.eqb typ TypeAnalysis
  then match GoalDigest goal mode with Err e => Err e | Ok d => with_suffix d end
  else with_suffix "default".

End key.

(** ** The hub *)

(** [sub_gone] is the [once] of [Close]; [sub_got] is what the stream has read from the channel. *)
Record Subscription := mkSub {
  sub_key : string; sub_ch : list TaskEvent; sub_gone : bool; sub_got : list TaskEvent }.

Record Hub := mkHub { hub_subs : gmap string (gset nat); hub_all : list Subscription }.

Definition NewHub : Hub := mkHub ∅ [].

Definition remove (h : Hub) (key : string) (sub : nat) : Hub :=
  match hub_subs h !! key with
  | Some s =>
      let s' := s ∖ {[sub]} in
      mkHub (if decide (s' = ∅) then delete key (hub_subs h) else <[key := s']> (hub_subs h)) (hub_all h)
  | None => h
  end.

(** [Subscription.Close]. *)
Definition Close (h : Hub) (sub : nat) : Hub :=
  match hub_all h !! sub with
  | Some s =>
      if sub_gone s then h
      else
        let h := remove h (sub_key s) sub in
        mkHub (hub_subs h) (<[sub := mkSub (sub_key s) (sub_ch s) true (sub_got s)]> (hub_all h))
  | None => h
  end.

(** The registration of [Subscribe]; the new subscription is the last one. *)
Definition register (h : Hub) (key : string) : Hub :=
  let id := length (hub_all h) in
  let s := match hub_subs h !! key with Some s => s | None => ∅ end in
  mkHub (<[key := s ∪ {[id]}]> (hub_subs h)) (hub_all h ++ [mkSub key [] false []]).

(** The channel send: [None] when the buffer is full. *)
Definition send (s : Subscription) (ev : TaskEvent) : option Subscription :=
  if Nat.ltb (length (sub_ch s)) subscriberBuffer
  then Some (mkSub (sub_key s) (sub_ch s ++ [ev]) (sub_gone s) (sub_got s)) else None.

Definition Subscribe `{Sha256} (h : Hub) (mediaID : Z) (typ goal : string) (mode : AnalysisMode)
    (initial : TaskStatus) (stage : TaskStage) : res (nat * Hub) :=
  match EventKey mediaID typ goal mode with
  | Err e => Err e
  | Ok key =>
      let h := register h key in
      let id := (length (hub_all h) - 1)%nat in
      Ok (id, mkHub (hub_subs h)
                (alter (fun s => match send s (EventOf initial stage) with Some s => s | None => s end)
                   id (hub_all h)))
  end.

(** The select of [publishLocal] for one target. *)
Definition deliver (ev : TaskEvent) (h : Hub) (sub : nat) : Hub :=
  match hub_all h !! sub with
  | Some s =>
      match send s ev with
      | Some s' => mkHub (hub_subs h) (<[sub := s']> (hub_all h))
      | None => Close h sub
      end
  | None => h
  end.

Definition publishLocal (h : Hub) (key : string) (ev : TaskEvent) : Hub :=
  match hub_subs h !! key with
  | Some s => fold_left (deliver ev) (elements s) h
  | None => h
  end.

Definition HandleMessage `{EnvelopeCodec} (h : Hub) (payload : string) : Hub :=
  match unmarshalEnvelope payload with
  | Err _ => h
  | Ok env => publishLocal h (env_Key env) (env_Event env)
  end.

(** The stream reads its channel. *)
Definition receive (h : Hub) (sub : nat) : Hub :=
  match hub_all h !! sub with
  | Some (mkSub key (ev :: rest) gone got) =>
      mkHub (hub_subs h) (<[sub := mkSub key rest gone (got ++ [ev])]> (hub_all h))
  | _ => h
  end.

(** ** Publishing *)

Inductive HubE : Type -> Type :=
| RedisPublish (ctx : Context) (channel payload : string) : HubE (res Z) (* the number of receivers *)
| PublishLocal (key : string) (ev : TaskEvent) : HubE unit.

Definition publish `{EnvelopeCodec} (ctx : Context) (key : string) (ev : TaskEvent) : proc HubE unit :=
  match marshalEnvelope (mkEnvelope key ev) with
  | Ok payload =>
      Do (RedisPublish ctx RedisChannel payload) (fun r =>
      match r with
      | Ok receivers => if 0 <? receivers then Ret tt else Do (PublishLocal key ev) (fun _ => Ret tt)
      | Err _ => Do (PublishLocal key ev) (fun _ => Ret tt)
      end)
  | Err _ => Do (PublishLocal key ev) (fun _ => Ret tt)
  end.

Definition PublishAnalysis `{Sha256, EnvelopeCodec} (ctx : Context) (mediaID : Z) (goal : string)
    (mode : AnalysisMode) (status : TaskStatus) (stage : TaskStage) : proc HubE (res unit) :=
  match EventKey mediaID TypeAnalysis goal mode with
  | Err e => Ret (Err e)
  | Ok key => bind (publish ctx key (EventOf status stage)) (fun _ => Ret (Ok tt))
  end.

Definition PublishTranscription `{Sha256, EnvelopeCodec} (ctx : Context) (mediaID : Z)
    (status : TaskStatus) (stage : TaskStage) : proc HubE unit :=
  let key := match EventKey mediaID TypeTranscription "" ModeGeneral with Ok k => k | Err _ => "" end in
  publish ctx key (EventOf status stage).

(** ** Invariant *)

(** A subscription is in the set of its key exactly while it is not closed, sets are never empty, and
    no buffer exceeds the channel's capacity. *)
Record hub_ok (h : Hub) : Prop := {
  ok_registered : forall key i,
    (exists s, hub_subs h !! key = Some s /\ i ∈ s)
    <-> exists sub, hub_all h !! i = Some sub /\ sub_key sub = key /\ sub_gone sub = false;
  ok_nonempty : forall key s, hub_subs h !! key = Some s -> s <> ∅;
  ok_buffer : forall i sub, hub_all h !! i = Some sub -> (length (sub_ch sub) <= subscriberBuffer)%nat }.

Lemma NewHub_ok : hub_ok NewHub.
Proof.
  split; simpl.
  - intros key i. split; [intros (s & Hs & _); by rewrite lookup_empty in Hs|by intros (s & ? & _)].
  - intros key s Hs. by rewrite lookup_empty in Hs.
  - done.
Qed.

(** Changing one subscription's buffer only. *)
Lemma hub_ok_update h i sub sub' :
  hub_ok h -> hub_all h !! i = Some sub -> sub_key sub' = sub_key sub -> sub_gone sub' = sub_gone sub ->
  (length (sub_ch sub') <= subscriberBuffer)%nat ->
  hub_ok (mkHub (hub_subs h) (<[i := sub']> (hub_all h))).
Proof.
  intros [H1 H2 H3] Hi Hk Hg Hl. pose proof (lookup_lt_Some _ _ _ Hi) as Hlt. split; simpl; [|done|].
  - intros key j. rewrite H1. destruct (decide (i = j)) as [<-|Hne].
    + rewrite list_lookup_insert_eq by done. split; intros (s & Hs & Hks & Hgs); [exists sub'|exists sub];
        (split; [done|]); simplify_eq; split; congruence.
    + by rewrite list_lookup_insert_ne.
  - intros j s [(<- & <- & _)|[_ Hj]]%list_lookup_insert_Some; [done|by eapply H3].
Qed.

Lemma Close_ok h i : hub_ok h -> hub_ok (Close h i).
Proof.
  intros Hok. unfold Close. destruct (hub_all h !! i) as [sub|] eqn:Hi; [|done].
  destruct (sub_gone sub) eqn:Hg; [done|]. destruct Hok as [H1 H2 H3].
  assert (exists s, hub_subs h !! sub_key sub = Some s /\ i ∈ s) as (s & Hs & Hin) by (apply H1; by exists sub).
  unfold remove. rewrite Hs. cbn [hub_all hub_subs]. pose proof (lookup_lt_Some _ _ _ Hi) as Hlt.
  set (subs' := if decide (s ∖ {[i]} = ∅) then delete (sub_key sub) (hub_subs h) else _).
  assert (forall key j, (exists s, subs' !! key = Some s /\ j ∈ s)
    <-> j <> i /\ exists s, hub_subs h !! key = Some s /\ j ∈ s) as Hsubs.
  { intros key j. subst subs'. destruct (decide (key = sub_key sub)) as [->|Hne].
    - destruct (decide (s ∖ {[i]} = ∅)) as [He|He].
      + rewrite lookup_delete_eq. split; [by intros (? & ? & _)|]. intros (Hji & s' & Hs' & Hj).
        simplify_eq. assert (j ∈ s ∖ {[i]}) as Hx by (rewrite elem_of_difference, elem_of_singleton; auto).
        rewrite He in Hx. by apply elem_of_empty in Hx.
      + rewrite lookup_insert_eq. split; [intros (s' & [= <-] & Hj)|intros (Hji & s' & Hs' & Hj)]; simplify_eq.
        * rewrite elem_of_difference, elem_of_singleton in Hj. destruct Hj. eauto.
        * eexists. split; [done|]. rewrite elem_of_difference, elem_of_singleton. auto.
    - assert (forall s', (if decide (s ∖ {[i]} = ∅) then delete (sub_key sub) (hub_subs h)
                else <[sub_key sub := s ∖ {[i]}]> (hub_subs h)) !! key = Some s' <-> hub_subs h !! key = Some s') as Hk.
      { intros s'. destruct (decide _); [rewrite lookup_delete_ne|rewrite lookup_insert_ne]; done. }
      setoid_rewrite Hk. split; [|tauto]. intros (s' & Hs' & Hj). split; [|eauto]. intros ->.
      destruct (proj1 (H1 key i)) as (sub' & Hi' & Hk' & _); [eauto|]. simplify_eq. }
  split; simpl.
  - intros key j. rewrite Hsubs, H1. destruct (decide (i = j)) as [<-|Hne].
    + rewrite list_lookup_insert_eq by done. split; [tauto|]. by intros (? & [= <-] & _ & ?).
    + rewrite list_lookup_insert_ne by done. split; [tauto|]. intros (? & ? & ?). split; [congruence|eauto].
  - intros key s' Hs'. subst subs'. destruct (decide (s ∖ {[i]} = ∅)) as [He|He].
    + apply lookup_delete_Some in Hs' as [_ Hs']. by eapply H2.
    + apply lookup_insert_Some in Hs' as [[_ <-]|[_ Hs']]; [done|by eapply H2].
  - intros j s' [(<- & <- & _)|[_ Hj]]%list_lookup_insert_Some; [exact (H3 _ _ Hi)|by eapply H3].
Qed.

Lemma register_ok h key : hub_ok h -> hub_ok (register h key).
Proof.
  intros [H1 H2 H3]. unfold register. set (s := match hub_subs h !! key with Some s => s | None => ∅ end).
  assert (forall j, j ∈ s <-> exists s', hub_subs h !! key = Some s' /\ j ∈ s') as Hs.
  { intros j. subst s. destruct (hub_subs h !! key) as [s'|].
    - split; [eauto|]. by intros (? & [= <-] & ?).
    - split; [by intros ?%elem_of_empty|by intros (? & ? & _)]. }
  split; simpl.
  - intros k j. destruct (decide (k = key)) as [->|Hne].
    + rewrite lookup_insert_eq. split.
      * intros (s' & [= <-] & Hj). apply elem_of_union in Hj as [Hj|Hj%elem_of_singleton].
        -- apply Hs, H1 in Hj as (sub & Hj & Hk). exists sub. split; [by apply lookup_app_l_Some|done].
        -- subst j. eexists. by rewrite lookup_app_r, Nat.sub_diag.
      * intros (sub & Hj & Hk & Hg). eexists. split; [done|]. apply elem_of_union.
        apply lookup_app_Some in Hj as [Hj|[Hge Hj]]; [left; apply Hs, H1; eauto|right].
        apply list_lookup_singleton_Some in Hj as [Hz _]. apply elem_of_singleton. lia.
    + rewrite lookup_insert_ne, H1 by done. split; intros (sub & Hj & Hk & Hg); exists sub.
      * split; [by apply lookup_app_l_Some|done].
      * apply lookup_app_Some in Hj as [Hj|[_ Hj]]; [done|].
        apply list_lookup_singleton_Some in Hj as [_ <-]. simpl in Hk. congruence.
  - intros k s' [[_ <-]|[_ Hk]]%lookup_insert_Some; [|by eapply H2].
    intros He. assert (length (hub_all h) ∈ s ∪ {[length (hub_all h)]}) as Hin
      by (apply elem_of_union; right; by apply elem_of_singleton).
    rewrite He in Hin. by apply elem_of_empty in Hin.
  - intros j sub [Hj|[_ Hj]]%lookup_app_Some; [by eapply H3|].
    apply list_lookup_singleton_Some in Hj as [_ <-]. simpl. lia.
Qed.

Lemma send_spec s ev :
  send s ev = if Nat.ltb (length (sub_ch s)) subscriberBuffer
              then Some (mkSub (sub_key s) (sub_ch s ++ [ev]) (sub_gone s) (sub_got s)) else None.
Proof. done. Qed.

Lemma send_some s ev s' : send s ev = Some s' ->
  s' = mkSub (sub_key s) (sub_ch s ++ [ev]) (sub_gone s) (sub_got s)
  /\ (length (sub_ch s') <= subscriberBuffer)%nat.
Proof.
  rewrite send_spec. destruct (Nat.ltb_spec (length (sub_ch s)) subscriberBuffer); [|done].
  intros [= <-]. split; [done|]. simpl. rewrite length_app. simpl. lia.
Qed.

Lemma deliver_ok ev h i : hub_ok h -> hub_ok (deliver ev h i).
Proof.
  intros Hok. unfold deliver. destruct (hub_all h !! i) as [s|] eqn:Hi; [|done].
  destruct (send s ev) as [s'|] eqn:Es; [|by apply Close_ok].
  destruct (send_some _ _ _ Es) as [-> Hl]. by eapply hub_ok_update.
Qed.

Lemma publishLocal_ok h key ev : hub_ok h -> hub_ok (publishLocal h key ev).
Proof.
  intros Hok. unfold publishLocal. destruct (hub_subs h !! key) as [s|]; [|done].
  revert h Hok. induction (elements s) as [|i l IH]; intros h Hok; simpl; [done|]. by apply IH, deliver_ok.
Qed.

Lemma receive_ok h i : hub_ok h -> hub_ok (receive h i).
Proof.
  intros Hok. unfold receive. destruct (hub_all h !! i) as [[key [|ev rest] gone got]|] eqn:Hi; try done.
  eapply hub_ok_update; [done|exact Hi|done|done|]. pose proof (ok_buffer _ Hok _ _ Hi). simpl in *. lia.
Qed.

(** ** Sequences of operations *)

(** Registration, the blocking send of the initial event, publication (local or through Redis), a read
    by the stream, and [Close]. *)
Inductive op :=
| ORegister (key : string) | OInitial (i : nat) (ev : TaskEvent) | OPublish (key : string) (ev : TaskEvent)
| OReceive (i : nat) | OClose (i : nat).

(** [None]: the operation is blocked on a full channel (or names no subscription). *)
Definition apply_op (h : Hub) (o : op) : option Hub :=
  match o with
  | ORegister key => Some (register h key)
  | OInitial i ev =>
      match hub_all h !! i with
      | Some s => match send s ev with
                  | Some s' => Some (mkHub (hub_subs h) (<[i := s']> (hub_all h)))
                  | None => None
                  end
      | None => None
      end
  | OPublish key ev => Some (publishLocal h key ev)
  | OReceive i => Some (receive h i)
  | OClose i => Some (Close h i)
  end.

Fixpoint apply_ops (h : Hub) (os : list op) : option Hub :=
  match os with
  | [] => Some h
  | o :: os' => match apply_op h o with Some h' => apply_ops h' os' | None => None end
  end.

Lemma apply_op_ok h o h' : hub_ok h -> apply_op h o = Some h' -> hub_ok h'.
Proof.
  intros Hok H. destruct o; simpl in H; simplify_eq.
  - by apply register_ok.
  - destruct (hub_all h !! i) as [s|] eqn:Hi; [|done]. destruct (send s ev) as [s'|] eqn:Es; [|done].
    simplify_eq. destruct (send_some _ _ _ Es) as [-> Hl]. by eapply hub_ok_update.
  - by apply publishLocal_ok.
  - by apply receive_ok.
  - by apply Close_ok.
Qed.

Lemma apply_ops_ok h os h' : hub_ok h -> apply_ops h os = Some h' -> hub_ok h'.
Proof.
  revert h. induction os as [|o os IH]; simpl; intros h Hok H; [by simplify_eq|].
  destruct (apply_op h o) as [h1|] eqn:E; [|done]. eapply IH; [by eapply apply_op_ok|done].
Qed.

(** What a stream of [key] with index [i] should see of an operation. *)
Definition shown (key : string) (i : nat) (o : op) : option TaskEvent :=
  match o with
  | OPublish k ev => if String.eqb k key then Some ev else None
  | OInitial j ev => if Nat.eqb j i then Some ev else None
  | _ => None
  end.

Definition stream (s : Subscription) : list TaskEvent := sub_got s ++ sub_ch s.

(** *** How one operation changes one subscription *)

Lemma remove_all h key i : hub_all (remove h key i) = hub_all h.
Proof. unfold remove. by destruct (hub_subs h !! key). Qed.

Lemma Close_other h i j : i <> j -> hub_all (Close h i) !! j = hub_all h !! j.
Proof.
  intros Hne. unfold Close. destruct (hub_all h !! i) as [s|]; [|done]. destruct (sub_gone s); [done|].
  simpl. rewrite remove_all. by rewrite list_lookup_insert_ne.
Qed.

Lemma Close_self h i s : hub_all h !! i = Some s ->
  exists s', hub_all (Close h i) !! i = Some s' /\ sub_gone s' = true.
Proof.
  intros Hi. unfold Close. rewrite Hi. destruct (sub_gone s) eqn:E; [eauto|]. simpl. rewrite remove_all.
  rewrite list_lookup_insert_eq by (by eapply lookup_lt_Some). eauto.
Qed.

Lemma deliver_other ev h i j : i <> j -> hub_all (deliver ev h i) !! j = hub_all h !! j.
Proof.
  intros Hne. unfold deliver. destruct (hub_all h !! i) as [s|]; [|done].
  destruct (send s ev); [simpl; by rewrite list_lookup_insert_ne|by apply Close_other].
Qed.

(** A delivery appends to the stream or closes it. *)
Lemma deliver_self ev h i s : hub_all h !! i = Some s ->
  exists s', hub_all (deliver ev h i) !! i = Some s' /\ sub_key s' = sub_key s
    /\ (sub_gone s' = true \/ (sub_gone s' = sub_gone s /\ stream s' = stream s ++ [ev])).
Proof.
  intros Hi. unfold deliver. rewrite Hi. destruct (send s ev) as [s'|] eqn:E.
  - destruct (send_some _ _ _ E) as [-> _]. eexists. simpl.
    rewrite list_lookup_insert_eq by (by eapply lookup_lt_Some). split; [done|]. split; [done|]. right.
    split; [done|]. unfold stream. simpl. by rewrite app_assoc.
  - unfold Close. rewrite Hi. destruct (sub_gone s) eqn:Eg; [eauto 6|]. simpl. rewrite remove_all.
    rewrite list_lookup_insert_eq by (by eapply lookup_lt_Some). eauto 6.
Qed.

Lemma deliver_all_other ev l h j : j ∉ l -> hub_all (fold_left (deliver ev) l h) !! j = hub_all h !! j.
Proof.
  revert h. induction l as [|i l IH]; intros h Hj; [done|]. simpl.
  rewrite IH by (intros ?; apply Hj; by right). apply deliver_other. intros ->. apply Hj. by left.
Qed.

Lemma deliver_all_self ev l h i s : NoDup l -> i ∈ l -> hub_all h !! i = Some s ->
  exists s', hub_all (fold_left (deliver ev) l h) !! i = Some s' /\ sub_key s' = sub_key s
    /\ (sub_gone s' = true \/ (sub_gone s' = sub_gone s /\ stream s' = stream s ++ [ev])).
Proof.
  revert h s. induction l as [|x l IH]; intros h s Hnd Hin Hi; [by apply elem_of_nil in Hin|].
  apply NoDup_cons in Hnd as [Hx Hnd]. simpl. destruct (decide (x = i)) as [->|Hne].
  - rewrite deliver_all_other by done. by apply deliver_self.
  - apply elem_of_cons in Hin as [->|Hin]; [done|]. apply IH; [done|done|]. by rewrite deliver_other.
Qed.

Lemma publishLocal_sub h key ev i s :
  hub_ok h -> hub_all h !! i = Some s -> sub_gone s = false ->
  exists s', hub_all (publishLocal h key ev) !! i = Some s' /\ sub_key s' = sub_key s
    /\ (sub_gone s' = true
        \/ (sub_gone s' = false
            /\ stream s' = stream s ++ (if String.eqb key (sub_key s) then [ev] else []))).
Proof.
  intros Hok Hi Hg. unfold publishLocal. destruct (String.eqb_spec key (sub_key s)) as [->|Hne].
  - destruct (proj2 (ok_registered _ Hok (sub_key s) i)) as (set & -> & Hin); [by exists s|].
    destruct (deliver_all_self ev (elements set) h i s) as (s' & Hi' & Hk & Hs);
      [apply NoDup_elements|by apply elem_of_elements|done|].
    exists s'. split; [done|]. split; [done|]. rewrite <- Hg. tauto.
  - exists s. rewrite app_nil_r. split; [|auto]. destruct (hub_subs h !! key) as [set|] eqn:Es; [|done].
    rewrite deliver_all_other; [done|]. intros Hin%elem_of_elements.
    destruct (proj1 (ok_registered _ Hok key i)) as (s' & Hi' & Hk & _); [eauto|]. simplify_eq.
Qed.

(** One operation and one open stream: either it is closed, or it grows by what it should be shown. *)
Lemma apply_op_stream h o h' i s :
  hub_ok h -> apply_op h o = Some h' -> hub_all h !! i = Some s -> sub_gone s = false ->
  exists s', hub_all h' !! i = Some s' /\ sub_key s' = sub_key s
    /\ (sub_gone s' = true
        \/ (sub_gone s' = false /\ stream s' = stream s ++ option_list (shown (sub_key s) i o))).
Proof.
  intros Hok Ho Hi Hg. pose proof (lookup_lt_Some _ _ _ Hi) as Hlt.
  destruct o as [key|j ev|key ev|j|j]; simpl in Ho; simplify_eq; simpl.
  - exists s. rewrite app_nil_r. split; [by apply lookup_app_l_Some|auto].
  - destruct (hub_all h !! j) as [sj|] eqn:Hj; [|done]. destruct (send sj ev) as [s'|] eqn:Es; [|done].
    simplify_eq. destruct (send_some _ _ _ Es) as [-> _]. simpl. destruct (Nat.eqb_spec j i) as [->|Hne].
    + simplify_eq. rewrite list_lookup_insert_eq by done. eexists. split; [done|]. split; [done|]. right.
      split; [done|]. unfold stream. simpl. by rewrite app_assoc.
    + rewrite list_lookup_insert_ne by done. exists s. rewrite app_nil_r. auto.
  - destruct (publishLocal_sub h key ev i s Hok Hi Hg) as (s' & Hi' & Hk & Hs). exists s'.
    split; [done|]. split; [done|]. by destruct (String.eqb key (sub_key s)).
  - rewrite app_nil_r. destruct (decide (j = i)) as [->|Hne].
    + unfold receive. rewrite Hi. destruct s as [key [|ev rest] gone got];
        [eexists; split; [exact Hi|]; auto|]. simpl.
      rewrite list_lookup_insert_eq by done. eexists. split; [done|]. split; [done|]. right.
      split; [done|]. unfold stream. simpl. by rewrite <- app_assoc.
    + exists s. split; [|auto]. unfold receive. destruct (hub_all h !! j) as [[key [|ev rest] gone got]|]; try done.
      simpl. by rewrite list_lookup_insert_ne.
  - rewrite app_nil_r. destruct (decide (j = i)) as [->|Hne].
    + unfold Close. rewrite Hi, Hg. simpl. rewrite remove_all, list_lookup_insert_eq by done. eauto 6.
    + exists s. rewrite Close_other by done. auto.
Qed.

Lemma gone_stays h o h' i s :
  apply_op h o = Some h' -> hub_all h !! i = Some s -> sub_gone s = true ->
  exists s', hub_all h' !! i = Some s' /\ sub_gone s' = true.
Proof.
  intros Ho Hi Hg. pose proof (lookup_lt_Some _ _ _ Hi) as Hlt.
  destruct o as [key|j ev|key ev|j|j]; simpl in Ho; simplify_eq; simpl.
  - exists s. split; [by apply lookup_app_l_Some|done].
  - destruct (hub_all h !! j) as [sj|] eqn:Hj; [|done]. destruct (send sj ev) as [s'|] eqn:Es; [|done].
    simplify_eq. destruct (send_some _ _ _ Es) as [-> _]. simpl. destruct (decide (j = i)) as [->|Hne].
    + simplify_eq. rewrite list_lookup_insert_eq by done. eauto.
    + rewrite list_lookup_insert_ne by done. eauto.
  - unfold publishLocal. destruct (hub_subs h !! key) as [set|]; [|eauto].
    destruct (decide (i ∈ elements set)) as [Hin|Hin]; [|rewrite deliver_all_other by done; eauto].
    destruct (deliver_all_self ev (elements set) h i s) as (s' & Hi' & _ & Hs);
      [apply NoDup_elements|done|done|]. exists s'. split; [done|]. destruct Hs as [|[-> _]]; done.
  - destruct (decide (j = i)) as [->|Hne].
    + unfold receive. rewrite Hi. destruct s as [key [|ev rest] gone got]; [eauto|]. simpl.
      rewrite list_lookup_insert_eq by done. eauto.
    + exists s. split; [|done]. unfold receive. destruct (hub_all h !! j) as [[key [|ev rest] gone got]|]; try done.
      simpl. by rewrite list_lookup_insert_ne.
  - destruct (decide (j = i)) as [->|Hne]; [by eapply Close_self|]. rewrite Close_other by done. eauto.
Qed.

Lemma apply_ops_stream os h h' i s s' :
  hub_ok h -> apply_ops h os = Some h' -> hub_all h !! i = Some s -> sub_gone s = false ->
  hub_all h' !! i = Some s' -> sub_gone s' = false ->
  sub_key s' = sub_key s /\ stream s' = stream s ++ omap (shown (sub_key s) i) os.
Proof.
  revert h s. induction os as [|o os IH]; intros h s Hok Ho Hi Hg Hi' Hg'; simpl in *.
  - simplify_eq. by rewrite app_nil_r.
  - destruct (apply_op h o) as [h1|] eqn:E; [|done].
    destruct (apply_op_stream _ _ _ _ _ Hok E Hi Hg) as (s1 & Hi1 & Hk1 & Hs1).
    destruct Hs1 as [Hgone|[Hopen Hs1]].
    + assert (exists s2, hub_all h' !! i = Some s2 /\ sub_gone s2 = true) as (s2 & Hs2 & Hg2).
      { clear -Ho Hi1 Hgone. revert h1 s1 Ho Hi1 Hgone. induction os as [|o os IH]; intros h1 s1 Ho Hi1 Hgone.
        - simpl in Ho. simplify_eq. eauto.
        - simpl in Ho. destruct (apply_op h1 o) as [h2|] eqn:E; [|done].
          destruct (gone_stays _ _ _ _ _ E Hi1 Hgone) as (s2 & Hs2 & Hg2). by eapply IH. }
      congruence.
    + destruct (IH h1 s1) as [Hk Hs]; [by eapply apply_op_ok|done|done|done|done|done|].
      rewrite Hk1 in *. split; [done|]. rewrite Hs, Hs1, <- app_assoc. f_equal.
      by destruct (shown (sub_key s) i o).
Qed.

(** A stream misses nothing. After any sequence of registrations, publications, reads and closes on
    a fresh hub, a stream that is still open has been shown (read, or waiting in its buffer of at most
    64) exactly its own initial event and the events published on its key since it was registered, in
    order and without gaps: a stream that falls behind is closed, never skipped. *)
Theorem hub_stream_complete (os1 os2 : list op) (key : string) (h1 h2 : Hub) (s : Subscription) :
  apply_ops NewHub os1 = Some h1 ->
  apply_ops (register h1 key) os2 = Some h2 ->
  hub_all h2 !! length (hub_all h1) = Some s -> sub_gone s = false ->
  sub_got s ++ sub_ch s = omap (shown key (length (hub_all h1))) os2
  /\ (length (sub_ch s) <= subscriberBuffer)%nat
  /\ exists set, hub_subs h2 !! key = Some set /\ length (hub_all h1) ∈ set.
Proof.
  intros H1 H2 Hs Hg. pose proof (apply_ops_ok _ _ _ NewHub_ok H1) as Hok1.
  pose proof (register_ok _ key Hok1) as Hokr. pose proof (apply_ops_ok _ _ _ Hokr H2) as Hok2.
  assert (hub_all (register h1 key) !! length (hub_all h1) = Some (mkSub key [] false [])) as Hi
    by (simpl; by rewrite lookup_app_r, Nat.sub_diag).
  destruct (apply_ops_stream _ _ _ _ _ _ Hokr H2 Hi eq_refl Hs Hg) as [Hk Hst].
  split; [exact Hst|]. split; [by eapply ok_buffer|]. apply (ok_registered _ Hok2). eauto.
Qed.

Definition exampleEvent : TaskEvent := EventOf (StatusOf StateQueued "queued") StageQueued.

Lemma hub_stream_complete_witness :
  exists h2 s, apply_ops (register NewHub "analysis:7:d")
      [OInitial 0 exampleEvent; OPublish "analysis:7:d" exampleEvent; OReceive 0;
       OPublish "analysis:8:d" exampleEvent] = Some h2
    /\ hub_all h2 !! 0%nat = Some s /\ sub_gone s = false
    /\ sub_got s ++ sub_ch s = [exampleEvent; exampleEvent]
    /\ (length (sub_ch s) <= subscriberBuffer)%nat
    /\ exists set, hub_subs h2 !! "analysis:7:d" = Some set /\ 0%nat ∈ set.
Proof.
  eexists _, _. split; [vm_compute; reflexivity|]. split; [reflexivity|]. split; [reflexivity|].
  eapply (hub_stream_complete []
    [OInitial 0 exampleEvent; OPublish "analysis:7:d" exampleEvent; OReceive 0;
     OPublish "analysis:8:d" exampleEvent] "analysis:7:d" NewHub);
    [reflexivity|vm_compute; reflexivity|reflexivity|reflexivity].
Defined.
