(* ===== verification/EventBus.v ===== *)
(** * Task events across gateways (internal/taskevents/hub.go, [Run] and the channel)

    The listener of a gateway as a program, and the system of which the hubs of TaskEvents.v are parts: any
    number of gateways, publications in flight (programs of TaskEvents.v), the channel as Redis Pub/Sub
    documents it - a message reaches every connection that is subscribed when it is published, in one order,
    and no other - and the streams.  A delivery to the subscribers of one key is one step: what a stream sees
    is what is sent to its own buffer. *)

From S2P Require Import Prelude GoStrings Proc Errors Model GoContext TaskKeys TaskEvents.

Local Open Scope string_scope.
Local Open Scope list_scope.
Local Open Scope Z_scope.

(** ** The listener *)

(** What the select of [Run] takes: the context is done, the channel is closed, a message. *)
Inductive heard := Done | ChannelClosed | Message (payload : string).

Inductive ListenE : Type -> Type :=
| PsSubscribe (ctx : Context) (channel : string) : ListenE unit
| PsSelect (ctx : Context) : ListenE heard
| Handled (payload : string) : ListenE unit (* h.HandleMessage *)
| PsClose : ListenE unit.

(** The loop of [Run], [fuel] turns of it; [false] when it has not returned by then. *)
Fixpoint listen (fuel : nat) (ctx : Context) : proc ListenE bool :=
  match fuel with
  | O => Ret false
  | S fuel =>
      Do (PsSelect ctx) (fun m =>
      match m with
      | Done | ChannelClosed => Ret true
      | Message payload => Do (Handled payload) (fun _ => listen fuel ctx)
      end)
  end.

Definition Run (fuel : nat) (ctx : Context) : proc ListenE bool :=
  Do (PsSubscribe ctx RedisChannel) (fun _ =>
  bind (listen fuel ctx) (fun returned =>
  if (returned : bool) then Do PsClose (fun _ => Ret true) (* deferred *) else Ret false)).

(** ** Gateways and the channel *)

(** A gateway: its hub, whether its connection is subscribed, and the messages that arrived on it. *)
Record gateway := mkGateway { gw_hub : Hub; gw_subscribed : bool; gw_inbox : list string }.

(** [bu_running]: the publications in flight, each with the gateway it runs on. *)
Record bus := mkBus { bu_gateways : list gateway; bu_running : list (nat * proc HubE unit) }.

Definition started : gateway := mkGateway NewHub false [].

(** The number of receivers PUBLISH reports. *)
Definition receivers (b : bus) : Z := Z.of_nat (length (List.filter gw_subscribed (bu_gateways b))).

Definition arrive (payload : string) (g : gateway) : gateway :=
  mkGateway (gw_hub g) (gw_subscribed g) (if gw_subscribed g then gw_inbox g ++ [payload] else gw_inbox g).

Definition broadcast (payload : string) (b : bus) : bus := mkBus (arrive payload <$> bu_gateways b) (bu_running b).

Definition goOn (b : bus) (j : nat) (i : nat) (p : proc HubE unit) : bus :=
  mkBus (bu_gateways b) (<[j := (i, p)]> (bu_running b)).

Definition setGateway (b : bus) (n : nat) (g : gateway) : bus := mkBus (<[n := g]> (bu_gateways b)) (bu_running b).

Definition setHub (g : gateway) (h : Hub) : gateway := mkGateway h (gw_subscribed g) (gw_inbox g).

(** What a stream's side does to a hub; publications are steps of their own. *)
Definition streamOp (o : op) : bool := match o with OPublish _ _ => false | _ => true end.

(** What a step is to the streams. *)
Inductive happening :=
| Accepted (payload : string)                        (* Redis published a message *)
| Local (n : nat) (key : string) (ev : TaskEvent)    (* gateway [n] published to its own streams *)
| Heard (n : nat) (payload : string)                 (* the listener of [n] handled a message *)
| Stream (n : nat) (o : op)                          (* a stream of [n] registered, read, closed *)
| Subscribed (n : nat) | Lost (n : nat)              (* the connection of [n]; a message that did not get through *)
| Quiet.

Section bus.
Context `{EnvelopeCodec}.

(** The next call of a publication, and how it goes on with the answer. *)
Definition redisCall (p : proc HubE unit) : option (string * (res Z -> proc HubE unit)) :=
  match p with
  | Do c k =>
      match c in HubE X return (X -> proc HubE unit) -> option (string * (res Z -> proc HubE unit)) with
      | RedisPublish _ channel payload => fun k => if String.eqb channel RedisChannel then Some (payload, k) else None
      | PublishLocal _ _ => fun _ => None
      end k
  | _ => None
  end.

Definition localCall (p : proc HubE unit) : option (string * TaskEvent * (unit -> proc HubE unit)) :=
  match p with
  | Do c k =>
      match c in HubE X return (X -> proc HubE unit) -> option (string * TaskEvent * (unit -> proc HubE unit)) with
      | RedisPublish _ _ _ => fun _ => None
      | PublishLocal key ev => fun k => Some (key, ev, k)
      end k
  | _ => None
  end.

Inductive bstep : bus -> happening -> bus -> Prop :=
| bs_publish b i key ev ctx :
    bstep b Quiet (mkBus (bu_gateways b) (bu_running b ++ [(i, publish ctx key ev)]))
| bs_accepted b j i p payload k :
    bu_running b !! j = Some (i, p) -> redisCall p = Some (payload, k) ->
    bstep b (Accepted payload) (goOn (broadcast payload b) j i (k (Ok (receivers b))))
| bs_refused b j i p payload k e :
    bu_running b !! j = Some (i, p) -> redisCall p = Some (payload, k) ->
    bstep b Quiet (goOn b j i (k (Err e)))
| bs_unanswered b j i p payload k e : (* published, but the answer did not arrive *)
    bu_running b !! j = Some (i, p) -> redisCall p = Some (payload, k) ->
    bstep b (Accepted payload) (goOn (broadcast payload b) j i (k (Err e)))
| bs_local b j i p key ev k g :
    bu_running b !! j = Some (i, p) -> localCall p = Some (key, ev, k) -> bu_gateways b !! i = Some g ->
    bstep b (Local i key ev) (goOn (setGateway b i (setHub g (publishLocal (gw_hub g) key ev))) j i (k tt))
| bs_agent b payload : (* the agent publishes on the same channel *)
    bstep b (Accepted payload) (broadcast payload b)
| bs_heard b n g payload rest :
    bu_gateways b !! n = Some g -> gw_inbox g = payload :: rest ->
    bstep b (Heard n payload) (setGateway b n (mkGateway (HandleMessage (gw_hub g) payload) (gw_subscribed g) rest))
| bs_stream b n g o h' :
    bu_gateways b !! n = Some g -> streamOp o = true -> apply_op (gw_hub g) o = Some h' ->
    bstep b (Stream n o) (setGateway b n (setHub g h'))
| bs_subscribed b n g :
    bu_gateways b !! n = Some g -> gw_subscribed g = false ->
    bstep b (Subscribed n) (setGateway b n (mkGateway (gw_hub g) true (gw_inbox g)))
| bs_lost b n g kept : (* the connection broke: of what was under way, a first part had arrived *)
    bu_gateways b !! n = Some g -> kept `prefix_of` gw_inbox g ->
    bstep b (Lost n) (setGateway b n (mkGateway (gw_hub g) false kept))
| bs_dropped b n g kept : (* the client dropped messages, its buffer being full *)
    bu_gateways b !! n = Some g -> kept `sublist_of` gw_inbox g ->
    bstep b (Lost n) (setGateway b n (mkGateway (gw_hub g) (gw_subscribed g) kept)).

Inductive bruns : bus -> list happening -> bus -> Prop :=
| bruns_nil b : bruns b [] b
| bruns_cons b l b' ls b'' : bstep b l b' -> bruns b' ls b'' -> bruns b (l :: ls) b''.

Lemma bruns_app b ls b' ls' b'' : bruns b ls b' -> bruns b' ls' b'' -> bruns b (ls ++ ls') b''.
Proof. induction 1; [done|]. intros. cbn. econstructor; eauto. Qed.

(** *** One gateway in a run *)

(** What a step does to the hub of [n]. *)
Definition opOf (n : nat) (l : happening) : option op :=
  match l with
  | Local m key ev => if Nat.eqb m n then Some (OPublish key ev) else None
  | Heard m payload =>
      if Nat.eqb m n then
        match unmarshalEnvelope payload with Ok env => Some (OPublish (env_Key env) (env_Event env)) | Err _ => None end
      else None
  | Stream m o => if Nat.eqb m n then Some o else None
  | _ => None
  end.

Definition accepted (l : happening) : option string := match l with Accepted payload => Some payload | _ => None end.

Definition handled (n : nat) (l : happening) : option string :=
  match l with Heard m payload => if Nat.eqb m n then Some payload else None | _ => None end.

(** The connection of [n] holds. *)
Definition holding (n : nat) (l : happening) : Prop := l <> Lost n.

(** A step of gateway [m] seen from [n]. *)
Ltac by_gateway m n :=
  destruct (Nat.eqb_spec m n) as [->|Hne]; simplify_eq; (split; [done|]); intros Hholds Hsub;
  try (split; [done|]; by rewrite app_nil_r).

Lemma bstep_gateway b l b' n g :
  bstep b l b' -> bu_gateways b !! n = Some g ->
  exists g', bu_gateways b' !! n = Some g'
    /\ match opOf n l with Some o => apply_op (gw_hub g) o = Some (gw_hub g') | None => gw_hub g' = gw_hub g end
    /\ (holding n l -> gw_subscribed g = true -> gw_subscribed g' = true
        /\ gw_inbox g ++ option_list (accepted l) = option_list (handled n l) ++ gw_inbox g').
Proof.
  intros Hstep Hn. assert (forall m g', <[m := g']> (bu_gateways b) !! n = Some (if Nat.eqb m n then g' else g)) as Hset.
  { intros m g'. pose proof (lookup_lt_Some _ _ _ Hn). destruct (Nat.eqb_spec m n) as [->|Hne];
      [by rewrite list_lookup_insert_eq|by rewrite list_lookup_insert_ne]. }
  destruct Hstep as [b i key ev ctx|b j i p payload k Hj Hp|b j i p payload k e Hj Hp|b j i p payload k e Hj Hp
    |b j i p key ev k g1 Hj Hp Hg1|b payload|b m g1 payload rest Hg1 Hin|b m g1 o h' Hg1 Ho Hh|b m g1 Hg1 Hoff|b m g1 kept Hg1 _
    |b m g1 kept Hg1 _]; cbn [bu_gateways goOn broadcast setGateway opOf accepted handled option_list app].
  - exists g. split; [done|]. split; [done|]. intros _ ->. by rewrite app_nil_r.
  - exists (arrive payload g). rewrite list_lookup_fmap, Hn. split; [done|]. split; [done|].
    intros _ Hsub. unfold arrive. by rewrite Hsub.
  - exists g. split; [done|]. split; [done|]. intros _ ->. by rewrite app_nil_r.
  - exists (arrive payload g). rewrite list_lookup_fmap, Hn. split; [done|]. split; [done|].
    intros _ Hsub. unfold arrive. by rewrite Hsub.
  - eexists. rewrite Hset. split; [done|]. by_gateway i n.
  - exists (arrive payload g). rewrite list_lookup_fmap, Hn. split; [done|]. split; [done|].
    intros _ Hsub. unfold arrive. by rewrite Hsub.
  - eexists. rewrite Hset. split; [done|]. destruct (Nat.eqb_spec m n) as [->|Hne]; simplify_eq.
    + split; [unfold HandleMessage; cbn; by destruct (unmarshalEnvelope payload)|]. intros _ Hs. split; [done|].
      by rewrite Hin, app_nil_r.
    + split; [done|]. intros _ Hs. by rewrite app_nil_r.
  - eexists. rewrite Hset. split; [done|]. by_gateway m n.
  - eexists. rewrite Hset. split; [done|]. by_gateway m n.
  - eexists. rewrite Hset. split; [done|]. by_gateway m n.
  - eexists. rewrite Hset. split; [done|]. by_gateway m n.
Qed.

Lemma omap_step {A B} (f : A -> option B) x l : omap f (x :: l) = option_list (f x) ++ omap f l.
Proof. cbn. by destruct (f x). Qed.

(** Over a run: the hub went through the operations of the steps, and while the connection holds the messages
    that Redis accepted are handled in their order. *)
Lemma bruns_gateway b ls b' n g :
  bruns b ls b' -> bu_gateways b !! n = Some g ->
  exists g', bu_gateways b' !! n = Some g'
    /\ apply_ops (gw_hub g) (omap (opOf n) ls) = Some (gw_hub g')
    /\ (Forall (holding n) ls -> gw_subscribed g = true -> gw_subscribed g' = true
        /\ gw_inbox g ++ omap accepted ls = omap (handled n) ls ++ gw_inbox g').
Proof.
  intros Hr. revert g. induction Hr as [b|b l b1 ls b2 Hs Hr IH]; intros g Hn.
  { exists g. split; [done|]. split; [done|]. intros _ ->. by rewrite app_nil_r. }
  destruct (bstep_gateway _ _ _ _ _ Hs Hn) as (g1 & Hn1 & Hop & Hbox). destruct (IH g1 Hn1) as (g2 & Hn2 & Hops & Hboxes).
  exists g2. split; [done|]. split.
  { cbn. destruct (opOf n l); [|by rewrite <- Hop]. cbn. by rewrite Hop. }
  intros [Hl Hls]%Forall_cons Hsub. destruct (Hbox Hl Hsub) as [Hsub1 E]. destruct (Hboxes Hls Hsub1) as [Hsub2 E'].
  split; [done|]. rewrite !omap_step, app_assoc, E, <- app_assoc, E'. by rewrite app_assoc.
Qed.


(** ** What a stream sees *)

(** The events of [key] in messages. *)
Definition eventOf (key payload : string) : option TaskEvent :=
  match unmarshalEnvelope payload with
  | Ok env => if String.eqb (env_Key env) key then Some (env_Event env) else None
  | Err _ => None
  end.

(** What reaches stream [i] of gateway [n] without the channel: its initial event, and what [n] published to its
    own streams. *)
Definition ownEvent (n i : nat) (key : string) (l : happening) : option TaskEvent :=
  match l with
  | Local m k ev => if Nat.eqb m n && String.eqb k key then Some ev else None
  | Stream m (OInitial j ev) => if Nat.eqb m n && Nat.eqb j i then Some ev else None
  | _ => None
  end.

(** The third list is the first two, each in its order, merged. *)
Inductive merges {A} : list A -> list A -> list A -> Prop :=
| merges_nil : merges [] [] []
| merges_l x l1 l2 l : merges l1 l2 l -> merges (x :: l1) l2 (x :: l)
| merges_r x l1 l2 l : merges l1 l2 l -> merges l1 (x :: l2) (x :: l).

(** The steps of a run, other than hidden publications, as they happen. *)
Definition visible (l : happening) : Prop := match l with Stream _ o => streamOp o = true | _ => True end.

Lemma bruns_visible b ls b' : bruns b ls b' -> Forall visible ls.
Proof. induction 1 as [|b l b1 ls b2 Hs Hr IH]; constructor; [|done]. by destruct Hs. Qed.

Lemma shown_merges n i key ls :
  Forall visible ls ->
  merges (omap (eventOf key) (omap (handled n) ls)) (omap (ownEvent n i key) ls) (omap (shown key i) (omap (opOf n) ls)).
Proof.
  induction 1 as [|l ls Hl Hls IH]; [constructor|]. destruct l as [p|m k ev|m p|m o|m|m|]; cbn; try done.
  - destruct (Nat.eqb m n); cbn; [|done]. destruct (String.eqb k key); [by constructor|done].
  - destruct (Nat.eqb m n); cbn; [|done]. unfold eventOf. destruct (unmarshalEnvelope p) as [env|e]; cbn; [|done].
    destruct (String.eqb (env_Key env) key); [by constructor|done].
  - destruct o as [k|j ev|k ev|j|j]; cbn in *; try done; destruct (Nat.eqb m n); cbn; try done.
    destruct (Nat.eqb j i); [by constructor|done].
Qed.

(** C12. No event is lost or reordered on its way to an open stream. Take any number of gateways that publish,
    listen, serve streams, lose and regain their connections, in any interleaving, with Redis failing at will;
    and a stream of a gateway from its registration on, while that gateway's connection holds. As long as the
    stream is open, the events of its key among the messages that had arrived and those that Redis accepted
    since, from any gateway or the agent, are the ones it has been shown followed by those that wait in the
    gateway's inbox, in the order of the channel; and the stream shows them merged with nothing but its own
    initial event and what its gateway published directly, Redis having failed or reached nobody. *)
Theorem events_reach_streams (N : nat) (before ls : list happening) (b b1 : bus) (n : nat) (g g1 : gateway)
    (key : string) (s : Subscription) :
  bruns (mkBus (replicate N started) []) before b ->
  bu_gateways b !! n = Some g -> gw_subscribed g = true ->
  bruns b (Stream n (ORegister key) :: ls) b1 -> Forall (holding n) ls ->
  bu_gateways b1 !! n = Some g1 -> hub_all (gw_hub g1) !! length (hub_all (gw_hub g)) = Some s -> sub_gone s = false ->
  exists seen,
    omap (eventOf key) (gw_inbox g ++ omap accepted ls) = seen ++ omap (eventOf key) (gw_inbox g1)
    /\ merges seen (omap (ownEvent n (length (hub_all (gw_hub g))) key) ls) (sub_got s ++ sub_ch s).
Proof.
  intros Hbefore Hn Hsub Hr Hhold Hn1 Hs Hopen.
  assert (exists pre, apply_ops NewHub pre = Some (gw_hub g)) as [pre Hpre].
  { assert (exists g0, replicate N started !! n = Some g0) as [g0 Hg0].
    { destruct (lookup_lt_is_Some_2 (replicate N started) n) as [g0 Hg0]; [|by exists g0].
      clear -Hbefore Hn. assert (forall b ls b', bruns b ls b' -> length (bu_gateways b') = length (bu_gateways b)) as Hlen.
      { induction 1 as [|b0 l b1 ls' b2 Hs Hr IH]; [done|]. rewrite IH.
        destruct Hs; cbn; rewrite ?length_insert, ?length_fmap; done. }
      apply Hlen in Hbefore. cbn in Hbefore. rewrite <- Hbefore. by eapply lookup_lt_Some. }
    destruct (bruns_gateway _ _ _ _ _ Hbefore Hg0) as (g' & Hg' & Hops & _). simplify_eq.
    apply lookup_replicate in Hg0 as [-> _]. by eexists. }
  destruct (bruns_gateway _ _ _ _ _ Hr Hn) as (g1' & Hg1 & Hops & Hboxes). simplify_eq.
  destruct Hboxes as [_ Hbox]; [by constructor|done|].
  rewrite omap_step in Hops. cbn [opOf] in Hops. rewrite Nat.eqb_refl in Hops. cbn [option_list app] in Hops.
  change (gw_inbox g ++ omap accepted ls = omap (handled n) ls ++ gw_inbox g1) in Hbox. exists (omap (eventOf key) (omap (handled n) ls)). split; [by rewrite Hbox, omap_app|].
  destruct (hub_stream_complete pre (omap (opOf n) ls) key (gw_hub g) (gw_hub g1) s) as [-> _]; [done..|].
  apply shown_merges. apply bruns_visible in Hr. by inversion Hr.
Qed.

(** *** Publications *)

(** How far a publication is, and what it has left behind. *)
Definition publishing (ctx : Context) (i : nat) (key : string) (ev : TaskEvent) (ls : list happening) (p : proc HubE unit) : Prop :=
  p = publish ctx key ev \/ p = Do (PublishLocal key ev) (fun _ => Ret tt)
  \/ (p = Ret tt /\ (Local i key ev ∈ ls \/ exists payload, marshalEnvelope (mkEnvelope key ev) = Ok payload /\ Accepted payload ∈ ls)).

Lemma publishing_step ctx i key ev ls b l b' j p :
  publishing ctx i key ev ls p -> bstep b l b' -> bu_running b !! j = Some (i, p) ->
  exists p', bu_running b' !! j = Some (i, p') /\ publishing ctx i key ev (ls ++ [l]) p'.
Proof.
  intros Hp Hs Hj. assert (publishing ctx i key ev (ls ++ [l]) p) as Hkeep.
  { destruct Hp as [?|[?|[? [Hin|(pl & Hm & Hin)]]]]; [by left|by right; left|right; right..]; (split; [done|]).
    - left. apply elem_of_app. by left.
    - right. exists pl. split; [done|]. apply elem_of_app. by left. }
  assert (forall j' q, (j' = j -> publishing ctx i key ev (ls ++ [l]) q) -> forall i', (j' = j -> i' = i) ->
    exists p', <[j' := (i', q)]> (bu_running b) !! j = Some (i, p') /\ publishing ctx i key ev (ls ++ [l]) p') as Hset.
  { intros j' q Hq i' Hi'. destruct (decide (j' = j)) as [->|Hne].
    - rewrite list_lookup_insert_eq by (by eapply lookup_lt_Some). rewrite Hi' by done. eauto.
    - rewrite list_lookup_insert_ne by done. eauto. }
  assert (l ∈ ls ++ [l]) as Hl by (apply elem_of_app; right; by left).
  destruct Hs as [b i' key' ev' ctx'|b j' i' p' payload k Hj' Hc|b j' i' p' payload k e Hj' Hc|b j' i' p' payload k e Hj' Hc
    |b j' i' p' key' ev' k g1 Hj' Hc Hg1|b payload|b m g1 payload rest Hg1 Hin|b m g1 o h' Hg1 Ho Hh|b m g1 Hg1 Hoff|b m g1 kept Hg1 _
    |b m g1 kept Hg1 _]; cbn [bu_running goOn broadcast setGateway]; try (by exists p).
  - exists p. by rewrite lookup_app_l by (by eapply lookup_lt_Some).
  - apply Hset; intros ->; simplify_eq; [|done]. destruct Hp as [->|[->|[-> _]]]; [|done..]. unfold publish in Hc.
    destruct (marshalEnvelope _) as [pl|e] eqn:Em; [|done]. cbn in Hc. simplify_eq.
    destruct (0 <? receivers b); [right; right; eauto 8|by right; left].
  - apply Hset; intros ->; simplify_eq; [|done]. destruct Hp as [->|[->|[-> _]]]; [|done..]. unfold publish in Hc.
    destruct (marshalEnvelope _) as [pl|e'] eqn:Em; [|done]. cbn in Hc. simplify_eq. by right; left.
  - apply Hset; intros ->; simplify_eq; [|done]. destruct Hp as [->|[->|[-> _]]]; [|done..]. unfold publish in Hc.
    destruct (marshalEnvelope _) as [pl|e'] eqn:Em; [|done]. cbn in Hc. simplify_eq. by right; left.
  - apply Hset; intros ->; simplify_eq; [|done]. right; right.
    assert (localCall (Do (PublishLocal key ev) (fun _ => Ret tt)) = Some (key', ev', k)) as Hk.
    { destruct Hp as [->|[->|[-> _]]]; [|done..]. unfold publish in Hc. by destruct (marshalEnvelope _). }
    cbn in Hk. simplify_eq. split; [done|]. by left.
Qed.

(** A publication that has returned left its event with Redis or with its gateway's own streams. *)
Theorem publication_accounted (b b1 : bus) (ls : list happening) (i : nat) (ctx : Context) (key : string) (ev : TaskEvent) :
  bruns (mkBus (bu_gateways b) (bu_running b ++ [(i, publish ctx key ev)])) ls b1 ->
  bu_running b1 !! length (bu_running b) = Some (i, Ret tt) ->
  Local i key ev ∈ ls \/ exists payload, marshalEnvelope (mkEnvelope key ev) = Ok payload /\ Accepted payload ∈ ls.
Proof.
  intros Hr Hend.
  assert (forall ls b0 b1 pre p, bruns b0 ls b1 -> publishing ctx i key ev pre p -> bu_running b0 !! length (bu_running b) = Some (i, p) ->
    exists p', bu_running b1 !! length (bu_running b) = Some (i, p') /\ publishing ctx i key ev (pre ++ ls) p') as Hinv.
  { clear. intros ls b0 b1 pre p Hr. revert pre p. induction Hr as [b0|b0 l b1 ls b2 Hs Hr IH]; intros pre p Hp Hj.
    - exists p. by rewrite app_nil_r.
    - destruct (publishing_step _ _ _ _ _ _ _ _ _ _ Hp Hs Hj) as (p1 & Hj1 & Hp1).
      destruct (IH _ _ Hp1 Hj1) as (p2 & Hj2 & Hp2). exists p2. by rewrite <- app_assoc in Hp2. }
  destruct (Hinv ls _ _ [] (publish ctx key ev) Hr) as (p & Hj & Hp); [by left|cbn; by rewrite lookup_app_r, Nat.sub_diag|].
  simplify_eq. destruct Hp as [E|[E|[_ Hp]]]; [|done|exact Hp]. unfold publish in E. by destruct (marshalEnvelope _).
Qed.

End bus.

(** ** The listener's runs *)

Definition turn (payload : string) (ctx : Context) : trace ListenE :=
  [Ev (PsSelect ctx) (Message payload); Ev (Handled payload) tt].

(** [Run] subscribes, handles every message it takes, in order and once, and closes the subscription when its
    context is done or the channel is closed. *)
Theorem Run_handles (fuel : nat) (ctx : Context) :
  wp (Run fuel ctx) (fun tr returned => exists payloads last,
    tr = Ev (PsSubscribe ctx RedisChannel) tt :: concat ((fun p => turn p ctx) <$> payloads) ++ last
    /\ match returned with
       | true => exists m, (m = Done \/ m = ChannelClosed) /\ last = [Ev (PsSelect ctx) m; Ev PsClose tt]
       | false => last = [] /\ length payloads = fuel
       end).
Proof.
  intros []. apply wp_bind.
  assert (wp (listen fuel ctx) (fun tr returned => exists payloads last,
    tr = concat ((fun p => turn p ctx) <$> payloads) ++ last
    /\ match (returned : bool) with
       | true => exists m, (m = Done \/ m = ChannelClosed) /\ last = [Ev (PsSelect ctx) m]
       | false => last = [] /\ length payloads = fuel
       end)) as Hloop.
  { induction fuel as [|fuel IH]; cbn [listen wp]; [by exists [], []|]. intros [| |payload]; cbn [wp].
    - exists [], [Ev (PsSelect ctx) Done]. split; [done|]. exists Done. auto.
    - exists [], [Ev (PsSelect ctx) ChannelClosed]. split; [done|]. exists ChannelClosed. auto.
    - intros []. eapply wp_mono; [exact IH|]. intros tr returned (payloads & last & -> & Hend).
      exists (payload :: payloads), last. split; [done|]. destruct returned; [done|].
      destruct Hend as [-> <-]. done. }
  eapply wp_mono; [exact Hloop|]. intros tr [|] (payloads & last & -> & Hend).
  - intros []. destruct Hend as (m & Hm & ->). exists payloads, [Ev (PsSelect ctx) m; Ev PsClose tt].
    split; [by rewrite <- app_assoc|]. by exists m.
  - exists payloads, last. by rewrite app_nil_r.
Qed.

(** ** Concrete runs *)

Module Example.

Definition running : TaskEvent := EventOf (StatusOf StateProcessing "running") StageQueued.
Definition completed : TaskEvent := EventOf (StatusCompleted "report") StageCompleted.

(** A channel on which one event is written, by its key. *)
#[local] Instance codec : EnvelopeCodec :=
  {| marshalEnvelope := fun env => Ok (env_Key env); unmarshalEnvelope := fun s => Ok (mkEnvelope s completed) |}.

Definition task : string := "analysis:7:d".
Definition one : bus := mkBus (replicate 1 started) [].
Definition listening : bus := mkBus [mkGateway NewHub true []] [].

(** What the first stream of a gateway was shown, and whether it was closed. *)
Definition shownTo (g : gateway) : option (list TaskEvent * bool) :=
  (fun s => (sub_got s ++ sub_ch s, sub_gone s)) <$> hub_all (gw_hub g) !! 0%nat.

(** The agent publishes; the listener of the only gateway hands the event to the stream. *)
Definition follow : list happening := [Stream 0 (OInitial 0 running); Accepted task; Heard 0 task].

Lemma events_reach_streams_witness :
  exists b1 g1 s, bruns listening (Stream 0 (ORegister task) :: follow) b1 /\ bu_gateways b1 !! 0%nat = Some g1
    /\ hub_all (gw_hub g1) !! 0%nat = Some s /\ sub_got s ++ sub_ch s = [running; completed]
    /\ exists seen, omap (eventOf task) (omap accepted follow) = seen ++ omap (eventOf task) (gw_inbox g1)
         /\ merges seen (omap (ownEvent 0 0 task) follow) (sub_got s ++ sub_ch s).
Proof.
  assert (bruns one [Subscribed 0] listening) as Hstart.
  { eapply bruns_cons; [by eapply (bs_subscribed one 0 started)|]. apply bruns_nil. }
  assert (exists b1, bruns listening (Stream 0 (ORegister task) :: follow) b1
    /\ exists g1 s, bu_gateways b1 !! 0%nat = Some g1 /\ hub_all (gw_hub g1) !! 0%nat = Some s /\ sub_gone s = false
         /\ sub_got s ++ sub_ch s = [running; completed]) as (b1 & Hr & g1 & s & Hg & Hs & Ho & Hst).
  { eexists. split.
    - eapply bruns_cons; [by eapply (bs_stream listening 0 _ (ORegister task))|].
      eapply bruns_cons; [by eapply (bs_stream _ 0 _ (OInitial 0 running))|].
      eapply bruns_cons; [eapply (bs_agent _ task)|].
      eapply bruns_cons; [by eapply (bs_heard _ 0 _ task [])|]. apply bruns_nil.
    - eexists _, _. split; [reflexivity|]. split; [reflexivity|]. by split. }
  exists b1, g1, s. split; [exact Hr|]. split; [exact Hg|]. split; [exact Hs|]. split; [exact Hst|].
  apply (events_reach_streams 1 [Subscribed 0] follow listening b1 0 (mkGateway NewHub true []) g1 task s);
    [exact Hstart|reflexivity|reflexivity|exact Hr|by repeat constructor|exact Hg|exact Hs|exact Ho].
Defined.

(** A stream can wait for an event that is over. The handlers of event streams read the status of the task first
    and subscribe afterwards (analysisEvents, transcriptionEvents): here the task was running when its status
    was read and completed before the stream was registered, and the stream, its inbox empty, shows nothing
    but the old status. *)
Theorem completion_missed :
  exists b g, bruns listening [Accepted task; Heard 0 task; Stream 0 (ORegister task); Stream 0 (OInitial 0 running)] b
    /\ bu_gateways b !! 0%nat = Some g /\ gw_inbox g = [] /\ shownTo g = Some ([running], false)
    /\ Terminal running = false /\ Terminal completed = true.
Proof.
  eexists _, _. split.
  { eapply bruns_cons; [eapply (bs_agent _ task)|]. eapply bruns_cons; [by eapply (bs_heard _ 0 _ task [])|].
    eapply bruns_cons; [by eapply (bs_stream _ 0 _ (ORegister task))|].
    eapply bruns_cons; [by eapply (bs_stream _ 0 _ (OInitial 0 running))|]. apply bruns_nil. }
  split; [reflexivity|]. by vm_compute.
Qed.

(** A gateway whose connection is down does not serve its own streams when another gateway is listening: Redis
    reports a receiver, so nothing is published locally, and the event reaches no stream of the gateway that
    published it. *)
Theorem others_listen :
  exists b g, bruns (mkBus (replicate 2 started) [])
      [Subscribed 1; Stream 0 (ORegister task); Stream 0 (OInitial 0 running); Quiet; Accepted task] b
    /\ bu_running b = [(0%nat, Ret tt)] /\ bu_gateways b !! 0%nat = Some g /\ gw_inbox g = []
    /\ shownTo g = Some ([running], false).
Proof.
  eexists _, _. split.
  { eapply bruns_cons; [by eapply (bs_subscribed _ 1 started)|].
    eapply bruns_cons; [by eapply (bs_stream _ 0 _ (ORegister task))|].
    eapply bruns_cons; [by eapply (bs_stream _ 0 _ (OInitial 0 running))|].
    eapply bruns_cons; [eapply (bs_publish _ 0 task completed Background)|].
    eapply bruns_cons; [by eapply (bs_accepted _ 0)|]. apply bruns_nil. }
  split; [reflexivity|]. split; [reflexivity|]. by vm_compute.
Qed.

End Example.
