(* ===== verification/Checkpoint.v ===== *)
(** * The shared checkpoint store (internal/checkpoint/checkpoint.go)

    The Go side of the store: the media context, the stage and the failure marker.  MySQL and Redis are
    the interface [CheckpointE]; [cp_service] says what they do to a database and a cache, any call
    being allowed to fail (with or without effect), and counts the failures.  The JSON form of a video
    context is the class [ContextCodec]. *)

From S2P Require Import Prelude GoStrings Proc Errors Model GoContext TaskKeys.

Local Open Scope string_scope.
Local Open Scope list_scope.
Local Open Scope Z_scope.

Definition cacheTTL : Z := 7 * 24 * hour.

(** [common.MarshalNoEscape] and [json.Unmarshal] of a video context. *)
Class ContextCodec := {
  marshalContext : VideoContext -> res string;
  unmarshalContext : string -> res VideoContext }.

Inductive CheckpointE : Type -> Type :=
| CpHGet (ctx : Context) (key field : string) : CheckpointE (res (option string)) (* Ok None: redis.Nil *)
| CpHDel (ctx : Context) (key : string) (fields : list string) : CheckpointE (res unit)
| CpHSet (ctx : Context) (key : string) (fields : list (string * string)) : CheckpointE (res unit)
| CpHExists (ctx : Context) (key field : string) : CheckpointE (res bool)
| CpExpire (ctx : Context) (key : string) (ttl : Z) : CheckpointE (res unit)
| CpPipeHSet (ctx : Context) (key : string) (fields : list (string * string)) (ttl : Z) : CheckpointE (res unit)
    (* one pipeline: the HSETs, then EXPIRE *)
| CpPipeSAdd (ctx : Context) (key member : string) (ttl : Z) : CheckpointE (res unit)
| CpFindPayload (ctx : Context) (mediaID : Z) (name : string) : CheckpointE (res (option string))
| CpFindStage (ctx : Context) (mediaID : Z) (name : string) : CheckpointE (res (option string))
| CpUpsert (ctx : Context) (mediaID : Z) (name stage : string) (payload : option string) : CheckpointE (res unit)
| CpUpsertPair (ctx : Context) (mediaID : Z) (name stageName stage payload : string) : CheckpointE (res unit).

(** ** Keys *)

Definition mediaKey (mediaID : Z) : string := "agent:checkpoint:" +:+ FormatInt mediaID.
Definition goalIndexKey (mediaID : Z) : string := mediaKey mediaID +:+ ":goals".

Section keys.
Context `{Sha256}.

Definition GoalKey (mediaID : Z) (goal : string) (mode : AnalysisMode) : res string :=
  match GoalDigest goal mode with Err e => Err e | Ok d => Ok (mediaKey mediaID +:+ ":goal:" +:+ d) end.

Definition goalCheckpoint (goal : string) (mode : AnalysisMode) (field : string) : res string :=
  match GoalDigest goal mode with Err e => Err e | Ok d => Ok ("goal:" +:+ d +:+ ":" +:+ field) end.

End keys.

(** ** Cache writes *)

Definition cacheField (ctx : Context) (key field payload stage : string) : proc CheckpointE unit :=
  let fields := (field, payload) :: (if String.eqb stage "" then [] else [("stage", stage)]) in
  Do (CpPipeHSet ctx key fields cacheTTL) (fun r =>
  match r with
  | Ok _ => Ret tt
  | Err _ => Do (CpHDel ctx key [field; "stage"]) (fun _ => Ret tt)
  end).

Definition cacheStage (ctx : Context) (key stage : string) : proc CheckpointE unit :=
  Do (CpPipeHSet ctx key [("stage", stage)] cacheTTL) (fun r =>
  match r with
  | Ok _ => Ret tt
  | Err _ => Do (CpHDel ctx key ["stage"]) (fun _ => Ret tt)
  end).

Definition rememberGoalKey (ctx : Context) (mediaID : Z) (key : string) : proc CheckpointE unit :=
  Do (CpPipeSAdd ctx (goalIndexKey mediaID) key cacheTTL) (fun _ => Ret tt).

(** ** The media context *)

Section store.
Context `{Sha256, ContextCodec}.

Definition decodeContext (payload : string) : res VideoContext :=
  match unmarshalContext payload with Err e => Err e | Ok vc => Normalize vc end.

Definition readFailed (name : string) (e : gerror) : gerror :=
  Internal ("读取 Agent Checkpoint 失败: " +:+ name) (Some e).

Definition saveFailed (e : gerror) : gerror := Internal "保存 Agent Checkpoint 失败" (Some e).

(** The part of [LoadContext] that reads the database. *)
Definition loadContextDB (ctx : Context) (mediaID : Z) : proc CheckpointE (res (option VideoContext)) :=
  Do (CpFindPayload ctx mediaID "media:context") (fun r =>
  match r with
  | Err e => Ret (Err (readFailed "media:context" e))
  | Ok None => Ret (Ok None)
  | Ok (Some p) =>
      match decodeContext p with
      | Err e => Ret (Err (readFailed "media:context" e))
      | Ok vc =>
          Do (CpFindStage ctx mediaID "media:context") (fun s =>
          let stageVal := match s with Ok (Some v) => v | _ => "" end in
          bind (cacheField ctx (mediaKey mediaID) "context" p stageVal) (fun _ => Ret (Ok (Some vc))))
      end
  end).

Definition LoadContext (ctx : Context) (mediaID : Z) : proc CheckpointE (res (option VideoContext)) :=
  let redisKey := mediaKey mediaID in
  Do (CpHGet ctx redisKey "context") (fun r =>
  match r with
  | Ok (Some payload) =>
      if String.eqb payload "" then loadContextDB ctx mediaID
      else match decodeContext payload with
           | Ok vc => Ret (Ok (Some vc))
           | Err _ => Do (CpHDel ctx redisKey ["context"]) (fun _ => loadContextDB ctx mediaID)
           end
  | Ok None => loadContextDB ctx mediaID
  | Err _ => Do (CpHDel ctx redisKey ["context"]) (fun _ => loadContextDB ctx mediaID)
  end).

Definition SaveContext (ctx : Context) (mediaID : Z) (vc : VideoContext) : proc CheckpointE (res unit) :=
  match marshalContext (mkContext (vc_Source vc) "" (vc_Segments vc)) with
  | Err e => Ret (Err (saveFailed e))
  | Ok payload =>
      Do (CpUpsertPair ctx mediaID "media:context" "media:stage" StageContextCompleted payload) (fun r =>
      match r with
      | Err e => Ret (Err (saveFailed e))
      | Ok _ =>
          bind (cacheField ctx (mediaKey mediaID) "context" payload StageContextCompleted) (fun _ => Ret (Ok tt))
      end)
  end.

(** ** Stages and failures *)

(** The part of [LoadStage] that reads the database. *)
Definition loadStageDB (ctx : Context) (mediaID : Z) (redisKey name : string) : proc CheckpointE (res TaskStage) :=
  Do (CpFindStage ctx mediaID name) (fun r =>
  match r with
  | Err e => Ret (Err (readFailed name e))
  | Ok None => Ret (Ok "")
  | Ok (Some persisted) => bind (cacheStage ctx redisKey persisted) (fun _ => Ret (Ok (TaskStageFrom persisted)))
  end).

Definition LoadStage (ctx : Context) (mediaID : Z) (goal : string) (mode : AnalysisMode)
  : proc CheckpointE (res TaskStage) :=
  match GoalKey mediaID goal mode, goalCheckpoint goal mode "stage" with
  | Ok redisKey, Ok name =>
      Do (CpHGet ctx redisKey "stage") (fun r =>
      match r with
      | Ok (Some cached) =>
          let st := TaskStageFrom cached in
          if negb (String.eqb st "") then Ret (Ok st)
          else Do (CpHDel ctx redisKey ["stage"]) (fun _ => loadStageDB ctx mediaID redisKey name)
      | _ => loadStageDB ctx mediaID redisKey name
      end)
  | Err e, _ | _, Err e => Ret (Err e)
  end.

Definition SaveStage (ctx : Context) (mediaID : Z) (goal : string) (mode : AnalysisMode) (stage : TaskStage)
  : proc CheckpointE (res unit) :=
  match GoalKey mediaID goal mode, goalCheckpoint goal mode "stage" with
  | Ok key, Ok name =>
      Do (CpUpsert ctx mediaID name stage None) (fun r =>
      match r with
      | Err e => Ret (Err (saveFailed e))
      | Ok _ =>
          bind (cacheStage ctx key stage) (fun _ =>
          bind (rememberGoalKey ctx mediaID key) (fun _ => Ret (Ok tt)))
      end)
  | Err e, _ | _, Err e => Ret (Err e)
  end.

Definition SaveFailure (ctx : Context) (mediaID : Z) (goal : string) (mode : AnalysisMode)
    (failedStage : TaskStage) (cause : gerror) : proc CheckpointE (res unit) :=
  match GoalKey mediaID goal mode, goalCheckpoint goal mode "stage" with
  | Ok key, Ok name =>
      Do (CpUpsert ctx mediaID name StageFailed None) (fun r =>
      match r with
      | Err e => Ret (Err (saveFailed e))
      | Ok _ =>
          bind (cacheStage ctx key StageFailed) (fun _ =>
          _ ←? call (CpHSet ctx key [("failedStage", failedStage); ("errorType", CodeOf (Some cause))]);
          _ ←? call (CpExpire ctx key cacheTTL);
          bind (rememberGoalKey ctx mediaID key) (fun _ => Ret (Ok tt)))
      end)
  | Err e, _ | _, Err e => Ret (Err e)
  end.

Definition HasResult (ctx : Context) (mediaID : Z) (goal : string) (mode : AnalysisMode)
  : proc CheckpointE (res bool) :=
  match GoalKey mediaID goal mode, goalCheckpoint goal mode "result" with
  | Ok key, Ok name =>
      let fromDB :=
        Do (CpFindPayload ctx mediaID name) (fun p =>
        match p with
        | Err e => Ret (Err (readFailed name e))
        | Ok None => Ret (Ok false)
        | Ok (Some _) => Ret (Ok true)
        end) in
      Do (CpHExists ctx key "result") (fun r =>
      match r with Ok true => Ret (Ok true) | _ => fromDB end)
  | Err e, _ | _, Err e => Ret (Err e)
  end.

End store.

(** ** What MySQL and Redis do

    A row is a stage and a payload; the cache is a map of hashes (an expired hash is one that is not
    there).  A call that answers an error may or may not have taken effect, a pipeline in part. *)

Record store := mkStore {
  st_db : gmap (Z * string) (string * option string);
  st_cache : gmap string (gmap string string);
  st_faults : nat }.

Definition fault (s : store) : store := mkStore (st_db s) (st_cache s) (S (st_faults s)).

Definition hash (s : store) (key : string) : gmap string string :=
  match st_cache s !! key with Some h => h | None => ∅ end.

Definition cached (s : store) (key field : string) : option string := hash s key !! field.

Definition set_fields (s : store) (key : string) (fs : list (string * string)) : store :=
  mkStore (st_db s) (<[key := fold_left (fun h '(f, v) => <[f := v]> h) fs (hash s key)]> (st_cache s)) (st_faults s).

Definition del_fields (s : store) (key : string) (fs : list string) : store :=
  mkStore (st_db s) (<[key := fold_left (fun h f => delete f h) fs (hash s key)]> (st_cache s)) (st_faults s).

Definition set_row (s : store) (id : Z) (name stage : string) (payload : option string) : store :=
  mkStore (<[(id, name) := (stage, payload)]> (st_db s)) (st_cache s) (st_faults s).

(** A read: the value, or an error. *)
Definition reads {A} (v : A) (s : store) (x : res A) (s' : store) : Prop :=
  (x = Ok v /\ s' = s) \/ (exists e, x = Err e /\ s' = fault s).

(** A write: applied, or an error after any of the [partial] effects. *)
Definition writes (partial : list store) (applied s : store) (x : res unit) (s' : store) : Prop :=
  (x = Ok tt /\ s' = applied) \/ (exists e s1, x = Err e /\ s1 ∈ s :: applied :: partial /\ s' = fault s1).

Definition cp_service (X : Type) (c : CheckpointE X) : store -> X -> store -> Prop :=
  match c in CheckpointE X return store -> X -> store -> Prop with
  | CpHGet _ key field => fun s => reads (cached s key field) s
  | CpHDel _ key fields => fun s => writes [] (del_fields s key fields) s
  | CpHSet _ key fields => fun s => writes [] (set_fields s key fields) s
  | CpHExists _ key field => fun s => reads (bool_decide (is_Some (cached s key field))) s
  | CpExpire _ _ _ | CpPipeSAdd _ _ _ _ => fun s => writes [] s s
  | CpPipeHSet _ key fields _ => fun s =>
      writes ((fun n => set_fields s key (take n fields)) <$> seq 0 (length fields)) (set_fields s key fields) s
  | CpFindPayload _ id name => fun s =>
      reads (match st_db s !! (id, name) with Some (_, p) => p | None => None end) s
  | CpFindStage _ id name => fun s =>
      reads (match st_db s !! (id, name) with Some (stage, _) => Some stage | None => None end) s
  | CpUpsert _ id name stage payload => fun s => writes [] (set_row s id name stage payload) s
  | CpUpsertPair _ id name stageName stage payload => fun s => (* one transaction *)
      writes [] (set_row (set_row s id name stage (Some payload)) id stageName stage None) s
  end.

(** The cached value of a field is absent or the one the database stands for. *)
Definition coherent (s : store) (key field : string) (v : option string) : Prop :=
  cached s key field = None \/ cached s key field = v.

Definition db_stage (s : store) (id : Z) (name : string) : option string :=
  match st_db s !! (id, name) with Some (stage, _) => Some stage | None => None end.

Definition db_payload (s : store) (id : Z) (name : string) : option string :=
  match st_db s !! (id, name) with Some (_, p) => p | None => None end.

(** *** Lemmas on the service *)

Lemma hash_set s key fs : hash (set_fields s key fs) key = fold_left (fun h '(f, v) => <[f := v]> h) fs (hash s key).
Proof. unfold hash, set_fields. simpl. by rewrite lookup_insert_eq. Qed.

Lemma cached_set1 s key f v : cached (set_fields s key [(f, v)]) key f = Some v.
Proof. unfold cached. rewrite hash_set. simpl. apply lookup_insert_eq. Qed.

Lemma cached_del1 s key f : cached (del_fields s key [f]) key f = None.
Proof. unfold cached, hash, del_fields. simpl. rewrite lookup_insert_eq. apply lookup_delete_eq. Qed.

Lemma cached_fault s key f : cached (fault s) key f = cached s key f.
Proof. done. Qed.

Lemma set_fields_nil s key f : cached (set_fields s key []) key f = cached s key f.
Proof. unfold cached. by rewrite hash_set. Qed.

(** The states of the three stores: database, one cached field, number of failures. *)
Lemma cacheStage_swp ctx key stage s (Q : unit -> store -> Prop) :
  (forall s', st_db s' = st_db s -> (st_faults s <= st_faults s')%nat ->
     (cached s' key "stage" = Some stage \/ cached s' key "stage" = None
      \/ (cached s' key "stage" = cached s key "stage" /\ (st_faults s + 2 <= st_faults s')%nat)) ->
     Q tt s') ->
  swp cp_service (cacheStage ctx key stage) s Q.
Proof.
  intros HQ. unfold cacheStage. cbn [swp cp_service]. intros x s1 [[-> ->]|(e & s0 & -> & Hin & ->)].
  - apply HQ; [done|done|]. left. apply cached_set1.
  - assert (st_db s0 = st_db s /\ st_faults s0 = st_faults s
      /\ (cached s0 key "stage" = Some stage \/ cached s0 key "stage" = cached s key "stage")) as (Hd & Hf & Hc).
    { simpl in Hin. rewrite !elem_of_cons, elem_of_nil in Hin. destruct Hin as [->|[->|[->|[]]]]; [auto| |].
      - split; [done|]. split; [done|]. left. apply cached_set1.
      - split; [done|]. split; [done|]. right. apply set_fields_nil. }
    cbn [swp cp_service]. intros x s2 [[-> ->]|(e2 & s3 & -> & Hin2 & ->)].
    + apply HQ; simpl; [done|lia|]. right; left. apply cached_del1.
    + rewrite !elem_of_cons, elem_of_nil in Hin2. destruct Hin2 as [->|[->|[]]]; (apply HQ; simpl; [done|lia|]).
      * rewrite !cached_fault. destruct Hc as [Hc|Hc]; [auto|]. right; right. split; [done|lia].
      * right; left. apply cached_del1.
Qed.

(** Failures are only ever added. *)
Lemma cp_service_faults X (c : CheckpointE X) s x s' n :
  cp_service X c s x s' -> (n <= st_faults s)%nat -> (n <= st_faults s')%nat.
Proof.
  assert (forall A (v : A) s x s', reads v s x s' -> (n <= st_faults s)%nat -> (n <= st_faults s')%nat) as Hr.
  { intros A v s0 x0 s1 [[-> ->]|(e & -> & ->)] ?; simpl; lia. }
  assert (forall partial applied s x s', writes partial applied s x s' ->
    (forall s1, s1 ∈ s :: applied :: partial -> st_faults s1 = st_faults s) ->
    (n <= st_faults s)%nat -> (n <= st_faults s')%nat) as Hw.
  { intros partial applied s0 x0 s1 [[-> ->]|(e & s2 & -> & Hin & ->)] Hp ?.
    - rewrite (Hp applied); [done|]. right. left.
    - simpl. rewrite (Hp s2 Hin). lia. }
  assert (forall s applied : store, st_faults applied = st_faults s ->
    forall s1, s1 ∈ [s; applied] -> st_faults s1 = st_faults s) as H2.
  { intros s0 applied Ha s1. rewrite !elem_of_cons, elem_of_nil. by intros [->|[->|[]]]. }
  destruct c; cbn [cp_service]; intros Hc; try (by eapply Hr, Hc); (eapply Hw; [exact Hc|]); try (by apply H2).
  intros s1. rewrite !elem_of_cons. intros [->|[->|Hin]]; [done|done|].
  apply list_elem_of_fmap in Hin as (k & -> & _). done.
Qed.

Section stages.
Context `{Sha256, ContextCodec}.

Lemma goal_names id goal mode d :
  GoalDigest goal mode = Ok d ->
  GoalKey id goal mode = Ok (mediaKey id +:+ ":goal:" +:+ d)
  /\ goalCheckpoint goal mode "stage" = Ok ("goal:" +:+ d +:+ ":stage").
Proof. intros Hd. unfold GoalKey, goalCheckpoint. by rewrite Hd. Qed.

(** A save that reports success has written the row, and the cached stage is then the new one or
    absent, unless both the cache write and its repair failed. *)
Lemma SaveStage_swp ctx id goal mode stage d s :
  GoalDigest goal mode = Ok d ->
  let key := mediaKey id +:+ ":goal:" +:+ d in
  let name := "goal:" +:+ d +:+ ":stage" in
  swp cp_service (SaveStage ctx id goal mode stage) s (fun r s' =>
    (st_faults s <= st_faults s')%nat
    /\ (r = Ok tt -> db_stage s' id name = Some stage
        /\ ((st_faults s' <= st_faults s + 1)%nat -> coherent s' key "stage" (Some stage)))).
Proof.
  intros Hd key name. destruct (goal_names id _ _ _ Hd) as [Hk Hn]. unfold SaveStage. rewrite Hk, Hn.
  fold key name. cbn [swp cp_service]. intros x s1 [[-> ->]|(e & s0 & -> & Hin & ->)].
  - apply swp_bind, cacheStage_swp. intros s2 Hdb Hf Hc. unfold rememberGoalKey. cbn [bind].
    assert (db_stage s2 id name = Some stage) as Hrow.
    { unfold db_stage. rewrite Hdb. simpl. by rewrite lookup_insert_eq. }
    assert (forall s3, st_db s3 = st_db s2 -> st_cache s3 = st_cache s2 -> (st_faults s2 <= st_faults s3)%nat ->
      (st_faults s <= st_faults s3)%nat
      /\ (@Ok gerror unit tt = Ok tt -> db_stage s3 id name = Some stage
          /\ ((st_faults s3 <= st_faults s + 1)%nat -> coherent s3 key "stage" (Some stage)))) as Hdone.
    { intros s3 Hd3 Hc3 Hf3. cbn [st_faults set_row] in *. split; [lia|]. intros _. split.
      - unfold db_stage. by rewrite Hd3.
      - intros Hle. unfold coherent, cached, hash in *. rewrite Hc3.
        destruct Hc as [Hc|[Hc|[_ Hc]]]; [auto|auto|lia]. }
    cbn [swp cp_service]. intros x s3 [[-> ->]|(e & s4 & -> & Hin & ->)]; [by apply Hdone|].
    rewrite !elem_of_cons, elem_of_nil in Hin.
    destruct Hin as [->|[->|[]]]; (apply Hdone; [done|done|simpl; lia]).
  - cbn [swp]. rewrite !elem_of_cons, elem_of_nil in Hin.
    destruct Hin as [->|[->|[]]]; (split; [simpl; lia|done]).
Qed.

(** A load answers with the database's stage when the cache is coherent. *)
Lemma LoadStage_swp ctx id goal mode d s :
  GoalDigest goal mode = Ok d ->
  let key := mediaKey id +:+ ":goal:" +:+ d in
  let name := "goal:" +:+ d +:+ ":stage" in
  coherent s key "stage" (db_stage s id name) ->
  swp cp_service (LoadStage ctx id goal mode) s (fun r s' =>
    (st_faults s <= st_faults s')%nat
    /\ forall st, r = Ok st -> st = match db_stage s id name with Some v => TaskStageFrom v | None => "" end).
Proof.
  intros Hd key name Hco. destruct (goal_names id _ _ _ Hd) as [Hk Hn]. unfold LoadStage. rewrite Hk, Hn.
  fold key name.
  assert (forall s1, st_db s1 = st_db s -> (st_faults s <= st_faults s1)%nat ->
    swp cp_service (loadStageDB ctx id key name) s1 (fun r s' =>
      (st_faults s <= st_faults s')%nat
      /\ forall st, r = Ok st -> st = match db_stage s id name with Some v => TaskStageFrom v | None => "" end)) as HDB.
  { intros s1 Hdb Hf. unfold loadStageDB. cbn [swp cp_service].
    intros x s2 [[-> ->]|(e & -> & ->)]; [|cbn [swp]; split; [simpl; lia|done]].
    unfold db_stage. rewrite <- Hdb. destruct (st_db s1 !! (id, name)) as [[v p]|]; [|cbn [swp]; split; [lia|by intros st [= <-]]].
    apply swp_bind, cacheStage_swp. intros s3 _ Hf3 _. cbn [swp]. split; [lia|]. by intros st [= <-]. }
  cbn [swp cp_service]. intros x s1 [[-> ->]|(e & -> & ->)]; [|apply HDB; [done|simpl; lia]].
  destruct (cached s key "stage") as [v|] eqn:Ec; [|apply HDB; [done|lia]].
  destruct (negb (String.eqb (TaskStageFrom v) "")) eqn:Ev.
  - cbn [swp]. split; [lia|]. intros st [= <-]. destruct Hco as [Hco|Hco]; [congruence|].
    rewrite Ec in Hco. by rewrite <- Hco.
  - cbn [swp cp_service]. intros x s1 [[-> ->]|(e & s0 & -> & Hin & ->)]; [apply HDB; simpl; [done|lia]|].
    rewrite !elem_of_cons, elem_of_nil in Hin. destruct Hin as [->|[->|[]]]; (apply HDB; simpl; [done|lia]).
Qed.

Lemma LoadStage_total ctx id goal mode : wp (LoadStage ctx id goal mode) (fun _ _ => True).
Proof. unfold LoadStage, loadStageDB, cacheStage. by wp_go. Qed.

(** Stages survive one fault. Save a stage and read it back, with MySQL and Redis failing as they
    like: if the save reported success and at most one call failed on the way, whatever stage the load
    returns is the one that was saved, whether it came from the cache or from the database. *)
Theorem stage_roundtrip (ctx : Context) (id : Z) (goal : string) (mode : AnalysisMode) (stage : TaskStage)
    (s : store) :
  isBlank goal = false -> stage ∈ allStages ->
  swp cp_service (_ ←? SaveStage ctx id goal mode stage; LoadStage ctx id goal mode) s (fun r s' =>
    forall st, r = Ok st -> (st_faults s' <= st_faults s + 1)%nat -> st = stage).
Proof.
  intros Hg Hst. assert (exists d, GoalDigest goal mode = Ok d) as [d Hd].
  { rewrite GoalDigest_text, Hg. eauto. }
  unfold bind_ok. apply swp_bind. eapply swp_mono; [by apply (SaveStage_swp ctx id goal mode stage d)|].
  intros [[]|e] s1 [Hf H1]; [|done]. destruct (H1 eq_refl) as [Hrow Hco].
  destruct (decide (st_faults s1 <= st_faults s + 1)%nat) as [Hle|Hgt].
  - eapply swp_mono; [apply (LoadStage_swp ctx id goal mode d); [done|]; rewrite Hrow; auto|].
    intros r s2 [_ Hr] st -> _. rewrite (Hr st eq_refl), Hrow.
    unfold TaskStageFrom. rewrite (proj2 (existsb_eqb_In stage allStages) Hst).
    assert (is_blank stage = false) as ->; [|done].
    assert (forallb (fun x => negb (is_blank x)) allStages = true) as Hall by (vm_compute; reflexivity).
    rewrite forallb_forall in Hall. by apply negb_true_iff, Hall, list_elem_of_In.
  - assert (swp cp_service (LoadStage ctx id goal mode) s1 (fun _ s2 => (st_faults s1 <= st_faults s2)%nat)) as Hm
      by (apply swp_invariant; [intros; by eapply cp_service_faults|apply LoadStage_total|done]).
    eapply swp_mono; [exact Hm|]. intros r s2 Hf2 st _ Hle. cbv beta in Hf2. lia.
Qed.

End stages.

Lemma stage_roundtrip_witness :
  let h : Sha256 := fun v => v in
  isBlank "notes" = false /\ StageRetrying ∈ allStages
  /\ swp cp_service (_ ←? @SaveStage h Background 7 "notes" "" StageRetrying; @LoadStage h Background 7 "notes" "")
       (mkStore ∅ ∅ 0) (fun r s' => forall st, r = Ok st -> (st_faults s' <= 0 + 1)%nat -> st = StageRetrying).
Proof.
  intros h. assert (StageRetrying ∈ allStages) as Hin by (apply existsb_eqb_In; vm_compute; reflexivity).
  split; [vm_compute; reflexivity|]. split; [exact Hin|].
  apply (@stage_roundtrip h Background 7 "notes" "" StageRetrying (mkStore ∅ ∅ 0)); [vm_compute; reflexivity|exact Hin].
Defined.

Definition staleStart : store :=
  mkStore {[(7, "goal:notes:stage") := (StageConsuming, None)]}
    {[ "agent:checkpoint:7:goal:notes" := {[ "stage" := StageConsuming ]} ]} 0.

(** Two faults are one too many: if Redis refuses both the cache write and the removal that repairs
    it, a save reports success, the database has the new stage, and the next load still answers the old
    one from the cache, although the database is the authority. *)
Theorem stale_stage_read :
  let h : Sha256 := fun v => v in
  exists s1 s2,
    sruns cp_service (@SaveStage h Background 7 "notes" ModeGeneral StageDeadLettered) staleStart (Ok tt) s1
    /\ db_stage s1 7 "goal:notes:stage" = Some StageDeadLettered
    /\ sruns cp_service (@LoadStage h Background 7 "notes" ModeGeneral) s1 (Ok StageConsuming) s2.
Proof.
  intros h. set (down := OtherErr "redis: connection refused" None None : gerror).
  exists (fault (fault (set_row staleStart 7 "goal:notes:stage" StageDeadLettered None))).
  exists (fault (fault (set_row staleStart 7 "goal:notes:stage" StageDeadLettered None))).
  split; [|split; [reflexivity|]].
  - eapply sruns_do; [by left|]. eapply sruns_do.
    { right. exists down, (set_row staleStart 7 "goal:notes:stage" StageDeadLettered None).
      split; [reflexivity|]. split; [left|reflexivity]. }
    eapply sruns_do.
    { right. exists down, (fault (set_row staleStart 7 "goal:notes:stage" StageDeadLettered None)).
      split; [reflexivity|]. split; [left|reflexivity]. }
    eapply sruns_do; [by left|]. apply sruns_ret.
  - eapply sruns_do; [by left|]. apply sruns_ret.
Qed.

(** ** The media context *)

(** What a JSON codec of contexts owes: reading back what was written. *)
Class ContextCodecLaws `{ContextCodec} := {
  unmarshal_marshal c p : marshalContext c = Ok p -> unmarshalContext p = Ok c /\ p <> "" }.

Section contexts.
Context `{ContextCodecLaws}.

Lemma cacheField_swp ctx key payload stage s (Q : unit -> store -> Prop) :
  stage <> "" ->
  (forall s', st_db s' = st_db s -> (st_faults s <= st_faults s')%nat ->
     (cached s' key "context" = Some payload \/ cached s' key "context" = None
      \/ (cached s' key "context" = cached s key "context" /\ (st_faults s + 2 <= st_faults s')%nat)) ->
     Q tt s') ->
  swp cp_service (cacheField ctx key "context" payload stage) s Q.
Proof.
  intros Hst HQ. unfold cacheField. apply String.eqb_neq in Hst. rewrite Hst.
  assert (forall s0, cached (set_fields s0 key [("context", payload); ("stage", stage)]) key "context" = Some payload) as Hset2.
  { intros s0. unfold cached. rewrite hash_set. simpl. rewrite lookup_insert_ne by done. apply lookup_insert_eq. }
  assert (forall s0, cached (del_fields s0 key ["context"; "stage"]) key "context" = None) as Hdel.
  { intros s0. unfold cached, hash, del_fields. simpl. rewrite lookup_insert_eq, lookup_delete_ne by done.
    apply lookup_delete_eq. }
  cbn [swp cp_service]. intros x s1 [[-> ->]|(e & s0 & -> & Hin & ->)]; [apply HQ; auto|].
  assert (st_db s0 = st_db s /\ st_faults s0 = st_faults s
    /\ (cached s0 key "context" = Some payload \/ cached s0 key "context" = cached s key "context")) as (Hd & Hf & Hc).
  { simpl in Hin. rewrite !elem_of_cons, elem_of_nil in Hin.
    destruct Hin as [->|[->|[->|[->|[]]]]]; (split; [done|]); (split; [done|]); [auto|auto| |].
    - right. apply set_fields_nil.
    - left. apply cached_set1. }
  cbn [swp cp_service]. intros x s2 [[-> ->]|(e2 & s3 & -> & Hin2 & ->)].
  - apply HQ; simpl; [done|lia|]. right; left. apply Hdel.
  - rewrite !elem_of_cons, elem_of_nil in Hin2. destruct Hin2 as [->|[->|[]]]; (apply HQ; simpl; [done|lia|]).
    + rewrite !cached_fault. destruct Hc as [Hc|Hc]; [auto|]. right; right. split; [done|lia].
    + right; left. apply Hdel.
Qed.

Lemma LoadContext_total ctx id : wp (LoadContext ctx id) (fun _ _ => True).
Proof. unfold LoadContext, loadContextDB, cacheField. by wp_go. Qed.

(** Loading when the row holds [p] and the cache is coherent with it. *)
Lemma LoadContext_swp ctx id s p c :
  decodeContext p = Ok c -> p <> "" ->
  db_payload s id "media:context" = Some p ->
  coherent s (mediaKey id) "context" (Some p) ->
  swp cp_service (LoadContext ctx id) s (fun r _ => forall o, r = Ok o -> o = Some c).
Proof.
  intros Hdec Hp Hrow Hco. unfold LoadContext.
  assert (forall s1, st_db s1 = st_db s ->
    swp cp_service (loadContextDB ctx id) s1 (fun r _ => forall o, r = Ok o -> o = Some c)) as HDB.
  { intros s1 Hdb. unfold loadContextDB. cbn [swp cp_service]. intros x s2 [[-> ->]|(e & -> & ->)]; [|done].
    unfold db_payload in Hrow. rewrite <- Hdb in Hrow. destruct (st_db s1 !! (id, "media:context")) as [[v p']|]; [|done].
    subst p'. rewrite Hdec. cbn [swp]. intros y s3 _. apply swp_bind.
    eapply swp_mono; [apply (swp_invariant cp_service (fun _ => True)); [done|unfold cacheField; by wp_go|done]|].
    intros [] s4 _. cbn [swp]. by intros o [= <-]. }
  cbn [swp cp_service]. intros x s1 [[-> ->]|(e & -> & ->)].
  - destruct Hco as [Hco|Hco]; rewrite Hco; [by apply HDB|].
    rewrite (proj2 (String.eqb_neq p "")), Hdec by done. cbn [swp]. by intros o [= <-].
  - cbn [swp cp_service]. intros y s2 [[-> ->]|(e' & s3 & -> & Hin & ->)]; [by apply HDB|].
    rewrite !elem_of_cons, elem_of_nil in Hin. destruct Hin as [->|[->|[]]]; by apply HDB.
Qed.

(** A video context survives one fault. Save a context in normal form and load it back, with MySQL
    and Redis failing as they like: if the save reported success and at most one call failed on the
    way, whatever the load returns is that context, without the goal it was built for. *)
Theorem context_roundtrip (ctx : Context) (id : Z) (vc : VideoContext) (s : store) :
  is_blank (vc_Source vc) = false -> Forall segment_ok (vc_Segments vc) ->
  swp cp_service (_ ←? SaveContext ctx id vc; LoadContext ctx id) s (fun r s' =>
    forall o, r = Ok o -> (st_faults s' <= st_faults s + 1)%nat ->
    o = Some (mkContext (vc_Source vc) "" (vc_Segments vc))).
Proof.
  intros Hsrc Hsegs. set (c := mkContext (vc_Source vc) "" (vc_Segments vc)).
  unfold bind_ok. apply swp_bind. unfold SaveContext. fold c.
  destruct (marshalContext c) as [p|e] eqn:Em; [|done]. destruct (unmarshal_marshal _ _ Em) as [Hu Hp].
  assert (decodeContext p = Ok c) as Hdec.
  { unfold decodeContext. rewrite Hu. unfold Normalize.
    change (vc_Segments c) with (vc_Segments vc). rewrite (normalize_segments_id _ Hsegs).
    apply (NewVideoContext_id c). by repeat split. }
  cbn [swp cp_service]. intros x s1 [[-> ->]|(e & s0 & -> & Hin & ->)]; [|done].
  apply swp_bind, cacheField_swp; [done|]. intros s2 Hdb Hf Hc. cbn [swp st_faults set_row] in *.
  destruct (decide (st_faults s2 <= st_faults s + 1)%nat) as [Hle|Hgt].
  - eapply swp_mono; [apply (LoadContext_swp ctx id s2 p c Hdec Hp)|].
    + unfold db_payload. rewrite Hdb. simpl. rewrite lookup_insert_ne, lookup_insert_eq by done. done.
    + unfold coherent. destruct Hc as [Hc|[Hc|[_ Hc]]]; [auto|auto|lia].
    + intros r s3 Hr o -> _. by apply Hr.
  - assert (swp cp_service (LoadContext ctx id) s2 (fun _ s3 => (st_faults s2 <= st_faults s3)%nat)) as Hm
      by (apply swp_invariant; [intros; by eapply cp_service_faults|apply LoadContext_total|done]).
    eapply swp_mono; [exact Hm|]. cbv beta. intros r s3 Hf2 o _ Hle. lia.
Qed.

End contexts.

(** A codec with that law: the context is not encoded at all but looked up. *)
#[local] Instance oneContextCodec : ContextCodec := {
  marshalContext c := if decide (vc_Source c = "http://minio/media/a.mp4" /\ vc_UserGoal c = "" /\ vc_Segments c = [])
                      then Ok "{}" else Err (OtherErr "unsupported" None None);
  unmarshalContext p := Ok (mkContext "http://minio/media/a.mp4" "" []) }.

#[local] Instance oneContextLaws : ContextCodecLaws.
Proof.
  split. intros [src goal segs] p. cbn [marshalContext unmarshalContext oneContextCodec vc_Source vc_UserGoal vc_Segments].
  destruct (decide _) as [(-> & -> & ->)|]; [|done]. by intros [= <-].
Qed.

Lemma context_roundtrip_witness :
  let vc := mkContext "http://minio/media/a.mp4" "summary" [] in
  is_blank (vc_Source vc) = false
  /\ swp cp_service (_ ←? SaveContext Background 7 vc; LoadContext Background 7) (mkStore ∅ ∅ 0) (fun r s' =>
       forall o, r = Ok o -> (st_faults s' <= 0 + 1)%nat -> o = Some (mkContext (vc_Source vc) "" (vc_Segments vc))).
Proof.
  intros vc. split; [vm_compute; reflexivity|].
  apply (context_roundtrip Background 7 vc (mkStore ∅ ∅ 0)); [vm_compute; reflexivity|constructor].
Defined.
