(* ===== verification/Dispatch.v ===== *)
(** * Submission, status and the failed-task ledger (internal/analysis: dispatch.go, status.go, failedtask.go)

    The services share the interface [AnalysisE] of what their structs hold.  [Submit]'s result is
    [Ok Failed] for Go's (Failed, nil) and [Err e] for (Failed, e). *)

From S2P Require Import Prelude GoStrings Proc Errors Model GoContext TaskKeys Sanitize Routing AgentClient.
From S2P Require Import RateLimit Consumer.

Local Open Scope string_scope.
Local Open Scope list_scope.
Local Open Scope Z_scope.

Inductive SubmissionResult := Accepted | RateLimited | Duplicate | Failed.

Inductive AnalysisE : Type -> Type :=
| BillingCheck (ctx : Context) (userID : Z) : AnalysisE (res unit)
| MediaContentHash (ctx : Context) (mediaID : Z) : AnalysisE (res string)
| RSetNX (ctx : Context) (key value : string) (ttl : Z) : AnalysisE (res bool)
| RDel (ctx : Context) (key : string) : AnalysisE (res unit)
| RExists (ctx : Context) (keys : list string) : AnalysisE (res Z)
| LimiterTake (ctx : Context) (scope : string) (userID : Z) (user global : Bucket) : AnalysisE (res bool)
| StageRevision (ctx : Context) (fb : AgentFeedback) (mode : AnalysisMode) : AnalysisE (res string)
| CancelRevision (ctx : Context) (mediaID : Z) (goal : string) (mode : AnalysisMode) : AnalysisE (res unit)
| SenderPublishTask (ctx : Context) (msg : AnalysisTaskMsg) : AnalysisE (res unit)
| HubPublishAnalysis (ctx : Context) (mediaID : Z) (goal : string) (mode : AnalysisMode)
    (status : TaskStatus) (stage : TaskStage) : AnalysisE (res unit)
| InstantNow : AnalysisE string
| LocalNow : AnalysisE Z
| FailedInsert (ctx : Context) (t : FailedAnalysisTask) : AnalysisE (res unit)
| FailedLatest (ctx : Context) : AnalysisE (res (list FailedAnalysisTask))
| FailedFindByID (ctx : Context) (id : Z) : AnalysisE (res (option FailedAnalysisTask))
| FailedMarkRequeued (ctx : Context) (id : Z) : AnalysisE (res Z)
| CpHasResult (ctx : Context) (mediaID : Z) (goal : string) (mode : AnalysisMode) : AnalysisE (res bool)
| CpLoadStage (ctx : Context) (mediaID : Z) (goal : string) (mode : AnalysisMode) : AnalysisE (res TaskStage)
| AgResult (ctx : Context) (mediaID : Z) (goal : string) (mode : AnalysisMode) : AnalysisE (res ResultResponse).

(** ** Submission (dispatch.go) *)

Definition contentHash (ctx : Context) (mediaID : Z) : proc AnalysisE (res string) :=
  h ←? call (MediaContentHash ctx mediaID);
  Ret (Ok (NormalizeContentHash mediaID h)).

Definition tryAcquireQuota (ctx : Context) (userID : Z) : proc AnalysisE (res bool) :=
  call (LimiterTake ctx ScopeAnalysis userID AnalysisUser AnalysisGlobal).

(** [revision.Normalized(mode)], which reads the clock when the feedback has no creation time. *)
Definition normalizedFeedback (fb : AgentFeedback) (mode : AnalysisMode) : proc AnalysisE AgentFeedback :=
  match fb_CreatedAt fb with
  | Some _ => Ret (Normalized "" mode fb)
  | None => Do InstantNow (fun now => Ret (Normalized now mode fb))
  end.

Section dispatcher.
Context `{Sha256}.

(** The closure [fail] of [Submit]. *)
Definition submitFail (ctx : Context) (revision : option AgentFeedback) (mediaID : Z) (goal : string)
    (mode : AnalysisMode) (activeKey : string) : proc AnalysisE (res SubmissionResult) :=
  let bg := WithoutCancel ctx in
  Do (RDel bg activeKey) (fun _ =>
  match revision with
  | Some _ => Do (CancelRevision bg mediaID goal mode) (fun _ => Ret (Ok Failed))
  | None => Ret (Ok Failed)
  end).

(** [Submit] once the idempotency key is taken. *)
Definition submitAccepted (ctx : Context) (mf : MediaFile) (goal : string) (revision : option AgentFeedback)
    (mode : AnalysisMode) (action hash activeKey : string) : proc AnalysisE (res SubmissionResult) :=
  let fail := submitFail ctx revision (mf_ID mf) goal mode activeKey in
  bind (tryAcquireQuota ctx (mf_UserID mf)) (fun q =>
  match q with
  | Err _ => fail
  | Ok false => Do (RDel ctx activeKey) (fun _ => Ret (Ok RateLimited))
  | Ok true =>
      bind (match revision with
            | Some fb => bind (normalizedFeedback fb mode) (fun n => call (StageRevision ctx n mode))
            | None => Ret (Ok "")
            end) (fun staged =>
      match staged with
      | Err _ => fail
      | Ok _ =>
          Do (SenderPublishTask ctx (NewTaskMsg (mf_ID mf) action hash goal mode)) (fun r =>
          match r with
          | Err _ => fail
          | Ok _ =>
              Do (HubPublishAnalysis ctx (mf_ID mf) goal mode
                    (StatusOf StateQueued "任务已进入异步分析队列") StageQueued) (fun _ =>
              Ret (Ok Accepted))
          end)
      end)
  end).

Definition Submit (ctx : Context) (mf : MediaFile) (goal : string) (revision : option AgentFeedback)
    (mode : AnalysisMode) : proc AnalysisE (res SubmissionResult) :=
  _ ←? call (BillingCheck ctx (mf_UserID mf));
  let mode := Resolve mode in
  let mediaID := mf_ID mf in
  let action := match revision with Some _ => ActionRevise | None => ActionStart end in
  hash ←? match revision with
          | Some _ => Ret (Ok ("media-" +:+ FormatInt mediaID))
          | None => contentHash ctx mediaID
          end;
  match GoalDigest goal mode with
  | Err e => Ret (Err e)
  | Ok digest =>
      let activeKey := Active hash digest in
      accepted ←? call (RSetNX ctx activeKey (FormatInt mediaID) activeTTL);
      if negb accepted then Ret (Ok Duplicate)
      else submitAccepted ctx mf goal revision mode action hash activeKey
  end.

Definition IsActive (ctx : Context) (mediaID : Z) (goal : string) (mode : AnalysisMode)
  : proc AnalysisE (res bool) :=
  match GoalDigest goal mode with
  | Err e => Ret (Err e)
  | Ok digest =>
      hash ←? contentHash ctx mediaID;
      n ←? call (RExists ctx [Active hash digest; Active ("media-" +:+ FormatInt mediaID) digest]);
      Ret (Ok (0 <? n))
  end.

Definition RequireAiQuota (ctx : Context) (userID : Z) : proc AnalysisE (res unit) :=
  _ ←? call (BillingCheck ctx userID);
  Do (LimiterTake ctx ScopeAnalysis userID AnalysisUser AnalysisGlobal) (fun q =>
  match q with
  | Err _ => Ret (Err (Business CodeServiceUnavailable "AI 服务限流器暂不可用，请稍后再试"))
  | Ok false => Ret (Err (Business CodeRateLimited "AI 请求过于频繁，请稍后再试"))
  | Ok true => Ret (Ok tt)
  end).

Definition submitLabel (r : res SubmissionResult) : string :=
  match r with
  | Err _ | Ok Failed => "error"
  | Ok Duplicate => "duplicate"
  | Ok RateLimited => "rate_limited"
  | Ok Accepted => "accepted"
  end.

(** ** Status (status.go) *)

Definition LoadResult (ctx : Context) (mediaID : Z) (goal : string) (mode : AnalysisMode)
  : proc AnalysisE (res (option ResultResponse)) :=
  has ←? call (CpHasResult ctx mediaID goal mode);
  if negb has then Ret (Ok None)
  else
    out ←? call (AgResult ctx mediaID goal mode);
    Ret (Ok (if rr_Found out then Some out else None)).

Definition StatusMessage (stage : TaskStage) : string :=
  if String.eqb stage "" || String.eqb stage StageQueued then "任务已排队"
  else if String.eqb stage StageVideoContext || String.eqb stage StageContextCompleted then "正在解析视频语音和关键画面"
  else if String.eqb stage StageChunksCompleted then "正在检索与目标相关的视频证据"
  else if String.eqb stage StagePlanCompleted then "Planner 已完成任务拆解"
  else if String.eqb stage StageExecutorStarted || String.eqb stage StageExecutorCompleted
       then "Executor 正在生成结构化产物"
  else if String.eqb stage StageCriticStarted then "Critic 正在核验结论和证据"
  else if String.eqb stage StageCriticRetryRequired || String.eqb stage StageEvidenceRefreshed
       then "正在根据 Critic 反馈补充证据"
  else if String.eqb stage StageRetrying then "任务执行异常，正在自动重试"
  else "正在分析视频".

Definition Current (ctx : Context) (mediaID : Z) (goal : string) (mode : AnalysisMode)
  : proc AnalysisE (res TaskStatus) :=
  found ←? LoadResult ctx mediaID goal mode;
  match (match found with Some out => rr_TaskStatus out | None => None end) with
  | Some st => Ret (Ok st)
  | None =>
      stage ←? call (CpLoadStage ctx mediaID goal mode);
      active ←? IsActive ctx mediaID goal mode;
      Ret (Ok
        (if active : bool then
           StatusOf (if String.eqb stage "" then StateQueued else StateProcessing) (StatusMessage stage)
         else if String.eqb stage StageBudgetExhausted then
           StatusOf StateFailed "Agent 已达到本次任务预算，请调整目标后重试"
         else if String.eqb stage StageFailed || String.eqb stage StageDeadLettered then
           StatusOf StateFailed "分析失败，请稍后重试"
         else StatusOf StateNotStarted "尚未提交分析任务"))
  end.

(** ** The ledger (failedtask.go) *)

Definition unknownMediaID : Z := -1.

Definition RecordFailure (ctx : Context) (msg : AnalysisTaskMsg) (attempts : Z) (cause : gerror)
  : proc AnalysisE (res unit) :=
  Do LocalNow (fun created =>
  Do LocalNow (fun updated =>
  call (FailedInsert ctx
    (mkFailedTask 0 (match msg_MediaID msg with Some id => id | None => unknownMediaID end)
       (column (deref (msg_Action msg)) "UNKNOWN" 32)
       (ModeFromNullable (deref (msg_Mode msg)))
       (column (deref (msg_ContentHash msg)) "unknown" 128)
       (column (deref (msg_UserGoal msg)) "(消息缺少分析目标)" 500)
       attempts
       (column (CodeOf (Some cause)) "UNKNOWN" 128)
       (match RootCause (Some cause) with Some root => Some (SanitizeError (ErrorString root)) | None => None end)
       "FAILED" created updated)))).

Definition isPlaceholderRecord (t : FailedAnalysisTask) : bool :=
  (ft_MediaID t =? unknownMediaID) || negb (IsSupportedAction (ft_Action t)).

Definition Replay (ctx : Context) (id : Z) : proc AnalysisE (res unit) :=
  found ←? call (FailedFindByID ctx id);
  match found with
  | None => Ret (Err (NotFound "失败任务不存在"))
  | Some task =>
      if negb (String.eqb (ft_Status task) "FAILED") then Ret (Err (InvalidArgument "该失败任务已经重放"))
      else if isPlaceholderRecord task then
        Ret (Err (InvalidArgument "该记录来自非法任务消息，缺少可重放的原始参数"))
      else
        let mode := ModeFromNullable (ft_Mode task) in
        let hash := NormalizeContentHash (ft_MediaID task) (ft_ContentHash task) in
        match GoalDigest (ft_UserGoal task) mode with
        | Err e => Ret (Err e)
        | Ok digest =>
            let activeKey := Active hash digest in
            ok ←? call (RSetNX ctx activeKey (FormatInt (ft_MediaID task)) activeTTL);
            if negb ok then Ret (Err (InvalidArgument "相同任务正在处理中"))
            else
              Do (SenderPublishTask ctx
                    (NewTaskMsg (ft_MediaID task) (ft_Action task) hash (ft_UserGoal task) mode)) (fun r =>
              match r with
              | Err e => Do (RDel (WithoutCancel ctx) activeKey) (fun _ => Ret (Err e))
              | Ok _ =>
                  n ←? call (FailedMarkRequeued ctx id);
                  if negb (n =? 1) then Ret (Err (Internal "失败任务重放台账更新失败" None))
                  else
                    Do (HubPublishAnalysis ctx (ft_MediaID task) (ft_UserGoal task) mode
                          (StatusOf StateQueued "失败任务已由管理员重新入队") StageManualReplay) (fun _ =>
                    Ret (Ok tt))
              end)
        end
  end.

End dispatcher.


(** ** Specification vocabulary *)

(** The steps of a submission that took effect, in order. *)
Inductive effect :=
| KeyTaken (key value : string) (ttl : Z)
| KeyReleased (ctx : Context) (key : string)
| QuotaTaken (userID : Z)
| RevisionStaged (fb : AgentFeedback)
| RevisionCancelled (ctx : Context) (mediaID : Z) (goal : string) (mode : AnalysisMode)
| TaskQueued (msg : AnalysisTaskMsg)
| LedgerRequeued (id : Z).

Definition effects : trace AnalysisE -> list effect :=
  select (fun X c =>
    match c in AnalysisE X return X -> option effect with
    | RSetNX _ k v ttl => fun r => match r with Ok true => Some (KeyTaken k v ttl) | _ => None end
    | RDel ctx k => fun _ => Some (KeyReleased ctx k)
    | LimiterTake _ _ uid _ _ => fun r => match r with Ok true => Some (QuotaTaken uid) | _ => None end
    | StageRevision _ fb _ => fun r => match r with Ok _ => Some (RevisionStaged fb) | _ => None end
    | CancelRevision ctx id g m => fun _ => Some (RevisionCancelled ctx id g m)
    | SenderPublishTask _ msg => fun r => match r with Ok _ => Some (TaskQueued msg) | _ => None end
    | FailedMarkRequeued _ id => fun r =>
        match r with Ok n => if n =? 1 then Some (LedgerRequeued id) else None | _ => None end
    | _ => fun _ => None
    end).

(** What a submission is for: the content scope is the media file itself for a revision, and the content
    hash the media service gave otherwise. *)
Definition submissionScope (revision : option AgentFeedback) (mediaID : Z) (h : string) : string :=
  match revision with Some _ => "media-" +:+ FormatInt mediaID | None => NormalizeContentHash mediaID h end.

Definition submissionAction (revision : option AgentFeedback) : string :=
  match revision with Some _ => ActionRevise | None => ActionStart end.

Definition stagedSteps (staged : option AgentFeedback) : list effect :=
  match staged with Some fb => [RevisionStaged fb] | None => [] end.

(** The feedback staged for a revision is the normalised one. *)
Definition stagesFor (mode : AnalysisMode) (revision staged : option AgentFeedback) : Prop :=
  match revision, staged with
  | Some fb, Some n => exists now, n = Normalized now mode fb
  | None, None => True
  | _, _ => False
  end.

Definition cancelSteps (ctx : Context) (revision : option AgentFeedback) (mediaID : Z) (goal : string)
    (mode : AnalysisMode) : list effect :=
  match revision with Some _ => [RevisionCancelled ctx mediaID goal mode] | None => [] end.

(** What [Submit] leaves behind once the key [key] of scope [hash] is its own. *)
Definition submitted (ctx : Context) (mf : MediaFile) (goal : string) (revision : option AgentFeedback)
    (mode : AnalysisMode) (hash key : string) (r : SubmissionResult) (eff : list effect) : Prop :=
  let msg := NewTaskMsg (mf_ID mf) (submissionAction revision) hash goal mode in
  let bg := WithoutCancel ctx in
  match r with
  | Accepted => exists staged, stagesFor mode revision staged
      /\ eff = QuotaTaken (mf_UserID mf) :: stagedSteps staged ++ [TaskQueued msg]
  | RateLimited => eff = [KeyReleased ctx key]
  | Failed => exists work, eff = work ++ KeyReleased bg key :: cancelSteps bg revision (mf_ID mf) goal mode
      /\ (work = [] \/ work = [QuotaTaken (mf_UserID mf)]
          \/ exists staged, stagesFor mode revision staged
               /\ work = QuotaTaken (mf_UserID mf) :: stagedSteps staged)
  | Duplicate => False
  end.

Ltac submission_case :=
  answers; eexists; (split; [done|]); cbn;
  first [ done
        | exists None; by split
        | eexists (Some _); split; [cbn; by eexists|done]
        | eexists []; split; [done|by left]
        | eexists [_]; split; [done|by (right; left)]
        | eexists [_; _]; split; [done|]; right; right; eexists (Some _); split; [cbn; by eexists|done] ].

Lemma submitAccepted_spec ctx mf goal revision mode hash key :
  wp (submitAccepted ctx mf goal revision mode (submissionAction revision) hash key)
     (fun tr r => exists s, r = Ok s /\ submitted ctx mf goal revision mode hash key s (effects tr)).
Proof. unfold submitAccepted, tryAcquireQuota, submitFail, normalizedFeedback. wp_go; submission_case. Qed.

(** The content hash a submission works with is the one the media service answered. *)
Definition scopeKnown (ctx : Context) (revision : option AgentFeedback) (mediaID : Z) (h : string)
    (tr : trace AnalysisE) : Prop :=
  revision = None -> Ev (MediaContentHash ctx mediaID) (Ok h) ∈ tr.

Definition submit_post `{Sha256} (ctx : Context) (mf : MediaFile) (goal : string)
    (revision : option AgentFeedback) (mode : AnalysisMode) (tr : trace AnalysisE)
    (r : res SubmissionResult) : Prop :=
  match r with
  | Err _ | Ok Duplicate => effects tr = []
  | Ok s =>
      exists h digest eff,
        let hash := submissionScope revision (mf_ID mf) h in
        let key := Active hash digest in
        scopeKnown ctx revision (mf_ID mf) h tr
        /\ GoalDigest goal (Resolve mode) = Ok digest
        /\ effects tr = KeyTaken key (FormatInt (mf_ID mf)) activeTTL :: eff
        /\ submitted ctx mf goal revision (Resolve mode) hash key s eff
  end.

Lemma Submit_post `{Sha256} ctx mf goal revision mode :
  wp (Submit ctx mf goal revision mode) (submit_post ctx mf goal revision mode).
Proof.
  unfold Submit, contentHash. wp_go; answers; try done.
  - set (hash := "media-" +:+ FormatInt (mf_ID mf)).
    change ActionRevise with (submissionAction (Some a0)).
    eapply wp_mono; [apply submitAccepted_spec|]. intros tr r (s & -> & Hs).
    destruct s; try done; exists "", a1, (effects tr); (split; [done|by split_and!]).
  - change ActionStart with (submissionAction None).
    eapply wp_mono; [apply submitAccepted_spec|]. intros tr r (s & -> & Hs).
    destruct s; try done; exists a0, a1, (effects tr); (split; [intros _; ev_in|by split_and!]).
Qed.

(** C14. A submission is all or nothing. [Submit] never panics; an error or [Duplicate] leaves no trace
    (the key was not won, no quota was taken, nothing was staged or queued); [Accepted] means that the
    idempotency key of this content and goal was won with its six-hour life, quota taken, a revision's
    normalised feedback staged and exactly one task queued, in this order, and the key kept; [RateLimited]
    and [Failed] leave nothing queued and give the key back, [Failed] under a context no cancellation can
    cut short and with the staged revision cancelled. *)
Theorem Submit_contract `{Sha256} (ctx : Context) (mf : MediaFile) (goal : string)
    (revision : option AgentFeedback) (mode : AnalysisMode) :
  wp (Submit ctx mf goal revision mode) (fun tr r =>
    detached (WithoutCancel ctx)
    /\ match r with
       | Err _ | Ok Duplicate => effects tr = []
       | Ok s =>
           exists h digest eff,
             let hash := submissionScope revision (mf_ID mf) h in
             let key := Active hash digest in
             scopeKnown ctx revision (mf_ID mf) h tr
             /\ GoalDigest goal (Resolve mode) = Ok digest
             /\ effects tr = KeyTaken key (FormatInt (mf_ID mf)) activeTTL :: eff
             /\ submitted ctx mf goal revision (Resolve mode) hash key s eff
       end).
Proof. eapply wp_mono; [apply Submit_post|]. intros tr r Hr. split; [done|exact Hr]. Qed.

(** A delivery that carries [msg]. *)
Definition delivers (msg : AnalysisTaskMsg) (d : Delivery) : Prop :=
  d_DecodeErr d = None /\ d_Msg d = Some msg.

Lemma ModeFromNullable_valid m : m ∈ all_modes -> ModeFromNullable m = m.
Proof. unfold all_modes. rewrite !elem_of_cons, elem_of_nil. by intros [->|[->|[->|[->|[]]]]]. Qed.

Lemma GoalDigest_ok_goal `{Sha256} goal mode digest : GoalDigest goal mode = Ok digest -> is_blank goal = false.
Proof. unfold GoalDigest, isBlank. by destruct (is_blank goal). Qed.

(** The consumer derives from a queued message the keys the producer used. *)
Lemma taskOf_new `{Sha256} id action hash goal mode digest d :
  IsSupportedAction action = true -> mode ∈ all_modes -> GoalDigest goal mode = Ok digest ->
  delivers (NewTaskMsg id action hash goal mode) d ->
  taskOf d = Ok (mkTask (NewTaskMsg id action hash goal mode) id goal mode
                   (Active (NormalizeContentHash id hash) digest)
                   (CompletedKey (NormalizeContentHash id hash) digest)
                   (LockKey (NormalizeContentHash id hash) digest)).
Proof.
  intros Ha Hm Hd [H1 H2]. unfold taskOf. rewrite H1, H2. unfold RejectionReason.
  cbn [msg_MediaID msg_UserGoal msg_Mode msg_ContentHash NewTaskMsg deref HasSupportedAction msg_Action].
  rewrite (GoalDigest_ok_goal _ _ _ Hd), Ha. simpl. by rewrite ModeFromNullable_valid, Hd by done.
Qed.

Lemma submissionScope_norm revision id h :
  NormalizeContentHash id (submissionScope revision id h) = submissionScope revision id h.
Proof. destruct revision; [apply NormalizeContentHash_media|apply NormalizeContentHash_idem]. Qed.

Lemma submitted_queue ctx mf goal revision mode hash key s eff msg :
  submitted ctx mf goal revision mode hash key s eff -> TaskQueued msg ∈ eff ->
  s = Accepted /\ msg = NewTaskMsg (mf_ID mf) (submissionAction revision) hash goal mode.
Proof.
  unfold submitted, cancelSteps. destruct s; [|by intros -> Hin; in_cases Hin|done|].
  - intros (staged & _ & ->) Hin. by destruct staged; in_cases Hin.
  - intros (work & -> & Hw) Hin. exfalso.
    destruct revision, Hw as [->|[->|(staged & _ & ->)]]; try destruct staged; in_cases Hin.
Qed.

(** Producer and consumer agree on the task. Whenever [Submit] queues a message (for a mode the
    gateway knows), a consumer that receives it derives the same task from it and in particular the very
    idempotency key that [Submit] won, so that the key the consumer releases when the task is over is the
    key that blocks duplicate submissions. *)
Theorem submitted_task_key `{Sha256} (ctx : Context) (mf : MediaFile) (goal : string)
    (revision : option AgentFeedback) (mode : AnalysisMode) :
  mode ∈ "" :: all_modes ->
  wp (Submit ctx mf goal revision mode) (fun tr r =>
    forall key value ttl msg d,
      KeyTaken key value ttl ∈ effects tr -> TaskQueued msg ∈ effects tr -> delivers msg d ->
      exists t, taskOf d = Ok t /\ t_Msg t = msg /\ t_ActiveKey t = key
        /\ t_MediaID t = mf_ID mf /\ t_Goal t = goal /\ t_Mode t = Resolve mode).
Proof.
  intros Hmode%Resolve_valid. eapply wp_mono; [apply Submit_post|].
  intros tr r Hr key value ttl msg d Hk Hq Hd. unfold submit_post in Hr.
  assert (exists s, r = Ok s) as [s ->] by (destruct r; [eauto|]; rewrite Hr in Hq; in_cases Hq).
  assert (exists h digest eff, let hash := submissionScope revision (mf_ID mf) h in
    GoalDigest goal (Resolve mode) = Ok digest
    /\ effects tr = KeyTaken (Active hash digest) (FormatInt (mf_ID mf)) activeTTL :: eff
    /\ submitted ctx mf goal revision (Resolve mode) hash (Active hash digest) s eff)
    as (h & digest & eff & Hg & Heff & Hs).
  { destruct s; try (destruct Hr as (h & digest & eff & _ & Hr); by exists h, digest, eff).
    rewrite Hr in Hq. in_cases Hq. }
  rewrite Heff in Hq, Hk. apply elem_of_cons in Hq as [[=]|Hq].
  destruct (submitted_queue _ _ _ _ _ _ _ _ _ _ Hs Hq) as [-> ->].
  assert (IsSupportedAction (submissionAction revision) = true) as Ha by (by destruct revision);
  rewrite (taskOf_new _ _ _ _ _ _ _ Ha Hmode Hg Hd). eexists. split; [done|].
  simpl. rewrite submissionScope_norm. split; [done|]. split; [|done].
  destruct Hs as (staged & _ & ->). apply elem_of_cons in Hk as [[= ->]|Hk]; [done|].
  exfalso. destruct staged; in_cases Hk.
Qed.

(** ** Replays and ledger rows *)

Definition replayMsg (task : FailedAnalysisTask) : AnalysisTaskMsg :=
  NewTaskMsg (ft_MediaID task) (ft_Action task) (NormalizeContentHash (ft_MediaID task) (ft_ContentHash task))
    (ft_UserGoal task) (ModeFromNullable (ft_Mode task)).

Lemma mode_valid v : ModeFromNullable v ∈ all_modes.
Proof.
  unfold ModeFromNullable. destruct (is_blank v); [by left|].
  destruct (validMode v) as [m|] eqn:Em; [by eapply validMode_valid|by left].
Qed.

Lemma replay_taskOf `{Sha256} task digest d :
  IsSupportedAction (ft_Action task) = true ->
  GoalDigest (ft_UserGoal task) (ModeFromNullable (ft_Mode task)) = Ok digest ->
  delivers (replayMsg task) d ->
  exists t, taskOf d = Ok t /\ t_Msg t = replayMsg task
    /\ t_ActiveKey t = Active (NormalizeContentHash (ft_MediaID task) (ft_ContentHash task)) digest.
Proof.
  intros Ha Hd Hdel. eexists. split; [by eapply taskOf_new; [exact Ha|apply mode_valid|exact Hd|exact Hdel]|].
  simpl. split; [done|]. by rewrite NormalizeContentHash_idem.
Qed.

Lemma placeholder_action task : isPlaceholderRecord task = false -> IsSupportedAction (ft_Action task) = true.
Proof. unfold isPlaceholderRecord. intros [_ ?]%orb_false_iff. by apply negb_false_iff. Qed.

(** Replaying a failed task. [Replay] touches nothing unless the ledger row exists, is still FAILED and
    was not written for an undecodable message. When it reports success it has won the task's idempotency
    key, queued exactly one message (from which a consumer derives that very key) and marked the row, in
    this order. When it fails after winning the key, either nothing was queued and the key was given back
    under a detached context, or the task is queued and only the row could not be marked, in which case
    the key stays and blocks a second replay until the consumer is done. *)
Theorem Replay_contract `{Sha256} (ctx : Context) (id : Z) :
  wp (Replay ctx id) (fun tr r =>
    (effects tr = [] /\ exists e, r = Err e)
    \/ exists task digest,
         let key := Active (NormalizeContentHash (ft_MediaID task) (ft_ContentHash task)) digest in
         let taken := KeyTaken key (FormatInt (ft_MediaID task)) activeTTL in
         let queued := TaskQueued (replayMsg task) in
         Ev (FailedFindByID ctx id) (Ok (Some task)) ∈ tr
         /\ ft_Status task = "FAILED" /\ isPlaceholderRecord task = false
         /\ (forall d, delivers (replayMsg task) d ->
              exists t, taskOf d = Ok t /\ t_Msg t = replayMsg task /\ t_ActiveKey t = key)
         /\ match r with
            | Ok _ => effects tr = [taken; queued; LedgerRequeued id]
            | Err _ => effects tr = [taken; KeyReleased (WithoutCancel ctx) key]
                       \/ effects tr = [taken; queued]
            end).
Proof.
  unfold Replay. wp_go; answers; try (left; split; [done|by eexists]).
  all: right; exists f, a0; (split; [ev_in|]); (split; [by apply String.eqb_eq|]); (split; [done|]).
  all: split; [intros d Hd; eapply replay_taskOf; eauto using placeholder_action|].
  all: cbn; try match goal with H : (_ =? 1) = _ |- _ => rewrite H end; auto.
Qed.

(** Cutting an action to the column width does not turn it into another one. *)
Lemma unsupported_column msg :
  HasSupportedAction msg = false -> IsSupportedAction (column (deref (msg_Action msg)) "UNKNOWN" 32) = false.
Proof.
  intros Ha. unfold column. destruct (is_blank (deref (msg_Action msg))) eqn:Eb; [done|].
  destruct (truncateUTF16_full (deref (msg_Action msg)) 32 ltac:(lia)) as [->|Hlong].
  - unfold HasSupportedAction in Ha. by destruct (msg_Action msg).
  - apply not_true_is_false. unfold IsSupportedAction. intros [E|E]%orb_prop; apply String.eqb_eq in E;
      rewrite E in Hlong; by vm_compute in Hlong.
Qed.

Definition unitsWithin (s : string) (n : Z) : Prop := utf16Len s <= n.

(** A failure always fits its ledger row. Whatever the message and the error, [Record] inserts exactly
    one row, whose text columns are within the widths of the table (32, 32, 128, 500, 128 and 1000 UTF-16
    units), whose mode is one of the four modes and whose status is FAILED; a row written for a message
    without media id or with an unknown action is never replayed. *)
Theorem RecordFailure_fits (ctx : Context) (msg : AnalysisTaskMsg) (attempts : Z) (cause : gerror) :
  wp (RecordFailure ctx msg attempts cause) (fun tr r =>
    exists created updated row,
      tr = [Ev LocalNow created; Ev LocalNow updated; Ev (FailedInsert ctx row) r]
      /\ unitsWithin (ft_Action row) 32 /\ ft_Mode row ∈ all_modes /\ unitsWithin (ft_ContentHash row) 128
      /\ unitsWithin (ft_UserGoal row) 500 /\ unitsWithin (ft_ErrorType row) 128
      /\ (forall m, ft_ErrorMessage row = Some m -> unitsWithin m 1000)
      /\ ft_Status row = "FAILED" /\ ft_AttemptCount row = attempts
      /\ (msg_MediaID msg = None \/ HasSupportedAction msg = false -> isPlaceholderRecord row = true)).
Proof.
  unfold RecordFailure. wp_go. do 3 eexists. split; [done|]. simpl.
  unfold unitsWithin, column. split_and!; try (by apply truncateUTF16_bound); try done.
  - apply mode_valid.
  - intros m Hm. repeat case_match; simplify_eq. by apply truncateUTF16_bound.
  - unfold isPlaceholderRecord. simpl. intros [->|Ha]; [done|].
    apply orb_true_iff. right. apply negb_true_iff. by apply unsupported_column.
Qed.

(** ** A concrete run *)

#[local] Instance plain_digest : Sha256 := fun v => v.

Definition accepting : env AnalysisE := fun _ X c =>
  match c in AnalysisE X return X with
  | BillingCheck _ _ => Ok tt
  | MediaContentHash _ _ => Ok "0123456789ABCDEF0123456789abcdef"
  | RSetNX _ _ _ _ => Ok true
  | RDel _ _ => Ok tt
  | RExists _ _ => Ok 0
  | LimiterTake _ _ _ _ _ => Ok true
  | StageRevision _ _ _ => Ok ""
  | CancelRevision _ _ _ _ => Ok tt
  | SenderPublishTask _ _ => Ok tt
  | HubPublishAnalysis _ _ _ _ _ _ => Ok tt
  | InstantNow => "2025-01-01T00:00:00Z"
  | LocalNow => 0
  | FailedInsert _ _ => Ok tt
  | FailedLatest _ => Ok []
  | FailedFindByID _ _ => Ok None
  | FailedMarkRequeued _ _ => Ok 1
  | CpHasResult _ _ _ _ => Ok false
  | CpLoadStage _ _ _ _ => Ok ""
  | AgResult _ _ _ _ => Err (NotFound "")
  end.

Definition sampleMedia : MediaFile := mkMediaFile 7 3 "a.mp4" "UPLOADED" "videos/a.mp4" None None None None 0.

Definition sampleMsg : AnalysisTaskMsg :=
  NewTaskMsg 7 ActionStart "0123456789abcdef0123456789abcdef" "notes" ModeLearning.

Definition sampleDelivery : Delivery := mkDelivery TopicAnalysis 0 0 "" "" (Some sampleMsg) None 1 zero_time "".

Definition sampleKey : string := "analysis:active:0123456789abcdef0123456789abcdef:LEARNING␟notes".

Lemma submitted_task_key_witness :
  ModeLearning ∈ "" :: all_modes
  /\ exists t, taskOf sampleDelivery = Ok t /\ t_Msg t = sampleMsg /\ t_ActiveKey t = sampleKey
       /\ t_MediaID t = 7 /\ t_Goal t = "notes" /\ t_Mode t = ModeLearning.
Proof.
  assert (ModeLearning ∈ "" :: all_modes) as Hm by (right; right; left). split; [exact Hm|].
  pose proof (submitted_task_key RequestContext sampleMedia "notes" None ModeLearning Hm) as H.
  apply (run_wp accepting []) in H as (r & _ & H).
  apply (H sampleKey "7" activeTTL sampleMsg sampleDelivery); [vm_compute; left|vm_compute; do 2 right; left|done].
Defined.
