(* ===== verification/Delivery.v ===== *)
(** * From a submission to the end of its task

    The submission of dispatch.go, the producer of producer.go and the pipeline of Pipeline.v composed: the message
    that [Submit] queues is marshalled as JSON into one record, and whatever record the pipeline makes of it,
    the consumer derives the task that was submitted.  encoding/json writes a string that is not valid UTF-8
    with U+FFFD for each invalid byte; what that means for a goal of a request is [altered_task]. *)

From S2P Require Import Prelude GoStrings Proc Errors Model GoContext TaskKeys Routing AgentClient Consumer Runner Pipeline Dispatch.

Local Open Scope string_scope.
Local Open Scope list_scope.
Local Open Scope Z_scope.

(** ** JSON messages *)

(** U+FFFD in UTF-8. *)
Definition replacement : string := char 239 +:+ char 191 +:+ char 189.

Definition coerce (s : string) : string :=
  String.concat "" ((fun c => if chunk_valid c then ck_text c else replacement) <$> chunks s).

Definition coerceMsg (m : AnalysisTaskMsg) : AnalysisTaskMsg :=
  mkMsg (msg_MediaID m) (coerce <$> msg_Action m) (coerce <$> msg_ContentHash m) (coerce <$> msg_UserGoal m)
    (coerce <$> msg_Mode m).

(** What encoding/json does to a task message. *)
Class JsonMsg `{MsgCodec} :=
  json_msg : forall msg body, marshalMsg msg = Ok body -> unmarshalMsg body = Ok (Some (coerceMsg msg)).

Lemma coerce_valid s : ValidString s = true -> coerce s = s.
Proof.
  unfold coerce, ValidString. intros Hv. rewrite <- (unchunk_chunks s) at 2. unfold unchunk.
  induction (chunks s) as [|c l IH]; [done|]. cbn in Hv. apply andb_prop in Hv as [Hc Hl].
  cbn [fmap list_fmap foldr]. rewrite Hc, concat_cons. by rewrite <- IH.
Qed.

Lemma ascii_valid s : str_forall is_ascii s = true -> ValidString s = true.
Proof.
  intros Hs. unfold ValidString. rewrite chunks_ascii by done. rewrite forallb_forall. intros c Hc.
  apply in_map_iff in Hc as (a & <- & Ha). unfold chunk_valid. cbn [ck_rune ck_text]. pose proof (byte_nonneg a).
  unfold rune_error. destruct (Z.eqb_spec (byte a) 0xFFFD); [lia|done].
Qed.

Lemma dec_ascii a : dec_char a = true -> is_ascii a = true.
Proof. revert a. apply ascii_implies. vm_compute. reflexivity. Qed.

Lemma media_scope_ascii id : str_forall is_ascii ("media-" +:+ FormatInt id) = true.
Proof. rewrite str_forall_app. apply andb_true_intro. split; [done|]. eapply str_forall_weaken; [apply dec_ascii|apply FormatInt_chars]. Qed.

Lemma hex_lower_ascii a : is_hex a = true -> is_ascii (lower_ascii a) = true.
Proof. revert a. apply ascii_implies. vm_compute. reflexivity. Qed.

Lemma hash_ascii id h : str_forall is_ascii (NormalizeContentHash id h) = true.
Proof.
  unfold NormalizeContentHash, md5Pattern. destruct (_ && _) eqn:E; [|apply media_scope_ascii].
  apply andb_prop in E as [_ Hh]. rewrite ToLower_hex by done. by eapply str_forall_map; [apply hex_lower_ascii|].
Qed.

Lemma scope_ascii revision id h : str_forall is_ascii (submissionScope revision id h) = true.
Proof. destruct revision; [apply media_scope_ascii|apply hash_ascii]. Qed.

(** Of a submitted message only the goal can be altered. *)
Lemma coerce_submitted id revision h goal mode : mode ∈ all_modes ->
  coerceMsg (NewTaskMsg id (submissionAction revision) (submissionScope revision id h) goal mode)
  = NewTaskMsg id (submissionAction revision) (submissionScope revision id h) (coerce goal) mode.
Proof.
  intros Hm. unfold coerceMsg, NewTaskMsg. cbn. rewrite (coerce_valid (submissionScope revision id h)) by apply ascii_valid, scope_ascii.
  rewrite (coerce_valid (submissionAction revision)) by (by destruct revision). rewrite (coerce_valid mode); [done|].
  unfold all_modes in Hm. rewrite !elem_of_cons, elem_of_nil in Hm. by destruct Hm as [->|[->|[->|[->|[]]]]].
Qed.

(** ** The record of a submission *)

Section delivery.
Context `{Sha256, JsonMsg}.

(** What an accepted submission queued, and the key it won for it. *)
Lemma submitted_message ctx mf goal revision mode tr :
  execs (Submit ctx mf goal revision mode) tr (Ok Accepted) ->
  exists h digest, let hash := submissionScope revision (mf_ID mf) h in
    GoalDigest goal (Resolve mode) = Ok digest
    /\ (forall key value ttl, KeyTaken key value ttl ∈ effects tr -> key = Active hash digest)
    /\ (forall msg, TaskQueued msg ∈ effects tr ->
         msg = NewTaskMsg (mf_ID mf) (submissionAction revision) hash goal (Resolve mode)).
Proof.
  intros Hex. pose proof (wp_execs _ _ _ _ (Submit_post ctx mf goal revision mode) Hex) as (h & digest & eff & _ & Hd & He & Hs).
  exists h, digest. split; [done|]. rewrite He. split.
  - intros key value ttl [[= ->]|Hin]%elem_of_cons; [done|]. exfalso. destruct Hs as (staged & _ & ->). destruct staged; in_cases Hin.
  - intros msg [[=]|Hin]%elem_of_cons. by destruct (submitted_queue _ _ _ _ _ _ _ _ _ _ Hs Hin) as [_ ->].
Qed.

(** The record of a message: what [PublishTask] had acknowledged. *)
Definition published (msg : AnalysisTaskMsg) (rec : KRecord) : Prop :=
  exists pctx ptr, execs (PublishTask pctx msg) ptr (Ok tt) /\ Ev (ProduceSync pctx rec) (Ok tt) ∈ ptr.

Lemma published_value msg rec : published msg rec -> marshalMsg msg = Ok (rec_Value rec).
Proof.
  intros (pctx & ptr & Hex & Hin). unfold PublishTask, Produce in Hex.
  assert (wp (PublishTask pctx msg) (fun tr r => r = Ok tt -> Ev (ProduceSync pctx rec) (Ok tt) ∈ tr -> marshalMsg msg = Ok (rec_Value rec))) as Hw.
  { unfold PublishTask, Produce. destruct (marshalMsg msg) as [body|e]; cbn; [|done]. intros x -> Hin'. in_cases Hin'. }
  exact (wp_execs _ _ _ _ Hw Hex eq_refl Hin).
Qed.

(** The task the consumer derives from any record with that value. *)
Lemma derived_task id revision h goal mode digest value rec :
  mode ∈ all_modes -> GoalDigest (coerce goal) mode = Ok digest ->
  marshalMsg (NewTaskMsg id (submissionAction revision) (submissionScope revision id h) goal mode) = Ok value ->
  rec_Value rec = value ->
  exists t, taskOf (DecodeRecord rec) = Ok t /\ t_ActiveKey t = Active (submissionScope revision id h) digest
    /\ t_MediaID t = id /\ t_Goal t = coerce goal /\ t_Mode t = mode.
Proof.
  intros Hm Hg Hv Hrec. apply json_msg in Hv. rewrite coerce_submitted in Hv by done. rewrite <- Hrec in Hv.
  assert (delivers (NewTaskMsg id (submissionAction revision) (submissionScope revision id h) (coerce goal) mode) (DecodeRecord rec)) as Hd.
  { unfold delivers, DecodeRecord. by rewrite Hv. }
  assert (IsSupportedAction (submissionAction revision) = true) as Ha by (by destruct revision).
  rewrite (taskOf_new _ _ _ _ _ _ _ Ha Hm Hg Hd). eexists. split; [done|]. cbn. by rewrite submissionScope_norm.
Qed.

(** A task that was accepted is never lost, nor mistaken for another. When a submission (with a mode the gateway
    knows and a goal that is text) was accepted, and the broker holds the record of its message, then in every
    reachable state of the pipeline - whatever processes joined, crashed, rebalanced, failed or shut down - that
    record leads through at most two retries to one that is pending or concluded, and from every record on
    the way the consumer derives the very task submitted: the media, the goal, the mode, and the idempotency
    key that the submission won. *)
Theorem accepted_task_followed (RedeliverBackoff : Z) (ctx : Context) (mf : MediaFile) (goal : string)
    (revision : option AgentFeedback) (mode : AnalysisMode) (tr : trace AnalysisE) :
  0 < RedeliverBackoff -> mode ∈ "" :: all_modes -> ValidString goal = true ->
  execs (Submit ctx mf goal revision mode) tr (Ok Accepted) ->
  forall key value ttl msg, KeyTaken key value ttl ∈ effects tr -> TaskQueued msg ∈ effects tr ->
  forall p rec tp o, published msg rec -> rtc (pstep RedeliverBackoff) start p -> logOf p tp !! o = Some (placed rec tp o) ->
  exists n rec' t, (n <= 2)%nat /\ nsteps (forwardedTo p) n (placed rec tp o) rec'
    /\ taskOf (DecodeRecord rec') = Ok t /\ t_ActiveKey t = key
    /\ t_MediaID t = mf_ID mf /\ t_Goal t = goal /\ t_Mode t = Resolve mode
    /\ (pendingIn p rec' \/ concluded p rec').
Proof.
  intros Hb Hm%Resolve_valid Hv Hex key value ttl msg Hk Hq p rec tp o Hpub Hr Hl.
  destruct (submitted_message _ _ _ _ _ _ Hex) as (h & digest & Hd & Hkeys & Hmsgs). apply Hkeys in Hk as ->. apply Hmsgs in Hq as ->.
  destruct (followed p (placed rec tp o) (reachable_inv _ p Hb Hr)) as (n & rec' & Hn & Hsteps & _ & Hval & Hend); [by exists tp, o|].
  rewrite <- (coerce_valid goal Hv) in Hd. apply published_value in Hpub.
  destruct (derived_task _ _ _ _ _ _ _ rec' Hm Hd Hpub Hval) as (t & Ht & Hkey & Hid & Hgoal & Hmode).
  exists n, rec', t. rewrite (coerce_valid goal Hv) in Hgoal. by split_and!.
Qed.

(** A goal that is not valid UTF-8 is accepted as well, and then the consumer works on another task: its goal
    has U+FFFD for the invalid bytes, and the key it releases at the end is not the one the submission won
    (when the two goals have different digests). That one stays for its six hours. *)
Theorem altered_task (ctx : Context) (mf : MediaFile) (goal : string) (revision : option AgentFeedback)
    (mode : AnalysisMode) (tr : trace AnalysisE) (digest digest' : string) :
  mode ∈ "" :: all_modes -> execs (Submit ctx mf goal revision mode) tr (Ok Accepted) ->
  GoalDigest goal (Resolve mode) = Ok digest -> GoalDigest (coerce goal) (Resolve mode) = Ok digest' -> digest <> digest' ->
  forall key value ttl msg rec, KeyTaken key value ttl ∈ effects tr -> TaskQueued msg ∈ effects tr -> published msg rec ->
  exists t, taskOf (DecodeRecord rec) = Ok t /\ t_Goal t = coerce goal /\ t_ActiveKey t <> key.
Proof.
  intros Hm%Resolve_valid Hex Hg Hg' Hne key value ttl msg rec Hk Hq Hpub.
  destruct (submitted_message _ _ _ _ _ _ Hex) as (h & digest0 & Hd & Hkeys & Hmsgs). apply Hkeys in Hk as ->. apply Hmsgs in Hq as ->.
  assert (digest0 = digest) as -> by congruence. apply published_value in Hpub.
  destruct (derived_task _ _ _ _ _ _ _ rec Hm Hg' Hpub eq_refl) as (t & Ht & Hkey & _ & Hgoal & _). exists t. split; [done|]. split; [done|].
  rewrite Hkey. unfold Active. intros E. apply str_app_inj_l in E. 
  apply str_app_inj_l in E. apply str_app_inj_l in E. by apply Hne.
Qed.

End delivery.

(** ** One submission, and one whose goal is not text *)

#[local] Existing Instance plain_digest.

Definition garbled : string := char 255 +:+ "x".

Definition garbledMsg : AnalysisTaskMsg :=
  NewTaskMsg 7 ActionStart "0123456789abcdef0123456789abcdef" garbled ModeLearning.

#[local] Instance msg_eq_dec : EqDecision AnalysisTaskMsg.
Proof. solve_decision. Defined.

(** A codec that knows two messages. *)
#[local] Instance twoMessages : MsgCodec := {
  marshalMsg := fun m => if decide (m = sampleMsg) then Ok "1" else if decide (m = garbledMsg) then Ok "2"
                         else Err (OtherErr "unsupported" None None);
  unmarshalMsg := fun b => if String.eqb b "1" then Ok (Some (coerceMsg sampleMsg))
                           else if String.eqb b "2" then Ok (Some (coerceMsg garbledMsg)) else Ok None }.

#[local] Instance twoMessages_json : JsonMsg.
Proof.
  intros msg body. unfold marshalMsg, twoMessages. destruct (decide (msg = sampleMsg)) as [->|_]; [by intros [= <-]|].
  destruct (decide (msg = garbledMsg)) as [->|_]; [by intros [= <-]|done].
Qed.

Definition submitting (goal : string) : trace AnalysisE :=
  fst (run accepting [] (Submit RequestContext sampleMedia goal None ModeLearning)).

Lemma submitting_accepted goal : goal = "notes" \/ goal = garbled ->
  execs (Submit RequestContext sampleMedia goal None ModeLearning) (submitting goal) (Ok Accepted).
Proof. intros [->| ->]; apply (run_execs accepting []); vm_compute; reflexivity. Qed.

Definition sampleRecord : KRecord :=
  mkRecord TopicAnalysis "0123456789abcdef0123456789abcdef" "1" (taskHeaders 1 zero_time "" []) 0 0.

Lemma sample_published : published sampleMsg sampleRecord.
Proof.
  exists RequestContext, [Ev (ProduceSync RequestContext sampleRecord) (Ok tt)]. split; [|by left].
  apply (execs_do _ _ _ (Ok tt)), execs_ret.
Qed.

Definition onePublished : pipeline := append start examplePartition sampleRecord.

Lemma accepted_task_followed_witness :
  published sampleMsg sampleRecord /\ rtc (pstep second) start onePublished
  /\ exists n rec' t, (n <= 2)%nat /\ nsteps (forwardedTo onePublished) n (placed sampleRecord examplePartition 0) rec'
       /\ taskOf (DecodeRecord rec') = Ok t /\ t_ActiveKey t = sampleKey
       /\ t_MediaID t = 7 /\ t_Goal t = "notes" /\ t_Mode t = ModeLearning
       /\ (pendingIn onePublished rec' \/ concluded onePublished rec').
Proof.
  split; [exact sample_published|].
  assert (rtc (pstep second) start onePublished) as Hr by (apply rtc_once, p_publish). split; [exact Hr|].
  apply (accepted_task_followed second RequestContext sampleMedia "notes" None ModeLearning (submitting "notes"))
    with (value := "7") (ttl := activeTTL) (msg := sampleMsg) (rec := sampleRecord);
    [vm_compute; reflexivity|right; right; by left|vm_compute; reflexivity|apply submitting_accepted; by left
    |vm_compute; by left|vm_compute; do 2 right; by left|exact sample_published|exact Hr|vm_compute; reflexivity].
Defined.

Definition garbledRecord : KRecord :=
  mkRecord TopicAnalysis "0123456789abcdef0123456789abcdef" "2" (taskHeaders 1 zero_time "" []) 0 0.

Definition garbledKey : string := "analysis:active:0123456789abcdef0123456789abcdef:LEARNING␟" +:+ garbled.

Lemma altered_task_witness :
  ValidString garbled = false
  /\ exists t, taskOf (DecodeRecord garbledRecord) = Ok t /\ t_Goal t = coerce garbled /\ t_ActiveKey t <> garbledKey.
Proof.
  split; [vm_compute; reflexivity|].
  eapply (altered_task RequestContext sampleMedia garbled None ModeLearning (submitting garbled))
    with (value := "7") (ttl := activeTTL) (msg := garbledMsg) (rec := garbledRecord);
    [right; right; by left|apply submitting_accepted; by right|vm_compute; reflexivity|vm_compute; reflexivity|discriminate
    |vm_compute; by left|vm_compute; do 2 right; by left|].
  exists RequestContext, [Ev (ProduceSync RequestContext garbledRecord) (Ok tt)]. split; [|by left].
  apply (execs_do _ _ _ (Ok tt)), execs_ret.
Defined.
