(* ===== verification/Gorm.v ===== *)
(** * Statements, tables, and what the database does with them

    The repositories build statements with GORM and hand them to MySQL.  A statement here is what the chained
    calls accumulate ([stmt]); the finishers are the calls [DbE].  [gorm] is the documented meaning of those
    calls on the four tables of the schema (internal/migrations): key constraints, auto-increment, WHERE under
    the connection's collation, ORDER BY ... DESC, LIMIT, ON DUPLICATE KEY UPDATE, transactions, and GORM's
    sentinel errors.  Any call may fail, and one that writes may fail after it took effect.

    The entities' column tags (model/entity.go) are [column] and [assign]. *)

From S2P Require Import Prelude GoStrings Proc Errors Model GoContext Collation.

Local Open Scope string_scope.
Local Open Scope list_scope.
Local Open Scope Z_scope.

(** ** Tables and columns (model/entity.go) *)

Inductive table := Users | MediaFiles | FailedTasks | Checkpoints.

Definition row (t : table) : Type :=
  match t with
  | Users => User | MediaFiles => MediaFile | FailedTasks => FailedAnalysisTask | Checkpoints => AgentCheckpoint
  end.

Definition TableName (t : table) : string :=
  match t with
  | Users => "users" | MediaFiles => "media_files" | FailedTasks => "failed_analysis_tasks"
  | Checkpoints => "agent_checkpoints"
  end.

Inductive value := VNull | VInt (z : Z) | VStr (s : string) | VTime (t : Z).

Definition VOpt (s : option string) : value := match s with Some s => VStr s | None => VNull end.

Definition columns (t : table) : list string :=
  match t with
  | Users => ["id"; "username"; "password"; "nickname"; "avatar"; "role"]
  | MediaFiles => ["id"; "user_id"; "filename"; "status"; "file_path"; "content_hash"; "ai_summary"; "transcript_text";
                   "cover_url"; "upload_time"]
  | FailedTasks => ["id"; "media_id"; "action"; "mode"; "content_hash"; "user_goal"; "attempt_count"; "error_type";
                    "error_message"; "status"; "created_at"; "updated_at"]
  | Checkpoints => ["media_id"; "checkpoint_key"; "stage"; "payload"; "updated_at"]
  end.

(** A row is the list of its values, in the order of [columns]. *)
Definition values (t : table) : row t -> list value :=
  match t return row t -> list value with
  | Users => fun r =>
      [VInt (u_ID r); VStr (u_Username r); VStr (u_Password r); VStr (u_Nickname r); VOpt (u_Avatar r); VStr (u_Role r)]
  | MediaFiles => fun r =>
      [VInt (mf_ID r); VInt (mf_UserID r); VStr (mf_Filename r); VStr (mf_Status r); VStr (mf_FilePath r);
       VOpt (mf_ContentHash r); VOpt (mf_AISummary r); VOpt (mf_TranscriptText r); VOpt (mf_CoverURL r);
       VTime (mf_UploadTime r)]
  | FailedTasks => fun r =>
      [VInt (ft_ID r); VInt (ft_MediaID r); VStr (ft_Action r); VStr (ft_Mode r); VStr (ft_ContentHash r);
       VStr (ft_UserGoal r); VInt (ft_AttemptCount r); VStr (ft_ErrorType r); VOpt (ft_ErrorMessage r);
       VStr (ft_Status r); VTime (ft_CreatedAt r); VTime (ft_UpdatedAt r)]
  | Checkpoints => fun r =>
      [VInt (ac_MediaID r); VStr (ac_CheckpointKey r); VStr (ac_Stage r); VOpt (ac_Payload r); VTime (ac_UpdatedAt r)]
  end.

(** Scanning a value into a field ([Scan]); NULL and absent columns leave the zero value. *)
Definition toInt (v : value) : Z := match v with VInt z => z | _ => 0 end.
Definition toStr (v : value) : string := match v with VStr s => s | _ => "" end.
Definition toOpt (v : value) : option string := match v with VStr s => Some s | _ => None end.
Definition toTime (v : value) : Z := match v with VTime t => t | _ => zero_time end.

(** The entity scanned from a column-to-value reading. *)
Definition scan (t : table) (v : string -> value) : row t :=
  match t return row t with
  | Users => mkUser (toInt (v "id")) (toStr (v "username")) (toStr (v "password")) (toStr (v "nickname"))
      (toOpt (v "avatar")) (toStr (v "role"))
  | MediaFiles => mkMediaFile (toInt (v "id")) (toInt (v "user_id")) (toStr (v "filename")) (toStr (v "status"))
      (toStr (v "file_path")) (toOpt (v "content_hash")) (toOpt (v "ai_summary")) (toOpt (v "transcript_text"))
      (toOpt (v "cover_url")) (toTime (v "upload_time"))
  | FailedTasks => mkFailedTask (toInt (v "id")) (toInt (v "media_id")) (toStr (v "action")) (toStr (v "mode"))
      (toStr (v "content_hash")) (toStr (v "user_goal")) (toInt (v "attempt_count")) (toStr (v "error_type"))
      (toOpt (v "error_message")) (toStr (v "status")) (toTime (v "created_at")) (toTime (v "updated_at"))
  | Checkpoints => mkAgentCheckpoint (toInt (v "media_id")) (toStr (v "checkpoint_key")) (toStr (v "stage"))
      (toOpt (v "payload")) (toTime (v "updated_at"))
  end.

Fixpoint assoc {A} (l : list (string * A)) (c : string) : option A :=
  match l with
  | [] => None
  | (c', v) :: l => if String.eqb c' c then Some v else assoc l c
  end.

Definition column (t : table) (r : row t) (c : string) : value :=
  default VNull (assoc (zip (columns t) (values t r)) c).

(** [r] with the columns of [l] set. *)
Definition assign (t : table) (l : list (string * value)) (r : row t) : row t :=
  scan t (fun c => match assoc l c with Some v => v | None => column t r c end).

(** ** Statements *)

Inductive expr := VALUES (c : string) | CURRENT_TIMESTAMP.

Record stmt := mkStmt {
  q_select : list string;               (* [] : every column *)
  q_where : list (string * value);      (* column = ?, joined by AND *)
  q_order : option string;              (* ORDER BY column DESC *)
  q_limit : option nat;
  q_omit : list string;
  q_conflict : option (list (string * expr)) }.  (* ON DUPLICATE KEY UPDATE *)

Definition db : stmt := mkStmt [] [] None None [] None.

Definition Where (c : string) (v : value) (q : stmt) : stmt :=
  mkStmt (q_select q) (q_where q ++ [(c, v)]) (q_order q) (q_limit q) (q_omit q) (q_conflict q).
Definition Select (cs : list string) (q : stmt) : stmt :=
  mkStmt cs (q_where q) (q_order q) (q_limit q) (q_omit q) (q_conflict q).
Definition OrderDesc (c : string) (q : stmt) : stmt :=
  mkStmt (q_select q) (q_where q) (Some c) (q_limit q) (q_omit q) (q_conflict q).
Definition Limit (n : nat) (q : stmt) : stmt :=
  mkStmt (q_select q) (q_where q) (q_order q) (Some n) (q_omit q) (q_conflict q).
Definition Omit (cs : list string) (q : stmt) : stmt :=
  mkStmt (q_select q) (q_where q) (q_order q) (q_limit q) cs (q_conflict q).
Definition OnConflict (us : list (string * expr)) (q : stmt) : stmt :=
  mkStmt (q_select q) (q_where q) (q_order q) (q_limit q) (q_omit q) (Some us).

Notation "q |> f" := (f q) (at level 50, left associativity, only parsing).

(** The finishers.  [Updates] answers [RowsAffected]; [Create] the row as GORM leaves it, its id filled in.
    [Begin], [Commit] and [Rollback] are what [Transaction] does around its function. *)
Inductive DbE : Type -> Type :=
| Take (ctx : Context) (t : table) (q : stmt) : DbE (res (row t))
| Find (ctx : Context) (t : table) (q : stmt) : DbE (res (list (row t)))
| CountRows (ctx : Context) (t : table) (q : stmt) : DbE (res Z)
| Create (ctx : Context) (t : table) (q : stmt) (r : row t) : DbE (res (row t))
| Updates (ctx : Context) (t : table) (q : stmt) (upd : list (string * value)) : DbE (res Z)
| Delete (ctx : Context) (t : table) (q : stmt) : DbE (res unit)
| Begin (ctx : Context) : DbE (res unit)
| Commit : DbE (res unit)
| Rollback : DbE unit
| LocalNow : DbE Z.

(** ** The database *)

Record tables := mkTables {
  tb_users : list User; tb_media : list MediaFile; tb_failed : list FailedAnalysisTask;
  tb_checkpoints : list AgentCheckpoint }.

Definition rows (t : table) (d : tables) : list (row t) :=
  match t return list (row t) with
  | Users => tb_users d | MediaFiles => tb_media d | FailedTasks => tb_failed d | Checkpoints => tb_checkpoints d
  end.

Definition put (t : table) : list (row t) -> tables -> tables :=
  match t return list (row t) -> tables -> tables with
  | Users => fun l d => mkTables l (tb_media d) (tb_failed d) (tb_checkpoints d)
  | MediaFiles => fun l d => mkTables (tb_users d) l (tb_failed d) (tb_checkpoints d)
  | FailedTasks => fun l d => mkTables (tb_users d) (tb_media d) l (tb_checkpoints d)
  | Checkpoints => fun l d => mkTables (tb_users d) (tb_media d) (tb_failed d) l
  end.

#[export] Instance row_eq_dec t : EqDecision (row t).
Proof. destruct t; cbn; solve_decision. Defined.

(** [pending]: what the open transaction sees; [history]: the states other connections could see so far,
    the latest first. *)
Record database := mkDatabase {
  committed : tables; pending : option tables; nextId : table -> Z; now : Z; history : list tables }.

Definition view (d : database) : tables := default (committed d) (pending d).

(** A statement writes into the open transaction, or commits at once. *)
Definition write (d : database) (tb : tables) : database :=
  match pending d with
  | Some _ => mkDatabase (committed d) (Some tb) (nextId d) (now d) (history d)
  | None => mkDatabase tb None (nextId d) (now d) (tb :: history d)
  end.

Definition abandon (d : database) : database := mkDatabase (committed d) None (nextId d) (now d) (history d).

Definition autoIncrement (t : table) : bool := match t with Checkpoints => false | _ => true end.

Definition useId (t : table) (id : Z) (d : database) : database :=
  mkDatabase (committed d) (pending d)
    (fun t' => if autoIncrement t then
                 match t, t' with
                 | Users, Users | MediaFiles, MediaFiles | FailedTasks, FailedTasks => Z.max (nextId d t') (id + 1)
                 | _, _ => nextId d t'
                 end
               else nextId d t') (now d) (history d).

Section sql.
Context `{Collation}.

Definition holds (t : table) (r : row t) (cv : string * value) : bool :=
  match column t r cv.1, cv.2 with
  | VInt a, VInt b => a =? b
  | VStr a, VStr b => collates a b
  | VTime a, VTime b => a =? b
  | _, _ => false
  end.

Definition satisfies (t : table) (q : stmt) (r : row t) : bool := forallb (holds t r) (q_where q).

Definition matching (t : table) (q : stmt) (tb : tables) : list (row t) :=
  List.filter (satisfies t q) (rows t tb).

Definition project (t : table) (q : stmt) (r : row t) : row t :=
  match q_select q with
  | [] => r
  | cs => scan t (fun c => if existsb (String.eqb c) cs then column t r c else VNull)
  end.

(** The answer to a query that matches [l]. *)
Definition delivers (t : table) (q : stmt) (l out : list (row t)) : Prop :=
  exists l', l' ≡ₚ l
    /\ match q_order q with
       | Some c => StronglySorted (fun r r' => toInt (column t r' c) <= toInt (column t r c)) l'
       | None => True
       end
    /\ out = project t q <$> match q_limit q with Some n => take n l' | None => l' end.

(** The primary key and the unique keys. *)
Definition sameKey (t : table) : row t -> row t -> bool :=
  match t return row t -> row t -> bool with
  | Users => fun r r' => (u_ID r =? u_ID r') || collates (u_Username r) (u_Username r')
  | MediaFiles => fun r r' => mf_ID r =? mf_ID r'
  | FailedTasks => fun r r' => ft_ID r =? ft_ID r'
  | Checkpoints => fun r r' =>
      (ac_MediaID r =? ac_MediaID r') && collates (ac_CheckpointKey r) (ac_CheckpointKey r')
  end.

(** The row an INSERT stores: the next id when it has none, the defaults of omitted columns. *)
Definition stored (t : table) (q : stmt) (d : database) (r : row t) : row t :=
  let r := if autoIncrement t && (toInt (column t r "id") =? 0)
           then assign t [("id", VInt (nextId d t))] r else r in
  match q_omit q with [] => r | cs => assign t ((fun c => (c, VTime (now d))) <$> cs) r end.

Definition evaluate (t : table) (d : database) (r : row t) (e : expr) : value :=
  match e with VALUES c => column t r c | CURRENT_TIMESTAMP => VTime (now d) end.

Definition merged (t : table) (d : database) (us : list (string * expr)) (r e : row t) : row t :=
  assign t ((fun ue => (ue.1, evaluate t d r ue.2)) <$> us) e.

(** The tables after INSERT of [r]; [None]: refused for a duplicate key. *)
Definition inserted (t : table) (q : stmt) (d : database) (r : row t) : option tables :=
  let l := rows t (view d) in
  match existsb (sameKey t r) l, q_conflict q with
  | false, _ => Some (put t (l ++ [r]) (view d))
  | true, None => None
  | true, Some us => Some (put t ((fun e => if sameKey t r e then merged t d us r e else e) <$> l) (view d))
  end.

Definition updated (t : table) (q : stmt) (upd : list (string * value)) (l : list (row t)) : list (row t) :=
  (fun r => if satisfies t q r then assign t upd r else r) <$> l.

(** [RowsAffected]: the rows that an UPDATE changed. *)
Definition affected (t : table) (q : stmt) (upd : list (string * value)) (l : list (row t)) : Z :=
  Z.of_nat (length (List.filter (fun r => satisfies t q r && negb (bool_decide (assign t upd r = r))) l)).

Definition recordNotFound : gerror := OtherErr "record not found" (Some ErrRecordNotFound) None.
Definition duplicatedKey : gerror := OtherErr "duplicated key not allowed" (Some ErrDuplicatedKey) None.

(** Any other error: not one of the two, nor the repository's own. *)
Definition outage (e : gerror) : Prop :=
  IsSentinel e ErrRecordNotFound = false /\ IsSentinel e ErrDuplicatedKey = false /\ IsSentinel e ErrDuplicate = false.

Definition reads {A} (P : A -> Prop) (d : database) (x : res A) (d' : database) : Prop :=
  d' = d /\ match x with Ok a => P a | Err e => outage e end.

(** A write may fail before or after taking effect; a deadlock ends the transaction. *)
Definition changes {A} (P : A -> Prop) (applied d : database) (x : res A) (d' : database) : Prop :=
  match x with
  | Ok a => P a /\ d' = applied
  | Err e => outage e /\ d' ∈ [d; applied; abandon d]
  end.

Definition gorm (X : Type) (c : DbE X) : database -> X -> database -> Prop :=
  match c in DbE X return database -> X -> database -> Prop with
  | Take _ t q => fun d x d' =>
      d' = d /\ match x with
                | Ok r => exists r0, r0 ∈ matching t q (view d) /\ r = project t q r0
                | Err e => e = recordNotFound /\ matching t q (view d) = [] \/ outage e
                end
  | Find _ t q => fun d => reads (delivers t q (matching t q (view d))) d
  | CountRows _ t q => fun d => reads (fun n => n = Z.of_nat (length (matching t q (view d)))) d
  | Create _ t q r => fun d x d' =>
      let r' := stored t q d r in
      match inserted t q d r' with
      | Some tb => changes (fun a => a = r') (useId t (toInt (column t r' "id")) (write d tb)) d x d'
      | None => d' ∈ [d; useId t (toInt (column t r' "id")) d]
                /\ exists e, x = Err e /\ (e = duplicatedKey \/ outage e)
      end
  | Updates _ t q upd => fun d =>
      changes (fun n => n = affected t q upd (rows t (view d))) (write d (put t (updated t q upd (rows t (view d))) (view d))) d
  | Delete _ t q => fun d =>
      changes (fun _ => True)
        (write d (put t (List.filter (fun r => negb (satisfies t q r)) (rows t (view d))) (view d))) d
  | Begin _ => fun d x d' =>
      match x with
      | Ok _ => d' = mkDatabase (committed d) (Some (committed d)) (nextId d) (now d) (history d)
      | Err e => outage e /\ d' = d
      end
  | Commit => fun d =>
      changes (fun _ => True) (mkDatabase (view d) None (nextId d) (now d) (view d :: history d)) (abandon d)
  | Rollback => fun d _ d' => d' = abandon d
  | LocalNow => fun d t d' =>
      now d <= t /\ d' = mkDatabase (committed d) (pending d) (nextId d) t (history d)
  end.

Lemma elem_of_filterb {A} (f : A -> bool) l (x : A) : x ∈ List.filter f l <-> x ∈ l /\ f x = true.
Proof. by rewrite list_elem_of_In, filter_In, <- list_elem_of_In. Qed.

Lemma elem_of_matching t q tb (r : row t) :
  r ∈ matching t q tb <-> r ∈ rows t tb /\ satisfies t q r = true.
Proof. apply elem_of_filterb. Qed.

Lemma view_open d : pending d = None -> view d = committed d.
Proof. unfold view. by intros ->. Qed.

Lemma write_open d tb : pending d = None -> write d tb = mkDatabase tb None (nextId d) (now d) (tb :: history d).
Proof. unfold write. by intros ->. Qed.

End sql.
