(* ===== verification/Repo.v ===== *)
(** * What the repositories share (internal/repo/repo.go)

    Each repository has its own file, UsersRepo.v, MediaRepo.v, FailedTasksRepo.v and CheckpointsRepo.v; a method
    is the program that builds its statement with the combinators of Gorm.v and maps GORM's answer.  Here are
    the mapping of the answers, and what a query returns. *)

From S2P Require Import Prelude GoStrings Proc Errors Model GoContext Collation Gorm.

Local Open Scope string_scope.
Local Open Scope list_scope.
Local Open Scope Z_scope.

(** [errors.Is(err, gorm.ErrRecordNotFound)] is [nil, nil]. *)
Definition orNil {A} (r : res A) : res (option A) :=
  match r with
  | Ok a => Ok (Some a)
  | Err e => if IsSentinel e ErrRecordNotFound then Ok None else Err e
  end.

(** The error of a finisher, its rows dropped. *)
Definition onlyError {A} (r : res A) : res unit := match r with Ok _ => Ok tt | Err e => Err e end.

Definition errDuplicate : gerror := OtherErr "duplicate key" (Some ErrDuplicate) None.

(** ** What the queries answer *)

Section queries.
Context `{Collation}.

Lemma run_Find ctx t q d x d' :
  sruns gorm (call (Find ctx t q)) d x d' ->
  d' = d /\ match x with Ok out => delivers t q (matching t q (view d)) out | Err e => outage e end.
Proof. intros Hr. by_run Hr. cbn [call swp gorm]. by intros r d1 [-> Hr]. Qed.

Definition newestFirst {A} (f : A -> Z) (l : list A) : Prop := StronglySorted (fun a b => f b <= f a) l.

Lemma newestFirst_fmap {A B} (f : A -> Z) (g : B -> Z) (h : A -> B) l :
  (forall a, g (h a) = f a) -> newestFirst f l -> newestFirst g (h <$> l).
Proof.
  intros Hgh Hs. induction Hs as [|a l Hs IH Ha]; [constructor|]. constructor; [exact IH|].
  apply Forall_fmap. eapply Forall_impl; [exact Ha|]. intros b Hb. cbn. by rewrite !Hgh.
Qed.

Lemma newestFirst_app {A} (f : A -> Z) l k : newestFirst f (l ++ k) ->
  newestFirst f l /\ forall a b, a ∈ l -> b ∈ k -> f b <= f a.
Proof.
  induction l as [|a l IH]; cbn; intros Hs; [split; [constructor|]; intros a b Ha; by apply elem_of_nil in Ha|].
  apply StronglySorted_inv in Hs as [Hs Ha]. destruct (IH Hs) as [Hl Hlk]. apply Forall_app in Ha as [Hal Hak]. split.
  - by constructor.
  - intros a' b [->|Ha']%elem_of_cons Hb; [|by apply Hlk]. rewrite Forall_forall in Hak. by apply Hak.
Qed.

End queries.
