(* ===== verification/UsersRepo.v ===== *)
(** * The accounts in the database (UsersRepo of internal/repo/repo.go) *)

From S2P Require Import Prelude GoStrings Proc Errors Model GoContext Collation Gorm Repo.

Local Open Scope string_scope.
Local Open Scope list_scope.
Local Open Scope Z_scope.

Definition FindByUsername (ctx : Context) (username : string) : proc DbE (res (option User)) :=
  Do (Take ctx Users (db |> Where "username" (VStr username) |> Limit 1)) (fun r => Ret (orNil r)).

Definition FindByID (ctx : Context) (id : Z) : proc DbE (res (option User)) :=
  Do (Take ctx Users (db |> Where "id" (VInt id))) (fun r => Ret (orNil r)).

Definition Count (ctx : Context) (username : string) : proc DbE (res Z) :=
  call (CountRows ctx Users (db |> Where "username" (VStr username))).

(** The id is the one GORM writes back into the entity. *)
Definition Create (ctx : Context) (u : User) : proc DbE (res Z) :=
  Do (Gorm.Create ctx Users db u) (fun r =>
  match r with
  | Err e => if IsSentinel e ErrDuplicatedKey then Ret (Err errDuplicate) else Ret (Err e)
  | Ok u => Ret (Ok (u_ID u))
  end).

Definition UpdatePassword (ctx : Context) (id : Z) (hashed : string) : proc DbE (res unit) :=
  Do (Updates ctx Users (db |> Where "id" (VInt id)) [("password", VStr hashed)]) (fun r => Ret (onlyError r)).
