(* ===== verification/MediaRepo.v ===== *)
(** * The media rows in the database (MediaRepo of internal/repo/repo.go)

    The statements, and what the list of a user and the count of references return. *)

From S2P Require Import Prelude GoStrings Proc Errors Model GoContext Collation Gorm Repo.

Local Open Scope string_scope.
Local Open Scope list_scope.
Local Open Scope Z_scope.

Definition FindByID (ctx : Context) (id : Z) : proc DbE (res (option MediaFile)) :=
  Do (Take ctx MediaFiles (db |> Where "id" (VInt id))) (fun r => Ret (orNil r)).

Definition Insert (ctx : Context) (m : MediaFile) : proc DbE (res Z) :=
  Do (Gorm.Create ctx MediaFiles db m) (fun r =>
  match r with Ok m => Ret (Ok (mf_ID m)) | Err e => Ret (Err e) end).

Definition ListByUser (ctx : Context) (userID : Z) : proc DbE (res (list MediaFile)) :=
  call (Find ctx MediaFiles
    (db |> Select ["id"; "filename"; "status"; "cover_url"; "upload_time"]
        |> Where "user_id" (VInt userID) |> OrderDesc "id")).

Definition DeleteByID (ctx : Context) (id : Z) : proc DbE (res unit) :=
  call (Delete ctx MediaFiles (db |> Where "id" (VInt id))).

Definition UpdateAnalysis (ctx : Context) (id : Z) (aiSummary : string) (transcript : option string)
  : proc DbE (res unit) :=
  let upd := [("ai_summary", VStr aiSummary)] in
  let upd := match transcript with Some t => upd ++ [("transcript_text", VStr t)] | None => upd end in
  Do (Updates ctx MediaFiles (db |> Where "id" (VInt id)) upd) (fun r => Ret (onlyError r)).

Definition FindByContentHash (ctx : Context) (contentHash : string) : proc DbE (res (list MediaFile)) :=
  call (Find ctx MediaFiles
    (db |> Select ["id"; "file_path"; "content_hash"]
        |> Where "content_hash" (VStr contentHash) |> OrderDesc "id" |> Limit 5)).

Definition CountFileReferences (ctx : Context) (contentHash : option string) (filePath : string) : proc DbE (res Z) :=
  let q := match contentHash with
           | Some h => if String.eqb h "" then db else db |> Where "content_hash" (VStr h)
           | None => db
           end in
  call (CountRows ctx MediaFiles (q |> Where "file_path" (VStr filePath))).

Definition UpdateTranscript (ctx : Context) (id : Z) (transcript : string) : proc DbE (res unit) :=
  Do (Updates ctx MediaFiles (db |> Where "id" (VInt id)) [("transcript_text", VStr transcript)])
    (fun r => Ret (onlyError r)).

(** ** What the queries answer *)

Section queries.
Context `{Collation}.

Definition listed (m : MediaFile) : MediaFile :=
  mkMediaFile (mf_ID m) 0 (mf_Filename m) (mf_Status m) "" None None None (mf_CoverURL m) (mf_UploadTime m).

(** A user's list holds their rows and nothing else, newest first, and of each row only the five columns of
    the list: no path, hash, summary or transcript leaves the database with it. *)
Theorem ListByUser_lists (ctx : Context) (userID : Z) (d : database) (out : list MediaFile) (d' : database) :
  sruns gorm (ListByUser ctx userID) d (Ok out) d' ->
  newestFirst mf_ID out
  /\ out ≡ₚ listed <$> List.filter (fun m => mf_UserID m =? userID) (tb_media (view d)).
Proof.
  intros Hr. apply (run_Find _ MediaFiles _ _ (Ok out)) in Hr as (_ & l & Hp & Hs & ->). cbn [q_limit q_order Select Where OrderDesc db] in *.
  assert (forall m : MediaFile, project MediaFiles (db |> Select ["id"; "filename"; "status"; "cover_url"; "upload_time"]
    |> Where "user_id" (VInt userID) |> OrderDesc "id") m = listed m) as Hpr by (by intros [? ? ? ? ? ? ? ? [?|] ?]).
  split.
  - eapply (newestFirst_fmap mf_ID); [|exact Hs]. intros m. by rewrite Hpr.
  - rewrite Hp. unfold matching. erewrite list_fmap_ext; [|intros _ m _; apply Hpr].
    apply fmap_Permutation. apply Permutation_refl', filter_ext. intros m. unfold satisfies. cbn. apply andb_true_r.
Qed.

(** Counting references by content hash and path finds the same rows as counting by path alone, when rows that
    share the path share the hash - which instant uploads see to by copying both - and so does counting with
    no hash at all. *)
Theorem narrowed_count (ctx : Context) (hash path : string) (d d' d'' : database) (n n' : Z) :
  (forall m, m ∈ tb_media (view d) -> collates (mf_FilePath m) path = true -> mf_ContentHash m = Some hash) ->
  sruns gorm (CountFileReferences ctx (Some hash) path) d (Ok n) d' ->
  sruns gorm (CountFileReferences ctx None path) d (Ok n') d'' ->
  n = n' /\ n = Z.of_nat (length (List.filter (fun m => collates (mf_FilePath m) path) (tb_media (view d)))).
Proof.
  intros Hshare Hr Hr'.
  assert (forall q x d', sruns gorm (call (CountRows ctx MediaFiles q)) d (Ok x) d' ->
    x = Z.of_nat (length (matching MediaFiles q (view d)))) as Hcount.
  { intros q x d1 Hq. assert (forall r d2, sruns gorm (call (CountRows ctx MediaFiles q)) d r d2 ->
      forall y, r = Ok y -> y = Z.of_nat (length (matching MediaFiles q (view d)))) as Hg; [|by eapply Hg].
    clear Hq. intros r d2 Hq. by_run Hq. cbn [call swp gorm]. intros r1 d3 [_ Hx] y ->. exact Hx. }
  apply Hcount in Hr, Hr'. subst n n'.
  assert (forall q, (forall m : MediaFile, m ∈ tb_media (view d) -> satisfies MediaFiles q m = collates (mf_FilePath m) path) ->
    matching MediaFiles q (view d) = List.filter (fun m => collates (mf_FilePath m) path) (tb_media (view d))) as Hsame.
  { intros q Hq. unfold matching. cbn [rows]. revert Hq. clear. induction (tb_media (view d)) as [|m l IH]; intros Hq; [done|].
    cbn [List.filter]. rewrite (Hq m) by apply list_elem_of_here. rewrite IH; [done|]. intros m' Hm'. apply Hq. by right. }
  rewrite !Hsame; [done| |]; intros m Hm.
  - unfold satisfies. cbn. apply andb_true_r.
  - unfold satisfies. destruct (String.eqb_spec hash "") as [_|Hne]; cbn; unfold holds; cbn; [apply andb_true_r|].
    rewrite andb_true_r. destruct (collates (mf_FilePath m) path) eqn:Ep; [|apply andb_false_r].
    rewrite (Hshare m Hm Ep). cbn. by rewrite collates_refl.
Qed.

End queries.

(** ** A table with two copies *)

Definition copied (id : Z) : MediaFile :=
  mkMediaFile id 1 "a.mp4" "COMPLETED" "http://minio/media/a.mp4" (Some "0a") (Some "s") (Some "t") None 0.
Definition copies : database :=
  let tb := mkTables [] [copied 2; copied 1] [] [] in mkDatabase tb None (fun _ => 3) 0 [tb].

#[local] Existing Instance caseFolding.

Lemma counts_copies h : h = Some "0a" \/ h = None ->
  sruns gorm (CountFileReferences Background h "http://minio/media/a.mp4") copies (Ok 2) copies.
Proof. intros [->| ->]; (eapply (sruns_do _ _ _ _ _ (Ok 2)); [|constructor]; split; [done|]; vm_compute; reflexivity). Qed.

Lemma narrowed_count_witness :
  (forall m, m ∈ tb_media (view copies) -> mf_ContentHash m = Some "0a")
  /\ 2 = Z.of_nat (length (List.filter (fun m => collates (mf_FilePath m) "http://minio/media/a.mp4") (tb_media (view copies)))).
Proof.
  assert (forall m, m ∈ tb_media (view copies) -> mf_ContentHash m = Some "0a") as Hm by (intros m Hm; in_cases Hm).
  split; [exact Hm|].
  destruct (narrowed_count Background "0a" "http://minio/media/a.mp4" copies copies copies 2 2 (fun m Hin _ => Hm m Hin)
    (counts_copies _ (or_introl eq_refl)) (counts_copies _ (or_intror eq_refl))) as [_ Hn]. exact Hn.
Defined.

Lemma lists_copies :
  sruns gorm (ListByUser Background 1) copies (Ok [listed (copied 2); listed (copied 1)]) copies.
Proof.
  eapply (sruns_do _ _ _ _ _ (Ok [listed (copied 2); listed (copied 1)])); [|constructor]. split; [done|].
  exists [copied 2; copied 1]. split; [done|]. split; [|done]. repeat constructor; cbn; lia.
Qed.

Lemma ListByUser_lists_witness :
  sruns gorm (ListByUser Background 1) copies (Ok [listed (copied 2); listed (copied 1)]) copies
  /\ newestFirst mf_ID [listed (copied 2); listed (copied 1)].
Proof.
  split; [apply lists_copies|].
  destruct (ListByUser_lists Background 1 copies [listed (copied 2); listed (copied 1)] copies lists_copies) as [Hs _]. exact Hs.
Defined.
