(* ===== verification/FailedTasksRepo.v ===== *)
(** * The ledger of failed tasks in the database (FailedTasksRepo of internal/repo/repo.go) *)

From S2P Require Import Prelude GoStrings Proc Errors Model GoContext Collation Gorm Repo.

Local Open Scope string_scope.
Local Open Scope list_scope.
Local Open Scope Z_scope.

Definition Insert (ctx : Context) (t : FailedAnalysisTask) : proc DbE (res unit) :=
  Do (Gorm.Create ctx FailedTasks db t) (fun r => Ret (onlyError r)).

Definition Latest (ctx : Context) : proc DbE (res (list FailedAnalysisTask)) :=
  call (Find ctx FailedTasks (db |> OrderDesc "id" |> Limit 100)).

Definition FindByID (ctx : Context) (id : Z) : proc DbE (res (option FailedAnalysisTask)) :=
  Do (Take ctx FailedTasks (db |> Where "id" (VInt id))) (fun r => Ret (orNil r)).

Definition MarkRequeued (ctx : Context) (id : Z) : proc DbE (res Z) :=
  Do LocalNow (fun now =>
  call (Updates ctx FailedTasks (db |> Where "id" (VInt id)) [("status", VStr "REQUEUED"); ("updated_at", VTime now)])).

(** ** What the queries answer *)

Section queries.
Context `{Collation}.

(** The ledger is shown from its newest row, a hundred rows at most, and what is left out is older. *)
Theorem Latest_newest (ctx : Context) (d : database) (out : list FailedAnalysisTask) (d' : database) :
  sruns gorm (Latest ctx) d (Ok out) d' ->
  newestFirst ft_ID out /\ (length out <= 100)%nat
  /\ exists rest, out ++ rest ≡ₚ tb_failed (view d) /\ (rest <> [] -> length out = 100%nat)
       /\ forall a b, a ∈ out -> b ∈ rest -> ft_ID b <= ft_ID a.
Proof.
  intros Hr. apply (run_Find _ FailedTasks _ _ (Ok out)) in Hr as (_ & l & Hp & Hs & ->). cbn [q_limit q_order OrderDesc Limit db row] in *.
  assert (forall k : list FailedAnalysisTask, project FailedTasks (db |> OrderDesc "id" |> Limit 100) <$> k = k) as ->.
  { intros k. rewrite <- (list_fmap_id k) at 2. by apply list_fmap_ext. }
  change (newestFirst ft_ID l) in Hs. rewrite <- (take_drop 100 l) in Hs. apply newestFirst_app in Hs as [Hs Hlk].
  split; [done|]. split; [rewrite length_take; lia|]. exists (drop 100 l). split; [|split; [|done]].
  - rewrite take_drop, Hp. unfold matching. cbn [rows]. change (satisfies FailedTasks (db |> OrderDesc "id" |> Limit 100))
      with (fun _ : FailedAnalysisTask => true). induction (tb_failed (view d)) as [|a k IH]; [done|]. cbn. by rewrite IH.
  - intros Hrest. rewrite length_take. destruct (decide (length l <= 100)%nat) as [Hle|]; [|lia].
    by rewrite drop_ge in Hrest.
Qed.

End queries.

(** ** A ledger of two rows *)

Definition logged (id : Z) : FailedAnalysisTask :=
  mkFailedTask id 7 "ANALYSIS" "GENERAL" "0a" "" 3 "TRANSIENT" None "PENDING" 0 0.
Definition twoFailures : database :=
  let tb := mkTables [] [] [logged 1; logged 2] [] in mkDatabase tb None (fun _ => 3) 0 [tb].

#[local] Existing Instance caseFolding.

Lemma shows_failures : sruns gorm (Latest Background) twoFailures (Ok [logged 2; logged 1]) twoFailures.
Proof.
  eapply (sruns_do _ _ _ _ _ (Ok [logged 2; logged 1])); [|constructor]. split; [done|].
  exists [logged 2; logged 1]. split; [apply Permutation_swap|]. split; [|done]. repeat constructor; cbn; lia.
Qed.

Lemma Latest_newest_witness :
  sruns gorm (Latest Background) twoFailures (Ok [logged 2; logged 1]) twoFailures
  /\ newestFirst ft_ID [logged 2; logged 1].
Proof.
  split; [apply shows_failures|].
  destruct (Latest_newest Background twoFailures [logged 2; logged 1] twoFailures shows_failures) as [Hs _]. exact Hs.
Defined.
