(* ===== verification/CheckpointsRepo.v ===== *)
(** * The checkpoints in the database (CheckpointsRepo of internal/repo/repo.go) *)

From S2P Require Import Prelude GoStrings Proc Errors Model GoContext Collation Gorm Repo.

Local Open Scope string_scope.
Local Open Scope list_scope.
Local Open Scope Z_scope.

(** The query of [FindPayload] and [FindStage], up to its column. *)
Definition keyed (mediaID : Z) (key : string) (q : stmt) : stmt :=
  q |> Where "media_id" (VInt mediaID) |> Where "checkpoint_key" (VStr key) |> Limit 1.

Definition FindPayload (ctx : Context) (mediaID : Z) (key : string) : proc DbE (res (option string)) :=
  rows ←? call (Find ctx Checkpoints (keyed mediaID key (db |> Select ["payload"])));
  match rows with
  | [] => Ret (Ok None)
  | r :: _ => Ret (Ok (ac_Payload r))
  end.

Definition FindStage (ctx : Context) (mediaID : Z) (key : string) : proc DbE (res (option string)) :=
  rows ←? call (Find ctx Checkpoints (keyed mediaID key (db |> Select ["stage"])));
  match rows with
  | [] => Ret (Ok None)
  | r :: _ => Ret (Ok (Some (ac_Stage r)))
  end.

Definition upsertClause : list (string * expr) :=
  [("stage", VALUES "stage"); ("payload", VALUES "payload"); ("updated_at", CURRENT_TIMESTAMP)].

Definition upsert (ctx : Context) (mediaID : Z) (key stage : string) (payload : option string) : proc DbE (res unit) :=
  let row := mkAgentCheckpoint mediaID key stage payload zero_time in
  Do (Gorm.Create ctx Checkpoints (db |> Omit ["updated_at"] |> OnConflict upsertClause) row) (fun r => Ret (onlyError r)).

Definition Upsert (ctx : Context) (mediaID : Z) (key stage : string) (payload : option string) : proc DbE (res unit) :=
  upsert ctx mediaID key stage payload.

(** [db.Transaction(fn)]: an error of [fn] rolls back and is returned, otherwise the commit decides. *)
Definition Transaction (ctx : Context) (fn : proc DbE (res unit)) : proc DbE (res unit) :=
  _ ←? call (Begin ctx);
  bind fn (fun r =>
  match r with
  | Err e => Do Rollback (fun _ => Ret (Err e))
  | Ok _ => call Commit
  end).

Definition UpsertPair (ctx : Context) (mediaID : Z) (key stageKey stage payload : string) : proc DbE (res unit) :=
  Transaction ctx (
    _ ←? upsert ctx mediaID key stage (Some payload);
    upsert ctx mediaID stageKey stage None).
