(* ===== verification/LedgerTable.v ===== *)
(** * Replays over the failed_analysis_tasks table

    [Replay] (failedtask.go) with its ledger calls done by [FailedTasksRepo] (repo.go) against the tables.
    The state records besides the tables which idempotency keys are taken and which messages were queued. *)

From S2P Require Import Gorm Repo FailedTasksRepo.
From S2P Require Import Prelude GoStrings Proc Errors Model GoContext TaskKeys Collation Routing Dispatch Concurrent.
Import Gorm(database, committed, pending, nextId, history, tb_failed, DbE).

Local Open Scope string_scope.
Local Open Scope list_scope.
Local Open Scope Z_scope.

(** The repository method behind a call. *)
Definition ledgerCall (X : Type) (c : AnalysisE X) : option (proc DbE X) :=
  match c in AnalysisE X return option (proc DbE X) with
  | FailedInsert ctx t => Some (FailedTasksRepo.Insert ctx t)
  | FailedLatest ctx => Some (FailedTasksRepo.Latest ctx)
  | FailedFindByID ctx id => Some (FailedTasksRepo.FindByID ctx id)
  | FailedMarkRequeued ctx id => Some (FailedTasksRepo.MarkRequeued ctx id)
  | _ => None
  end.

Record ledger := mkLedger { lg_db : database; lg_keys : gset string; lg_queued : list AnalysisTaskMsg }.

Definition ledgerRows (s : ledger) : list FailedAnalysisTask := tb_failed (committed (lg_db s)).

Section ledger.
Context `{Collation, Sha256}.

Definition serveLedger (X : Type) (c : AnalysisE X) (s : ledger) (x : X) (s' : ledger) : Prop :=
  match ledgerCall X c with
  | Some p => sruns Gorm.gorm p (lg_db s) x (lg_db s') /\ lg_keys s' = lg_keys s /\ lg_queued s' = lg_queued s
  | None => lg_db s' = lg_db s /\
      (match c in AnalysisE X return X -> Prop with
      | RSetNX _ k _ _ => fun x =>
          lg_queued s' = lg_queued s
          /\ match x with
             | Ok true => (k ∉ lg_keys s) /\ lg_keys s' = {[ k ]} ∪ lg_keys s
             | Ok false => (k ∈ lg_keys s) /\ lg_keys s' = lg_keys s
             | Err _ => lg_keys s' = lg_keys s \/ lg_keys s' = {[ k ]} ∪ lg_keys s
             end
      | RDel _ k => fun x =>
          lg_queued s' = lg_queued s
          /\ match x with
             | Ok _ => lg_keys s' = lg_keys s ∖ {[ k ]}
             | Err _ => lg_keys s' = lg_keys s \/ lg_keys s' = lg_keys s ∖ {[ k ]}
             end
      | SenderPublishTask _ msg => fun x =>
          lg_keys s' = lg_keys s
          /\ match x with
             | Ok _ => lg_queued s' = lg_queued s ++ [msg]
             | Err _ => lg_queued s' = lg_queued s \/ lg_queued s' = lg_queued s ++ [msg]
             end
      | _ => fun _ => lg_keys s' = lg_keys s /\ lg_queued s' = lg_queued s
      end) x
  end.

(** *** Queries and updates of a row *)

Lemma byId_failed id (t : FailedAnalysisTask) :
  Gorm.satisfies Gorm.FailedTasks (Gorm.Where "id" (Gorm.VInt id) Gorm.db) t = (ft_ID t =? id).
Proof. unfold Gorm.satisfies. cbn. apply andb_true_r. Qed.

(** No row of this id is FAILED. *)
Definition settled (id : Z) (s : ledger) : Prop :=
  pending (lg_db s) = None /\ forall t, t ∈ ledgerRows s -> ft_ID t = id -> ft_Status t <> "FAILED".

Lemma FindByID_swp ctx id d :
  pending d = None ->
  swp Gorm.gorm (FailedTasksRepo.FindByID ctx id) d (fun x d' => d' = d /\
    forall t, x = Ok (Some t) -> t ∈ tb_failed (committed d) /\ ft_ID t = id).
Proof.
  intros Ho. unfold FailedTasksRepo.FindByID. cbn [swp Gorm.gorm]. rewrite Gorm.view_open by done.
  intros x d' [-> Hx]. split; [done|]. destruct x as [r|e]; cbn [Repo.orNil].
  - destruct Hx as (t & [Hin Hs]%Gorm.elem_of_matching & ->). rewrite byId_failed in Hs.
    intros t' [= <-]. split; [exact Hin|by apply Z.eqb_eq].
  - intros t. by destruct (IsSentinel e ErrRecordNotFound).
Qed.

Definition requeued (now : Z) (t : FailedAnalysisTask) : FailedAnalysisTask :=
  mkFailedTask (ft_ID t) (ft_MediaID t) (ft_Action t) (ft_Mode t) (ft_ContentHash t) (ft_UserGoal t) (ft_AttemptCount t)
    (ft_ErrorType t) (ft_ErrorMessage t) "REQUEUED" (ft_CreatedAt t) now.

Lemma assign_requeued now (t : FailedAnalysisTask) :
  Gorm.assign Gorm.FailedTasks [("status", Gorm.VStr "REQUEUED"); ("updated_at", Gorm.VTime now)] t = requeued now t.
Proof. by destruct t as [? ? ? ? ? ? ? ? [?|] ? ? ?]. Qed.

(** [MarkRequeued] rewrites the rows of this id, and when it reports success says how many it changed. *)
Lemma MarkRequeued_swp ctx id d :
  pending d = None ->
  swp Gorm.gorm (FailedTasksRepo.MarkRequeued ctx id) d (fun x d' => pending d' = None /\ exists now,
    let l' := (fun t => if ft_ID t =? id then requeued now t else t) <$> tb_failed (committed d) in
    match x with
    | Ok _ => tb_failed (committed d') = l'
    | Err _ => tb_failed (committed d') = tb_failed (committed d) \/ tb_failed (committed d') = l'
    end).
Proof.
  intros Ho. unfold FailedTasksRepo.MarkRequeued, call. cbn [swp Gorm.gorm]. intros now d1 [_ ->] x d2.
  rewrite Gorm.view_open by done. cbn [committed].
  assert (Gorm.updated Gorm.FailedTasks (Gorm.Where "id" (Gorm.VInt id) Gorm.db)
    [("status", Gorm.VStr "REQUEUED"); ("updated_at", Gorm.VTime now)] (Gorm.rows Gorm.FailedTasks (committed d))
    = (fun t => if ft_ID t =? id then requeued now t else t) <$> tb_failed (committed d)) as ->.
  { unfold Gorm.updated. apply list_fmap_ext. intros _ t _. rewrite byId_failed, assign_requeued. done. }
  rewrite Gorm.write_open by done. unfold Gorm.changes. destruct x as [n|e].
  - intros [_ ->]. split; [done|]. by exists now.
  - intros [_ Hd]. rewrite !elem_of_cons, elem_of_nil in Hd. destruct Hd as [->|[->|[->|[]]]];
      (split; [done|]; exists now; [by left|by right|by left]) || (split; [done|]; exists now; auto).
Qed.

(** *** Replaying *)

Lemma requeue_settles id now (l : list FailedAnalysisTask) t :
  t ∈ (fun t => if ft_ID t =? id then requeued now t else t) <$> l -> ft_ID t = id -> ft_Status t <> "FAILED".
Proof.
  intros (t0 & -> & _)%list_elem_of_fmap. destruct (Z.eqb_spec (ft_ID t0) id) as [_|Hne]; [done|]. intros E. by destruct Hne.
Qed.

(** A row that is not FAILED is left alone, and nothing is queued for it. *)
Lemma Replay_settled ctx id s :
  settled id s -> swp serveLedger (Replay ctx id) s (fun r s' => settled id s' /\ lg_queued s' = lg_queued s /\ r <> Ok tt).
Proof.
  intros Hs. pose proof Hs as [Ho Hst]. unfold Replay, bind_ok, call. cbn [bind swp].
  intros x s' [Hr [Hk Hq]]. apply (swp_sruns _ _ _ _ _ _ (FindByID_swp ctx id _ Ho)) in Hr as [Hdb Hx].
  assert (settled id s') as Hs' by (unfold settled, ledgerRows; by rewrite Hdb).
  destruct x as [[t|]|e]; [|by split_and!..]. destruct (Hx t eq_refl) as [Hin Hid].
  destruct (String.eqb_spec (ft_Status t) "FAILED") as [E|_]; [by apply Hst in E|]. by split_and!.
Qed.

Lemma Replay_swp ctx id s :
  pending (lg_db s) = None ->
  swp serveLedger (Replay ctx id) s (fun r s' =>
    r = Ok tt -> settled id s' /\ exists msg, lg_queued s' = lg_queued s ++ [msg]).
Proof.
  intros Ho. unfold Replay, bind_ok, call. cbn [bind swp].
  intros x s1 [Hr [_ Hq1]]. apply (swp_sruns _ _ _ _ _ _ (FindByID_swp ctx id _ Ho)) in Hr as [Hdb1 Hx].
  destruct x as [[t|]|e]; [|done..]. destruct (negb _); [done|]. destruct (isPlaceholderRecord t); [done|].
  destruct (GoalDigest _ _) as [digest|e]; [|done]. cbn [bind swp].
  intros b s2 [Hdb2 [Hq2 _]]. destruct b as [[|]|e]; [|done..]. cbn [negb swp].
  intros u s3 [Hdb3 [_ Hq3]]. destruct u as [u|e]; [|by cbn [swp]; intros]. cbn [bind swp].
  intros n s4 [Hr [_ Hq4]]. assert (pending (lg_db s3) = None) as Ho3 by congruence.
  apply (swp_sruns _ _ _ _ _ _ (MarkRequeued_swp ctx id _ Ho3)) in Hr as [Ho4 [now Hl]].
  destruct n as [n|e]; [|done]. destruct (n =? 1); [|done]. cbn [negb swp]. intros v s5 [Hdb5 [_ Hq5]] _. split.
  - split; [congruence|]. unfold ledgerRows. rewrite Hdb5. cbv zeta in Hl. rewrite Hl. intros t'. apply requeue_settles.
  - eexists. by rewrite Hq5, Hq4, Hq3, Hq2, Hq1.
Qed.

(** Replays one after the other, whatever each of them reports. *)
Fixpoint replays (l : list (Context * Z)) : proc AnalysisE unit :=
  match l with [] => Ret tt | (ctx, id) :: l => bind (Replay ctx id) (fun _ => replays l) end.

(** C11. A row is replayed once. Over the table, with Redis, Kafka and MySQL failing as they like: when a replay
    reports success it has queued one message and its row is no longer FAILED, and however often the same
    row is replayed after that, by anyone, nothing more is queued for it. *)
Theorem replayed_once (ctx : Context) (id : Z) (s : ledger) (again : list (Context * Z)) :
  pending (lg_db s) = None -> Forall (fun ci => ci.2 = id) again ->
  swp serveLedger (Replay ctx id) s (fun r s' => r = Ok tt ->
    (forall t, t ∈ ledgerRows s' -> ft_ID t = id -> ft_Status t <> "FAILED")
    /\ (exists msg, lg_queued s' = lg_queued s ++ [msg])
    /\ swp serveLedger (replays again) s' (fun _ s'' => lg_queued s'' = lg_queued s')).
Proof.
  intros Ho Hids. eapply swp_mono; [by apply Replay_swp|]. intros r s1 Hr Hok. destruct (Hr Hok) as [Hset Hmsg].
  split; [apply Hset|]. split; [done|]. clear r Hr Hok Hmsg. revert s1 Hset.
  induction Hids as [|[ctx' id'] l Hid _ IH]; intros s1 Hset; [done|]. cbn in Hid. subst id'. cbn [replays].
  apply swp_bind. eapply swp_mono; [by apply Replay_settled|]. intros r s2 (Hset2 & Hq & _).
  eapply swp_mono; [by apply IH|]. cbv beta. intros _ s3 ->. done.
Qed.

End ledger.

(** ** Two administrators *)

#[local] Existing Instance caseFolding.
#[local] Instance plainText : Sha256 := fun v => v.

Definition failedRow : FailedAnalysisTask :=
  mkFailedTask 1 7 ActionStart ModeGeneral "unknown" "notes" 3 "INTERNAL" None "FAILED" 0 0.

Definition ledgerTables (t : FailedAnalysisTask) : Gorm.tables := Gorm.mkTables [] [] [t] [].

Definition ledgerWith (t : FailedAnalysisTask) (now : Z) (h : list Gorm.tables) keys queued : ledger :=
  mkLedger (Gorm.mkDatabase (ledgerTables t) None (fun _ => 2) now h) keys queued.

Definition oneFailed : ledger := ledgerWith failedRow 0 [ledgerTables failedRow] ∅ [].

(** The consumer finishes the task: its idempotency key is given back. *)
Definition taskDone (s s' : ledger) : Prop :=
  lg_db s' = lg_db s /\ lg_queued s' = lg_queued s /\ exists k, lg_keys s' = lg_keys s ∖ {[ k ]}.

Definition replaying (p : proc AnalysisE unit) : Prop := exists ctx id, p = bind (Replay ctx id) (fun _ => Ret tt).

Lemma reads_failedRow ctx : serveLedger _ (FailedFindByID ctx 1) oneFailed (Ok (Some failedRow)) oneFailed.
Proof.
  split; [|done]. eapply (sruns_do _ _ _ _ _ (Ok failedRow)); [|constructor]. split; [done|].
  exists failedRow. split; [apply list_elem_of_here|done].
Qed.

Lemma marks ctx t now now' h keys queued :
  now < now' -> ft_UpdatedAt t = now -> ft_ID t = 1 ->
  serveLedger _ (FailedMarkRequeued ctx 1) (ledgerWith t now h keys queued) (Ok 1)
    (ledgerWith (requeued now' t) now' (ledgerTables (requeued now' t) :: h) keys queued).
Proof.
  intros Hn Hu Hid. split; [|done].
  eapply (sruns_do _ _ _ _ _ now'); [split; [cbn; lia|reflexivity]|]. eapply (sruns_do _ _ _ _ _ (Ok 1)); [|constructor].
  cbn [Gorm.gorm Gorm.changes]. unfold Gorm.affected, Gorm.updated. cbn [Gorm.view default pending Gorm.rows tb_failed committed ledgerWith lg_db ledgerTables List.filter fmap list_fmap].
  rewrite byId_failed, assign_requeued, Hid. cbn [Z.eqb Pos.eqb andb].
  rewrite bool_decide_eq_false_2 by (intros E; apply (f_equal ft_UpdatedAt) in E; cbn in E; lia). done.
Qed.

(** Two replays that overlap can queue the task twice: both read the row while it is FAILED, one is held up
    until the task of the other was queued, marked and completed; the update does not look at the status, so
    the second replay succeeds as well. *)
Theorem overlapping_replays :
  exists y, rtc (sys_step (fun _ => serveLedger) taskDone replaying) (mkSystem oneFailed []) y
    /\ lg_queued (sys_state y) = [replayMsg failedRow; replayMsg failedRow]
    /\ sys_threads y = [Ret tt; Ret tt].
Proof.
  set (key := Active (NormalizeContentHash 7 "unknown") "notes").
  set (p := bind (Replay Background 1) (fun _ => Ret tt : proc AnalysisE unit)).
  assert (replaying p) as Hp by (by exists Background, 1).
  set (h0 := [ledgerTables failedRow]). set (t1 := requeued 5 failedRow). set (t2 := requeued 6 failedRow).
  set (h1 := ledgerTables t1 :: h0). set (h2 := ledgerTables t2 :: h1).
  set (m := replayMsg failedRow).
  eexists. split; [|split].
  - eapply rtc_l; [apply (sys_spawn _ _ _ _ _ p Hp)|]. eapply rtc_l; [apply (sys_spawn _ _ _ _ _ p Hp)|]. cbn [app].
    eapply rtc_l; [eapply (sys_call _ _ _ _ _ 0 _ _ _ (Ok (Some failedRow)) oneFailed); [reflexivity|by apply reads_failedRow]|]. cbn [insert list_insert].
    eapply rtc_l; [eapply (sys_call _ _ _ _ _ 1 _ _ _ (Ok (Some failedRow)) oneFailed); [reflexivity|by apply reads_failedRow]|]. cbn [insert list_insert].
    eapply rtc_l; [eapply (sys_call _ _ _ _ _ 0 _ _ _ (Ok true) (ledgerWith failedRow 0 h0 {[ key ]} [])); [reflexivity|]|].
    { split; [done|]. split; [done|]. split; [apply not_elem_of_empty|]. cbn. set_solver. }
    eapply rtc_l; [eapply (sys_call _ _ _ _ _ 0 _ _ _ (Ok tt) (ledgerWith failedRow 0 h0 {[ key ]} [m])); [reflexivity|]|].
    { by split_and!. }
    eapply rtc_l; [eapply (sys_call _ _ _ _ _ 0 _ _ _ (Ok 1) (ledgerWith t1 5 h1 {[ key ]} [m])); [reflexivity|]|].
    { exact (marks _ failedRow 0 5 _ _ _ ltac:(lia) eq_refl eq_refl). }
    eapply rtc_l; [eapply (sys_call _ _ _ _ _ 0 _ _ _ (Ok tt) (ledgerWith t1 5 h1 {[ key ]} [m])); [reflexivity|by split_and!]|].
    eapply rtc_l; [apply sys_env with (s' := ledgerWith t1 5 h1 ∅ [m])|].
    { split; [done|]. split; [done|]. exists key. cbn. set_solver. }
    eapply rtc_l; [eapply (sys_call _ _ _ _ _ 1 _ _ _ (Ok true) (ledgerWith t1 5 h1 {[ key ]} [m])); [reflexivity|]|].
    { split; [done|]. split; [done|]. split; [apply not_elem_of_empty|]. cbn. set_solver. }
    eapply rtc_l; [eapply (sys_call _ _ _ _ _ 1 _ _ _ (Ok tt) (ledgerWith t1 5 h1 {[ key ]} [m; m])); [reflexivity|]|].
    { by split_and!. }
    eapply rtc_l; [eapply (sys_call _ _ _ _ _ 1 _ _ _ (Ok 1) (ledgerWith t2 6 h2 {[ key ]} [m; m])); [reflexivity|]|].
    { exact (marks _ t1 5 6 _ _ _ ltac:(lia) eq_refl eq_refl). }
    eapply rtc_l; [eapply (sys_call _ _ _ _ _ 1 _ _ _ (Ok tt) (ledgerWith t2 6 h2 {[ key ]} [m; m])); [reflexivity|by split_and!]|].
    apply rtc_refl.
  - done.
  - done.
Qed.

Lemma replayed_once_witness :
  pending (lg_db oneFailed) = None
  /\ swp serveLedger (Replay Background 1) oneFailed (fun r s' => r = Ok tt ->
       swp serveLedger (replays [(Background, 1); (RequestContext, 1)]) s' (fun _ s'' => lg_queued s'' = lg_queued s')).
Proof.
  split; [reflexivity|].
  eapply swp_mono; [apply (replayed_once Background 1 oneFailed [(Background, 1); (RequestContext, 1)] eq_refl)|].
  - repeat constructor.
  - intros r s' Hr E. apply Hr, E.
Defined.
