(* ===== verification/Store.v ===== *)
(** * What the media, upload and instant-upload services are built on

    One interface [StoreE] for the Redis client, the lock factory, the object store, the media table,
    the clock, temporary files and the other services these three call, so that their programs can run
    against one shared state.  MD5, UUID parsing and the JSON codec of the cached list are parameters. *)

From S2P Require Import Prelude GoStrings Proc Errors Model GoContext.

Local Open Scope string_scope.
Local Open Scope list_scope.
Local Open Scope Z_scope.

(** ** Parameters *)

(** [crypto/md5]: a digest of [md5.Size] = 16 bytes. *)
Class Md5 := { md5Sum : string -> string; md5Sum_size : forall s, String.length (md5Sum s) = 16%nat }.

(** [uuid.Parse(s)] succeeds. *)
Class UuidSyntax := uuidParses : string -> bool.

Class ListCodec := {
  marshalList : list MediaFile -> res string; unmarshalList : string -> res (list MediaFile) }.

(** The endpoint (no trailing slash) and bucket a [storage.Minio] was configured with. *)
Class MinioConfig := { endpoint : string; bucket : string }.

(** ** Hexadecimal ([encoding/hex]) *)

Fixpoint EncodeToString (s : string) : string :=
  match s with
  | EmptyString => ""
  | String a r => String (hex_digit (byte a / 16)) (String (hex_digit (byte a mod 16)) (EncodeToString r))
  end.

Definition from_hex (a : ascii) : option Z :=
  let b := byte a in
  if in_range 48 57 b then Some (b - 48)
  else if in_range 97 102 b then Some (b - 87)
  else if in_range 65 70 b then Some (b - 55)
  else None.

Fixpoint DecodeString (s : string) : option string :=
  match s with
  | EmptyString => Some ""
  | String a (String b r) =>
      match from_hex a, from_hex b, DecodeString r with
      | Some h, Some l, Some t => Some (String (ascii_of_Z (16 * h + l)) t)
      | _, _, _ => None
      end
  | String _ EmptyString => None
  end.

(** ** The interface *)

(** An open file: its bytes, and the error a read of it ends with, if any. *)
Record reader := mkReader { rd_data : string; rd_err : option gerror }.

(** A [*multipart.FileHeader]: its name, size and content type, and the bytes the client sent. *)
Record FileHeader := mkFileHeader { fh_Filename : string; fh_Size : Z; fh_ContentType : string; fh_Content : string }.

Inductive StoreE : Type -> Type :=
(* Redis *)
| SGet (ctx : Context) (key : string) : StoreE (res (option string))
| SSet (ctx : Context) (key value : string) (ttl : Z) : StoreE (res unit)
| SDel (ctx : Context) (keys : list string) : StoreE (res unit)
| SHSetExpire (ctx : Context) (key : string) (fields : list (string * string)) (ttl : Z) : StoreE (res unit)
| SHGetAll (ctx : Context) (key : string) : StoreE (res (gmap string string))
| SHTake (ctx : Context) (key : string) : StoreE (res (gmap string string)) (* HGETALL, DEL in MULTI *)
| SMembers (ctx : Context) (key : string) : StoreE (res (list string))
| SAddPart (ctx : Context) (key member : string) (touched : list string) (ttl : Z) : StoreE (res unit)
(* locks *)
| STryLock (ctx : Context) (key : string) (wait : Z) : StoreE (res (option Lock))
| SIsHeld (l : Lock) : StoreE bool
| SUnlock (ctx : Context) (l : Lock) : StoreE (res unit)
(* the object store *)
| MUploadObject (ctx : Context) (name : string) (data : reader) (size : Z) (contentType : string) : StoreE (res string)
| MUploadStream (ctx : Context) (data : reader) (size : Z) (filename contentType : string) : StoreE (res string)
| MUploadLocalFile (ctx : Context) (path filename prefix : string) : StoreE (res string)
| MCopyObjectTo (ctx : Context) (name : string) : StoreE (res string)
| MRemoveObject (ctx : Context) (name : string) : StoreE (res unit)
| MRemoveFile (ctx : Context) (url : string) : StoreE (res unit)
| MObjectSize (ctx : Context) (url : string) : StoreE (res Z)
| MReadRange (ctx : Context) (url : string) (offset length : Z) : StoreE (res string)
| MPlaybackURL (ctx : Context) (source : string) : StoreE (res string)
| MReadableSource (ctx : Context) (source : string) : StoreE (res string)
(* the media table *)
| DFindByID (ctx : Context) (id : Z) : StoreE (res (option MediaFile))
| DInsert (ctx : Context) (m : MediaFile) : StoreE (res Z) (* the id of the new row *)
| DListByUser (ctx : Context) (userID : Z) : StoreE (res (list MediaFile))
| DDeleteByID (ctx : Context) (id : Z) : StoreE (res unit)
| DCountFileReferences (ctx : Context) (hash : option string) (path : string) : StoreE (res Z)
| DFindByContentHash (ctx : Context) (hash : string) : StoreE (res (list MediaFile))
(* other services *)
| CLoadContext (ctx : Context) (mediaID : Z) : StoreE (res (option VideoContext))
| VDeleteEvidenceFrames (ctx : Context) (vc : option VideoContext) : StoreE unit
| APurge (ctx : Context) (mediaID : Z) : StoreE (res unit)
| YDownload (ctx : Context) (url : string) : StoreE (res (string * string))
(* the operating system *)
| NowLocal : StoreE Z
| NewUUID : StoreE string
| RandInt (n : Z) : StoreE (res Z)
| FileOpen (fh : FileHeader) : StoreE (res reader)
| OsOpen (path : string) : StoreE (res reader)
| OsCreateTemp (pattern : string) : StoreE (res string)
| OsWrite (path data : string) : StoreE (res unit) (* flush of the buffered writer *)
| OsClose (path : string) : StoreE (res unit)
| OsRemove (path : string) : StoreE (res unit)
| OsIsRegular (path : string) : StoreE bool
| RunFFmpeg (ctx : Context) (args : list string) : StoreE (res unit)
| CtxErr (ctx : Context) : StoreE (option gerror).

(** ** Object names (storage/minio.go) *)

Section storage.
Context `{MinioConfig}.

Definition IsManagedFile (fileURL : string) : bool := HasPrefix fileURL (endpoint +:+ "/" +:+ bucket +:+ "/").

Definition validateObjectName (name : string) : res unit :=
  if is_blank name || HasPrefix name "/" || Contains name ".."
  then Err (InvalidArgument "invalid MinIO object name") else Ok tt.

Definition ObjectURL (objectName : string) : res string :=
  match validateObjectName objectName with
  | Err e => Err e
  | Ok _ => Ok (endpoint +:+ "/" +:+ bucket +:+ "/" +:+ objectName)
  end.

End storage.

(** The field of a Redis hash, "" when it is not there. *)
Definition field (h : gmap string string) (k : string) : string := default "" (h !! k).
