(* ===== verification/Media.v ===== *)
(** * Media files (internal/media/media.go) *)

From S2P Require Import Prelude GoStrings Proc Errors Model GoContext Store.

Local Open Scope string_scope.
Local Open Scope list_scope.
Local Open Scope Z_scope.

Definition md5KeyPrefix : string := "media:md5:".

Definition videoSuffixes : list string := [".mp4"; ".mov"; ".mkv"; ".avi"; ".webm"; ".m4v"].

Definition ObjectLockKey (contentHash : string) : string := "lock:media-object:" +:+ contentHash.

Definition ShouldDeleteObject (managed locked : bool) (remainingRefs : Z) : bool :=
  managed && locked && (remainingRefs =? 0).

Definition userListKey (userID : Z) : string := "media:list:v2:user:" +:+ FormatInt userID.

Definition fileSuffix (filename : string) : string :=
  match LastIndexByte filename "." with Some dot => str_drop dot filename | None => "" end.

Definition NormalizeVideoFilename (filename : string) : res string :=
  if is_blank filename then Err (InvalidArgument "视频文件名不能为空")
  else
    let n := replace_byte "\" "/" filename in
    let n := TrimSpace (match LastIndexByte n "/" with Some i => str_drop (S i) n | None => n end) in
    if String.eqb n "" || (255 <? utf16Len n) then Err (InvalidArgument "视频文件名无效或过长")
    else if negb (existsb (String.eqb (ToLower (fileSuffix n))) videoSuffixes)
         then Err (InvalidArgument "仅支持 MP4、MOV、MKV、AVI、WEBM 和 M4V 视频")
         else Ok n.

(** The runes [linkTitle] writes: at most 80, separators and control characters as spaces. *)
Definition linkTitle (title : string) : string :=
  TrimSpace (foldr (fun c acc =>
    (if (ck_rune c =? 47) || (ck_rune c =? 92) || (ck_rune c <? 0x20) || (ck_rune c =? 0x7f) then " "
     else if chunk_valid c then ck_text c else "�") +:+ acc) "" (take 80 (chunks (TrimSpace title)))).

Section media.
Context `{Md5, ListCodec, MinioConfig}.

Definition CalculateMD5 (r : reader) : res string :=
  match rd_err r with Some e => Err e | None => Ok (EncodeToString (md5Sum (rd_data r))) end.

Definition RememberContentHash (ctx : Context) (mediaID : Z) (md5 : string) : proc StoreE unit :=
  if String.eqb md5 "" then Ret tt
  else Do (SSet ctx (md5KeyPrefix +:+ FormatInt mediaID) md5 0) (fun _ => Ret tt).

Definition InvalidateUserList (ctx : Context) (userID : Z) : proc StoreE unit :=
  Do (SDel ctx [userListKey userID]) (fun _ => Ret tt).

Definition removeUploadedObject (ctx : Context) (fileURL : string) : proc StoreE unit :=
  Do (MRemoveFile ctx fileURL) (fun _ => Ret tt).

Definition newRow (name fileURL : string) (now userID : Z) (md5 : string) : MediaFile :=
  mkMediaFile 0 userID name "COMPLETED" fileURL (Some md5) None None None now.

(** The row with the id the database gave it. *)
Definition with_id (m : MediaFile) (id : Z) : MediaFile :=
  mkMediaFile id (mf_UserID m) (mf_Filename m) (mf_Status m) (mf_FilePath m) (mf_ContentHash m)
    (mf_AISummary m) (mf_TranscriptText m) (mf_CoverURL m) (mf_UploadTime m).

Definition SaveUploadedMedia (ctx : Context) (filename fileURL : string) (userID : Z) (md5 : string)
  : proc StoreE (res MediaFile) :=
  match NormalizeVideoFilename filename with
  | Err e => bind (removeUploadedObject ctx fileURL) (fun _ => Ret (Err e))
  | Ok name =>
      Do NowLocal (fun now =>
      let m := newRow name fileURL now userID md5 in
      Do (DInsert ctx m) (fun r =>
      match r with
      | Err e => bind (removeUploadedObject ctx fileURL) (fun _ => Ret (Err e))
      | Ok id =>
          bind (RememberContentHash ctx id md5) (fun _ =>
          bind (InvalidateUserList ctx userID) (fun _ => Ret (Ok (with_id m id))))
      end))
  end.

Definition SaveReference (ctx : Context) (filename fileURL : string) (userID : Z) (md5 : string)
  : proc StoreE (res MediaFile) :=
  match NormalizeVideoFilename filename with
  | Err e => Ret (Err e)
  | Ok name =>
      Do NowLocal (fun now =>
      let m := newRow name fileURL now userID md5 in
      id ←? call (DInsert ctx m);
      bind (RememberContentHash ctx id md5) (fun _ =>
      bind (InvalidateUserList ctx userID) (fun _ => Ret (Ok (with_id m id)))))
  end.

Definition FindByContentHash (ctx : Context) (contentHash : string) : proc StoreE (res (list MediaFile)) :=
  call (DFindByContentHash ctx contentHash).

Definition ListByUser (ctx : Context) (userID : Z) : proc StoreE (res (list MediaFile)) :=
  let key := userListKey userID in
  let query :=
    list ←? call (DListByUser ctx userID);
    match marshalList list with
    | Ok b => Do (SSet ctx key b (30 * minute)) (fun _ => Ret (Ok list))
    | Err _ => Ret (Ok list)
    end in
  Do (SGet ctx key) (fun cached =>
  match cached with
  | Ok (Some v) => match unmarshalList v with Ok out => Ret (Ok out) | Err _ => query end
  | _ => query
  end).

Definition ContentHash (ctx : Context) (mediaID : Z) : proc StoreE (res string) :=
  let load :=
    m ←? call (DFindByID ctx mediaID);
    match m with
    | Some row =>
        match mf_ContentHash row with
        | Some h => bind (RememberContentHash ctx mediaID h) (fun _ => Ret (Ok h))
        | None => Ret (Ok "")
        end
    | None => Ret (Ok "")
    end in
  Do (SGet ctx (md5KeyPrefix +:+ FormatInt mediaID)) (fun cached =>
  match cached with
  | Ok (Some v) => if negb (is_blank v) then Ret (Ok v) else load
  | _ => load
  end).

Definition RequireOwnedMedia (ctx : Context) (mediaID userID : Z) : proc StoreE (res MediaFile) :=
  found ←? call (DFindByID ctx mediaID);
  match found with
  | None => Ret (Err (NotFound "文件不存在"))
  | Some m =>
      if negb (mf_UserID m =? userID) then Ret (Err (Forbidden "无权访问该文件")) else Ret (Ok m)
  end.

Definition Exists (ctx : Context) (mediaID : Z) : proc StoreE (res bool) :=
  m ←? call (DFindByID ctx mediaID);
  Ret (Ok (match m with Some _ => true | None => false end)).

Definition PurgeRuntimeArtifacts (ctx : Context) (mediaID : Z) : proc StoreE unit :=
  Do (CLoadContext ctx mediaID) (fun r =>
  Do (VDeleteEvidenceFrames ctx (match r with Ok vc => vc | Err _ => None end)) (fun _ =>
  let id := FormatInt mediaID in
  Do (SDel ctx [md5KeyPrefix +:+ id; "transcription:active:" +:+ id; "transcription:state:" +:+ id]) (fun _ =>
  Do (APurge ctx mediaID) (fun _ => Ret tt)))).

(** The deferred unlock of [DeleteOwnedMedia]; [IsHeld] of a nil lock is false. *)
Definition releaseObjectLock (ctx : Context) (lock : option Lock) : proc StoreE unit :=
  match lock with
  | None => Ret tt
  | Some l => Do (SIsHeld l) (fun held =>
      if held : bool then Do (SUnlock ctx l) (fun _ => Ret tt) else Ret tt)
  end.

(** [DeleteOwnedMedia] from the row's deletion on. *)
Definition deleteRow (ctx : Context) (m : MediaFile) (mediaID userID : Z) (locked : bool)
  : proc StoreE (res unit) :=
  _ ←? call (DDeleteByID ctx mediaID);
  Do (DCountFileReferences ctx (mf_ContentHash m) (mf_FilePath m)) (fun c =>
  let '(remaining, locked) := match c with Ok n => (n, locked) | Err _ => (0, false) end in
  bind (if ShouldDeleteObject (IsManagedFile (mf_FilePath m)) locked remaining
        then Do (MRemoveFile ctx (mf_FilePath m)) (fun _ => Ret tt)
        else Ret tt) (fun _ =>
  bind (PurgeRuntimeArtifacts ctx mediaID) (fun _ =>
  bind (InvalidateUserList ctx userID) (fun _ => Ret (Ok tt))))).

Definition DeleteOwnedMedia (ctx : Context) (mediaID userID : Z) : proc StoreE (res unit) :=
  m ←? RequireOwnedMedia ctx mediaID userID;
  bind (match mf_ContentHash m with
        | Some h =>
            if negb (String.eqb h "") then
              Do (STryLock ctx (ObjectLockKey h) (5 * second)) (fun r =>
                Ret (match r with Ok (Some l) => (Some l, true) | _ => (None, false) end))
            else Ret (None, true)
        | None => Ret (None, true)
        end) (fun '(lock, locked) =>
  bind (deleteRow ctx m mediaID userID locked) (fun r =>
  bind (releaseObjectLock (WithoutCancel ctx) lock) (fun _ => Ret r))).

Definition PlaybackURL (ctx : Context) (source : string) : proc StoreE (res string) := call (MPlaybackURL ctx source).

Definition ReadableSource (ctx : Context) (source : string) : proc StoreE (res string) :=
  call (MReadableSource ctx source).

Definition IngestFile (ctx : Context) (fh : option FileHeader) (userID : Z) : proc StoreE (res MediaFile) :=
  match fh with
  | None => Ret (Err (InvalidArgument "上传文件不能为空"))
  | Some fh =>
      if fh_Size fh =? 0 then Ret (Err (InvalidArgument "上传文件不能为空"))
      else
        match NormalizeVideoFilename (fh_Filename fh) with
        | Err e => Ret (Err e)
        | Ok filename =>
            f ←? call (FileOpen fh);
            match CalculateMD5 f with
            | Err e => Ret (Err e)
            | Ok md5 =>
                f ←? call (FileOpen fh);
                fileURL ←? call (MUploadStream ctx f (fh_Size fh) (fh_Filename fh) (fh_ContentType fh));
                SaveUploadedMedia ctx filename fileURL userID md5
            end
        end
  end.

Definition IngestURL (ctx : Context) (url : string) (userID : Z) : proc StoreE (res MediaFile) :=
  if is_blank url then Ret (Err (InvalidArgument "视频链接不能为空"))
  else
    '(tmp, title) ←? call (YDownload ctx url);
    bind
      (f ←? call (OsOpen tmp);
       match CalculateMD5 f with
       | Err e => Ret (Err e)
       | Ok md5 =>
           fileURL ←? call (MUploadLocalFile ctx tmp (Base tmp) "");
           let name := if String.eqb (linkTitle title) "" then "WEB_" +:+ Base tmp else linkTitle title +:+ ".mp4" in
           SaveUploadedMedia ctx name fileURL userID md5
       end) (fun r =>
    Do (OsRemove tmp) (fun _ => Ret r)).

Definition ExportMP3 (ctx : Context) (m : MediaFile) : proc StoreE (res string) :=
  input ←? ReadableSource ctx (mf_FilePath m);
  bind (if is_blank input then Ret true
        else if HasPrefix input "http" then Ret false
        else Do (OsIsRegular input) (fun reg => Ret (negb reg))) (fun missing =>
  if missing : bool then Ret (Err (NotFound "视频源文件不存在"))
  else
    Do (OsCreateTemp "dovideo-audio-*.mp3") (fun t =>
    match t with
    | Err e => Ret (Err (Internal "音频转换失败" (Some e)))
    | Ok out =>
        Do (OsClose out) (fun _ =>
        let cctx := WithSource (TimedOut (15 * minute)) ctx in
        Do (RunFFmpeg cctx ["-y"; "-i"; input; "-vn"; "-acodec"; "libmp3lame"; "-q:a"; "2"; out]) (fun r =>
        Do (CtxErr cctx) (fun ce =>
        if match ce with Some e => IsSentinel e DeadlineExceeded | None => false end then
          Do (OsRemove out) (fun _ => Ret (Err (Internal "音频转换超时" None)))
        else
          match r with
          | Err e => Do (OsRemove out) (fun _ => Ret (Err (Internal "音频转换失败" (Some e))))
          | Ok _ => Ret (Ok out)
          end)))
    end)).

End media.
