(* ===== verification/Upload.v ===== *)
(** * Chunked and instant uploads (internal/upload: chunk.go, instant.go) *)

From S2P Require Import Prelude GoStrings Proc Errors Model GoContext TaskKeys Store Media Collation.

Local Open Scope string_scope.
Local Open Scope list_scope.
Local Open Scope Z_scope.

(** ** Chunked uploads (chunk.go) *)

Definition uploadKeyPrefix : string := "upload:chunked:".
Definition MaxChunkBytes : Z := 5 * 1024 * 1024.
Definition MaxTotalChunks : Z := 410.
Definition chunkObjectPrefix : string := "chunk-uploads/".
Definition uploadTTL : Z := 24 * hour.

Definition uploadKey (id : string) : string := uploadKeyPrefix +:+ id.
Definition partsKey (id : string) : string := uploadKey id +:+ ":parts".
Definition completedKey (id : string) : string := uploadKey id +:+ ":completed".

(** [fmt.Sprintf("invalid number %q", s)] for a text that needs no escaping. *)
Definition invalidNumber (s : string) : gerror := InvalidArgument ("invalid number " +:+ char 34 +:+ s +:+ char 34).

Section upload.
Context `{Md5, ListCodec, MinioConfig, UuidSyntax}.

Definition validateUploadID (id : string) : res unit :=
  if uuidParses id then Ok tt else Err (InvalidArgument "invalid uploadId").

Definition chunkObjectName (id : string) (idx : Z) : res string :=
  match validateUploadID id with
  | Err e => Err e
  | Ok _ => Ok (chunkObjectPrefix +:+ id +:+ "/part-" +:+ Itoa idx)
  end.

Definition Initialize (ctx : Context) (filename : string) (totalChunks userID : Z) : proc StoreE (res string) :=
  match NormalizeVideoFilename filename with
  | Err e => Ret (Err e)
  | Ok name =>
      if (totalChunks <=? 0) || (MaxTotalChunks <? totalChunks)
      then Ret (Err (InvalidArgument ("totalChunks must be between 1 and " +:+ Itoa MaxTotalChunks)))
      else
        Do NewUUID (fun id =>
        _ ←? call (SHSetExpire ctx (uploadKey id)
                     [("filename", name); ("totalChunks", Itoa totalChunks); ("userId", FormatInt userID)] uploadTTL);
        Ret (Ok id))
  end.

Definition requireUpload (ctx : Context) (uploadID : string) (userID : Z) : proc StoreE (res (gmap string string)) :=
  match validateUploadID uploadID with
  | Err e => Ret (Err e)
  | Ok _ =>
      meta ←? call (SHGetAll ctx (uploadKey uploadID));
      if Nat.eqb (size meta) 0 then Ret (Err (InvalidArgument "uploadId does not exist or has expired"))
      else if negb (String.eqb (FormatInt userID) (field meta "userId"))
           then Ret (Err (Forbidden "无权访问该上传任务"))
           else Ret (Ok meta)
  end.

(** The loop of [UploadedChunks]. *)
Fixpoint parseIndexes (members : list string) : res (list Z) :=
  match members with
  | [] => Ok []
  | m :: rest =>
      match Atoi m with
      | None => Err (invalidNumber m)
      | Some n => match parseIndexes rest with Ok out => Ok (n :: out) | Err e => Err e end
      end
  end.

Definition UploadedChunks (ctx : Context) (uploadID : string) (userID : Z) : proc StoreE (res (list Z)) :=
  _ ←? requireUpload ctx uploadID userID;
  members ←? call (SMembers ctx (partsKey uploadID));
  Ret (match parseIndexes members with Ok out => Ok (merge_sort Z.le out) | Err e => Err e end).

Definition UploadChunk (ctx : Context) (uploadID : string) (chunkIndex totalChunks : Z)
    (fh : option FileHeader) (userID : Z) : proc StoreE (res unit) :=
  match fh with
  | None => Ret (Err (InvalidArgument "chunk is empty"))
  | Some fh =>
      if fh_Size fh =? 0 then Ret (Err (InvalidArgument "chunk is empty"))
      else if MaxChunkBytes <? fh_Size fh then Ret (Err (InvalidArgument "chunk size cannot exceed 5MB"))
      else
        meta ←? requireUpload ctx uploadID userID;
        match Atoi (field meta "totalChunks") with
        | None => Ret (Err (invalidNumber (field meta "totalChunks")))
        | Some expected =>
            if negb (totalChunks =? expected) || (chunkIndex <? 0) || (expected <=? chunkIndex)
            then Ret (Err (InvalidArgument "invalid chunk index or totalChunks"))
            else
              match chunkObjectName uploadID chunkIndex with
              | Err e => Ret (Err e)
              | Ok name =>
                  f ←? call (FileOpen fh);
                  _ ←? call (MUploadObject ctx name f (fh_Size fh) "application/octet-stream");
                  call (SAddPart ctx (partsKey uploadID) (Itoa chunkIndex)
                          [uploadKey uploadID; partsKey uploadID] uploadTTL)
              end
        end
  end.

Definition completedUpload (ctx : Context) (uploadID : string) (userID : Z) : proc StoreE (res (option MediaFile)) :=
  v ←? call (SGet ctx (completedKey uploadID));
  match v with
  | None => Ret (Ok None)
  | Some v =>
      match ParseInt 64 v with
      | None => Do (SDel ctx [completedKey uploadID]) (fun _ => Ret (Ok None))
      | Some id => m ←? RequireOwnedMedia ctx id userID; Ret (Ok (Some m))
      end
  end.

(** The merge loop from chunk [i] on, [n] chunks left: the bytes written so far are [acc]. *)
Fixpoint mergeChunks (n : nat) (ctx : Context) (uploadID : string) (i : Z) (acc : string)
  : proc StoreE (res string) :=
  match n with
  | O => Ret (Ok acc)
  | S n' =>
      match chunkObjectName uploadID i with
      | Err e => Ret (Err e)
      | Ok name =>
          data ←? call (MCopyObjectTo ctx name);
          mergeChunks n' ctx uploadID (i + 1) (acc +:+ data)
      end
  end.

Fixpoint cleanupChunks (n : nat) (ctx : Context) (uploadID : string) (i : Z) : proc StoreE unit :=
  match n with
  | O => Ret tt
  | S n' =>
      let name := match chunkObjectName uploadID i with Ok name => name | Err _ => "" end in
      Do (MRemoveObject ctx name) (fun _ => cleanupChunks n' ctx uploadID (i + 1))
  end.

Definition cleanup (ctx : Context) (uploadID : string) (total mediaID : Z) : proc StoreE unit :=
  bind (cleanupChunks (Z.to_nat total) ctx uploadID 0) (fun _ =>
  Do (SDel ctx [uploadKey uploadID; partsKey uploadID]) (fun _ => Ret tt)).

(** [Complete] from the creation of the temporary file on. *)
Definition mergeInto (ctx : Context) (uploadID : string) (totalChunks : Z) (path : string) : proc StoreE (res string) :=
  bind (mergeChunks (Z.to_nat totalChunks) ctx uploadID 0 "") (fun r =>
  match r with
  | Err e => Do (OsClose path) (fun _ => Ret (Err e))
  | Ok content =>
      Do (OsWrite path content) (fun w =>
      match w with
      | Err e => Do (OsClose path) (fun _ => Ret (Err e))
      | Ok _ => _ ←? call (OsClose path); Ret (Ok content)
      end)
  end).

Definition storeMerged (ctx : Context) (uploadID : string) (userID : Z) (filename : string) (totalChunks : Z)
    (path : string) : proc StoreE (res MediaFile) :=
  content ←? mergeInto ctx uploadID totalChunks path;
  fileURL ←? call (MUploadLocalFile ctx path filename "");
  mf ←? SaveUploadedMedia ctx filename fileURL userID (EncodeToString (md5Sum content));
  _ ←? call (SSet ctx (completedKey uploadID) (FormatInt (mf_ID mf)) uploadTTL);
  bind (cleanup ctx uploadID totalChunks (mf_ID mf)) (fun _ => Ret (Ok mf)).

(** [Complete] under the merge lock. *)
Definition completeLocked (ctx : Context) (uploadID : string) (userID : Z) : proc StoreE (res MediaFile) :=
  done ←? completedUpload ctx uploadID userID;
  match done with
  | Some mf => Ret (Ok mf)
  | None =>
      meta ←? requireUpload ctx uploadID userID;
      let filename := field meta "filename" in
      match Atoi (field meta "totalChunks") with
      | None => Ret (Err (invalidNumber (field meta "totalChunks")))
      | Some totalChunks =>
          uploaded ←? UploadedChunks ctx uploadID userID;
          if negb (Z.of_nat (length uploaded) =? totalChunks)
          then Ret (Err (Business CodeConflict ("分片尚未全部上传完成（已传 " +:+ Itoa (Z.of_nat (length uploaded))
                           +:+ "/" +:+ Itoa totalChunks +:+ "）")))
          else
            path ←? call (OsCreateTemp ("dovideo-merged-*" +:+ fileSuffix filename));
            bind (storeMerged ctx uploadID userID filename totalChunks path) (fun r =>
            Do (OsRemove path) (fun _ => Ret r))
      end
  end.

Definition Complete (ctx : Context) (uploadID : string) (userID : Z) : proc StoreE (res MediaFile) :=
  match validateUploadID uploadID with
  | Err e => Ret (Err e)
  | Ok _ =>
      lock ←? call (STryLock ctx ("lock:upload:merge:" +:+ uploadID) 0);
      match lock with
      | None => Ret (Err (Business CodeConflict "该上传任务正在合并中，请稍后重试"))
      | Some l =>
          bind (completeLocked ctx uploadID userID) (fun r =>
          bind (releaseObjectLock (WithoutCancel ctx) (Some l)) (fun _ => Ret r))
      end
  end.

(** ** Instant uploads (instant.go) *)

Definition maxChallengeBytes : Z := Z.shiftl 1 20.
Definition challengeTTL : Z := 2 * minute.
Definition challengeKeyPrefix : string := "upload:challenge:".
Definition objectLockWait : Z := 5 * second.

Record Challenge := mkChallenge { ch_ChallengeID : string; ch_Offset : Z; ch_Length : Z }.
Record ChallengeRequest := mkChallengeRequest { cr_MD5 : string; cr_Size : Z; cr_Filename : string }.
Record ProofRequest := mkProofRequest { pr_ChallengeID : string; pr_RangeMD5 : string }.

Definition ValidateChallengeRequest (req : ChallengeRequest) : res ChallengeRequest :=
  if negb (md5Pattern (cr_MD5 req)) then Err (InvalidArgument "md5 必须是 32 位十六进制字符串")
  else if cr_Size req <=? 0 then Err (InvalidArgument "文件大小无效")
  else match NormalizeVideoFilename (cr_Filename req) with
       | Err e => Err e
       | Ok name => Ok (mkChallengeRequest (ToLower (cr_MD5 req)) (cr_Size req) name)
       end.

Definition ChallengeRange (sz : Z) : proc StoreE (res (Z * Z)) :=
  let len := Z.min sz maxChallengeBytes in
  let span := sz - len + 1 in
  if span <=? 1 then Ret (Ok (0, len))
  else offset ←? call (RandInt span); Ret (Ok (offset, len)).

Definition VerifyRange (data claimedHex : string) : bool :=
  match DecodeString (ToLower claimedHex) with
  | None => false
  | Some claimed => if negb (strlen claimed =? 16) then false else String.eqb (md5Sum data) claimed
  end.

(** The loop over the stored copies: the first managed one of the right size. *)
Fixpoint findSource (ctx : Context) (sz : Z) (copies : list MediaFile) : proc StoreE string :=
  match copies with
  | [] => Ret ""
  | c :: rest =>
      if negb (IsManagedFile (mf_FilePath c)) then findSource ctx sz rest
      else Do (MObjectSize ctx (mf_FilePath c)) (fun r =>
        match r with
        | Err _ => findSource ctx sz rest
        | Ok n => if n =? sz then Ret (mf_FilePath c) else findSource ctx sz rest
        end)
  end.

Definition IssueChallenge (ctx : Context) (userID : Z) (raw : ChallengeRequest) : proc StoreE (res (option Challenge)) :=
  match ValidateChallengeRequest raw with
  | Err e => Ret (Err e)
  | Ok req =>
      copies ←? FindByContentHash ctx (cr_MD5 req);
      bind (findSource ctx (cr_Size req) copies) (fun source =>
      if String.eqb source "" then Ret (Ok None)
      else
        '(offset, len) ←? ChallengeRange (cr_Size req);
        Do NewUUID (fun id =>
        _ ←? call (SHSetExpire ctx (challengeKeyPrefix +:+ id)
               [("userId", FormatInt userID); ("md5", cr_MD5 req); ("filename", cr_Filename req);
                ("filePath", source); ("offset", FormatInt offset); ("length", FormatInt len)] challengeTTL);
        Ret (Ok (Some (mkChallenge id offset len)))))
  end.

Definition takeChallenge (ctx : Context) (id : string) : proc StoreE (res (gmap string string)) :=
  if negb (uuidParses id) then Ret (Err (InvalidArgument "challengeId 无效"))
  else
    ch ←? call (SHTake ctx (challengeKeyPrefix +:+ id));
    if Nat.eqb (size ch) 0 then Ret (Err (InvalidArgument "秒传校验已过期，请重新上传")) else Ret (Ok ch).

(** [Prove] under the object lock. *)
Definition proveLocked (ctx : Context) (userID : Z) (req : ProofRequest) (ch : gmap string string)
    (offset len : Z) : proc StoreE (res MediaFile) :=
  data ←? call (MReadRange ctx (field ch "filePath") offset len);
  if negb (strlen data =? len) || negb (VerifyRange data (pr_RangeMD5 req))
  then Ret (Err (InvalidArgument "秒传校验失败，请改用普通上传"))
  else SaveReference ctx (field ch "filename") (field ch "filePath") userID (field ch "md5").

Definition Prove (ctx : Context) (userID : Z) (req : ProofRequest) : proc StoreE (res MediaFile) :=
  if negb (md5Pattern (pr_RangeMD5 req)) then Ret (Err (InvalidArgument "rangeMd5 必须是 32 位十六进制字符串"))
  else
    ch ←? takeChallenge ctx (pr_ChallengeID req);
    if negb (String.eqb (field ch "userId") (FormatInt userID)) then Ret (Err (Forbidden "无权使用该秒传校验"))
    else
      match ParseInt 64 (field ch "offset"), ParseInt 64 (field ch "length") with
      | Some offset, Some len =>
          if len <=? 0 then Ret (Err (Internal "秒传校验状态损坏" None))
          else
            lock ←? call (STryLock ctx (ObjectLockKey (field ch "md5")) objectLockWait);
            match lock with
            | None => Ret (Err (Business CodeConflict "文件正在被处理，请稍后重试"))
            | Some l =>
                bind (proveLocked ctx userID req ch offset len) (fun r =>
                Do (SUnlock (WithoutCancel ctx) l) (fun _ => Ret r))
            end
      | _, _ => Ret (Err (Internal "秒传校验状态损坏" None))
      end.

End upload.

(** ** Lemmas: hexadecimal digests *)

Lemma hex_digit_from a : is_hex a && negb (in_range 65 70 (byte a)) = true ->
  (match from_hex a with Some v => Ascii.eqb (hex_digit v) a && in_range 0 15 v | None => false end) = true.
Proof. revert a. by_bytes. Qed.

Lemma byte_ascii_of_Z n : 0 <= n < 256 -> byte (ascii_of_Z n) = n.
Proof. intros Hn. unfold byte, ascii_of_Z. rewrite N_ascii_embedding by lia. lia. Qed.

(** A text of lower-case hexadecimal digits is the encoding of what it decodes to. *)
Lemma decode_encode t s : str_forall lower_hex t = true -> DecodeString t = Some s -> EncodeToString s = t.
Proof.
  revert s. induction t as [t IH] using (induction_ltof1 _ String.length). intros s Ht Hd.
  destruct t as [|a [|b t]]; [by injection Hd as <-|done|].
  cbn [str_forall] in Ht. apply andb_prop in Ht as [Ha [Hb Ht]%andb_prop].
  apply hex_digit_from in Ha. apply hex_digit_from in Hb. cbn [DecodeString] in Hd.
  destruct (from_hex a) as [h|]; [|done]. destruct (from_hex b) as [l|]; [|done].
  destruct (DecodeString t) as [s'|] eqn:Es; [|done]. injection Hd as <-. cbn [EncodeToString].
  apply andb_prop in Ha as [<-%Ascii.eqb_eq Hh]. apply andb_prop in Hb as [<-%Ascii.eqb_eq Hl].
  unfold in_range in Hh, Hl. rewrite byte_ascii_of_Z by lia.
  rewrite (IH t) with (s := s'); [|unfold ltof; simpl; lia|done|done].
  replace ((16 * h + l) / 16) with h by (rewrite Z.mul_comm, Z.div_add_l, Z.div_small by lia; lia).
  replace ((16 * h + l) mod 16) with l; [done|].
  rewrite Z.add_comm, Z.mul_comm, Z.mod_add, Z.mod_small by lia. lia.
Qed.

Lemma lower_is_lower_hex a : is_hex a = true -> lower_hex (lower_ascii a) = true.
Proof. revert a. by_bytes. Qed.

Lemma ToLower_lower_hex v : md5Pattern v = true -> str_forall lower_hex (ToLower v) = true.
Proof.
  intros [_ Hh]%andb_prop. rewrite ToLower_hex by done. eapply str_forall_map; [|exact Hh]. apply lower_is_lower_hex.
Qed.

Lemma EncodeToString_decode s : DecodeString (EncodeToString s) = Some s.
Proof.
  induction s as [|a s IH]; [done|]. cbn [EncodeToString DecodeString]. rewrite IH.
  pose proof (ascii_forall (fun a => match from_hex (hex_digit (byte a / 16)), from_hex (hex_digit (byte a mod 16)) with
    | Some h, Some l => Ascii.eqb (ascii_of_Z (16 * h + l)) a | _, _ => false end)) as Hall.
  specialize (Hall ltac:(vm_compute; reflexivity) a). cbv beta in Hall.
  destruct (from_hex (hex_digit (byte a / 16))), (from_hex (hex_digit (byte a mod 16))); try done. apply Ascii.eqb_eq in Hall. by rewrite Hall.
Qed.

Section instant.
Context `{Md5, ListCodec, MinioConfig, UuidSyntax}.

(** The verification accepts exactly the digest of the data, in either case. *)
Lemma VerifyRange_spec data claimed : md5Pattern claimed = true ->
  VerifyRange data claimed = true <-> EncodeToString (md5Sum data) = ToLower claimed.
Proof.
  intros Hc. unfold VerifyRange. split.
  - destruct (DecodeString (ToLower claimed)) as [c|] eqn:Ed; [|done]. case_match; [done|].
    intros ->%String.eqb_eq. eapply decode_encode; [by apply ToLower_lower_hex|done].
  - intros <-. rewrite EncodeToString_decode. unfold strlen. rewrite md5Sum_size. simpl. apply String.eqb_refl.
Qed.

(** The rows a run tried to insert, with the answers. *)
Definition inserts : trace StoreE -> list (MediaFile * res Z) :=
  select (fun X c =>
    match c in StoreE X return X -> option (MediaFile * res Z) with
    | DInsert _ m => fun r => Some (m, r)
    | _ => fun _ => None
    end).

(** C30. An instant upload needs the bytes. When [Prove] creates a media row, the single-use challenge was
    consumed first and belongs to the caller, the object lock was taken, a non-empty range of the
    stored object was read under it in full, and the client's answer is the MD5 of exactly those bytes; the
    row points at that object, with the challenge's content hash and the caller as owner, and the lock was
    given back last. When the proof is rejected no insertion was even attempted, unless the database
    itself failed. *)
Theorem Prove_sound (ctx : Context) (userID : Z) (req : ProofRequest) :
  wp (Prove ctx userID req) (fun tr r =>
    match r with
    | Ok mf =>
        exists ch off len l data rest now,
          let path := field ch "filePath" in
          tr = Ev (SHTake ctx (challengeKeyPrefix +:+ pr_ChallengeID req)) (Ok ch)
               :: Ev (STryLock ctx (ObjectLockKey (field ch "md5")) objectLockWait) (Ok (Some l))
               :: Ev (MReadRange ctx path off len) (Ok data) :: Ev NowLocal now :: rest
          /\ field ch "userId" = FormatInt userID
          /\ ParseInt 64 (field ch "offset") = Some off /\ ParseInt 64 (field ch "length") = Some len
          /\ 0 < len /\ strlen data = len
          /\ EncodeToString (md5Sum data) = ToLower (pr_RangeMD5 req)
          /\ mf_FilePath mf = path /\ mf_ContentHash mf = Some (field ch "md5") /\ mf_UserID mf = userID
          /\ (exists m, inserts tr = [(m, Ok (mf_ID mf))] /\ with_id m (mf_ID mf) = mf)
          /\ exists u, last tr = Some (Ev (SUnlock (WithoutCancel ctx) l) u)
    | Err _ => inserts tr = [] \/ exists m e, inserts tr = [(m, Err e)]
    end).
Proof.
  unfold Prove, takeChallenge, proveLocked, SaveReference, RememberContentHash, InvalidateUserList.
  destruct (md5Pattern (pr_RangeMD5 req)) eqn:Hmd; cbn [negb]; [|by left].
  wp_go; answers; try (by left); try (right; by do 2 eexists).
  all: match goal with H : _ || _ = false |- _ => apply orb_false_iff in H as [Hlen%negb_false_iff%Z.eqb_eq Hv%negb_false_iff] end.
  all: apply VerifyRange_spec in Hv; [|done].
  all: match goal with H : String.eqb _ (FormatInt _) = true |- _ => apply String.eqb_eq in H end.
  all: do 7 eexists; (split; [reflexivity|]); split_and!; try done; try lia; try (by eexists).
Qed.

(** Random numbers are below the bound asked for ([crypto/rand.Int]). *)
Definition randomOk (tr : trace StoreE) : Prop :=
  forall n v, Ev (RandInt n) (Ok v) ∈ tr -> 0 <= v < n.

Definition noRandom {X} (c : StoreE X) : Prop := match c with RandInt _ => False | _ => True end.

Lemma findSource_quiet ctx sz copies : calls (fun X c => noRandom c) (findSource ctx sz copies).
Proof.
  induction copies as [|c copies IH]; cbn [findSource]; [done|]. destruct (negb _); [done|]. split; [done|].
  intros [n|e]; [|done]. by destruct (n =? sz).
Qed.

Lemma findSource_total ctx sz copies : wp (findSource ctx sz copies) (fun _ _ => True).
Proof.
  induction copies as [|c copies IH]; cbn [findSource]; [done|]. destruct (negb _); [done|].
  intros [n|e]; [|eapply wp_mono; [exact IH|done]]. destruct (n =? sz); [done|]. by eapply wp_mono; [exact IH|].
Qed.

Lemma ChallengeRange_spec sz : 0 < sz ->
  wp (ChallengeRange sz) (fun tr r => randomOk tr -> forall off len, r = Ok (off, len) ->
    0 <= off /\ 0 < len <= maxChallengeBytes /\ off + len <= sz).
Proof.
  intros Hs. unfold ChallengeRange. assert (0 < maxChallengeBytes) by done.
  destruct (Z.leb_spec (sz - Z.min sz maxChallengeBytes + 1) 1); proc_simpl.
  - intros _ off len [= <- <-]. lia.
  - intros [v|e]; cbn [wp]; [|done]. intros Hr off len [= <- <-]. specialize (Hr _ _ (list_elem_of_here _ _)). lia.
Qed.

(** Challenges ask for bytes the file has. A challenge that is issued names a non-empty range of at most
    1 MiB inside the announced size (given random numbers below their bound), it was stored before it was
    returned, under the key the proof will read, for this user only and for two minutes, and the offset and
    length that [Prove] will parse from it are the ones the client was told. *)
Theorem IssueChallenge_range (ctx : Context) (userID : Z) (raw : ChallengeRequest) :
  int_ok 64 (cr_Size raw) = true ->
  wp (IssueChallenge ctx userID raw) (fun tr r => forall c, r = Ok (Some c) -> randomOk tr ->
    0 <= ch_Offset c /\ 0 < ch_Length c <= maxChallengeBytes /\ ch_Offset c + ch_Length c <= cr_Size raw
    /\ exists fields,
         Ev (SHSetExpire ctx (challengeKeyPrefix +:+ ch_ChallengeID c) fields challengeTTL) (Ok tt) ∈ tr
         /\ let stored := fold_left (fun h '(f, v) => <[f := v]> h) fields ∅ in
            field stored "userId" = FormatInt userID
            /\ ParseInt 64 (field stored "offset") = Some (ch_Offset c)
            /\ ParseInt 64 (field stored "length") = Some (ch_Length c)).
Proof.
  intros Hint. unfold IssueChallenge. destruct (ValidateChallengeRequest raw) as [req|e] eqn:Ev; [|done].
  assert (cr_Size req = cr_Size raw /\ 0 < cr_Size raw) as [Hsz Hpos].
  { unfold ValidateChallengeRequest in Ev. repeat case_match; simplify_eq. simpl. lia. }
  rewrite Hsz. unfold FindByContentHash, bind_ok at 1, call. cbn [bind wp]. intros [copies|e]; [|done].
  apply wp_bind. eapply wp_mono; [apply wp_calls; [apply findSource_quiet|apply findSource_total]|].
  intros tr1 source [Hq _]. destruct (String.eqb source ""); [done|].
  apply wp_bind_ok. eapply wp_mono; [by apply ChallengeRange_spec|]. intros tr2 [[off len]|e] Hr; [|done].
  proc_simpl. intros id [u|e]; [|done]. cbn [wp]. intros c [= <-] Hrand. cbn [ch_Offset ch_Length ch_ChallengeID].
  assert (randomOk tr2) as Hr2.
  { intros n v Hin. apply Hrand. right. apply elem_of_app. right. apply elem_of_app. by left. }
  destruct (Hr Hr2 off len eq_refl) as (H1' & H2' & H3).
  unfold int_ok in Hint. apply andb_prop in Hint as [Hlo Hhi].
  split; [done|]. split; [done|]. split; [done|]. eexists. destruct u. split.
  - right. apply elem_of_app. right. apply elem_of_app. right. right. left.
  - cbn [fold_left]. unfold field. simplify_map_eq. simpl. split; [done|].
    rewrite !ParseInt_FormatInt; [done|unfold int_ok; lia..].
Qed.

End instant.

Lemma IssueChallenge_range_witness :
  let m : Md5 := {| md5Sum := fun _ => "0123456789abcdef"; md5Sum_size := fun _ => eq_refl |} in
  let c : MinioConfig := {| endpoint := "http://minio:9000"; bucket := "media" |} in
  let raw := mkChallengeRequest "0123456789abcdef0123456789ABCDEF" 3000000 "a.mp4" in
  int_ok 64 (cr_Size raw) = true
  /\ wp (IssueChallenge RequestContext 3 raw) (fun tr r => forall c, r = Ok (Some c) -> randomOk tr ->
       0 <= ch_Offset c /\ 0 < ch_Length c <= maxChallengeBytes /\ ch_Offset c + ch_Length c <= 3000000
       /\ exists fields,
         Ev (SHSetExpire RequestContext (challengeKeyPrefix +:+ ch_ChallengeID c) fields challengeTTL) (Ok tt) ∈ tr
         /\ let stored := fold_left (fun h '(f, v) => <[f := v]> h) fields ∅ in
            field stored "userId" = FormatInt 3
            /\ ParseInt 64 (field stored "offset") = Some (ch_Offset c)
            /\ ParseInt 64 (field stored "length") = Some (ch_Length c)).
Proof. split; [reflexivity|]. apply (IssueChallenge_range RequestContext 3 (mkChallengeRequest _ _ _)). reflexivity. Defined.
