(* ===== verification/ObjectSafety.v ===== *)
(** * No media row ever points at a deleted object

    [DeleteOwnedMedia] (media.go), [Challenge] and [Prove] (instant.go) running concurrently, in any
    number, against one database, object store and lock service, with every call free to fail.  The
    reference-counted deletion and the object lock together keep the invariant [inv]: every row that
    lives points at an object that exists.

    What the services do is [serve].  A failing write may or may not have taken effect.  The object lock
    excludes: a second owner gets it only after the first gave it up, which is what a live lease
    provides.  Content hashes are lower-case hexadecimal wherever they are written; the database compares
    them, and paths, under its collation, so that a count may come out too high but never too low.  Uploads are
    steps of the surroundings ([surroundings]): each stores its object, inserts its first row or, when the
    insert failed, removes the object again; [IngestFile_surrounds] shows that the code takes these steps and
    no others as long as an insert that reports an error was not applied, and [failed_upload_dangles] what
    happens when it was.  Challenges may expire at any time. *)

From S2P Require Import Prelude GoStrings Proc Errors Model GoContext TaskKeys Store Media Upload Concurrent Collation.

Local Open Scope string_scope.
Local Open Scope list_scope.
Local Open Scope Z_scope.

Record shared := mkShared {
  sh_born : gmap Z MediaFile;                    (* every row ever inserted *)
  sh_live : gset Z;                              (* the ids of the rows there are *)
  sh_objs : gset string;                         (* the URLs of the objects there are *)
  sh_locks : gmap string (option nat);           (* lock keys and their owners; None: nobody knows *)
  sh_hash : gmap string (gmap string string) }.  (* Redis hashes *)

Definition set_locks (s : shared) l := mkShared (sh_born s) (sh_live s) (sh_objs s) l (sh_hash s).
Definition set_live (s : shared) l := mkShared (sh_born s) l (sh_objs s) (sh_locks s) (sh_hash s).
Definition set_objs (s : shared) o := mkShared (sh_born s) (sh_live s) o (sh_locks s) (sh_hash s).
Definition set_hash (s : shared) h := mkShared (sh_born s) (sh_live s) (sh_objs s) (sh_locks s) h.
Definition add_row (s : shared) id m :=
  mkShared (<[id := m]> (sh_born s)) ({[ id ]} ∪ sh_live s) (sh_objs s) (sh_locks s) (sh_hash s).

Definition row (s : shared) (id : Z) : option MediaFile :=
  if decide (id ∈ sh_live s) then sh_born s !! id else None.

(** What the query of [CountFileReferences] (repo.go) selects. *)
Definition refersTo (m : MediaFile) (h : option string) (path : string) : bool :=
  String.eqb (mf_FilePath m) path
  && match h with
     | Some h0 => String.eqb h0 "" || bool_decide (mf_ContentHash m = Some h0)
     | None => true
     end.

Definition references (s : shared) (h : option string) (path : string) : gset Z :=
  filter (fun id => match sh_born s !! id with Some m => refersTo m h path | None => false end = true) (sh_live s).

Definition asked {A} (P : A -> Prop) (s : shared) (x : res A) (s' : shared) : Prop :=
  s' = s /\ match x with Ok a => P a | Err _ => True end.

Definition changed (applied s : shared) (x : res unit) (s' : shared) : Prop :=
  match x with Ok _ => s' = applied | Err _ => s' = applied \/ s' = s end.

Definition serve `{Collation} (i : nat) (X : Type) (c : StoreE X) : shared -> X -> shared -> Prop :=
  match c in StoreE X return shared -> X -> shared -> Prop with
  | DFindByID _ id => fun s => asked (fun m => m = row s id) s
  | DInsert _ m => fun s x s' =>
      match x with
      | Ok id => sh_born s !! id = None /\ s' = add_row s id (with_id m id)
      | Err _ => s' = s \/ exists id, sh_born s !! id = None /\ s' = add_row s id (with_id m id)
      end
  | DDeleteByID _ id => fun s => changed (set_live s (sh_live s ∖ {[ id ]})) s
  | DCountFileReferences _ h path => fun s => asked (fun n => Z.of_nat (size (references s h path)) <= n) s
  | DFindByContentHash _ h => fun s =>
      asked (Forall (fun c => exists id m h', row s id = Some m /\ mf_FilePath c = mf_FilePath m
                                              /\ mf_ContentHash m = Some h' /\ collates h' h = true)) s
  | MUploadStream _ _ _ _ _ | MUploadLocalFile _ _ _ _ => fun s x s' =>
      match x with
      | Ok url => s' = set_objs s ({[ url ]} ∪ sh_objs s)
      | Err _ => s' = s \/ exists url, s' = set_objs s ({[ url ]} ∪ sh_objs s)
      end
  | MRemoveFile _ url => fun s => changed (set_objs s (sh_objs s ∖ {[ url ]})) s
  | MReadRange _ url _ _ => fun s => asked (fun _ => url ∈ sh_objs s) s
  | STryLock _ key _ => fun s x s' =>
      match x with
      | Ok (Some l) => lk_key l = key /\ sh_locks s !! key = None
                       /\ s' = set_locks s (<[key := Some i]> (sh_locks s))
      | Ok None => s' = s
      | Err _ => s' = s \/ (sh_locks s !! key = None /\ s' = set_locks s (<[key := None]> (sh_locks s)))
      end
  | SIsHeld l => fun s held s' =>
      if held : bool then s' = s
      else s' = s \/ (sh_locks s !! lk_key l = Some (Some i) /\ s' = set_locks s (delete (lk_key l) (sh_locks s)))
  | SUnlock _ l => fun s _ s' =>
      s' = s \/ (sh_locks s !! lk_key l = Some (Some i) /\ s' = set_locks s (delete (lk_key l) (sh_locks s)))
  | SHSetExpire _ key fields _ => fun s =>
      changed (set_hash s (<[key := fold_left (fun h '(f, v) => <[f := v]> h) fields
                                      (default ∅ (sh_hash s !! key))]> (sh_hash s))) s
  | SHTake _ key => fun s x s' =>
      match x with
      | Ok h => h = default ∅ (sh_hash s !! key) /\ s' = set_hash s (delete key (sh_hash s))
      | Err _ => s' = s \/ s' = set_hash s (delete key (sh_hash s))
      end
  | _ => fun s _ s' => s' = s
  end.

(** Content hashes are lower-case hexadecimal wherever they are written. *)
Definition hexHash (m : MediaFile) : Prop :=
  forall h, mf_ContentHash m = Some h -> str_forall lower_hex h = true.

(** No row ever had this path. *)
Definition unused (s : shared) (path : string) : Prop :=
  forall id m, sh_born s !! id = Some m -> mf_FilePath m <> path.

(** What else happens: the steps of an upload - its object stored, its row inserted, its object removed -, the
    expiry of a Redis hash or of a lock nobody owns. *)
Inductive surroundings : shared -> shared -> Prop :=
| object_stored s url : surroundings s (set_objs s ({[ url ]} ∪ sh_objs s))
| row_inserted s id m :
    sh_born s !! id = None -> unused s (mf_FilePath m) -> mf_FilePath m ∈ sh_objs s -> hexHash m ->
    surroundings s (add_row s id m)
| object_dropped s url : unused s url -> surroundings s (set_objs s (sh_objs s ∖ {[ url ]}))
| hash_expires s key : surroundings s (set_hash s (delete key (sh_hash s)))
| orphan_expires s key : sh_locks s !! key = Some None -> surroundings s (set_locks s (delete key (sh_locks s))).

Section safety.
Context `{Md5, ListCodec, MinioConfig, UuidSyntax, Collation}.

Record inv (s : shared) : Prop := mkInv {
  inv_live : forall id, id ∈ sh_live s -> is_Some (sh_born s !! id);
  inv_objs : forall id m, id ∈ sh_live s -> sh_born s !! id = Some m ->
    IsManagedFile (mf_FilePath m) = true -> mf_FilePath m ∈ sh_objs s;
  inv_hash : forall id id' m m', sh_born s !! id = Some m -> sh_born s !! id' = Some m' ->
    mf_FilePath m = mf_FilePath m' -> mf_ContentHash m = mf_ContentHash m';
  inv_hex : forall id m, sh_born s !! id = Some m -> hexHash m;
  inv_challenge : forall key ch, sh_hash s !! key = Some ch -> HasPrefix key challengeKeyPrefix = true ->
    exists id m, sh_born s !! id = Some m /\ mf_FilePath m = field ch "filePath"
      /\ mf_ContentHash m = Some (field ch "md5") /\ field ch "md5" <> "" }.

(** Thread [i] owns the object lock of content [h]. *)
Definition owns (i : nat) (s : shared) (h : string) : Prop := sh_locks s !! ObjectLockKey h = Some (Some i).

(** Nobody but thread [i] can add a reference to the object of row [m]. *)
Definition guarded (i : nat) (s : shared) (m : MediaFile) : Prop :=
  match mf_ContentHash m with Some h => h = "" \/ owns i s h | None => True end.

Record rely (i : nat) (s s' : shared) : Prop := mkRely {
  rely_born : sh_born s ⊆ sh_born s';
  rely_locks : forall key, sh_locks s !! key = Some (Some i) -> sh_locks s' !! key = Some (Some i);
  rely_objs : forall id m h, sh_born s !! id = Some m -> mf_ContentHash m = Some h -> h <> "" -> owns i s h ->
    mf_FilePath m ∈ sh_objs s -> mf_FilePath m ∈ sh_objs s';
  rely_refs : forall id m, sh_born s !! id = Some m -> guarded i s m ->
    forall id' m', id' ∈ sh_live s' -> sh_born s' !! id' = Some m' -> mf_FilePath m' = mf_FilePath m ->
      id' ∈ sh_live s /\ sh_born s !! id' = Some m' }.

Lemma rely_refl i s : rely i s s.
Proof. by split. Qed.

(** A step that only touches locks of thread [i] or of nobody. *)
Lemma rely_lock_step j s l :
  (forall key, sh_locks s !! key = Some (Some j) -> l !! key = Some (Some j)) -> rely j s (set_locks s l).
Proof. intros Hl. by split. Qed.

Lemma rely_hash_step j s h : rely j s (set_hash s h).
Proof. by split. Qed.

Lemma inv_lock_step s l : inv s -> inv (set_locks s l).
Proof. intros [H1' H2' H3' H5' H4']. by split. Qed.

Lemma inv_hash_delete s key : inv s -> inv (set_hash s (delete key (sh_hash s))).
Proof.
  intros [H1' H2' H3' H5' H4']. split; try done. simpl. intros k ch Hk. apply (H4' k).
  apply lookup_delete_Some in Hk. tauto.
Qed.

Lemma row_inserted_inv s id m :
  sh_born s !! id = None -> unused s (mf_FilePath m) -> mf_FilePath m ∈ sh_objs s -> hexHash m -> inv s -> inv (add_row s id m).
Proof.
  intros Hid Hfresh Hobj Hhex [H1' H2' H3' H5' H4'].
  assert (forall id' m', <[id := m]> (sh_born s) !! id' = Some m' ->
    (id' = id /\ m' = m) \/ (id' <> id /\ sh_born s !! id' = Some m')) as Hlook.
  { intros id' m' [[<- <-]|[Hne Hb]]%lookup_insert_Some; auto. }
  split; simpl.
  - intros id' [->%elem_of_singleton|Hid']%elem_of_union; [by rewrite lookup_insert_eq|].
    destruct (decide (id' = id)) as [->|?]; [by rewrite lookup_insert_eq|]. rewrite lookup_insert_ne by done. auto.
  - intros id' m' Hid' Hm' Hman. destruct (Hlook _ _ Hm') as [[-> ->]|[Hne Hb]]; [done|].
    eapply H2'; [|done|done]. apply elem_of_union in Hid' as [?%elem_of_singleton|]; done.
  - intros i1 i2 m1 m2 Hm1 Hm2 Hp. destruct (Hlook _ _ Hm1) as [[-> ->]|[? Hb1]], (Hlook _ _ Hm2) as [[-> ->]|[? Hb2]];
      [done| | |by eapply H3'].
    + exfalso. by eapply Hfresh.
    + exfalso. by eapply Hfresh.
  - intros id' m' Hm'. destruct (Hlook _ _ Hm') as [[-> ->]|[_ Hb]]; [done|by eapply H5'].
  - intros key ch Hk Hp. destruct (H4' key ch Hk Hp) as (i0 & m0 & Hb & Hrest). exists i0, m0. split; [|done].
    rewrite lookup_insert_ne; [done|]. intros ->. congruence.
Qed.

Lemma surroundings_inv s s' : surroundings s s' -> inv s -> inv s'.
Proof.
  intros [s0 url|s0 id m Hid Hfresh Hobj Hhex|s0 url Hfresh|s0 key|s0 key Hk] Hi;
    [|by apply row_inserted_inv| |by apply inv_hash_delete|by apply inv_lock_step];
    (split; simpl; try apply Hi); intros id' m' Hl Hb Hman; pose proof (inv_objs _ Hi id' m' Hl Hb Hman) as Hin.
  - apply elem_of_union. by right.
  - apply elem_of_difference. split; [done|]. rewrite elem_of_singleton. by eapply Hfresh.
Qed.

Lemma surroundings_rely i s s' : surroundings s s' -> inv s -> rely i s s'.
Proof.
  intros [s0 url|s0 id m Hid Hfresh Hobj Hhex|s0 url Hfresh|s0 key|s0 key Hk] Hi; [| | |by apply rely_hash_step|].
  - split; simpl; try done. intros. apply elem_of_union. by right.
  - split; simpl; [by apply insert_subseteq|done|done|].
    intros i0 m0 Hb _ id' m' Hl Hm' Hp. apply lookup_insert_Some in Hm' as [[<- <-]|[Hne Hm']].
    + exfalso. by eapply Hfresh.
    + apply elem_of_union in Hl as [?%elem_of_singleton|Hl]; done.
  - split; simpl; try done. intros id m h Hb _ _ _ Hin. apply elem_of_difference. split; [done|].
    rewrite elem_of_singleton. by eapply Hfresh.
  - apply rely_lock_step. intros key' Hk'. rewrite lookup_delete_ne; [done|]. intros ->. congruence.
Qed.

(** ** Proof rules for one thread *)

Definition rg (i : nat) {A} (p : proc StoreE A) (s : shared) (Q : A -> shared -> Prop) : Prop :=
  rgwp serve inv rely i p s Q.

Definition lasting (i : nat) (P : shared -> Prop) : Prop := forall s s', P s -> rely i s s' -> P s'.

Lemma lasting_rtc i P s s' : lasting i P -> P s -> rtc (rely i) s s' -> P s'.
Proof. intros HP Hs Hr. induction Hr; eauto. Qed.

Lemma rg_do i {A X} (c : StoreE X) (k : X -> proc StoreE A) s P Q :
  lasting i P -> P s ->
  (forall s1 x s2, P s1 -> inv s1 -> serve i X c s1 x s2 ->
     inv s2 /\ (forall j, j <> i -> rely j s1 s2) /\ rg i (k x) s2 Q) ->
  rg i (Do c k) s Q.
Proof. intros HP Hs Hk s1 Hr Hi x s2 Hx. apply Hk; [by eapply lasting_rtc|done|done]. Qed.

(** A call that changes nothing. *)
Definition quiet {X} (c : StoreE X) : Prop := forall i s x s', serve i X c s x s' -> s' = s.

Lemma rg_ask i {A X} (c : StoreE X) (k : X -> proc StoreE A) s P Q :
  lasting i P -> P s -> quiet c ->
  (forall s1 x, P s1 -> inv s1 -> serve i X c s1 x s1 -> rg i (k x) s1 Q) ->
  rg i (Do c k) s Q.
Proof.
  intros HP Hs Hq Hk. eapply rg_do; [exact HP|exact Hs|]. intros s1 x s2 HP1 Hi Hx.
  pose proof (Hq _ _ _ _ Hx) as ->. split; [done|]. split; [intros; apply rely_refl|auto].
Qed.

Lemma rg_ret i {A} (a : A) s (Q : A -> shared -> Prop) : (forall s', Q a s') -> rg i (Ret a) s Q.
Proof. intros HQ s1 _. apply HQ. Qed.

Lemma rg_keep i {A} (a : A) s (Q : A -> shared -> Prop) : lasting i (Q a) -> Q a s -> rg i (Ret a) s Q.
Proof. intros HP Hs s1 Hr. by eapply lasting_rtc. Qed.

Lemma rg_bind i {A B} (p : proc StoreE A) (f : A -> proc StoreE B) s Q :
  rg i p s (fun a s' => rg i (f a) s' Q) -> rg i (bind p f) s Q.
Proof. apply rgwp_bind. Qed.

Lemma rg_mono i {A} (p : proc StoreE A) s (Q R : A -> shared -> Prop) :
  rg i p s Q -> (forall a s', Q a s' -> R a s') -> rg i p s R.
Proof. apply rgwp_mono. Qed.

Lemma rg_quiet i {A} (p : proc StoreE A) s P :
  lasting i P -> P s -> calls (fun X c => quiet c) p -> wp p (fun _ _ => True) -> rg i p s (fun _ s' => P s').
Proof.
  intros HP Hs Hc Hw. revert s Hs. induction p as [a|X c k IH|why]; simpl in *; intros s Hs; [|destruct Hc|done].
  - intros s1 Hr. by eapply lasting_rtc.
  - eapply rg_ask; [exact HP|exact Hs|done|]. intros s1 x HP1 _ _. by apply IH.
Qed.

Lemma asked_quiet {A} (P : A -> Prop) s x s' : asked P s x s' -> s' = s.
Proof. by intros [? _]. Qed.

Definition True_lasting i : lasting i (fun _ => True) := fun _ _ _ _ => I.

(** Giving up a lock. *)
Lemma unlock_step i s l : inv s -> sh_locks s !! lk_key l = Some (Some i) ->
  inv (set_locks s (delete (lk_key l) (sh_locks s)))
  /\ forall j, j <> i -> rely j s (set_locks s (delete (lk_key l) (sh_locks s))).
Proof.
  intros Hi Hl. split; [by apply inv_lock_step|]. intros j Hj. apply rely_lock_step. intros key Hk.
  rewrite lookup_delete_ne; [done|]. intros <-. congruence.
Qed.

Lemma rg_unlock i {A} ctx l (k : res unit -> proc StoreE A) s Q :
  (forall x s', rg i (k x) s' Q) -> rg i (Do (SUnlock ctx l) k) s Q.
Proof.
  intros Hk. eapply (rg_do _ _ _ _ (fun _ => True)); [apply True_lasting|done|].
  intros s1 x s2 _ Hi [->|[Hl ->]]; [split; [done|]; split; [intros; apply rely_refl|apply Hk]|].
  destruct (unlock_step i s1 l Hi Hl). auto.
Qed.

Lemma rg_release i ctx lock s : rg i (releaseObjectLock ctx lock) s (fun _ _ => True).
Proof.
  destruct lock as [l|]; [|by apply rg_ret]. eapply (rg_do _ _ _ _ (fun _ => True)); [apply True_lasting|done|].
  intros s1 x s2 _ Hi Hx. assert (rg i (if x : bool then Do (SUnlock ctx l) (fun _ => Ret tt) else Ret tt) s2 (fun _ _ => True)) as Hk.
  { destruct x; [|by apply rg_ret]. apply rg_unlock. intros. by apply rg_ret. }
  destruct x; simpl in Hx; [subst; split; [done|]; split; [intros; apply rely_refl|done]|].
  destruct Hx as [->|[Hl ->]]; [split; [done|]; split; [intros; apply rely_refl|done]|].
  destruct (unlock_step i s1 l Hi Hl). auto.
Qed.

(** Taking a lock, or not. *)
Lemma rg_trylock i {A} ctx key wait (k : res (option Lock) -> proc StoreE A) s P Q :
  lasting i P -> P s ->
  (forall s l, P s -> P (set_locks s l)) ->
  (forall s1 x, P s1 -> (forall l, x = Ok (Some l) -> sh_locks s1 !! key = Some (Some i)) -> rg i (k x) s1 Q) ->
  rg i (Do (STryLock ctx key wait) k) s Q.
Proof.
  intros HP Hs Hset Hk. eapply rg_do; [exact HP|exact Hs|]. intros s1 x s2 HP1 Hi Hx.
  assert (forall owner, sh_locks s1 !! key = None -> owner = None \/ owner = Some i ->
    inv (set_locks s1 (<[key := owner]> (sh_locks s1)))
    /\ forall j, j <> i -> rely j s1 (set_locks s1 (<[key := owner]> (sh_locks s1)))) as Hlock.
  { intros owner Hnone Ho. split; [by apply inv_lock_step|]. intros j Hj. apply rely_lock_step. intros key' Hk'.
    rewrite lookup_insert_ne; [done|]. intros <-. congruence. }
  destruct x as [[l|]|e]; simpl in Hx.
  - destruct Hx as (Hl & Hnone & ->). destruct (Hlock (Some i) Hnone (or_intror eq_refl)) as [? ?]. split; [done|]. split; [done|].
    apply Hk; [by apply Hset|]. intros l' [= <-]. simpl. apply lookup_insert_eq.
  - subst. split; [done|]. split; [intros; apply rely_refl|]. by apply Hk.
  - destruct Hx as [->|[Hnone ->]]; [split; [done|]; split; [intros; apply rely_refl|]; by apply Hk|].
    destruct (Hlock None Hnone (or_introl eq_refl)) as [? ?]. split; [done|]. split; [done|]. apply Hk; [by apply Hset|done].
Qed.

(** ** Deletion *)

Definition knows (i : nat) (id : Z) (m : MediaFile) (locked : bool) (s : shared) : Prop :=
  sh_born s !! id = Some m /\ (locked = true -> guarded i s m).

Lemma guarded_lasting i m s s' : guarded i s m -> rely i s s' -> guarded i s' m.
Proof.
  unfold guarded, owns. destruct (mf_ContentHash m) as [h|]; [|done]. intros [->|Ho] Hr; [by left|right].
  by apply (rely_locks _ _ _ Hr).
Qed.

Lemma knows_lasting i id m locked : lasting i (knows i id m locked).
Proof.
  intros s s' [Hb Hg] Hr. split; [by apply (lookup_weaken _ _ _ _ Hb), (rely_born _ _ _ Hr)|].
  intros Hl. eapply guarded_lasting; eauto.
Qed.

(** No row refers to the object of [m] any more. *)
Definition unreferenced (m : MediaFile) (s : shared) : Prop :=
  forall id' m', id' ∈ sh_live s -> sh_born s !! id' = Some m' -> mf_FilePath m' <> mf_FilePath m.

Definition freed (i : nat) (id : Z) (m : MediaFile) (s : shared) : Prop :=
  knows i id m true s /\ unreferenced m s.

Lemma freed_lasting i id m : lasting i (freed i id m).
Proof.
  intros s s' [Hk Hu] Hr. split; [by eapply knows_lasting|]. destruct Hk as [Hb Hg].
  intros id' m' Hl' Hb' Hp. destruct (rely_refs _ _ _ Hr id m Hb (Hg eq_refl) id' m' Hl' Hb' Hp) as [Hl Hb0].
  by eapply Hu.
Qed.

(** A count of zero means that no row refers to the object. *)
Lemma count_zero s id m : inv s -> sh_born s !! id = Some m ->
  Z.of_nat (size (references s (mf_ContentHash m) (mf_FilePath m))) <= 0 -> unreferenced m s.
Proof.
  intros Hi Hb Hz id' m' Hl Hb' Hp. assert (id' ∈ references s (mf_ContentHash m) (mf_FilePath m)) as Hin.
  { unfold references. apply elem_of_filter. split; [|done]. rewrite Hb'. unfold refersTo.
    rewrite (inv_hash _ Hi id' id m' m Hb' Hb Hp), Hp, String.eqb_refl. simpl.
    destruct (mf_ContentHash m); [|done]. by rewrite bool_decide_true, orb_true_r. }
  assert (size (references s (mf_ContentHash m) (mf_FilePath m)) = 0%nat) as Hs by lia.
  apply size_empty_inv in Hs. by apply (not_elem_of_empty (C := gset Z) id'), Hs.
Qed.

(** Removing the object of a guarded row that nothing refers to. *)
Lemma remove_step i s id m : inv s -> freed i id m s ->
  inv (set_objs s (sh_objs s ∖ {[ mf_FilePath m ]}))
  /\ forall j, j <> i -> rely j s (set_objs s (sh_objs s ∖ {[ mf_FilePath m ]})).
Proof.
  intros Hi [[Hb Hg] Hu]. split.
  - split; simpl; try apply Hi. intros id' m' Hl Hb' Hman. apply elem_of_difference.
    split; [by eapply (inv_objs _ Hi)|]. rewrite elem_of_singleton. by eapply Hu.
  - intros j Hj. split; simpl; try done.
    intros id' m' h Hb' Hh Hne Ho Hin. apply elem_of_difference. split; [done|]. rewrite elem_of_singleton.
    intros Hp. pose proof (inv_hash _ Hi _ _ _ _ Hb' Hb Hp) as Heq. specialize (Hg eq_refl).
    unfold guarded in Hg. rewrite <- Heq, Hh in Hg. destruct Hg as [->|Hg]; [done|]. unfold owns in *. congruence.
Qed.

Lemma delete_step i s id : inv s ->
  inv (set_live s (sh_live s ∖ {[ id ]})) /\ forall j, j <> i -> rely j s (set_live s (sh_live s ∖ {[ id ]})).
Proof.
  intros Hi. split; [split; simpl; try apply Hi|intros j Hj; split; simpl; try done].
  - intros id' [Hl _]%elem_of_difference. by apply (inv_live _ Hi).
  - intros id' m' [Hl _]%elem_of_difference. by apply (inv_objs _ Hi).
  - intros id0 m Hb Hg id' m' [Hl _]%elem_of_difference. auto.
Qed.

Lemma rg_deleteRow i ctx m id userID locked s :
  knows i id m locked s -> rg i (deleteRow ctx m id userID locked) s (fun _ _ => True).
Proof.
  intros Hk. unfold deleteRow. apply rg_bind.
  eapply rg_mono with (Q := fun _ => knows i id m locked).
  { eapply rg_do; [apply knows_lasting|exact Hk|]. intros s1 x s2 Hk1 Hi Hx. destruct (delete_step i s1 id Hi) as [Hi' Hr'].
    assert (s2 = s1 \/ s2 = set_live s1 (sh_live s1 ∖ {[ id ]})) as [-> | ->] by (destruct x; simpl in Hx; tauto).
    - split; [done|]. split; [intros; apply rely_refl|]. by apply rg_keep; [apply knows_lasting|].
    - split; [done|]. split; [done|]. by apply rg_keep; [apply knows_lasting|]. }
  intros [u|e] s1 Hk1; [|by apply rg_ret].
  eapply rg_ask; [apply knows_lasting|exact Hk1|intros ? ? ? ? Hx; by eapply asked_quiet|].
  intros s2 c Hk2 Hi2 [_ Hc].
  set (p := bind (PurgeRuntimeArtifacts ctx id) (fun _ => bind (InvalidateUserList ctx userID) (fun _ => Ret (Ok tt)))).
  assert (forall s, rg i p s (fun _ _ => True)) as Hrest.
  { intros s3. apply (rg_quiet i p s3 (fun _ => True)); [apply True_lasting|done| |]; unfold p.
    - by repeat split; intros; repeat split; intros ? ? ? ? ?.
    - unfold PurgeRuntimeArtifacts, InvalidateUserList. by wp_go. }
  destruct c as [n|e]; [|unfold ShouldDeleteObject; rewrite andb_false_r; apply rg_bind, rg_ret; done].
  destruct (ShouldDeleteObject (IsManagedFile (mf_FilePath m)) locked n) eqn:Es; [|by apply rg_bind, rg_ret].
  unfold ShouldDeleteObject in Es. apply andb_prop in Es as [[_ Hlock]%andb_prop Hn%Z.eqb_eq].
  apply rg_bind. eapply (rg_do _ _ _ _ (freed i id m)); [apply freed_lasting| |].
  - split; [by rewrite <- Hlock|]. eapply count_zero; [done|apply Hk2|]. by subst n.
  - intros s3 x s4 Hf Hi3 Hx. destruct (remove_step i s3 id m Hi3 Hf) as [Hi' Hr'].
    assert (s4 = s3 \/ s4 = set_objs s3 (sh_objs s3 ∖ {[ mf_FilePath m ]})) as [-> | ->] by (destruct x; simpl in Hx; tauto).
    + split; [done|]. split; [intros; apply rely_refl|]. by apply rg_ret.
    + split; [done|]. split; [done|]. by apply rg_ret.
Qed.

Lemma knows_locks i id m s l : knows i id m false s -> knows i id m false (set_locks s l).
Proof. intros [Hb _]. by split. Qed.

Lemma rg_delete i ctx id userID s : rg i (DeleteOwnedMedia ctx id userID) s (fun _ _ => True).
Proof.
  unfold DeleteOwnedMedia, RequireOwnedMedia. apply rg_bind.
  eapply rg_mono with (Q := fun r s1 => match r with Ok m => knows i id m false s1 | Err _ => True end).
  { unfold bind_ok, call. cbn [bind].
    eapply (rg_ask _ _ _ _ (fun _ => True)); [apply True_lasting|done|intros ? ? ? ? Hx; by eapply asked_quiet|].
    intros s1 found _ Hi [_ Hf]. destruct found as [[m|]|e]; [|by apply rg_ret..].
    destruct (mf_UserID m =? userID); [|by apply rg_ret]. apply rg_keep; [apply knows_lasting|].
    split; [|done]. unfold row in Hf. by case_decide. }
  intros [m|e] s1 Hk; [|by apply rg_ret]. apply rg_bind.
  eapply rg_mono with (Q := fun '(_, locked) => knows i id m locked).
  { destruct (mf_ContentHash m) as [h|] eqn:Eh.
    - destruct (String.eqb_spec h "") as [->|Hne]; cbn [negb].
      + apply rg_keep; [apply knows_lasting|]. destruct Hk as [Hb _]. split; [done|]. intros _. unfold guarded. rewrite Eh. by left.
      + eapply rg_trylock; [apply knows_lasting|exact Hk|intros; by apply knows_locks|].
        intros s2 x Hk2 Ho. destruct x as [[l|]|e]; (apply rg_keep; [apply knows_lasting|]); [|done|done].
        destruct Hk2 as [Hb _]. split; [done|]. intros _. unfold guarded. rewrite Eh. right. by eapply Ho.
    - apply rg_keep; [apply knows_lasting|]. destruct Hk as [Hb _]. split; [done|]. intros _. unfold guarded. by rewrite Eh. }
  intros [lock locked] s2 Hk2. apply rg_bind. eapply rg_mono; [by apply rg_deleteRow|]. intros r s3 _.
  apply rg_bind. eapply rg_mono; [apply rg_release|]. intros [] s4 _. by apply rg_ret.
Qed.

(** ** Instant uploads *)

(** Some row, live or not, has this path and content hash. *)
Definition copyOf (path h : string) (s : shared) : Prop :=
  h <> "" /\ exists id m, sh_born s !! id = Some m /\ mf_FilePath m = path /\ mf_ContentHash m = Some h.

Lemma copyOf_lasting i path h : lasting i (copyOf path h).
Proof.
  intros s s' (Hh & id & m & Hb & Hrest) Hr. split; [done|]. exists id, m. split; [|done].
  by apply (lookup_weaken _ _ _ _ Hb), (rely_born _ _ _ Hr).
Qed.

Definition mayRefer (i : nat) (path h : string) (present : bool) (s : shared) : Prop :=
  copyOf path h s /\ owns i s h /\ (present = true -> path ∈ sh_objs s).

Lemma mayRefer_lasting i path h present : lasting i (mayRefer i path h present).
Proof.
  intros s s' (Hc & Ho & Hp) Hr. split; [by eapply copyOf_lasting|]. split; [by apply (rely_locks _ _ _ Hr)|].
  intros Hpr. destruct Hc as (Hh & id & m & Hb & <- & Hm). eapply (rely_objs _ _ _ Hr); eauto.
Qed.

(** Inserting a row for an object that is there and guarded. *)
Lemma insert_step i s path h m id : inv s -> mayRefer i path h true s -> sh_born s !! id = None ->
  mf_FilePath m = path -> mf_ContentHash m = Some h ->
  inv (add_row s id m) /\ forall j, j <> i -> rely j s (add_row s id m).
Proof.
  intros Hi ((Hh & id0 & m0 & Hb0 & Hp0 & Hm0) & Ho & Hobj) Hid Hp Hm. specialize (Hobj eq_refl).
  assert (forall id' m', <[id := m]> (sh_born s) !! id' = Some m' ->
    (id' = id /\ m' = m) \/ (id' <> id /\ sh_born s !! id' = Some m')) as Hlook.
  { intros id' m' Hl. destruct (decide (id' = id)) as [->|Hne].
    - rewrite lookup_insert_eq in Hl. injection Hl as <-. auto.
    - rewrite lookup_insert_ne in Hl by done. auto. }
  assert (forall id' m', sh_born s !! id' = Some m' -> mf_FilePath m' = path -> mf_ContentHash m' = Some h) as Hall.
  { intros id' m' Hb' Hp'. rewrite <- Hm0. eapply (inv_hash _ Hi); [exact Hb'|exact Hb0|]. congruence. }
  split.
  - split; simpl.
    + intros id' Hl. destruct (decide (id' = id)) as [->|?]; [by rewrite lookup_insert_eq|].
      rewrite lookup_insert_ne by done. apply (inv_live _ Hi).
      apply elem_of_union in Hl as [?%elem_of_singleton|]; done.
    + intros id' m' Hl Hb' Hman. destruct (Hlook _ _ Hb') as [[-> ->]|[Hne Hb]]; [by rewrite Hp|].
      eapply (inv_objs _ Hi); [|done|done]. apply elem_of_union in Hl as [?%elem_of_singleton|]; done.
    + intros i1 i2 m1 m2 Hb1 Hb2 Heq. destruct (Hlook _ _ Hb1) as [[-> ->]|[? Hc1]], (Hlook _ _ Hb2) as [[-> ->]|[? Hc2]].
      * done.
      * rewrite Hm. symmetry. eapply Hall; [exact Hc2|congruence].
      * rewrite Hm. eapply Hall; [exact Hc1|congruence].
      * by eapply (inv_hash _ Hi).
    + intros id' m' Hb'. destruct (Hlook _ _ Hb') as [[-> ->]|[_ Hb]]; [|by eapply (inv_hex _ Hi)].
      intros h' Hh'. eapply (inv_hex _ Hi _ _ Hb0). congruence.
    + intros key ch Hk Hpre. destruct (inv_challenge _ Hi key ch Hk Hpre) as (i1 & m1 & Hb1 & Hrest).
      exists i1, m1. split; [|done]. rewrite lookup_insert_ne; [done|]. intros ->. congruence.
  - intros j Hj. split; simpl; [by apply insert_subseteq|done|done|].
    intros i1 m1 Hb1 Hg id' m' Hl Hb' Heq. destruct (Hlook _ _ Hb') as [[-> ->]|[Hne Hb]].
    + exfalso. assert (mf_ContentHash m1 = Some h) as Hm1 by (eapply Hall; [exact Hb1|congruence]).
      unfold guarded in Hg. rewrite Hm1 in Hg. destruct Hg as [->|Hg]; [done|]. unfold owns in *. congruence.
    + split; [|done]. apply elem_of_union in Hl as [?%elem_of_singleton|]; done.
Qed.

Lemma rg_saveReference i ctx filename path userID h s :
  mayRefer i path h true s -> rg i (SaveReference ctx filename path userID h) s (fun _ _ => True).
Proof.
  intros Hk. unfold SaveReference. destruct (NormalizeVideoFilename filename) as [name|e]; [|by apply rg_ret].
  eapply rg_ask; [apply mayRefer_lasting|exact Hk|by intros ? ? ? ?|]. intros s1 now Hk1 Hi1 _.
  unfold bind_ok, call. cbn [bind].
  eapply rg_do; [apply mayRefer_lasting|exact Hk1|]. intros s2 x s3 Hk2 Hi2 Hx.
  assert (forall id, rg i (bind (RememberContentHash ctx id h) (fun _ =>
    bind (InvalidateUserList ctx userID) (fun _ =>
      Ret (Ok (with_id (newRow name path now userID h) id))))) s3 (fun (_ : res MediaFile) _ => True)) as Hrest.
  { intros id. apply (rg_quiet i _ s3 (fun _ => True)); [apply True_lasting|done| |].
    - unfold RememberContentHash. destruct (String.eqb h ""); by repeat split; intros; repeat split; intros ? ? ? ? ?.
    - unfold RememberContentHash, InvalidateUserList. by wp_go. }
  destruct x as [id|e]; simpl in Hx.
  - destruct Hx as [Hid ->]. destruct (insert_step i s2 path h (with_id (newRow name path now userID h) id) id) as [? ?]; auto.
  - destruct Hx as [->|(id & Hid & ->)]; [split; [done|]; split; [intros; apply rely_refl|]; by apply rg_ret|].
    destruct (insert_step i s2 path h (with_id (newRow name path now userID h) id) id) as [? ?]; auto.
    split; [done|]. split; [done|]. by apply rg_ret.
Qed.

Lemma rg_prove i ctx userID req s : rg i (Prove ctx userID req) s (fun _ _ => True).
Proof.
  unfold Prove. destruct (md5Pattern (pr_RangeMD5 req)); [cbn [negb]|by apply rg_ret]. apply rg_bind.
  eapply rg_mono with (Q := fun r s1 => match r with Ok ch => copyOf (field ch "filePath") (field ch "md5") s1 | Err _ => True end).
  { unfold takeChallenge. destruct (uuidParses (pr_ChallengeID req)); [cbn [negb]|by apply rg_ret].
    unfold bind_ok, call. cbn [bind]. eapply (rg_do _ _ _ _ (fun _ => True)); [apply True_lasting|done|].
    intros s1 x s2 _ Hi Hx.
    assert (inv s2 /\ forall j, j <> i -> rely j s1 s2) as [Hi2 Hr2].
    { set (key := challengeKeyPrefix +:+ pr_ChallengeID req) in Hx.
      assert (s2 = s1 \/ s2 = set_hash s1 (delete key (sh_hash s1))) as [-> | ->].
      { destruct x; simpl in Hx; [right; by destruct Hx|done]. }
      - split; [done|]. intros. apply rely_refl.
      - split; [by apply inv_hash_delete|]. intros. apply rely_hash_step. }
    split; [done|]. split; [done|]. destruct x as [ch|e]; [|by apply rg_ret]. simpl in Hx. destruct Hx as [Hch Hs2].
    destruct (Nat.eqb_spec (size ch) 0) as [E0|Hne]; [by apply rg_ret|]. apply rg_keep; [apply copyOf_lasting|].
    destruct (sh_hash s1 !! (challengeKeyPrefix +:+ pr_ChallengeID req)) as [ch'|] eqn:Ec; simpl in Hch; subst ch;
      [|by rewrite map_size_empty in Hne].
    destruct (inv_challenge _ Hi _ _ Ec (HasPrefix_app _ _)) as (id & m & Hb & Hp & Hm & Hn).
    split; [done|]. exists id, m. subst s2. done. }
  intros [ch|e] s1 Hk; [|by apply rg_ret]. destruct (String.eqb (field ch "userId") (FormatInt userID)); [cbn [negb]|by apply rg_ret].
  destruct (ParseInt 64 (field ch "offset")) as [off|]; [|by apply rg_ret].
  destruct (ParseInt 64 (field ch "length")) as [len|]; [|by apply rg_ret].
  destruct (len <=? 0); [by apply rg_ret|]. unfold bind_ok, call. cbn [bind].
  eapply rg_trylock; [apply copyOf_lasting|exact Hk|done|]. intros s2 x Hk2 Ho.
  destruct x as [[l|]|e]; [|by apply rg_ret..]. apply rg_bind. eapply rg_mono with (Q := fun _ _ => True).
  2: { intros r s3 _. apply rg_unlock. intros. by apply rg_ret. }
  unfold proveLocked, bind_ok, call. cbn [bind].
  assert (mayRefer i (field ch "filePath") (field ch "md5") false s2) as Hm by (split; [done|]; split; [by eapply Ho|done]).
  eapply rg_ask; [apply mayRefer_lasting|exact Hm|intros ? ? ? ? Hx; by eapply asked_quiet|].
  intros s3 x Hm3 _ [_ Hx]. destruct x as [data|e]; [|by apply rg_ret].
  destruct (_ || _); [by apply rg_ret|]. apply rg_saveReference. destruct Hm3 as (? & ? & _). by split_and!.
Qed.

Lemma rg_findSource i ctx sz h copies s :
  Forall (fun c => copyOf (mf_FilePath c) h s) copies ->
  rg i (findSource ctx sz copies) s (fun source s' => source = "" \/ copyOf source h s').
Proof.
  revert s. induction copies as [|c copies IH]; intros s Hc; cbn [findSource].
  - apply rg_ret. intros ?. by left.
  - apply Forall_cons in Hc as [Hc Hcs]. destruct (IsManagedFile (mf_FilePath c)); [cbn [negb]|by apply IH].
    eapply (rg_ask _ _ _ _ (fun s => copyOf (mf_FilePath c) h s /\ Forall (fun c => copyOf (mf_FilePath c) h s) copies)).
    + intros s1 s2 [H1' H2'] Hr. split; [by apply (copyOf_lasting i _ _ s1)|]. eapply Forall_impl; [exact H2'|].
      intros c' Hc'. by apply (copyOf_lasting i _ _ s1).
    + done.
    + by intros ? ? ? ?.
    + intros s1 x [H1' H2'] _ _. destruct x as [n|e]; [|by apply IH]. destruct (n =? sz); [|by apply IH].
      apply (rg_keep i _ s1 (fun source s' => source = "" \/ copyOf source h s')).
      * intros s2 s3 [?|Hc2] Hr; [by left|right]. by apply (copyOf_lasting i _ _ s2).
      * by right.
Qed.

Lemma md5_lower_nonempty v : md5Pattern v = true -> ToLower v <> "".
Proof.
  unfold md5Pattern. intros [Hl Hh]%andb_prop. rewrite ToLower_hex by done. apply Nat.eqb_eq in Hl.
  intros E. apply (f_equal String.length) in E. by rewrite str_map_length, Hl in E.
Qed.

(** Storing a challenge for a content that has a row. *)
Lemma challenge_step s key fields path h :
  inv s -> copyOf path h s ->
  (forall m, field (fold_left (fun h '(f, v) => <[f := v]> h) fields m) "filePath" = path
             /\ field (fold_left (fun h '(f, v) => <[f := v]> h) fields m) "md5" = h) ->
  inv (set_hash s (<[key := fold_left (fun h '(f, v) => <[f := v]> h) fields
                              (default ∅ (sh_hash s !! key))]> (sh_hash s))).
Proof.
  intros Hi (Hh & id & m & Hb & Hp & Hm) Hf. split; simpl; try apply Hi. intros k ch Hk Hpre.
  destruct (decide (k = key)) as [->|Hne]; [|rewrite lookup_insert_ne in Hk by done; by eapply (inv_challenge _ Hi)].
  rewrite lookup_insert_eq in Hk. injection Hk as <-. destruct (Hf (default ∅ (sh_hash s !! key))) as [-> ->].
  by exists id, m.
Qed.

Lemma rg_challenge i ctx userID raw s : rg i (IssueChallenge ctx userID raw) s (fun _ _ => True).
Proof.
  unfold IssueChallenge. destruct (ValidateChallengeRequest raw) as [req|e] eqn:Ev; [|by apply rg_ret].
  assert (cr_MD5 req <> "" /\ str_forall lower_hex (cr_MD5 req) = true) as [Hne Hhex].
  { unfold ValidateChallengeRequest in Ev. destruct (md5Pattern (cr_MD5 raw)) eqn:Em; [|done]. cbn [negb] in Ev.
    repeat case_match; simplify_eq. split; [by apply md5_lower_nonempty|by apply ToLower_lower_hex]. }
  unfold FindByContentHash, bind_ok at 1, call. cbn [bind].
  eapply (rg_ask _ _ _ _ (fun _ => True)); [apply True_lasting|done|intros ? ? ? ? Hx; by eapply asked_quiet|].
  intros s1 x _ Hi [_ Hx]. destruct x as [copies|e]; [|by apply rg_ret].
  apply rg_bind. eapply rg_mono; [eapply (rg_findSource _ _ _ (cr_MD5 req))|].
  { eapply Forall_impl; [exact Hx|]. intros c (id & m & h' & Hrow & -> & Hm & Hcol). split; [done|]. exists id, m.
    assert (sh_born s1 !! id = Some m) as Hb by (unfold row in Hrow; by case_decide). split; [done|]. split; [done|].
    rewrite Hm. f_equal. apply collates_exact; [by eapply lower_hex_word, (inv_hex _ Hi)|by apply lower_hex_word|done]. }
  intros source s2 Hsrc. destruct (String.eqb_spec source "") as [->|Hs]; [by apply rg_ret|].
  destruct Hsrc as [?|Hc]; [done|]. apply rg_bind.
  eapply rg_mono with (Q := fun _ => copyOf source (cr_MD5 req)).
  { apply rg_quiet; [apply copyOf_lasting|done| |]; unfold ChallengeRange.
    - case_match; [done|]. split; [by intros ? ? ? ?|]. by intros [?|?].
    - wp_go; done. }
  intros [[off len]|e] s3 Hc3; [|by apply rg_ret].
  eapply rg_ask; [apply copyOf_lasting|exact Hc3|by intros ? ? ? ?|]. intros s4 id Hc4 Hi4 _.
  unfold bind_ok, call. cbn [bind]. eapply rg_do; [apply copyOf_lasting|exact Hc4|]. intros s5 y s6 Hc5 Hi5 Hy.
  assert (inv s6 /\ forall j, j <> i -> rely j s5 s6) as [Hi6 Hr6].
  { cbn [serve] in Hy. match type of Hy with changed ?t _ _ _ => assert (s6 = s5 \/ s6 = t) as [-> | ->] by (destruct y; cbn [changed] in Hy; tauto) end.
    - split; [done|]. intros. apply rely_refl.
    - split; [|intros; apply rely_hash_step]. eapply challenge_step; [done|exact Hc5|].
      intros m0. unfold field. simpl. by simplify_map_eq. }
  split; [done|]. split; [done|]. destruct y; by apply rg_ret.
Qed.

(** The programs that run: deletions, challenges and proofs, of any user and with any arguments. *)
Inductive mediaProgram : proc StoreE unit -> Prop :=
| runs_delete ctx id userID : mediaProgram (bind (DeleteOwnedMedia ctx id userID) (fun _ => Ret tt))
| runs_challenge ctx userID raw : mediaProgram (bind (IssueChallenge ctx userID raw) (fun _ => Ret tt))
| runs_prove ctx userID req : mediaProgram (bind (Prove ctx userID req) (fun _ => Ret tt)).

Lemma mediaProgram_ok p i s : mediaProgram p -> inv s -> rg i p s (fun _ _ => True).
Proof.
  intros [ctx id uid|ctx uid raw|ctx uid req] _; apply rg_bind; (eapply rg_mono; [|intros; by apply rg_ret]).
  - apply rg_delete.
  - apply rg_challenge.
  - apply rg_prove.
Qed.

(** C6. A row never points at a deleted object. Start any number of deletions, challenges and proofs at any
    time, interleave their calls in any way with each other, with the steps of uploads and with expiring
    challenges, and let any call fail, its effect applied or not: in every state that can be reached, every media row whose
    file is managed by the store has its object. Deletion counts references under the object lock and keeps
    the object when it could not take the lock or count, and an instant upload reads the object and inserts
    its row under the same lock. *)
Theorem no_dangling_rows (s : shared) (y : system) :
  inv s -> rtc (sys_step serve surroundings mediaProgram) (mkSystem s []) y ->
  forall id m, row (sys_state y) id = Some m -> IsManagedFile (mf_FilePath m) = true ->
    mf_FilePath m ∈ sh_objs (sys_state y).
Proof.
  intros Hi Hr id m Hrow Hman. unfold row in Hrow. case_decide as Hl; [|done].
  assert (inv (sys_state y)) as Hy; [|by eapply (inv_objs _ Hy)].
  eapply (sys_run_inv serve surroundings mediaProgram inv rely); [|apply surroundings_inv| |exact Hi|exact Hr].
  - apply surroundings_rely.
  - apply mediaProgram_ok.
Qed.

End safety.

(** ** A concrete system: two users share one object, one of them deletes *)

#[local] Instance sampleMd5 : Md5 := {
  md5Sum := fun _ => "0123456789abcdef"; md5Sum_size := fun _ => eq_refl }.
#[local] Instance sampleList : ListCodec := { marshalList := fun _ => Ok ""; unmarshalList := fun _ => Ok [] }.
#[local] Instance sampleMinio : MinioConfig := { endpoint := "http://minio:9000"; bucket := "media" }.
#[local] Instance sampleUuid : UuidSyntax := fun _ => true.

Definition sharedFile (id userID : Z) : MediaFile :=
  mkMediaFile id userID "a.mp4" "COMPLETED" "http://minio:9000/media/a.mp4" (Some "d41d8cd9") None None None 0.

Definition twoRows : shared :=
  mkShared (<[1 := sharedFile 1 10]> (<[2 := sharedFile 2 20]> ∅)) {[ 1; 2 ]}
    {[ "http://minio:9000/media/a.mp4" ]} ∅ ∅.

Lemma twoRows_born id m : sh_born twoRows !! id = Some m -> exists u, m = sharedFile id u.
Proof.
  simpl. intros [[<- <-]|[_ [[<- <-]|[_ Hm]]%lookup_insert_Some]]%lookup_insert_Some; [eauto|eauto|].
  by rewrite lookup_empty in Hm.
Qed.

Lemma twoRows_inv : inv twoRows.
Proof.
  split.
  - intros id [->%elem_of_singleton | ->%elem_of_singleton]%elem_of_union; by eexists.
  - intros id m _ [u ->]%twoRows_born _. vm_compute. reflexivity.
  - intros id id' m m' [u ->]%twoRows_born [u' ->]%twoRows_born _. done.
  - intros id m [u ->]%twoRows_born h [= <-]. reflexivity.
  - intros key ch Hk. simpl in Hk. by rewrite lookup_empty in Hk.
Qed.

#[local] Existing Instance caseFolding.

Definition deleting : proc StoreE unit := bind (DeleteOwnedMedia RequestContext 1 10) (fun _ => Ret tt).

Definition deletingNext : proc StoreE unit :=
  match deleting with
  | @Do _ _ X c k => match c in StoreE X return (X -> proc StoreE unit) -> proc StoreE unit with
                     | DFindByID _ _ => fun k => k (Ok (Some (sharedFile 1 10)))
                     | _ => fun _ => Ret tt
                     end k
  | _ => Ret tt
  end.

Lemma no_dangling_rows_witness :
  rtc (sys_step serve surroundings mediaProgram) (mkSystem twoRows []) (mkSystem twoRows [deletingNext])
  /\ "http://minio:9000/media/a.mp4" ∈ sh_objs twoRows.
Proof.
  assert (rtc (sys_step serve surroundings mediaProgram) (mkSystem twoRows []) (mkSystem twoRows [deletingNext])) as Hr.
  { eapply rtc_l; [apply sys_spawn, (runs_delete RequestContext 1 10)|].
    assert (exists k, deleting = Do (DFindByID RequestContext 1) k
                      /\ deletingNext = k (Ok (Some (sharedFile 1 10)))) as (k & Hk & Hn) by (by eexists).
    eapply rtc_l; [|apply rtc_refl]. rewrite Hn.
    apply (sys_call serve surroundings mediaProgram twoRows [deleting] 0 _ (DFindByID RequestContext 1) k
             (Ok (Some (sharedFile 1 10))) twoRows); [by rewrite Hk|].
    split; [done|]. vm_compute. reflexivity. }
  split; [exact Hr|].
  apply (no_dangling_rows twoRows (mkSystem twoRows [deletingNext]) twoRows_inv Hr 2 (sharedFile 2 20)); reflexivity.
Defined.

(** ** Uploads *)

Section uploads.
Context `{Md5, ListCodec, MinioConfig, UuidSyntax, Collation}.

(** The services, when object names are new ones and an insert that reports an error was not applied. *)
Definition settled (i : nat) (X : Type) (c : StoreE X) (s : shared) (x : X) (s' : shared) : Prop :=
  serve i X c s x s'
  /\ match c in StoreE X return X -> Prop with
     | MUploadStream _ _ _ _ _ => fun x => match x with Ok url => unused s url | Err _ => True end
     | DInsert _ _ => fun x => match x with Ok _ => True | Err _ => s' = s end
     | _ => fun _ => True
     end x.

Lemma EncodeToString_hex s : str_forall lower_hex (EncodeToString s) = true.
Proof.
  induction s as [|a s IH]; [done|]. cbn [EncodeToString str_forall]. rewrite IH, andb_true_r.
  assert (forall a, (fun _ => true) a = true ->
    (fun a => lower_hex (hex_digit (byte a / 16)) && lower_hex (hex_digit (byte a mod 16))) a = true) as Ha by by_bytes.
  by apply Ha.
Qed.

Lemma quiet_surrounds i {A} (p : proc StoreE A) s :
  calls (fun X c => quiet c) p -> wp p (fun _ _ => True) -> swp (settled i) p s (fun _ s' => s' = s).
Proof.
  revert s. induction p as [a|X c k IH|why]; cbn; intros s Hc Hp; [done| |done].
  intros x s' [Hx _]. destruct Hc as [Hq Hk]. rewrite (Hq _ _ _ _ Hx). apply IH; [apply Hk|apply Hp].
Qed.

Lemma removeUploaded_surrounds i ctx url e s :
  unused s url ->
  swp (settled i) (bind (removeUploadedObject ctx url) (fun _ => Ret (Err e : res MediaFile))) s
    (fun _ s' => rtc surroundings s s').
Proof.
  intros Hf. unfold removeUploadedObject. cbn [bind swp]. intros x s' [Hx _]. cbn in Hx.
  assert (s' = s \/ s' = set_objs s (sh_objs s ∖ {[ url ]})) as [->| ->] by (destruct x; cbn in Hx; tauto).
  - apply rtc_refl.
  - by apply rtc_once, object_dropped.
Qed.

Lemma SaveUploadedMedia_surrounds i ctx filename url userID h s :
  unused s url -> url ∈ sh_objs s -> str_forall lower_hex h = true ->
  swp (settled i) (SaveUploadedMedia ctx filename url userID h) s (fun _ s' => rtc surroundings s s').
Proof.
  intros Hf Ho Hh. unfold SaveUploadedMedia. destruct (NormalizeVideoFilename filename) as [name|e];
    [|by apply removeUploaded_surrounds].
  cbn [swp]. intros now s1 [-> _]. intros x s1 [Hx Hsettled].
  destruct x as [id|e]; [|cbn in Hsettled; subst s1; by apply removeUploaded_surrounds].
  cbn in Hx. destruct Hx as [Hid ->].
  eapply swp_mono; [apply (quiet_surrounds i)|].
  - unfold RememberContentHash, InvalidateUserList. destruct (String.eqb h ""); by repeat split; intros; repeat split; intros ? ? ? ? ?.
  - unfold RememberContentHash, InvalidateUserList. by wp_go.
  - cbn. intros _ s' ->. apply rtc_once, row_inserted; [done|done|done|]. intros h0 [= <-]. done.
Qed.

(** The code of an upload takes the steps that [surroundings] allows, and no others, so that the guarantee above
    covers uploads that succeed, fail at any call or are cut off: provided that a name for an object is new, as
    a UUID is, and that an insert that reports an error was not applied. *)
Theorem IngestFile_surrounds (i : nat) (ctx : Context) (fh : option FileHeader) (userID : Z) (s : shared) :
  swp (settled i) (IngestFile ctx fh userID) s (fun _ s' => rtc surroundings s s').
Proof.
  unfold IngestFile. destruct fh as [fh|]; [|apply rtc_refl]. destruct (fh_Size fh =? 0); [apply rtc_refl|].
  destruct (NormalizeVideoFilename _) as [filename|e]; [|apply rtc_refl].
  unfold bind_ok, call. cbn [bind swp]. intros x s1 [-> _]. destruct x as [f|e]; [|apply rtc_refl].
  destruct (CalculateMD5 f) as [md5|e] eqn:Em; [|apply rtc_refl]. cbn [bind swp].
  intros x s1 [-> _]. destruct x as [f'|e]; [|apply rtc_refl]. cbn [bind swp]. intros x s1 [Hx Hnew]. cbn in Hx.
  destruct x as [url|e].
  - subst s1. eapply swp_mono; [apply SaveUploadedMedia_surrounds|].
    + exact Hnew.
    + apply elem_of_union_l, elem_of_singleton. done.
    + unfold CalculateMD5 in Em. repeat case_match; simplify_eq. apply EncodeToString_hex.
    + cbn. intros _ s' Hr. eapply rtc_l; [apply object_stored|exact Hr].
  - destruct Hx as [->|[url ->]]; [apply rtc_refl|apply rtc_once, object_stored].
Qed.

End uploads.

(** ** Why uploads are not among the programs: inserts that were applied and report an error *)

Definition uploaded (objs : gset string) (rows : gmap Z MediaFile) : shared := mkShared rows (dom rows) objs ∅ ∅.

(** An upload whose insert reports an error after the row was written - a connection lost between the commit and
    its acknowledgement - removes the object and leaves the row: the caller is told that the upload failed, and
    a row stands whose file is gone. *)
Theorem failed_upload_dangles :
  let url := "http://minio:9000/media/a.mp4" in
  let s := uploaded {[ url ]} ∅ in
  exists e s', inv s /\ sruns (serve 0) (SaveUploadedMedia RequestContext "a.mp4" url 10 "0a") s (Err e) s'
    /\ IsManagedFile url = true /\ (exists id m, row s' id = Some m /\ mf_FilePath m = url) /\ url ∉ sh_objs s'.
Proof.
  cbv zeta. exists (OtherErr "invalid connection" None None), (uploaded ∅ {[ 1 := with_id (newRow "a.mp4" "http://minio:9000/media/a.mp4" 0 10 "0a") 1 ]}).
  split; [split; cbn; set_solver|]. split; [|split; [vm_compute; reflexivity|split; [|set_solver]]].
  - eapply (sruns_do _ _ _ _ _ 0); [reflexivity|].
    eapply (sruns_do _ _ _ _ _ (Err (OtherErr "invalid connection" None None))).
    { right. exists 1. split; [done|reflexivity]. }
    eapply (sruns_do _ _ _ _ _ (Ok tt)); [|constructor]. vm_compute. reflexivity.
  - exists 1. eexists. split; [vm_compute; reflexivity|done].
Qed.
