(* ===== verification/MediaTable.v ===== *)
(** * The media service over the media_files table

    ObjectSafety.v gives the calls [D...] of [StoreE] an abstract meaning, a map of the rows ever inserted
    and the set of those that live.  Here they are the methods of [MediaRepo] (repo.go) run against the
    tables, and the two systems are related: whatever the services can do over MySQL they can do over the
    abstract store, so that the guarantee of ObjectSafety.v holds of the rows of the table. *)

From S2P Require Import Gorm Repo MediaRepo.
From S2P Require Import Prelude GoStrings Proc Errors Model GoContext TaskKeys Collation Store Media Upload Concurrent.
From S2P Require Import ObjectSafety.
Import Gorm(database, committed, pending, nextId, history, tb_media, MediaFiles).

Local Open Scope string_scope.
Local Open Scope list_scope.
Local Open Scope Z_scope.

(** The repository method behind a call. *)
Definition rowCall (X : Type) (c : StoreE X) : option (proc Gorm.DbE X) :=
  match c in StoreE X return option (proc Gorm.DbE X) with
  | DFindByID ctx id => Some (MediaRepo.FindByID ctx id)
  | DInsert ctx m => Some (MediaRepo.Insert ctx m)
  | DListByUser ctx userID => Some (MediaRepo.ListByUser ctx userID)
  | DDeleteByID ctx id => Some (MediaRepo.DeleteByID ctx id)
  | DCountFileReferences ctx h path => Some (MediaRepo.CountFileReferences ctx h path)
  | DFindByContentHash ctx h => Some (MediaRepo.FindByContentHash ctx h)
  | _ => None
  end.

(** The database beside the other services. *)
Record deployed := mkDeployed {
  dp_db : database; dp_objs : gset string; dp_locks : gmap string (option nat);
  dp_hash : gmap string (gmap string string) }.

(** The services but for the rows. *)
Definition bare (s : deployed) : shared := mkShared ∅ ∅ (dp_objs s) (dp_locks s) (dp_hash s).

Section deployment.
Context `{Collation}.

Definition serveTables (i : nat) (X : Type) (c : StoreE X) (s : deployed) (x : X) (s' : deployed) : Prop :=
  match rowCall X c with
  | Some p => sruns Gorm.gorm p (dp_db s) x (dp_db s') /\ bare s' = bare s
  | None => serve i X c (bare s) x (bare s') /\ dp_db s' = dp_db s
  end.

(** No row of the table ever had this path. *)
Definition unusedPath (d : database) (path : string) : Prop :=
  forall tb r, tb ∈ history d -> r ∈ tb_media tb -> mf_FilePath r <> path.

(** The steps of an upload: its object is stored; its row is inserted by [MediaRepo.Insert], under a path no row
    ever had; its object is removed when the insert had failed. *)
Inductive surroundingsTables : deployed -> deployed -> Prop :=
| upload_stores s url :
    surroundingsTables s (mkDeployed (dp_db s) ({[ url ]} ∪ dp_objs s) (dp_locks s) (dp_hash s))
| upload_inserts s ctx m id d :
    mf_ID m = 0 -> hexHash m -> unusedPath (dp_db s) (mf_FilePath m) -> mf_FilePath m ∈ dp_objs s ->
    sruns Gorm.gorm (MediaRepo.Insert ctx m) (dp_db s) (Ok id) d ->
    surroundingsTables s (mkDeployed d (dp_objs s) (dp_locks s) (dp_hash s))
| upload_drops s url : unusedPath (dp_db s) url ->
    surroundingsTables s (mkDeployed (dp_db s) (dp_objs s ∖ {[ url ]}) (dp_locks s) (dp_hash s))
| redis_expires s key : surroundingsTables s (mkDeployed (dp_db s) (dp_objs s) (dp_locks s) (delete key (dp_hash s)))
| orphan_lock_expires s key : dp_locks s !! key = Some None ->
    surroundingsTables s (mkDeployed (dp_db s) (dp_objs s) (delete key (dp_locks s)) (dp_hash s)).

(** The rows of the table are the live rows; every row there ever was is in the history. *)
Record tracks (d : database) (s : shared) : Prop := mkTracks {
  tr_open : pending d = None;
  tr_ids : NoDup (mf_ID <$> tb_media (committed d));
  tr_live : sh_live s = list_to_set (mf_ID <$> tb_media (committed d));
  tr_born : forall r, r ∈ tb_media (committed d) -> sh_born s !! mf_ID r = Some r;
  tr_next : forall id, is_Some (sh_born s !! id) -> id < nextId d MediaFiles;
  tr_past : forall id m, sh_born s !! id = Some m -> exists tb, tb ∈ history d /\ m ∈ tb_media tb }.

Definition deploys (c : deployed) (s : shared) : Prop :=
  tracks (dp_db c) s /\ sh_objs s = dp_objs c /\ sh_locks s = dp_locks c /\ sh_hash s = dp_hash c.

(** Down to the calls of the database. *)
Ltac statement :=
  unfold MediaRepo.FindByID, MediaRepo.Insert, MediaRepo.ListByUser, MediaRepo.DeleteByID,
    MediaRepo.CountFileReferences, MediaRepo.FindByContentHash, call;
  cbn [swp bind Gorm.gorm]; unfold Gorm.reads.

(** *** Queries *)

Lemma byId_satisfies id (r : MediaFile) :
  Gorm.satisfies MediaFiles (Gorm.Where "id" (Gorm.VInt id) Gorm.db) r = (mf_ID r =? id).
Proof. unfold Gorm.satisfies. cbn. apply andb_true_r. Qed.

Lemma row_tracks d s id m :
  tracks d s -> row s id = Some m <-> m ∈ tb_media (committed d) /\ mf_ID m = id.
Proof.
  intros [_ Hnd Hl Hb _ _]. unfold row. rewrite Hl. case_decide as Hin.
  - rewrite elem_of_list_to_set, list_elem_of_fmap in Hin. destruct Hin as (r & -> & Hr). split.
    + rewrite (Hb r Hr). intros [= ->]. done.
    + intros [Hm Hid]. rewrite <- Hid. by apply Hb.
  - split; [done|]. intros [Hm <-]. destruct Hin. rewrite elem_of_list_to_set. by apply list_elem_of_fmap_2.
Qed.

(** An abandoned statement outside a transaction changes nothing. *)
Lemma abandon_open d : pending d = None -> Gorm.abandon d = d.
Proof. by destruct d; cbn; intros ->. Qed.

Lemma FindByID_refines d s ctx id x d' :
  tracks d s -> sruns Gorm.gorm (MediaRepo.FindByID ctx id) d x d' -> d' = d /\ asked (fun m => m = row s id) s x s.
Proof.
  intros Ht Hr. by_run Hr. statement. intros r d1 [-> Hx]. split; [done|]. split; [done|].
  rewrite Gorm.view_open in Hx by apply Ht. destruct r as [r|e].
  - destruct Hx as (r0 & [Hin Hs]%Gorm.elem_of_matching & ->). cbn. symmetry. eapply row_tracks; [done|].
    rewrite byId_satisfies in Hs. split; [done|by apply Z.eqb_eq].
  - destruct Hx as [[-> Hn]|[He _]]; cbn; [|by rewrite He].
    destruct (row s id) as [m|] eqn:Em; [|done]. apply (row_tracks d) in Em as [Hin Hid]; [|done].
    assert (Gorm.satisfies MediaFiles (Gorm.Where "id" (Gorm.VInt id) Gorm.db) m = true) as Hs
      by (rewrite byId_satisfies; by apply Z.eqb_eq).
    pose proof (proj2 (Gorm.elem_of_matching MediaFiles _ _ m) (conj Hin Hs)) as Hm. rewrite Hn in Hm. inversion Hm.
Qed.

Lemma delivers_elem t q l out (r : Gorm.row t) :
  Gorm.delivers t q l out -> r ∈ out -> exists r0, r0 ∈ l /\ r = Gorm.project t q r0.
Proof.
  intros (l' & Hp & _ & ->) (r0 & -> & Hin)%list_elem_of_fmap. exists r0. split; [|done]. rewrite <- Hp.
  destruct (Gorm.q_limit q); [by apply (subseteq_take n l')|done].
Qed.

Lemma FindByContentHash_refines d s ctx h x d' :
  tracks d s -> sruns Gorm.gorm (MediaRepo.FindByContentHash ctx h) d x d' ->
  d' = d /\ asked (Forall (fun c => exists id m h', row s id = Some m /\ mf_FilePath c = mf_FilePath m
                                        /\ mf_ContentHash m = Some h' /\ collates h' h = true)) s x s.
Proof.
  intros Ht Hr. by_run Hr. statement. intros r d1 [-> Hx]. split; [done|]. split; [done|].
  rewrite Gorm.view_open in Hx by apply Ht. destruct r as [out|e]; [|done]. apply Forall_forall. intros c Hc.
  destruct (delivers_elem _ _ _ _ _ Hx Hc) as (r0 & [Hin Hs]%Gorm.elem_of_matching & ->).
  unfold Gorm.satisfies in Hs. cbn in Hs. unfold Gorm.holds in Hs. cbn in Hs.
  destruct (mf_ContentHash r0) as [h'|] eqn:Eh; [|done]. cbn in Hs. rewrite andb_true_r in Hs.
  exists (mf_ID r0), r0, h'. split; [by apply (row_tracks d)|]. done.
Qed.

Lemma Count_refines d s ctx h path x d' :
  tracks d s -> sruns Gorm.gorm (MediaRepo.CountFileReferences ctx h path) d x d' ->
  d' = d /\ asked (fun n => Z.of_nat (size (references s h path)) <= n) s x s.
Proof.
  intros Ht Hr. by_run Hr. statement. intros r d1 [-> Hx]. split; [done|]. split; [done|].
  rewrite Gorm.view_open in Hx by apply Ht. destruct r as [n|e]; [subst n|done].
  match goal with |- context [length ?m] => set (l := m) end.
  assert (references s h path ⊆ list_to_set (mf_ID <$> l)) as Hsub.
  { intros id [Hm Hl]%elem_of_filter. destruct (sh_born s !! id) as [m|] eqn:Eb; [|done].
    assert (row s id = Some m) as Hrow by (unfold row; by rewrite decide_True).
    apply (row_tracks d) in Hrow as [Hin <-]; [|done]. rewrite elem_of_list_to_set. apply list_elem_of_fmap_2.
    apply (Gorm.elem_of_matching MediaFiles _ _ m). split; [done|]. unfold refersTo in Hm. apply andb_prop in Hm as [Hp%String.eqb_eq Hh].
    unfold Gorm.satisfies. destruct h as [h|]; [destruct (String.eqb_spec h "") as [->|Hne]|];
      cbn; unfold Gorm.holds; cbn; rewrite Hp, collates_refl; [done| |done].
    apply bool_decide_eq_true in Hh. rewrite Hh. cbn. by rewrite collates_refl. }
  apply subseteq_size in Hsub. etrans; [apply inj_le, Hsub|]. apply inj_le.
  rewrite <- (length_fmap mf_ID). generalize (mf_ID <$> l). clear. intros l.
  induction l as [|a l IH]; cbn; [by rewrite size_empty|]. rewrite size_union_alt, size_singleton.
  assert (size (list_to_set l ∖ {[a]} : gset Z) <= size (list_to_set l : gset Z))%nat by (apply subseteq_size; set_solver). lia.
Qed.

(** *** Writes *)

Lemma scan_with_id (m : MediaFile) id : Gorm.assign MediaFiles [("id", Gorm.VInt id)] m = with_id m id.
Proof. destruct m as [? ? ? ? ? [?|] [?|] [?|] [?|] ?]; reflexivity. Qed.

(** The next id is not in use. *)
Lemma tracks_fresh d s : tracks d s -> sh_born s !! nextId d MediaFiles = None.
Proof.
  intros Ht. destruct (sh_born s !! nextId d MediaFiles) eqn:E; [|done].
  pose proof (tr_next _ _ Ht _ (ex_intro _ _ E)). lia.
Qed.

(** The tables with the row [m] under the next id. *)
Definition withRow (d : database) (m : MediaFile) : database :=
  Gorm.useId MediaFiles (nextId d MediaFiles)
    (Gorm.write d (Gorm.put MediaFiles (tb_media (committed d) ++ [with_id m (nextId d MediaFiles)]) (committed d))).

Lemma tracks_insert d s m :
  tracks d s -> tracks (withRow d m) (add_row s (nextId d MediaFiles) (with_id m (nextId d MediaFiles))).
Proof.
  intros Ht. pose proof (tracks_fresh _ _ Ht) as Hf. destruct Ht as [Ho Hnd Hl Hb Hn Hp].
  set (id := nextId d MediaFiles) in *.
  assert (forall r, r ∈ tb_media (committed d) -> mf_ID r <> id) as Hne.
  { intros r Hr E. specialize (Hb r Hr). rewrite E in Hb. congruence. }
  unfold withRow, Gorm.write. rewrite Ho. fold id. split; cbn.
  - done.
  - rewrite fmap_app. apply NoDup_app. split; [done|]. split; [|apply NoDup_singleton].
    intros i (r & -> & Hr)%list_elem_of_fmap Hi%list_elem_of_singleton. by eapply Hne.
  - rewrite fmap_app, list_to_set_app_L, Hl. cbn. set_solver.
  - intros r [Hr|Hr]%elem_of_app; [|apply list_elem_of_singleton in Hr as ->; apply lookup_insert_eq].
    rewrite lookup_insert_ne; [by apply Hb|]. by apply not_eq_sym, Hne.
  - intros i [Hi|[_ Hi]]%lookup_insert_is_Some; [subst i|specialize (Hn i Hi)]; lia.
  - intros i r [[_ <-]|[_ Hr]]%lookup_insert_Some.
    + eexists. split; [left|]. cbn. apply elem_of_app. right. apply list_elem_of_here.
    + destruct (Hp i r Hr) as (tb & Htb & Hin). exists tb. split; [by right|done].
Qed.

Lemma Insert_refines d s ctx m x d' :
  tracks d s -> mf_ID m = 0 -> sruns Gorm.gorm (MediaRepo.Insert ctx m) d x d' ->
  match x with Ok id => id = nextId d MediaFiles /\ d' = withRow d m | Err _ => d' = d \/ d' = withRow d m end.
Proof.
  intros Ht Hm Hr. by_run Hr. statement. intros r d1.
  assert (Gorm.stored MediaFiles Gorm.db d m = with_id m (nextId d MediaFiles)) as ->.
  { unfold Gorm.stored. change (Gorm.toInt (Gorm.column MediaFiles m "id")) with (mf_ID m). rewrite Hm.
    cbn [Gorm.autoIncrement andb Z.eqb Gorm.q_omit Gorm.db]. apply scan_with_id. }
  assert (Gorm.inserted MediaFiles Gorm.db d (with_id m (nextId d MediaFiles))
    = Some (Gorm.put MediaFiles (tb_media (committed d) ++ [with_id m (nextId d MediaFiles)]) (committed d))) as ->.
  { unfold Gorm.inserted. rewrite Gorm.view_open by apply Ht.
    assert (existsb (Gorm.sameKey MediaFiles (with_id m (nextId d MediaFiles))) (Gorm.rows MediaFiles (committed d)) = false) as ->; [|done].
    apply not_true_is_false. intros (r0 & Hin%list_elem_of_In & E%Z.eqb_eq)%existsb_exists.
    pose proof (tr_born _ _ Ht r0 Hin) as Hb. pose proof (tracks_fresh _ _ Ht) as Hf. cbn in E. rewrite E in Hf. congruence. }
  change (Gorm.useId _ _ _) with (withRow d m). unfold Gorm.changes. destruct r as [a|e]; cbn [swp].
  - by intros [-> ->].
  - intros [_ Hd]. rewrite abandon_open in Hd by apply Ht.
    rewrite !elem_of_cons, elem_of_nil in Hd. destruct Hd as [->|[->|[->|[]]]]; auto.
Qed.

(** The tables without the row [id]. *)
Definition withoutRow (d : database) (id : Z) : database :=
  Gorm.write d (Gorm.put MediaFiles (List.filter (fun r : MediaFile => negb (mf_ID r =? id)) (tb_media (committed d)))
    (committed d)).

Lemma tracks_delete d s id : tracks d s -> tracks (withoutRow d id) (set_live s (sh_live s ∖ {[ id ]})).
Proof.
  intros [Ho Hnd Hl Hb Hn Hp].
  assert (forall r, r ∈ List.filter (fun r : MediaFile => negb (mf_ID r =? id)) (tb_media (committed d))
                    <-> r ∈ tb_media (committed d) /\ mf_ID r <> id) as Hf.
  { intros r. rewrite list_elem_of_In, filter_In, <- list_elem_of_In, negb_true_iff, Z.eqb_neq. done. }
  unfold withoutRow, Gorm.write. rewrite Ho. split; cbn.
  - done.
  - clear -Hnd. induction (tb_media (committed d)) as [|r l IH]; cbn; [constructor|].
    apply NoDup_cons in Hnd as [Hr Hnd]. destruct (negb _); [|by apply IH]. cbn. apply NoDup_cons. split; [|by apply IH].
    intros (r' & E & Hin)%list_elem_of_fmap. apply Hr. rewrite E. apply list_elem_of_fmap_2.
    apply list_elem_of_In, filter_In in Hin as [? _]. by apply list_elem_of_In.
  - rewrite Hl. apply set_eq. intros i.
    rewrite elem_of_difference, elem_of_singleton, !elem_of_list_to_set, !list_elem_of_fmap. split.
    + intros [(r & -> & Hr) Hne]. exists r. split; [done|]. by apply Hf.
    + intros (r & -> & [Hr Hne]%Hf). split; [by exists r|done].
  - intros r [Hr _]%Hf. by apply Hb.
  - done.
  - intros i m Hm. destruct (Hp i m Hm) as (tb & ? & ?). exists tb. split; [by right|done].
Qed.

Lemma Delete_refines d s ctx id x d' :
  tracks d s -> sruns Gorm.gorm (MediaRepo.DeleteByID ctx id) d x d' ->
  match x with Ok _ => d' = withoutRow d id | Err _ => d' = d \/ d' = withoutRow d id end.
Proof.
  intros Ht Hr. by_run Hr. statement. intros r d1. rewrite Gorm.view_open by apply Ht.
  assert (Gorm.write d (Gorm.put MediaFiles (List.filter (fun r => negb (Gorm.satisfies MediaFiles
    (Gorm.Where "id" (Gorm.VInt id) Gorm.db) r)) (Gorm.rows MediaFiles (committed d))) (committed d)) = withoutRow d id) as ->.
  { unfold withoutRow. do 2 f_equal. apply filter_ext. intros r0. by rewrite byId_satisfies. }
  unfold Gorm.changes. destruct r as [a|e].
  - by intros [_ ->].
  - intros [_ Hd]. rewrite abandon_open in Hd by apply Ht.
    rewrite !elem_of_cons, elem_of_nil in Hd. destruct Hd as [->|[->|[->|[]]]]; auto.
Qed.

(** *** Calls and steps *)

Definition withRows (b : gmap Z MediaFile) (l : gset Z) (s : shared) : shared :=
  mkShared b l (sh_objs s) (sh_locks s) (sh_hash s).

(** The other services neither read nor write rows. *)
Lemma serve_ignores_rows i X (c : StoreE X) s x s' b l :
  rowCall X c = None -> serve i X c s x s' -> serve i X c (withRows b l s) x (withRows b l s').
Proof.
  destruct c; cbn [rowCall serve]; try done; intros _; unfold changed, asked; intros Hs;
    repeat match goal with
    | H : context [match ?x with _ => _ end] |- _ => destruct x
    end; naive_solver.
Qed.

Lemma deploys_bare c s : deploys c s -> withRows (sh_born s) (sh_live s) (bare c) = s.
Proof. intros (_ & Ho & Hl & Hh). destruct s. cbn in *. by subst. Qed.

Lemma tracks_withRows d b l s : tracks d (withRows b l s) <-> tracks d (mkShared b l ∅ ∅ ∅).
Proof. by split; intros [? ? ? ? ? ?]; split. Qed.

Lemma deploys_intro c s :
  tracks (dp_db c) s -> deploys c (withRows (sh_born s) (sh_live s) (bare c)).
Proof. intros Ht. split; [|done]. apply tracks_withRows. by destruct Ht; split. Qed.

(** What the programs of the service insert. *)
Definition newRows (X : Type) (c : StoreE X) : Prop :=
  match c with DInsert _ m => mf_ID m = 0 | _ => True end.

Lemma serveTables_refines i X (c : StoreE X) s x s' sa :
  newRows X c -> deploys s sa -> serveTables i X c s x s' -> exists sa', serve i X c sa x sa' /\ deploys s' sa'.
Proof.
  intros Hc Hd. unfold serveTables. destruct (rowCall X c) as [p|] eqn:Ep.
  - intros [Hr Hb]. destruct Hd as (Ht & Ho & Hl & Hh).
    assert (forall sa', tracks (dp_db s') sa' -> sh_objs sa' = sh_objs sa -> sh_locks sa' = sh_locks sa ->
      sh_hash sa' = sh_hash sa -> deploys s' sa') as Hfin.
    { intros sa' Ht' E1 E2 E3. injection Hb as B1 B2 B3. split; [done|]. rewrite E1, E2, E3. split_and!; congruence. }
    destruct c; try done; injection Ep as <-; cbn [serve].
    + destruct (FindByID_refines _ _ _ _ _ _ Ht Hr) as [Ed Ha]. exists sa. split; [done|]. rewrite <- Ed in Ht. by apply Hfin.
    + pose proof (tracks_fresh _ _ Ht) as Hf. pose proof (tracks_insert _ _ m Ht) as Hti.
      pose proof (Insert_refines _ _ _ _ _ _ Ht Hc Hr) as Hi.
      destruct x as [id|e].
      * destruct Hi as [-> Ed]. eexists. split; [split; [done|reflexivity]|]. apply Hfin; rewrite ?Ed; done.
      * destruct Hi as [Ed|Ed]; [exists sa; split; [by left|]; apply Hfin; rewrite ?Ed; done|].
        eexists. split; [right; eexists; split; [done|reflexivity]|]. apply Hfin; rewrite ?Ed; done.
    + exists sa. split; [done|]. apply Hfin; try done.
      assert (dp_db s' = dp_db s) as ->; [|done]. by_run Hr. statement. by intros r d1 [-> _].
    + pose proof (tracks_delete _ _ id Ht) as Htd. pose proof (Delete_refines _ _ _ _ _ _ Ht Hr) as Hx. destruct x as [u|e].
      * eexists. split; [reflexivity|]. apply Hfin; rewrite ?Hx; done.
      * destruct Hx as [Ed|Ed]; [exists sa; split; [by right|]; apply Hfin; rewrite ?Ed; done|].
        eexists. split; [left; reflexivity|]. apply Hfin; rewrite ?Ed; done.
    + destruct (Count_refines _ _ _ _ _ _ _ Ht Hr) as [Ed Ha]. exists sa. split; [done|]. rewrite <- Ed in Ht. by apply Hfin.
    + destruct (FindByContentHash_refines _ _ _ _ _ _ Ht Hr) as [Ed Ha]. exists sa. split; [done|].
      rewrite <- Ed in Ht. by apply Hfin.
  - intros [Hs Ed]. exists (withRows (sh_born sa) (sh_live sa) (bare s')). split.
    + rewrite <- (deploys_bare _ _ Hd) at 1. by apply serve_ignores_rows.
    + apply deploys_intro. rewrite Ed. apply Hd.
Qed.

Lemma unused_tracks d s path : tracks d s -> unusedPath d path -> unused s path.
Proof. intros Ht Hf id m Hm. destruct (tr_past _ _ Ht id m Hm) as (tb & Htb & Hin). by apply (Hf tb). Qed.

(** The other services of a state that the tables stand for. *)
Lemma deploys_others c s o l h :
  deploys c s -> deploys (mkDeployed (dp_db c) o l h) (mkShared (sh_born s) (sh_live s) o l h).
Proof. intros ([H1' H2' H3' H4' H5' H6'] & _). by split. Qed.

Lemma surroundings_refine s s' sa :
  deploys s sa -> surroundingsTables s s' -> exists sa', surroundings sa sa' /\ deploys s' sa'.
Proof.
  intros Hd Hs. pose proof Hd as (Ht & Ho & Hl & Hha).
  destruct Hs as [s url|s ctx m id d Hm Hh Hfresh Hobj Hr|s url Hfresh|s key|s key Hk].
  - eexists. split; [apply (object_stored sa url)|]. unfold set_objs. rewrite Ho, Hl, Hha. by apply deploys_others.
  - destruct (Insert_refines _ _ _ _ _ _ Ht Hm Hr) as [-> ->].
    pose proof (tracks_insert _ _ m Ht) as Hti. set (id := nextId (dp_db s) MediaFiles) in *.
    exists (add_row sa id (with_id m id)). split; [|by split].
    apply (row_inserted sa id (with_id m id)); [by apply tracks_fresh| | |done].
    + by eapply unused_tracks.
    + by rewrite Ho.
  - eexists. split; [apply (object_dropped sa url); by eapply unused_tracks|]. unfold set_objs. rewrite Ho, Hl, Hha. by apply deploys_others.
  - eexists. split; [apply (hash_expires sa key)|]. unfold set_hash. rewrite Ho, Hl, Hha. by apply deploys_others.
  - eexists. split; [apply (orphan_expires sa key); by rewrite Hl|]. unfold set_locks. rewrite Ho, Hl, Hha. by apply deploys_others.
Qed.

End deployment.

Section safety.
Context `{Md5, ListCodec, MinioConfig, UuidSyntax, Collation}.

Lemma mediaProgram_newRows p : mediaProgram p -> calls newRows p.
Proof.
  intros [ctx id uid|ctx uid raw|ctx uid req].
  - unfold DeleteOwnedMedia, RequireOwnedMedia, releaseObjectLock, deleteRow, PurgeRuntimeArtifacts, InvalidateUserList. calls_go.
  - unfold IssueChallenge, FindByContentHash, ChallengeRange. calls_go.
    match goal with |- calls _ (findSource _ _ ?l) => induction l end; cbn [findSource]; calls_go.
  - unfold Prove, takeChallenge, proveLocked, SaveReference, RememberContentHash, InvalidateUserList. calls_go.
Qed.

(** What the handlers of uploads, imports and the list call, beside the programs of ObjectSafety.v. *)
Inductive serviceProgram : proc StoreE unit -> Prop :=
| runs_media p : mediaProgram p -> serviceProgram p
| runs_ingest ctx fh userID : serviceProgram (bind (IngestFile ctx fh userID) (fun _ => Ret tt))
| runs_import ctx url userID : serviceProgram (bind (IngestURL ctx url userID) (fun _ => Ret tt))
| runs_initialize ctx filename total userID : serviceProgram (bind (Initialize ctx filename total userID) (fun _ => Ret tt))
| runs_chunk ctx id idx total fh userID : serviceProgram (bind (UploadChunk ctx id idx total fh userID) (fun _ => Ret tt))
| runs_complete ctx id userID : serviceProgram (bind (Complete ctx id userID) (fun _ => Ret tt)).

Lemma mergeChunks_newRows n ctx id i acc : calls newRows (mergeChunks n ctx id i acc).
Proof. revert i acc. induction n as [|n IH]; intros i acc; cbn [mergeChunks]; [done|]. destruct (chunkObjectName id i); [|done]. calls_go. Qed.

Lemma cleanupChunks_newRows n ctx id i : calls newRows (cleanupChunks n ctx id i).
Proof. revert i. induction n as [|n IH]; intros i; cbn [cleanupChunks]; calls_go. Qed.

Lemma SaveUploadedMedia_newRows ctx filename url userID h : calls newRows (SaveUploadedMedia ctx filename url userID h).
Proof. unfold SaveUploadedMedia, removeUploadedObject, RememberContentHash, InvalidateUserList. calls_go. Qed.

Hint Resolve mergeChunks_newRows cleanupChunks_newRows SaveUploadedMedia_newRows : core.

Lemma serviceProgram_newRows p : serviceProgram p -> calls newRows p.
Proof.
  intros [p' Hp|ctx fh uid|ctx url uid|ctx filename total uid|ctx id idx total fh uid|ctx id uid]; [by apply mediaProgram_newRows|..];
    apply calls_bind; try done.
  - unfold IngestFile. calls_go; auto.
  - unfold IngestURL. calls_go; auto.
  - unfold Initialize. calls_go; auto.
  - unfold UploadChunk, requireUpload. calls_go; auto.
  - unfold Complete, completeLocked, completedUpload, RequireOwnedMedia, UploadedChunks, storeMerged, mergeInto, cleanup, requireUpload,
      releaseObjectLock. calls_go; auto.
Qed.

(** C3. What ObjectSafety.v proves over its abstract store holds over MySQL. Let [c] be a database and the services
    beside it that stand for an abstract state [s]. Start any deletions, challenges, proofs, uploads, imports
    and chunked uploads of the media services, each media call being the method of the repository run against
    the tables, any call free to fail. Then the same threads reach the same point over an abstract state that
    the new tables stand for. If the live rows of [s] had their objects and only deletions, challenges and
    proofs are started, uploads being the steps they consist of ([surroundingsTables]: the object stored, the
    row inserted, the object removed when the insert was refused), every row of media_files whose file is
    managed has its object. *)
Theorem tables_refine (starts : proc StoreE unit -> Prop) (c : deployed) (s : shared) (y : system) :
  (forall p, starts p -> serviceProgram p) -> deploys c s ->
  rtc (sys_step serveTables surroundingsTables starts) (mkSystem c []) y ->
  (exists s', rtc (sys_step serve surroundings starts) (mkSystem s []) (mkSystem s' (sys_threads y))
              /\ deploys (sys_state y) s')
  /\ ((forall p, starts p -> mediaProgram p) -> inv s ->
       forall m, m ∈ tb_media (committed (dp_db (sys_state y))) -> IsManagedFile (mf_FilePath m) = true ->
         mf_FilePath m ∈ dp_objs (sys_state y)).
Proof.
  intros Hst Hd Hr.
  destruct (sys_simulates serveTables serve surroundingsTables surroundings starts newRows deploys) with (s1 := c) (s2 := s) (y := y)
    as (s' & Hr' & Hd'); [by eapply serveTables_refines|by eapply surroundings_refine|intros p Hp; by apply serviceProgram_newRows, Hst|done|done|].
  split; [by exists s'|]. intros Hmedia Hi m Hm Hman. destruct Hd' as (Ht & <- & _).
  assert (inv s') as Hi'.
  { change (inv (sys_state (mkSystem s' (sys_threads y)))).
    eapply (sys_run_inv serve surroundings starts inv rely); [apply surroundings_rely|apply surroundings_inv| |exact Hi|exact Hr'].
    intros p i s0 Hp. by apply mediaProgram_ok, Hmedia. }
  eapply (inv_objs _ Hi'); [|by eapply tr_born|done].
  rewrite (tr_live _ _ Ht), elem_of_list_to_set. by apply list_elem_of_fmap_2.
Qed.

End safety.

(** ** The two users of ObjectSafety.v, in the tables *)

#[local] Existing Instances sampleMd5 sampleList sampleMinio sampleUuid caseFolding.

Definition twoRowTables : Gorm.tables := Gorm.mkTables [] [sharedFile 1 10; sharedFile 2 20] [] [].

Definition twoRowDb : deployed :=
  mkDeployed (Gorm.mkDatabase twoRowTables None (fun _ => 3) 0 [twoRowTables])
    {[ "http://minio:9000/media/a.mp4" ]} ∅ ∅.

Lemma twoRowDb_deploys : deploys twoRowDb twoRows.
Proof.
  split; [|done]. split; cbn.
  - done.
  - repeat constructor; set_solver.
  - set_solver.
  - intros r Hr. in_cases Hr.
  - intros id [m [[<- _]|[_ [[<- _]|[_ Hm]]%lookup_insert_Some]]%lookup_insert_Some]; [lia|lia|done].
  - intros id m Hm. exists twoRowTables. split; [apply list_elem_of_here|].
    apply lookup_insert_Some in Hm as [[_ <-]|[_ [[_ <-]|[_ Hm]]%lookup_insert_Some]]; [left|right; left|done].
Qed.

Lemma tables_refine_witness :
  rtc (sys_step serveTables surroundingsTables mediaProgram) (mkSystem twoRowDb []) (mkSystem twoRowDb [deletingNext])
  /\ (exists s', rtc (sys_step serve surroundings mediaProgram) (mkSystem twoRows []) (mkSystem s' [deletingNext]) /\ deploys twoRowDb s')
  /\ "http://minio:9000/media/a.mp4" ∈ dp_objs twoRowDb.
Proof.
  assert (rtc (sys_step serveTables surroundingsTables mediaProgram) (mkSystem twoRowDb []) (mkSystem twoRowDb [deletingNext])) as Hr.
  { eapply rtc_l; [apply sys_spawn, (runs_delete RequestContext 1 10)|].
    assert (exists k, deleting = Do (DFindByID RequestContext 1) k
                      /\ deletingNext = k (Ok (Some (sharedFile 1 10)))) as (k & Hk & Hn) by (by eexists).
    eapply rtc_l; [|apply rtc_refl]. rewrite Hn.
    apply (sys_call serveTables surroundingsTables mediaProgram twoRowDb [deleting] 0 _ (DFindByID RequestContext 1) k
             (Ok (Some (sharedFile 1 10))) twoRowDb); [by rewrite Hk|].
    split; [|done]. eapply (sruns_do _ _ _ _ _ (Ok (sharedFile 1 10))); [|constructor].
    split; [done|]. exists (sharedFile 1 10). split; [apply list_elem_of_here|done]. }
  split; [exact Hr|].
  destruct (tables_refine mediaProgram twoRowDb twoRows (mkSystem twoRowDb [deletingNext]) runs_media twoRowDb_deploys Hr)
    as [Habs Hobj].
  split; [exact Habs|].
  apply (Hobj (fun p Hp => Hp) twoRows_inv (sharedFile 2 20)); [apply list_elem_of_further, list_elem_of_here|reflexivity].
Defined.
