(* ===== verification/CheckpointTable.v ===== *)
(** * The checkpoint store over the agent_checkpoints table

    Checkpoint.v gives the database calls of [CheckpointE] an abstract meaning, a map from media id and name
    to stage and payload.  Here they are the methods of [CheckpointsRepo] (repo.go) run against the tables:
    their upserts, and the transaction of [UpsertPair], do what that meaning says, so that what Checkpoint.v
    proves holds of the table. *)

From S2P Require Import Gorm Repo CheckpointsRepo.
From S2P Require Import Prelude GoStrings Proc Errors Model GoContext TaskKeys Collation Checkpoint.
Import Gorm(database, tables, committed, pending, nextId, history, tb_checkpoints, mkDatabase, mkTables, DbE).

Local Open Scope string_scope.
Local Open Scope list_scope.
Local Open Scope Z_scope.

(** The repository method behind a call. *)
Definition tableCall (X : Type) (c : CheckpointE X) : option (proc DbE X) :=
  match c in CheckpointE X return option (proc DbE X) with
  | CpFindPayload ctx id name => Some (CheckpointsRepo.FindPayload ctx id name)
  | CpFindStage ctx id name => Some (CheckpointsRepo.FindStage ctx id name)
  | CpUpsert ctx id name stage payload => Some (CheckpointsRepo.Upsert ctx id name stage payload)
  | CpUpsertPair ctx id name stageName stage payload =>
      Some (CheckpointsRepo.UpsertPair ctx id name stageName stage payload)
  | _ => None
  end.

(** The names of the rows a call is about. *)
Definition rowNames (X : Type) (c : CheckpointE X) : list string :=
  match c with
  | CpFindPayload _ _ name | CpFindStage _ _ name | CpUpsert _ _ name _ _ => [name]
  | CpUpsertPair _ _ name stageName _ _ => [name; stageName]
  | _ => []
  end.

Definition plainName (s : string) : Prop := str_forall lower_char s = true.

(** The names of the rows the gateway reads and writes. *)
Definition ownName (n : string) : Prop :=
  n ∈ ["media:context"; "media:stage"]
  \/ exists d field, str_forall lower_hex d = true /\ field ∈ ["stage"; "result"] /\ n = "goal:" +:+ d +:+ ":" +:+ field.

(** The names of the rows of the table, by docs/architecture.md: beside those, the rows of the agent. *)
Definition documentedName (n : string) : Prop :=
  ownName n \/ n = "media:chunks"
  \/ exists d, str_forall lower_hex d = true
       /\ n ∈ ["goal:" +:+ d +:+ ":plan"; "goal:" +:+ d +:+ ":criticState"; "revision:" +:+ d].

Definition plainCall (X : Type) (c : CheckpointE X) : Prop := Forall ownName (rowNames X c).

(** The database and the Redis hashes. *)
Record backends := mkBackends { bk_db : database; bk_cache : gmap string (gmap string string) }.

(** The rows [l] are the entries of [m], the rows of the agent included. *)
Record standsFor (l : list AgentCheckpoint) (m : gmap (Z * string) (string * option string)) : Prop := mkStandsFor {
  sf_rows : forall id name sp, m !! (id, name) = Some sp <->
    exists r, r ∈ l /\ ac_MediaID r = id /\ ac_CheckpointKey r = name /\ sp = (ac_Stage r, ac_Payload r);
  sf_names : forall r, r ∈ l -> documentedName (ac_CheckpointKey r) }.

Definition stands (b : backends) (s : store) : Prop :=
  pending (bk_db b) = None /\ standsFor (tb_checkpoints (committed (bk_db b))) (st_db s) /\ st_cache s = bk_cache b.

Section table.
Context `{Collation}.

Definition serveBackends (X : Type) (c : CheckpointE X) (b : backends) (x : X) (b' : backends) : Prop :=
  match tableCall X c with
  | Some p => sruns Gorm.gorm p (bk_db b) x (bk_db b') /\ bk_cache b' = bk_cache b
  | None => exists n s', cp_service X c (mkStore ∅ (bk_cache b) n) x s' /\ bk_cache b' = st_cache s' /\ bk_db b' = bk_db b
  end.

(** *** The row of a key *)

Definition atKey (id : Z) (name : string) (r : AgentCheckpoint) : bool :=
  (ac_MediaID r =? id) && collates (ac_CheckpointKey r) name.

Lemma own_plain n : ownName n -> plainName n.
Proof.
  intros [Hn|(d & field & Hd & Hf & ->)].
  - by repeat (apply elem_of_cons in Hn as [->|Hn]; [reflexivity|]); apply elem_of_nil in Hn.
  - unfold plainName. rewrite !str_forall_app, (lower_hex_word _ Hd).
    by repeat (apply elem_of_cons in Hf as [->|Hf]; [reflexivity|]); apply elem_of_nil in Hf.
Qed.

(** A digest ends at the colon behind it. *)
Lemma hex_colon d d' x y : str_forall lower_hex d = true -> str_forall lower_hex d' = true ->
  d +:+ ":" +:+ x = d' +:+ ":" +:+ y -> x = y.
Proof.
  revert d'. induction d as [|a d IH]; intros [|a' d']; cbn; intros Hd Hd' E; injection E; intros; subst; try done.
  apply andb_prop in Hd as [_ Hd], Hd' as [_ Hd']. by eapply IH.
Qed.

Lemma critic_lower d : str_forall lower_hex d = true ->
  collates ("goal:" +:+ d +:+ ":criticState") ("goal:" +:+ d +:+ ":criticstate") = true.
Proof.
  intros Hd. assert (forall t, str_forall word_char t = true -> str_forall word_char ("goal:" +:+ d +:+ ":" +:+ t) = true) as Hw.
  { intros t Ht. rewrite !str_forall_app, Ht.
    rewrite (str_forall_weaken lower_char word_char d); [done| |by apply lower_hex_word].
    intros c Hc. by apply andb_prop in Hc as [? _]. }
  rewrite collates_word by (by apply (Hw "criticState") || by apply (Hw "criticstate")).
  assert (forall t, str_forall is_ascii t = true -> str_forall is_ascii ("goal:" +:+ d +:+ t) = true) as Ha.
  { intros t Ht. rewrite !str_forall_app, Ht.
    rewrite (str_forall_weaken lower_char is_ascii d); [done| |by apply lower_hex_word].
    intros c Hc. by apply lower_char_fixed, andb_prop in Hc as [? _]. }
  rewrite !ToLower_ascii by (by apply Ha). rewrite !str_map_app. apply String.eqb_refl.
Qed.

(** No row of the table is taken for one of the gateway's but under its own name. *)
Lemma documented_apart k n : documentedName k -> ownName n -> collates k n = true -> k = n.
Proof.
  intros Hk Hn Hc. assert (plainName k -> k = n) as Hplain by (intros Hp; by apply collates_exact; [|apply own_plain|]).
  destruct Hk as [Hk|[->|(d & Hd & Hk)]]; [by apply Hplain, own_plain|by apply Hplain|].
  apply elem_of_cons in Hk as [->|Hk]; [apply Hplain; unfold plainName; by rewrite !str_forall_app, (lower_hex_word _ Hd)|].
  apply elem_of_cons in Hk as [->|Hk].
  2: { apply list_elem_of_singleton in Hk as ->. apply Hplain. unfold plainName. by rewrite !str_forall_app, (lower_hex_word _ Hd). }
  exfalso. assert ("goal:" +:+ d +:+ ":criticstate" = n) as E.
  { apply collates_exact; [|by apply own_plain|].
    - by rewrite !str_forall_app, (lower_hex_word _ Hd).
    - eapply collates_trans; [|exact Hc]. rewrite collates_sym. by apply critic_lower. }
  destruct Hn as [Hn|(d' & field & Hd' & Hf & Ef)].
  - subst n. by repeat (apply elem_of_cons in Hn as [?|Hn]; [done|]); apply elem_of_nil in Hn.
  - rewrite Ef in E. apply (str_app_inj_l "goal:") in E. apply (hex_colon d d' "criticstate" field) in E; [|done..].
    subst field. by repeat (apply elem_of_cons in Hf as [?|Hf]; [done|]); apply elem_of_nil in Hf.
Qed.

Lemma atKey_own id name r : ownName name -> documentedName (ac_CheckpointKey r) ->
  atKey id name r = true <-> ac_MediaID r = id /\ ac_CheckpointKey r = name.
Proof.
  intros Hn Hr. unfold atKey. rewrite andb_true_iff, Z.eqb_eq. split; intros [-> Hc]; (split; [done|]).
  - by apply documented_apart.
  - rewrite Hc. apply collates_refl.
Qed.

(** The rows after an upsert. *)
Definition upserted (now : Z) (id : Z) (name stage : string) (payload : option string)
    (l : list AgentCheckpoint) : list AgentCheckpoint :=
  if existsb (atKey id name) l
  then (fun e => if atKey id name e then mkAgentCheckpoint (ac_MediaID e) (ac_CheckpointKey e) stage payload now else e) <$> l
  else l ++ [mkAgentCheckpoint id name stage payload now].

Lemma upserted_standsFor now id name stage payload l m :
  ownName name -> standsFor l m -> standsFor (upserted now id name stage payload l) (<[(id, name) := (stage, payload)]> m).
Proof.
  intros Hn [Hr Hp]. unfold upserted. destruct (existsb (atKey id name) l) eqn:Ex.
  - apply existsb_exists in Ex as (e0 & He0%list_elem_of_In & Hk0). apply atKey_own in Hk0 as [Hi0 Hk0]; [|done|by apply Hp].
    split.
    + intros id' name' sp. rewrite lookup_insert_Some, Hr. split.
      * intros [[[= <- <-] <-]|[Hne (r & Hin & Hri & Hrk & ->)]].
        -- eexists. split; [apply list_elem_of_fmap_2, He0|]. cbv beta.
           assert (atKey id name e0 = true) as -> by (apply atKey_own; auto). done.
        -- exists r. split; [|done]. apply list_elem_of_fmap. exists r. split; [|done].
           destruct (atKey id name r) eqn:Ek; [|done]. apply atKey_own in Ek as [? ?]; [|done|by apply Hp]. congruence.
      * intros (r & (e & -> & He)%list_elem_of_fmap & Hri & Hrk & ->). destruct (atKey id name e) eqn:Ek.
        -- apply atKey_own in Ek as [? ?]; [|done|by apply Hp]. left. cbn in *. split; [congruence|done].
        -- right. split; [|eauto 6]. intros [= E1 E2]. assert (atKey id name e = true); [|congruence].
           apply (proj2 (atKey_own id name e Hn (Hp e He))). by rewrite E1, E2.
    + intros r (e & -> & He)%list_elem_of_fmap. destruct (atKey id name e); by apply (Hp e).
  - assert (forall r, r ∈ l -> ~ (ac_MediaID r = id /\ ac_CheckpointKey r = name)) as Hno.
    { intros r Hin Hk. apply not_true_iff_false in Ex. apply Ex, existsb_exists. exists r. split; [by apply list_elem_of_In|].
      apply atKey_own; auto. }
    split.
    + intros id' name' sp. rewrite lookup_insert_Some, Hr. split.
      * intros [[[= <- <-] <-]|[Hne (r & Hin & Hrest)]].
        -- eexists. split; [apply elem_of_app; right; apply list_elem_of_here|done].
        -- exists r. split; [by apply elem_of_app; left|done].
      * intros (r & [Hin|Hin]%elem_of_app & Hri & Hrk & ->).
        -- right. split; [|eauto 6]. intros [= E1 E2]. apply (Hno r Hin). split; congruence.
        -- apply list_elem_of_singleton in Hin as ->. cbn in *. left. by subst.
    + intros r [Hin|Hin]%elem_of_app; [by apply Hp|]. apply list_elem_of_singleton in Hin as ->. by left.
Qed.

(** *** Writes *)

Lemma assign_stage now stage payload (r : AgentCheckpoint) :
  Gorm.assign Gorm.Checkpoints [("stage", Gorm.VStr stage); ("payload", Gorm.VOpt payload); ("updated_at", Gorm.VTime now)] r
  = mkAgentCheckpoint (ac_MediaID r) (ac_CheckpointKey r) stage payload now.
Proof. by destruct payload. Qed.

(** The tables an upsert leaves. *)
Definition afterUpsert (d : database) (id : Z) (name stage : string) (payload : option string) : tables :=
  Gorm.put Gorm.Checkpoints (upserted (Gorm.now d) id name stage payload (tb_checkpoints (Gorm.view d))) (Gorm.view d).

Lemma upsert_swp ctx id name stage payload d (Q : res unit -> database -> Prop) :
  Q (Ok tt) (Gorm.write d (afterUpsert d id name stage payload)) ->
  (forall e d', d' ∈ [d; Gorm.write d (afterUpsert d id name stage payload); Gorm.abandon d] -> Q (Err e) d') ->
  swp Gorm.gorm (CheckpointsRepo.upsert ctx id name stage payload) d Q.
Proof.
  intros HO HE. unfold CheckpointsRepo.upsert. cbn [swp Gorm.gorm]. intros x d'.
  match goal with |- context [Gorm.stored ?t ?q d ?r] => set (r' := Gorm.stored t q d r) end.
  assert (r' = mkAgentCheckpoint id name stage payload (Gorm.now d)) as Hr' by (by destruct payload).
  match goal with |- context [Gorm.inserted ?t ?q d ?r] => assert (Gorm.inserted t q d r
    = Some (afterUpsert d id name stage payload)) as -> end.
  { unfold Gorm.inserted, afterUpsert, upserted. rewrite Hr'. cbn [Gorm.rows Gorm.q_conflict Gorm.OnConflict].
    assert (forall e, Gorm.sameKey Gorm.Checkpoints (mkAgentCheckpoint id name stage payload (Gorm.now d)) e = atKey id name e) as Hk.
    { intros e. unfold atKey. cbn. by rewrite Z.eqb_sym, collates_sym. }
    assert (forall l, existsb (Gorm.sameKey Gorm.Checkpoints (mkAgentCheckpoint id name stage payload (Gorm.now d))) l
      = existsb (atKey id name) l) as -> by (intros l; induction l as [|e l IH]; cbn [existsb]; by rewrite ?Hk, ?IH).
    destruct (existsb _ _); [|done].
    do 2 f_equal. apply list_fmap_ext. intros _ e _. rewrite Hk. destruct (atKey id name e); [|done].
    apply assign_stage. }
  assert (forall d0, Gorm.useId Gorm.Checkpoints (Gorm.toInt (Gorm.column Gorm.Checkpoints r' "id")) d0 = d0) as ->.
  { intros []. reflexivity. }
  unfold Gorm.changes. destruct x as [a|e]; cbn [swp Repo.onlyError].
  - by intros [_ ->].
  - intros [_ Hd]. by apply HE.
Qed.

(** Both rows of a pair. *)
Definition afterPair (d : database) (id : Z) (name stageName stage payload : string) : tables :=
  Gorm.put Gorm.Checkpoints
    (upserted (Gorm.now d) id stageName stage None
      (upserted (Gorm.now d) id name stage (Some payload) (tb_checkpoints (committed d)))) (committed d).

Definition inTx (d : database) (tb : tables) : database := mkDatabase (committed d) (Some tb) (nextId d) (Gorm.now d) (history d).

Lemma write_inTx d tb tb' : Gorm.write (inTx d tb) tb' = inTx d tb'.
Proof. done. Qed.

Lemma abandon_inTx d tb : pending d = None -> Gorm.abandon (inTx d tb) = d.
Proof. destruct d. cbn. by intros ->. Qed.

Lemma commit_inTx d tb x d' : pending d = None -> Gorm.gorm _ Gorm.Commit (inTx d tb) x d' ->
  match x with Ok _ => d' = Gorm.write d tb | Err _ => d' = d \/ d' = Gorm.write d tb end.
Proof.
  intros Ho. cbn [Gorm.gorm]. unfold Gorm.changes. rewrite abandon_inTx, Gorm.write_open by done.
  destruct x as [u|e]; [by intros [_ ->]|]. intros [_ Hd]. rewrite !elem_of_cons, elem_of_nil in Hd.
  destruct Hd as [->|[->|[->|[]]]]; [by left|by right|left]. destruct d. cbn in *. by subst.
Qed.

(** A failed upsert inside the transaction, rolled back. *)
Lemma rollback_upsert d tb tb' d' : pending d = None ->
  d' ∈ [inTx d tb; inTx d tb'; Gorm.abandon (inTx d tb)] -> Gorm.abandon d' = d.
Proof.
  intros Ho Hd. rewrite !elem_of_cons, elem_of_nil in Hd. destruct Hd as [->|[->|[->|[]]]]; by apply (abandon_inTx d).
Qed.

Lemma UpsertPair_swp ctx id name stageName stage payload d :
  pending d = None ->
  swp Gorm.gorm (CheckpointsRepo.UpsertPair ctx id name stageName stage payload) d (fun x d' =>
    let applied := Gorm.write d (afterPair d id name stageName stage payload) in
    match x with Ok _ => d' = applied | Err _ => d' = d \/ d' = applied end).
Proof.
  intros Ho. unfold CheckpointsRepo.UpsertPair, CheckpointsRepo.Transaction, bind_ok, call.
  cbn [bind swp Gorm.gorm]. intros [[]|e] d1; [|intros [_ ->]; cbn [swp]; auto].
  intros ->. change (mkDatabase _ _ _ _ _) with (inTx d (committed d)).
  apply swp_bind, swp_bind. apply upsert_swp; rewrite write_inTx.
  - apply upsert_swp; rewrite write_inTx.
    + intros x d2 Hc. apply commit_inTx in Hc; [|done]. exact Hc.
    + intros e d' Hd. cbn [swp]. intros _ d2 ->. left. by eapply rollback_upsert.
  - intros e d' Hd. cbn [swp]. intros _ d2 ->. left. by eapply rollback_upsert.
Qed.

(** *** Queries *)

Lemma satisfies_keyed id name r q :
  Gorm.q_where q = [] -> Gorm.satisfies Gorm.Checkpoints (CheckpointsRepo.keyed id name q) r = atKey id name r.
Proof. intros Hq. unfold Gorm.satisfies, CheckpointsRepo.keyed. cbn. rewrite Hq. cbn. by rewrite andb_true_r. Qed.

(** At most one row is asked for, and it is the one of the key. *)
Lemma keyed_delivers id name q l m out (f : AgentCheckpoint -> string + option string) (g : string * option string -> string + option string) :
  Gorm.q_where q = [] -> ownName name -> standsFor l m ->
  (forall r, f (Gorm.project Gorm.Checkpoints (CheckpointsRepo.keyed id name q) r) = g (ac_Stage r, ac_Payload r)) ->
  Gorm.delivers Gorm.Checkpoints (CheckpointsRepo.keyed id name q)
    (List.filter (Gorm.satisfies Gorm.Checkpoints (CheckpointsRepo.keyed id name q)) l) out ->
  f <$> head out = g <$> m !! (id, name).
Proof.
  intros Hq Hn [Hr Hp] Hfg (l' & Hperm & _ & ->). cbn [Gorm.q_limit Gorm.Limit CheckpointsRepo.keyed].
  assert (forall r, r ∈ l' <-> r ∈ l /\ ac_MediaID r = id /\ ac_CheckpointKey r = name) as Hin.
  { intros r. etrans; [apply (elem_of_Permutation_proper r _ _ Hperm)|]. rewrite Gorm.elem_of_filterb, satisfies_keyed by done.
    split; intros [Hl Hk]; (split; [done|]); apply (atKey_own id name r); auto. }
  destruct l' as [|r l']; cbn [take fmap list_fmap head].
  - destruct (m !! (id, name)) as [sp|] eqn:Em; [|done]. apply Hr in Em as (r & Hl & Hi & Hk & _).
    assert (r ∈ @nil AgentCheckpoint) as Hnil by (apply Hin; auto). by apply elem_of_nil in Hnil.
  - assert (r ∈ l /\ ac_MediaID r = id /\ ac_CheckpointKey r = name) as (Hl & Hi & Hk) by (apply Hin, list_elem_of_here).
    assert (m !! (id, name) = Some (ac_Stage r, ac_Payload r)) as -> by (apply Hr; eauto 6).
    cbn. f_equal. apply Hfg.
Qed.

(** *** Calls *)

Definition inStore (m : gmap (Z * string) (string * option string)) (n : nat) (s : store) : store := mkStore m (st_cache s) n.

Lemma writes_inStore m n partial applied s x s' :
  writes partial applied s x s' ->
  exists n', writes (inStore m n <$> partial) (inStore m n applied) (inStore m n s) x (inStore m n' s').
Proof.
  intros [[-> ->]|(e & s1 & -> & Hin & ->)]; [exists n; by left|]. exists (S n). right.
  exists e, (inStore m n s1). split; [done|]. split; [|done]. apply (list_elem_of_fmap_2 (inStore m n)) in Hin. exact Hin.
Qed.

(** The cache calls neither read nor write the table. *)
Lemma cache_ignores_table X (c : CheckpointE X) s x s' m n :
  tableCall X c = None -> cp_service X c s x s' -> exists n', cp_service X c (inStore m n s) x (inStore m n' s').
Proof.
  assert (forall A (v : A) s x s', reads v s x s' -> exists n', reads v (inStore m n s) x (inStore m n' s')) as Hr.
  { intros A v s0 x0 s1 [[-> ->]|(e & -> & ->)]; [exists n; by left|exists (S n); right; by exists e]. }
  destruct c; cbn [tableCall cp_service]; intros Hn Hs; try done; try (by apply Hr in Hs);
    apply (writes_inStore m n) in Hs as [n' Hs]; exists n'; try exact Hs.
  rewrite <- list_fmap_compose in Hs. exact Hs.
Qed.

(** A row for both abstract answers of a read. *)
Lemma read_stands {A} (v : A) (x : res A) b b' s :
  stands b s -> bk_db b' = bk_db b -> bk_cache b' = bk_cache b -> (forall a, x = Ok a -> a = v) ->
  exists s', reads v s x s' /\ stands b' s'.
Proof.
  intros Hs Hd Hc Hx. destruct b, b'. cbn in *. subst. destruct x as [a|e].
  - exists s. split; [left; by rewrite (Hx a)|done].
  - exists (fault s). split; [right; eauto|]. exact Hs.
Qed.

(** The database after a write is the one before, or the one after it took effect. *)
Lemma write_stands (x : res unit) b b' s tb (applied : store) :
  stands b s -> bk_cache b' = bk_cache b -> st_cache applied = st_cache s ->
  standsFor (tb_checkpoints tb) (st_db applied) ->
  match x with
  | Ok _ => bk_db b' = Gorm.write (bk_db b) tb
  | Err _ => bk_db b' = bk_db b \/ bk_db b' = Gorm.write (bk_db b) tb
  end -> exists s', writes [] applied s x s' /\ stands b' s'.
Proof.
  intros Hs Hc Ha Htb Hx. assert (stands (mkBackends (Gorm.write (bk_db b) tb) (bk_cache b)) applied) as Happ.
  { destruct Hs as (Ho & _ & Hsc). unfold stands. cbn [bk_db bk_cache]. rewrite Gorm.write_open by done. cbn.
    split; [done|]. split; [done|congruence]. }
  destruct b' as [d' c']. cbn in Hc, Hx. subst c'. destruct x as [[]|e].
  - subst d'. exists applied. split; [by left|done].
  - destruct Hx as [->| ->].
    + exists (fault s). split; [right; exists e, s; split_and!; [done|left|done]|]. by destruct b.
    + exists (fault applied). split; [right; exists e, applied; split_and!; [done|right; left|done]|]. exact Happ.
Qed.

Lemma serveBackends_refines X (c : CheckpointE X) b x b' s :
  plainCall X c -> stands b s -> serveBackends X c b x b' -> exists s', cp_service X c s x s' /\ stands b' s'.
Proof.
  intros Hc Hs. unfold serveBackends. destruct (tableCall X c) as [p|] eqn:Ep.
  - intros [Hr Hca]. pose proof Hs as (Ho & Hsf & _).
    assert (Gorm.view (bk_db b) = committed (bk_db b)) as Hv by (unfold Gorm.view; by rewrite Ho).
    destruct c; try done; injection Ep as <-; cbn [cp_service].
    + assert (bk_db b' = bk_db b /\ forall a, x = Ok a -> a = match st_db s !! (mediaID, name) with Some (_, p) => p | None => None end)
        as [? ?]; [|by eapply read_stands]. by_run Hr.
      unfold CheckpointsRepo.FindPayload, bind_ok, call. cbn [bind swp Gorm.gorm]. unfold Gorm.reads. rewrite Hv.
      intros r d1 [-> Hout]. destruct r as [out|e]; [|by cbn].
      apply (keyed_delivers _ _ _ _ (st_db s) out (fun r => inr (ac_Payload r)) (fun sp => inr sp.2)) in Hout;
        [|done|exact (proj1 (Forall_singleton _ _) Hc)|done|by intros [? ? ? [?|] ?]].
      destruct out as [|r out], (st_db s !! (mediaID, name)) as [[st pl]|]; cbn in Hout; try done; cbn; (split; [done|]).
      * by intros a [= <-].
      * injection Hout as ->. by intros a [= <-].
    + assert (bk_db b' = bk_db b /\ forall a, x = Ok a -> a = match st_db s !! (mediaID, name) with Some (stage, _) => Some stage | None => None end)
        as [? ?]; [|by eapply read_stands]. by_run Hr.
      unfold CheckpointsRepo.FindStage, bind_ok, call. cbn [bind swp Gorm.gorm]. unfold Gorm.reads. rewrite Hv.
      intros r d1 [-> Hout]. destruct r as [out|e]; [|by cbn].
      apply (keyed_delivers _ _ _ _ (st_db s) out (fun r => inl (ac_Stage r)) (fun sp => inl sp.1)) in Hout;
        [|done|exact (proj1 (Forall_singleton _ _) Hc)|done|by intros []].
      destruct out as [|r out], (st_db s !! (mediaID, name)) as [[st pl]|]; cbn in Hout; try done; cbn; (split; [done|]).
      * by intros a [= <-].
      * injection Hout as ->. by intros a [= <-].
    + eapply (write_stands x b b' s (afterUpsert (bk_db b) mediaID name stage payload)); [done|done|done| |].
      * unfold afterUpsert. rewrite Hv. apply upserted_standsFor; [exact (proj1 (Forall_singleton _ _) Hc)|done].
      * by_run Hr. apply upsert_swp; [done|]. intros e d' Hd. rewrite !elem_of_cons, elem_of_nil in Hd.
        destruct Hd as [->|[->|[->|[]]]]; [by left|by right|left]. destruct (bk_db b). cbn in *. by subst.
    + apply Forall_cons in Hc as [Hc1 Hc2]. apply (proj1 (Forall_singleton _ _)) in Hc2.
      eapply (write_stands x b b' s (afterPair (bk_db b) mediaID name stageName stage payload)); [done|done|done| |].
      * apply upserted_standsFor; [exact Hc2|]. by apply upserted_standsFor; [exact Hc1|].
      * by_run Hr. by apply UpsertPair_swp.
  - intros (n & s1 & Hcp & Hca & Hdb). destruct (cache_ignores_table X c _ x s1 (st_db s) (st_faults s) Ep Hcp) as [n' Hcp'].
    exists (inStore (st_db s) n' s1). destruct Hs as (Ho & Hsf & Hsc). split.
    + unfold inStore at 1 in Hcp'. cbn in Hcp'. rewrite <- Hsc in Hcp'. by destruct s.
    + unfold stands. rewrite Hdb. by split_and!.
Qed.

(** C9. A pair is written whole or not at all. Run [UpsertPair] outside a transaction: it never stops half way,
    whatever fails. When it reports success both rows are there; when it reports an error either nothing
    changed or both rows are there (the reply to the commit was lost). No other connection ever sees one
    row without the other: the only new state it can have seen is the one with both. *)
Theorem UpsertPair_atomic (ctx : Context) (id : Z) (name stageName stage payload : string) (d : database) :
  pending d = None ->
  swp Gorm.gorm (CheckpointsRepo.UpsertPair ctx id name stageName stage payload) d (fun x d' =>
    let both := upserted (Gorm.now d) id stageName stage None
                  (upserted (Gorm.now d) id name stage (Some payload) (tb_checkpoints (committed d))) in
    pending d' = None
    /\ (d' = d /\ x <> Ok tt \/ tb_checkpoints (committed d') = both /\ history d' = committed d' :: history d)).
Proof.
  intros Ho. eapply swp_mono; [by apply UpsertPair_swp|]. cbv zeta beta. rewrite Gorm.write_open by done.
  intros [[]|e] d' Hd; [subst; cbn; auto|]. destruct Hd as [->| ->]; [|cbn; auto]. split; [done|]. left. by split.
Qed.

End table.

Section programs.
Context `{Collation, Sha256, ContextCodec}.

(** Programs made of the operations of the checkpoint store. *)
Inductive storeProgram : forall A, proc CheckpointE A -> Prop :=
| op_LoadContext ctx id : storeProgram _ (LoadContext ctx id)
| op_SaveContext ctx id vc : storeProgram _ (SaveContext ctx id vc)
| op_LoadStage ctx id goal mode : storeProgram _ (LoadStage ctx id goal mode)
| op_SaveStage ctx id goal mode stage : storeProgram _ (SaveStage ctx id goal mode stage)
| op_SaveFailure ctx id goal mode stage e : storeProgram _ (SaveFailure ctx id goal mode stage e)
| op_HasResult ctx id goal mode : storeProgram _ (HasResult ctx id goal mode)
| op_Ret A (a : A) : storeProgram _ (Ret a)
| op_bind A B (p : proc CheckpointE A) (f : A -> proc CheckpointE B) :
    storeProgram A p -> (forall a, storeProgram B (f a)) -> storeProgram B (bind p f).

(** SHA-256 digests are written in lower-case hexadecimal. *)
Hypothesis digest_hex : forall s, str_forall lower_hex (sha256Hex s) = true.

Lemma goalCheckpoint_own goal mode field name :
  field ∈ ["stage"; "result"] -> goalCheckpoint goal mode field = Ok name -> ownName name.
Proof.
  intros Hf. unfold goalCheckpoint, GoalDigest. intros Hn.
  assert (exists v, name = "goal:" +:+ sha256Hex v +:+ ":" +:+ field) as [v ->].
  { repeat case_match; simplify_eq; eauto. }
  right. exists (sha256Hex v), field. by split_and!.
Qed.

Lemma storeProgram_own A (p : proc CheckpointE A) : storeProgram A p -> calls plainCall p.
Proof.
  assert ("stage" ∈ ["stage"; "result"] /\ "result" ∈ ["stage"; "result"]) as [Hst Hre] by (split; [left|right; left]).
  assert (ownName "media:context" /\ ownName "media:stage") as [Hmc Hms] by (split; left; [left|right; left]).
  assert (forall X (c : CheckpointE X), rowNames X c = [] -> plainCall X c) as Hcache by (unfold plainCall; intros X c ->; constructor).
  induction 1 as [ctx id|ctx id vc|ctx id goal mode|ctx id goal mode stage|ctx id goal mode stage e|ctx id goal mode|A a|A B p f Hp IHp Hf IHf];
    [| | | | | |done|by apply calls_bind];
    unfold LoadContext, SaveContext, LoadStage, SaveStage, SaveFailure, HasResult, loadContextDB, loadStageDB, cacheField,
      cacheStage, rememberGoalKey;
    try (destruct (GoalKey id goal mode); [|done]);
    try match goal with |- context [goalCheckpoint goal mode ?f] =>
      destruct (goalCheckpoint goal mode f) as [name|] eqn:En; [|done]; apply goalCheckpoint_own in En; [|done] end;
    calls_go; unfold plainCall; cbn [rowNames]; repeat (apply Forall_cons_2; [assumption|]); apply Forall_nil_2.
Qed.

(** C4. What Checkpoint.v proves holds of MySQL and Redis. Take any program made of the operations of the
    checkpoint store, run with its database calls done by the repository against the tables (a lookup by key
    under the collation, INSERT ... ON DUPLICATE KEY UPDATE, a transaction for the pair) and its cache calls
    by Redis, any call free to fail; the table may hold any rows that the documentation gives it, those of the
    agent included. Whatever it answers it can also answer over the abstract store, a map
    from media id and name to stage and payload, and the tables it leaves stand for that store. *)
Theorem checkpoints_refine A (p : proc CheckpointE A) (b b' : backends) (s : store) (x : A) :
  storeProgram A p -> stands b s -> sruns serveBackends p b x b' ->
  exists s', sruns cp_service p s x s' /\ stands b' s'.
Proof.
  intros Hp Hs Hr. eapply (sruns_refines serveBackends cp_service plainCall stands); [|by apply storeProgram_own|done|done].
  intros X c b1 y b1' s1 Hc Hs1. by apply serveBackends_refines.
Qed.

End programs.

(** ** A stage saved in an empty table *)

#[local] Existing Instance caseFolding.
#[local] Instance sampleDigest : Sha256 := fun _ => "0a".
#[local] Instance sampleCodec : ContextCodec := {
  marshalContext := fun _ => Ok "{}"; unmarshalContext := fun _ => Ok (mkContext "" "" []) }.

Definition emptyTables : tables := mkTables [] [] [] [].
Definition emptyBackends : backends := mkBackends (mkDatabase emptyTables None (fun _ => 1) 0 [emptyTables]) ∅.

(** A table in which the agent has left its rows. *)
Definition criticRow : AgentCheckpoint := mkAgentCheckpoint 7 "goal:0a:criticState" "CRITIC_PASSED" (Some "{}") 0.
Definition agentTables : tables := mkTables [] [] [] [criticRow].
Definition agentBackends : backends := mkBackends (mkDatabase agentTables None (fun _ => 1) 0 [agentTables]) ∅.
Definition agentStore : store := mkStore {[ (7, "goal:0a:criticState") := ("CRITIC_PASSED", Some "{}") ]} ∅ 0.

Definition savedTables : tables := mkTables [] [] [] [criticRow; mkAgentCheckpoint 7 "goal:0a:stage" StageFailed None 0].
Definition savedBackends : backends :=
  mkBackends (mkDatabase savedTables None (fun _ => 1) 0 [savedTables; agentTables]) ∅.

Lemma agentBackends_stand : stands agentBackends agentStore.
Proof.
  split; [done|]. split; [|done]. split; cbn.
  - intros id name sp. rewrite lookup_singleton_Some. split.
    + intros [[= <- <-] <-]. exists criticRow. split; [apply list_elem_of_here|done].
    + intros (r & ->%list_elem_of_singleton & <- & <- & ->). done.
  - intros r ->%list_elem_of_singleton. right; right. exists "0a". split; [done|]. right; left.
Qed.

Definition saving : proc CheckpointE (res unit) := SaveStage Background 7 "notes" "" StageFailed.

(** The row is stored; Redis refuses the cached stage, its removal, and the index of the goal. *)
Lemma saving_run : exists c', sruns serveBackends saving agentBackends (Ok tt) (mkBackends (bk_db savedBackends) c').
Proof.
  assert (forall X (c : CheckpointE (res X)) e b, tableCall _ c = None -> cp_service _ c (mkStore ∅ (bk_cache b) 0) (Err e) (fault (mkStore ∅ (bk_cache b) 0)) ->
    serveBackends _ c b (Err e) b) as Hdown.
  { intros X c e b Hn Hc. unfold serveBackends. rewrite Hn. by exists 0%nat, (fault (mkStore ∅ (bk_cache b) 0)). }
  assert (forall partial applied s, writes partial applied s (Err (OtherErr "down" None None)) (fault s)) as Hw.
  { intros partial applied s. right. exists (OtherErr "down" None None), s. split; [done|]. split; [left|done]. }
  exists ∅. unfold saving, SaveStage. cbn [GoalKey goalCheckpoint].
  eapply (sruns_do _ _ _ _ _ (Ok tt) savedBackends).
  { split; [|done]. eapply (sruns_do _ _ _ _ _ (Ok (mkAgentCheckpoint 7 "goal:0a:stage" StageFailed None 0))); [|constructor].
    by split. }
  eapply (sruns_do _ _ _ _ _ (Err (OtherErr "down" None None)) savedBackends); [apply Hdown; [done|apply Hw]|].
  eapply (sruns_do _ _ _ _ _ (Err (OtherErr "down" None None)) savedBackends); [apply Hdown; [done|apply Hw]|].
  eapply (sruns_do _ _ _ _ _ (Err (OtherErr "down" None None)) savedBackends); [apply Hdown; [done|apply Hw]|]. constructor.
Qed.

Lemma checkpoints_refine_witness :
  exists c' s', sruns cp_service saving agentStore (Ok tt) s' /\ stands (mkBackends (bk_db savedBackends) c') s'.
Proof.
  destruct saving_run as [c' Hr]. assert (forall s, str_forall lower_hex (sha256Hex s) = true) as Hhex by (intros; reflexivity).
  destruct (checkpoints_refine Hhex _ saving agentBackends (mkBackends (bk_db savedBackends) c') agentStore (Ok tt)
    (op_SaveStage _ _ _ _ _) agentBackends_stand Hr) as (s' & H1 & H2).
  exists c', s'. by split.
Defined.

Lemma UpsertPair_atomic_witness :
  pending (bk_db emptyBackends) = None
  /\ swp Gorm.gorm (CheckpointsRepo.UpsertPair Background 7 "media:context" "media:stage" StageFailed "{}") (bk_db emptyBackends)
      (fun x d' => pending d' = None
        /\ (d' = bk_db emptyBackends /\ x <> Ok tt
            \/ tb_checkpoints (committed d') = [mkAgentCheckpoint 7 "media:context" StageFailed (Some "{}") 0;
                                                mkAgentCheckpoint 7 "media:stage" StageFailed None 0]
               /\ history d' = committed d' :: history (bk_db emptyBackends))).
Proof.
  split; [reflexivity|].
  eapply swp_mono; [apply (UpsertPair_atomic Background 7 "media:context" "media:stage" StageFailed "{}" (bk_db emptyBackends) eq_refl)|].
  intros x d' H. cbv zeta in H. match type of H with context [upserted ?n ?i ?k ?s ?p ?l] =>
    let v := eval vm_compute in (upserted n i k s p l) in
    replace (upserted n i k s p l) with v in H by (vm_compute; reflexivity) end. exact H.
Defined.
