(* ===== verification/ChunkStore.v ===== *)
(** * What a chunked upload stores

    The programs of chunk.go against Redis, the object store, temporary files and the media table as one
    state [chunks_state].  [holds_up] says what the calls do: a read that answers answers with what is
    there; a write that reports an error may or may not have taken effect. *)

From S2P Require Import Prelude GoStrings Proc Errors Model GoContext TaskKeys Store Media Upload.

Local Open Scope string_scope.
Local Open Scope list_scope.
Local Open Scope Z_scope.

Record chunks_state := mkChunks {
  cs_meta : gmap string (gmap string string);   (* Redis hashes *)
  cs_parts : gmap string (gset string);         (* Redis sets *)
  cs_marks : gmap string string;                (* Redis strings *)
  cs_objs : gmap string string;                 (* part objects, by name *)
  cs_tmp : gmap string string;                  (* temporary files *)
  cs_files : gmap string string;                (* stored media files, by URL *)
  cs_rows : gmap Z MediaFile }.                 (* the media table *)

Definition with_meta s v := mkChunks v (cs_parts s) (cs_marks s) (cs_objs s) (cs_tmp s) (cs_files s) (cs_rows s).
Definition with_parts s v := mkChunks (cs_meta s) v (cs_marks s) (cs_objs s) (cs_tmp s) (cs_files s) (cs_rows s).
Definition with_marks s v := mkChunks (cs_meta s) (cs_parts s) v (cs_objs s) (cs_tmp s) (cs_files s) (cs_rows s).
Definition with_objs s v := mkChunks (cs_meta s) (cs_parts s) (cs_marks s) v (cs_tmp s) (cs_files s) (cs_rows s).
Definition with_tmp s v := mkChunks (cs_meta s) (cs_parts s) (cs_marks s) (cs_objs s) v (cs_files s) (cs_rows s).
Definition with_files s v := mkChunks (cs_meta s) (cs_parts s) (cs_marks s) (cs_objs s) (cs_tmp s) v (cs_rows s).
Definition with_rows s v := mkChunks (cs_meta s) (cs_parts s) (cs_marks s) (cs_objs s) (cs_tmp s) (cs_files s) v.

Definition parts_of (s : chunks_state) (key : string) : gset string := default ∅ (cs_parts s !! key).

(** A read, a write without result. *)
Definition answers_with {A} (P : A -> Prop) (s : chunks_state) (x : res A) (s' : chunks_state) : Prop :=
  s' = s /\ match x with Ok a => P a | Err _ => True end.

Definition applies (t s : chunks_state) (x : res unit) (s' : chunks_state) : Prop :=
  match x with Ok _ => s' = t | Err _ => s' = t \/ s' = s end.

Lemma applies_cases t s x s' : applies t s x s' -> s' = t \/ s' = s.
Proof. destruct x; simpl; auto. Qed.

Definition remove_keys (s : chunks_state) (keys : list string) : chunks_state :=
  with_marks (with_parts (with_meta s (foldr delete (cs_meta s) keys)) (foldr delete (cs_parts s) keys))
    (foldr delete (cs_marks s) keys).

Definition holds_up (X : Type) (c : StoreE X) : chunks_state -> X -> chunks_state -> Prop :=
  match c in StoreE X return chunks_state -> X -> chunks_state -> Prop with
  | SHSetExpire _ key fields _ => fun s =>
      applies (with_meta s (<[key := fold_left (fun h '(f, v) => <[f := v]> h) fields
                                       (default ∅ (cs_meta s !! key))]> (cs_meta s))) s
  | SHGetAll _ key => fun s => answers_with (fun h => h = default ∅ (cs_meta s !! key)) s
  | SMembers _ key => fun s => answers_with (fun l => NoDup l /\ forall m, m ∈ l <-> m ∈ parts_of s key) s
  | SAddPart _ key m _ _ => fun s => applies (with_parts s (<[key := {[ m ]} ∪ parts_of s key]> (cs_parts s))) s
  | SGet _ key => fun s => answers_with (fun v => v = cs_marks s !! key) s
  | SSet _ key v _ => fun s => applies (with_marks s (<[key := v]> (cs_marks s))) s
  | SDel _ keys => fun s => applies (remove_keys s keys) s
  | MUploadObject _ name data n _ => fun s x s' =>
      let t := with_objs s (<[name := str_take (Z.to_nat n) (rd_data data)]> (cs_objs s)) in
      match x with Ok _ => s' = t | Err _ => s' = t \/ s' = s end
  | MCopyObjectTo _ name => fun s => answers_with (fun data => cs_objs s !! name = Some data) s
  | MRemoveObject _ name => fun s => applies (with_objs s (delete name (cs_objs s))) s
  | MUploadLocalFile _ path _ _ => fun s x s' =>
      match x with
      | Ok url => exists content, cs_tmp s !! path = Some content /\ cs_files s !! url = None
                   /\ s' = with_files s (<[url := content]> (cs_files s))
      | Err _ => s' = s \/ exists url content, cs_files s !! url = None
                   /\ s' = with_files s (<[url := content]> (cs_files s))
      end
  | MRemoveFile _ url => fun s => applies (with_files s (delete url (cs_files s))) s
  | OsCreateTemp _ => fun s x s' =>
      match x with Ok path => s' = with_tmp s (<[path := ""]> (cs_tmp s)) | Err _ => s' = s end
  | OsWrite path data => fun s =>
      applies (with_tmp s (<[path := default "" (cs_tmp s !! path) +:+ data]> (cs_tmp s))) s
  | OsRemove path => fun s => applies (with_tmp s (delete path (cs_tmp s))) s
  | DInsert _ m => fun s x s' =>
      match x with
      | Ok id => cs_rows s !! id = None /\ s' = with_rows s (<[id := with_id m id]> (cs_rows s))
      | Err _ => s' = s \/ exists id, cs_rows s !! id = None /\ s' = with_rows s (<[id := with_id m id]> (cs_rows s))
      end
  | DFindByID _ id => fun s => answers_with (fun m => m = cs_rows s !! id) s
  | FileOpen fh => fun s => answers_with (fun r => rd_data r = fh_Content fh) s
  | NewUUID => fun s id s' => s' = s /\ cs_meta s !! uploadKey id = None /\ cs_parts s !! partsKey id = None
  | _ => fun s _ s' => s' = s
  end.

Section chunked.
Context `{Md5, ListCodec, MinioConfig, UuidSyntax}.

(** Every index marked as received is a number below the announced total, in its only spelling. *)
Definition parts_ok_at (s : chunks_state) (id : string) : Prop :=
  forall meta total, cs_meta s !! uploadKey id = Some meta -> Atoi (field meta "totalChunks") = Some total ->
    forall m, m ∈ parts_of s (partsKey id) -> exists i, m = Itoa i /\ 0 <= i < total.

Definition parts_ok (s : chunks_state) : Prop := forall id, parts_ok_at s id.

Definition partName (id : string) (i : nat) : string := chunkObjectPrefix +:+ id +:+ "/part-" +:+ Itoa (Z.of_nat i).

Lemma chunkObjectName_ok id i : uuidParses id = true -> chunkObjectName id (Z.of_nat i) = Ok (partName id i).
Proof. intros Hu. unfold chunkObjectName, validateUploadID. by rewrite Hu. Qed.

(** The merge reads the parts in order and nothing else. *)
Lemma mergeChunks_swp n ctx id i acc s : uuidParses id = true ->
  swp holds_up (mergeChunks n ctx id (Z.of_nat i) acc) s (fun r s' =>
    s' = s /\ forall content, r = Ok content ->
      exists parts, length parts = n /\ content = acc +:+ foldr String.append "" parts
        /\ forall k d, parts !! k = Some d -> cs_objs s !! partName id (i + k) = Some d).
Proof.
  intros Hu. revert i acc. induction n as [|n IH]; intros i acc; cbn [mergeChunks].
  - split; [done|]. intros content [= <-]. exists []. split; [done|]. split; [by rewrite str_app_nil_r|done].
  - rewrite chunkObjectName_ok by done. unfold bind_ok, call. cbn [bind swp].
    intros x s' [-> Hx]. destruct x as [data|e]; [|done]. cbn [bind].
    replace (Z.of_nat i + 1) with (Z.of_nat (S i)) by lia.
    eapply swp_mono; [apply IH|]. intros r s' [-> Hr]. split; [done|]. intros content Hc.
    destruct (Hr content Hc) as (parts & Hlen & -> & Hall). exists (data :: parts). simpl. split; [by rewrite Hlen|].
    split; [by rewrite str_app_assoc|]. intros [|k] d Hk.
    + injection Hk as <-. by rewrite Nat.add_0_r.
    + rewrite <- Nat.add_succ_comm. by apply Hall.
Qed.

Lemma requireUpload_swp ctx id userID s :
  swp holds_up (requireUpload ctx id userID) s (fun r s' => s' = s /\ forall meta, r = Ok meta ->
    uuidParses id = true /\ cs_meta s !! uploadKey id = Some meta /\ field meta "userId" = FormatInt userID).
Proof.
  unfold requireUpload, validateUploadID. destruct (uuidParses id); [|done]. unfold bind_ok, call. cbn [bind swp].
  intros x s' [-> Hx]. destruct x as [meta|e]; [|done]. destruct (Nat.eqb_spec (size meta) 0) as [|Hne]; [done|].
  destruct (String.eqb_spec (FormatInt userID) (field meta "userId")) as [Heq|]; [|done]. cbn [negb swp].
  split; [done|]. intros m [= <-]. split; [done|]. split; [|done].
  destruct (cs_meta s !! uploadKey id) as [h|]; simpl in Hx; subst; [done|]. by rewrite map_size_empty in Hne.
Qed.

Lemma parseIndexes_length members l : parseIndexes members = Ok l -> length l = length members.
Proof.
  revert l. induction members as [|m ms IH]; intros l; simpl; [by intros [= <-]|].
  destruct (Atoi m); [|done]. destruct (parseIndexes ms) as [out|]; [|done]. intros [= <-]. simpl. f_equal. auto.
Qed.

Lemma UploadedChunks_swp ctx id userID s :
  swp holds_up (UploadedChunks ctx id userID) s (fun r s' => s' = s /\ forall l, r = Ok l ->
    exists members, NoDup members /\ (forall m, m ∈ members <-> m ∈ parts_of s (partsKey id))
      /\ length l = length members).
Proof.
  unfold UploadedChunks, bind_ok. apply swp_bind. eapply swp_mono; [apply requireUpload_swp|].
  intros [meta|e] s1 [-> _]; [|done]. unfold call. cbn [bind swp]. intros x s' [-> Hx].
  destruct x as [members|e]; [|done]. cbn [swp]. split; [done|]. intros l Hl. destruct Hx as [Hnd Hm].
  exists members. split; [done|]. split; [done|]. destruct (parseIndexes members) as [out|] eqn:Ep; [|done].
  injection Hl as <-. rewrite <- (parseIndexes_length _ _ Ep). apply Permutation_length. apply merge_sort_Permutation.
Qed.

(** As many indexes as chunks means every chunk. *)
Lemma all_parts s id meta total members :
  parts_ok_at s id -> cs_meta s !! uploadKey id = Some meta -> Atoi (field meta "totalChunks") = Some total ->
  NoDup members -> (forall m, m ∈ members <-> m ∈ parts_of s (partsKey id)) -> Z.of_nat (length members) = total ->
  forall i, 0 <= i < total -> Itoa i ∈ parts_of s (partsKey id).
Proof.
  intros Hok Hmeta Htotal Hnd Hm Hlen i Hi. apply Hm.
  assert (members ≡ₚ Itoa <$> seqZ 0 total) as ->.
  - apply submseteq_length_Permutation; [|rewrite length_fmap, length_seqZ; lia].
    apply NoDup_submseteq; [done|]. intros m Hin%Hm. destruct (Hok _ _ Hmeta Htotal m Hin) as (j & -> & Hj).
    apply list_elem_of_fmap. exists j. split; [done|]. apply elem_of_seqZ. lia.
  - apply list_elem_of_fmap. exists i. split; [done|]. apply elem_of_seqZ. lia.
Qed.

(** Two states that agree on everything an upload in progress consists of. *)
Definition same_upload (s s' : chunks_state) : Prop :=
  cs_meta s' = cs_meta s /\ cs_parts s' = cs_parts s /\ cs_objs s' = cs_objs s /\ cs_tmp s' = cs_tmp s.

Lemma SaveUploadedMedia_swp ctx filename url userID md5 content s :
  cs_files s !! url = Some content ->
  swp holds_up (SaveUploadedMedia ctx filename url userID md5) s (fun r s' => forall mf, r = Ok mf ->
    cs_files s' !! url = Some content /\ mf_FilePath mf = url /\ mf_ContentHash mf = Some md5
    /\ mf_UserID mf = userID /\ cs_rows s' !! mf_ID mf = Some mf /\ cs_rows s !! mf_ID mf = None).
Proof.
  intros Hf. unfold SaveUploadedMedia, removeUploadedObject. destruct (NormalizeVideoFilename filename) as [name|e]; [|by intros ? ? ? ?].
  cbn [swp]. intros now s1 ->. intros x s2 Hx. cbn [holds_up] in Hx. destruct x as [id|e]; [|by intros ? ? ? ?].
  destruct Hx as [Hid ->]. apply swp_bind.
  eapply swp_mono with (Q := fun _ s3 => cs_files s3 = cs_files s
    /\ cs_rows s3 = <[id := with_id (newRow name url now userID md5) id]> (cs_rows s)).
  { unfold RememberContentHash. destruct (String.eqb md5 ""); [done|]. cbn [swp]. intros x s3 Hx.
    by apply applies_cases in Hx as [-> | ->]. }
  intros [] s3 [Hf3 Hr3]. unfold InvalidateUserList. cbn [bind swp]. intros x s4 Hx.
  intros mf [= <-]. assert (cs_files s4 = cs_files s /\ cs_rows s4 = cs_rows s3) as [-> ->].
  { by apply applies_cases in Hx as [-> | ->]. }
  cbn. rewrite Hr3, lookup_insert_eq. done.
Qed.

Lemma done_key_distinct id : completedKey id <> uploadKey id /\ completedKey id <> partsKey id.
Proof.
  unfold completedKey, partsKey. split; intros E; apply (f_equal String.length) in E;
    rewrite ?str_app_length in E; simpl in E; lia.
Qed.

Lemma remove_keys_mark s id :
  cs_marks (remove_keys s [uploadKey id; partsKey id]) !! completedKey id = cs_marks s !! completedKey id.
Proof.
  destruct (done_key_distinct id) as [H1' H2']. simpl. by rewrite !lookup_delete_ne by congruence.
Qed.

Lemma cleanup_swp ctx id total mediaID s :
  swp holds_up (cleanup ctx id total mediaID) s (fun _ s' =>
    cs_files s' = cs_files s /\ cs_rows s' = cs_rows s /\ cs_marks s' !! completedKey id = cs_marks s !! completedKey id).
Proof.
  unfold cleanup. apply swp_bind.
  assert (forall n i s0, swp holds_up (cleanupChunks n ctx id i) s0 (fun _ s' =>
    cs_files s' = cs_files s0 /\ cs_rows s' = cs_rows s0 /\ cs_marks s' = cs_marks s0)) as Hloop.
  { induction n as [|n IH]; intros i s0; cbn [cleanupChunks]; [done|]. cbn [swp]. intros x s1 Hx.
    eapply swp_mono; [apply IH|]. intros [] s2 (-> & -> & ->).
    by apply applies_cases in Hx as [-> | ->]. }
  eapply swp_mono; [apply Hloop|]. intros [] s1 (Hf & Hr & Hm). cbn [swp]. intros x s2 Hx.
  rewrite <- Hm, <- Hf, <- Hr. apply applies_cases in Hx as [-> | ->]; [by rewrite remove_keys_mark|done].
Qed.

Definition concat (parts : list string) : string := foldr String.append "" parts.

(** The row [mf] stands for the chunks of upload [id] as they were stored in [s]. *)
Definition assembled (s : chunks_state) (id : string) (n : nat) (userID : Z) (mf : MediaFile)
    (s' : chunks_state) : Prop :=
  exists parts, length parts = n
    /\ (forall k d, parts !! k = Some d -> cs_objs s !! partName id k = Some d)
    /\ cs_files s' !! mf_FilePath mf = Some (concat parts)
    /\ mf_ContentHash mf = Some (EncodeToString (md5Sum (concat parts)))
    /\ mf_UserID mf = userID
    /\ cs_rows s' !! mf_ID mf = Some mf /\ cs_rows s !! mf_ID mf = None
    /\ cs_marks s' !! completedKey id = Some (FormatInt (mf_ID mf)).

Lemma mergeInto_swp ctx id total path s : uuidParses id = true -> cs_tmp s !! path = Some "" ->
  swp holds_up (mergeInto ctx id total path) s (fun r s' => forall content, r = Ok content ->
    s' = with_tmp s (<[path := content]> (cs_tmp s))
    /\ exists parts, length parts = Z.to_nat total /\ content = concat parts
         /\ forall k d, parts !! k = Some d -> cs_objs s !! partName id k = Some d).
Proof.
  intros Hu Hp. unfold mergeInto. apply swp_bind. eapply swp_mono; [by apply (mergeChunks_swp _ _ _ 0)|].
  intros r s1 [-> Hr]. destruct r as [content|e]; [|by intros ? ? ? ?].
  cbn [swp]. intros w s2 Hw. destruct w as [u|e]; [|by intros ? ? ? ?].
  cbn in Hw. rewrite Hp in Hw. unfold bind_ok, call. cbn [bind swp]. intros c s3 ->. destruct c as [u'|e]; [|done].
  intros content' [= <-]. split; [done|]. destruct (Hr content eq_refl) as (parts & Hlen & Hc & Hall).
  exists parts. auto.
Qed.

Lemma storeMerged_swp ctx id userID filename total path s : uuidParses id = true -> cs_tmp s !! path = Some "" ->
  swp holds_up (storeMerged ctx id userID filename total path) s (fun r s' => forall mf, r = Ok mf ->
    assembled s id (Z.to_nat total) userID mf s').
Proof.
  intros Hu Hp. unfold storeMerged, bind_ok. apply swp_bind. eapply swp_mono; [by apply mergeInto_swp|].
  intros [content|e] s1 H1'; [|done]. destruct (H1' content eq_refl) as (-> & parts & Hlen & -> & Hall).
  unfold call. cbn [bind swp]. intros [url|e] s2 Hx; [|done]. destruct Hx as (content & Ht & Hnew & ->).
  simpl in Ht. rewrite lookup_insert_eq in Ht. injection Ht as <-.
  apply swp_bind. eapply swp_mono; [apply (SaveUploadedMedia_swp _ _ _ _ _ (concat parts)); apply lookup_insert_eq|].
  intros [mf|e] s3 H3; [|done]. destruct (H3 mf eq_refl) as (Hf & <- & Hh & Hu' & Hr & Hfresh).
  cbn [bind swp]. intros [u|e] s4 Hx; [|done]. cbn in Hx. subst s4. cbn [bind]. apply swp_bind.
  eapply swp_mono; [apply cleanup_swp|]. intros [] s5 (Hf5 & Hr5 & Hm5). cbn [swp]. intros mf' [= <-].
  exists parts. rewrite Hf5, Hr5, Hm5. cbn. rewrite lookup_insert_eq. done.
Qed.

Lemma completedUpload_swp ctx id userID s :
  swp holds_up (completedUpload ctx id userID) s (fun r s' =>
    match r with
    | Ok (Some mf) => s' = s /\ exists v, cs_marks s !! completedKey id = Some v
        /\ exists mid, ParseInt 64 v = Some mid /\ cs_rows s !! mid = Some mf /\ mf_UserID mf = userID
    | Ok None => s' = s \/ s' = remove_keys s [completedKey id]
    | Err _ => s' = s
    end).
Proof.
  unfold completedUpload, bind_ok, call. cbn [bind swp]. intros x s1 [-> Hx]. destruct x as [[v|]|e]; [|by left|done].
  destruct (ParseInt 64 v) as [mid|] eqn:Ep.
  - unfold RequireOwnedMedia, bind_ok, call. cbn [bind swp]. intros [[m|]|e] s2 [-> Hm]; cbn; [|done|done].
    destruct (Z.eqb_spec (mf_UserID m) userID) as [Hu|]; [|done]. cbn. split; [done|]. exists v.
    split; [done|]. exists mid. auto.
  - cbn [swp]. intros y s2 Hy. by apply applies_cases in Hy as [-> | ->]; [right|left].
Qed.

(** Forgetting the completion mark leaves the upload as it was. *)
Lemma forget_mark s id s1 : s1 = s \/ s1 = remove_keys s [completedKey id] ->
  cs_meta s1 !! uploadKey id = cs_meta s !! uploadKey id
  /\ parts_of s1 (partsKey id) = parts_of s (partsKey id) /\ cs_objs s1 = cs_objs s /\ cs_rows s1 = cs_rows s.
Proof.
  destruct (done_key_distinct id) as [Hn1 Hn2]. intros [-> | ->]; [done|]. unfold parts_of. simpl.
  by rewrite !lookup_delete_ne by congruence.
Qed.

(** Upload [id] is [userID]'s, and was announced with [n] chunks. *)
Definition announced (s : chunks_state) (id : string) (userID : Z) (meta : gmap string string) (n : nat) : Prop :=
  cs_meta s !! uploadKey id = Some meta /\ field meta "userId" = FormatInt userID
  /\ Atoi (field meta "totalChunks") = Some (Z.of_nat n).

Definition completed_post (s : chunks_state) (id : string) (userID : Z) (r : res MediaFile) (s' : chunks_state) : Prop :=
  forall mf, r = Ok mf ->
    (s' = s /\ exists v mid, cs_marks s !! completedKey id = Some v /\ ParseInt 64 v = Some mid
       /\ cs_rows s !! mid = Some mf /\ mf_UserID mf = userID)
    \/ exists meta n, announced s id userID meta n
         /\ (forall i, 0 <= i < Z.of_nat n -> Itoa i ∈ parts_of s (partsKey id)) /\ assembled s id n userID mf s'.

Lemma completeLocked_swp ctx id userID s : parts_ok_at s id ->
  swp holds_up (completeLocked ctx id userID) s (completed_post s id userID).
Proof.
  intros Hok. unfold completeLocked, bind_ok at 1. apply swp_bind. eapply swp_mono; [apply completedUpload_swp|].
  intros [[mf|]|e] s1 H1'; [| |done].
  { destruct H1' as (-> & v & Hv & mid & Hrest). intros mf' [= <-]. left. split; [done|]. by exists v, mid. }
  destruct (forget_mark s id s1 H1') as (Hm1 & Hp1 & Ho1 & Hr1). clear H1'.
  unfold bind_ok at 1. apply swp_bind. eapply swp_mono; [apply requireUpload_swp|].
  intros [meta|e] s2 [-> Hreq]; [|done]. destruct (Hreq meta eq_refl) as (Hu & Hmeta & Hown). rewrite Hm1 in Hmeta.
  destruct (Atoi (field meta "totalChunks")) as [total|] eqn:Et; [|done].
  unfold bind_ok at 1. apply swp_bind. eapply swp_mono; [apply UploadedChunks_swp|].
  intros [uploaded|e] s2 [-> Hup]; [|done]. destruct (Hup uploaded eq_refl) as (members & Hnd & Hmem & Hlen).
  destruct (Z.eqb_spec (Z.of_nat (length uploaded)) total) as [Htot|]; [cbn [negb]|done].
  unfold bind_ok, call. cbn [bind swp]. intros [path|e] s2 Hx; [|done]. cbn in Hx. subst s2.
  apply swp_bind. eapply swp_mono; [apply storeMerged_swp; [done|apply lookup_insert_eq]|].
  intros r s3 H3. cbn [swp]. intros y s4 Hy mf ->. right. exists meta, (Z.to_nat total). split_and!.
  - split; [done|]. split; [done|]. rewrite Et. f_equal. lia.
  - rewrite Hp1 in Hmem. intros i Hi. eapply all_parts; eauto; lia.
  - destruct (H3 mf eq_refl) as (parts & Hl & Hall & Hrest). exists parts. split; [done|].
    cbn in Hall, Hrest. rewrite Ho1, Hr1 in *. split; [done|].
    assert (cs_files s4 = cs_files s3 /\ cs_rows s4 = cs_rows s3 /\ cs_marks s4 = cs_marks s3) as (-> & -> & ->)
      by (by apply applies_cases in Hy as [-> | ->]).
    done.
Qed.

(** C16. A merged upload is the file that was sent. From a state in which the received indexes of every
    upload are numbers below its announced total ([parts_ok]), when [Complete] returns a media row, either it
    is the row a previous completion recorded, still owned by the caller, or the upload is the caller's, every
    index below the total it was announced with had been received, and the row is new: its object is the
    concatenation of exactly that many stored chunks in index order, its content hash is the MD5 of exactly that, it belongs to the caller, and the completion mark names it. *)
Theorem Complete_merges (ctx : Context) (id : string) (userID : Z) (s : chunks_state) :
  parts_ok s ->
  swp holds_up (Complete ctx id userID) s (fun r s' => forall mf, r = Ok mf ->
    (s' = s /\ exists v mid, cs_marks s !! completedKey id = Some v /\ ParseInt 64 v = Some mid
       /\ cs_rows s !! mid = Some mf /\ mf_UserID mf = userID)
    \/ exists meta n, announced s id userID meta n
         /\ (forall i, 0 <= i < Z.of_nat n -> Itoa i ∈ parts_of s (partsKey id))
         /\ assembled s id n userID mf s').
Proof.
  intros Hok. unfold Complete. destruct (validateUploadID id) as [u|e]; [|done].
  unfold bind_ok, call. cbn [bind swp]. intros [[l|]|e] s1 Hx; [|done|done]. cbn in Hx. subst s1.
  apply swp_bind. eapply swp_mono; [apply completeLocked_swp, Hok|]. intros r s1 Hr.
  unfold releaseObjectLock. cbn [bind swp]. intros held s2 Hs2. cbn in Hs2. subst s2. destruct held; cbn [bind swp].
  - intros w s2 Hs2. cbn in Hs2. by subst s2.
  - exact Hr.
Qed.

(** What an operation may do to the received indexes of the uploads. *)
Lemma parts_ok_add s id meta total i :
  parts_ok s -> cs_meta s !! uploadKey id = Some meta -> Atoi (field meta "totalChunks") = Some total ->
  0 <= i < total ->
  parts_ok (with_parts s (<[partsKey id := {[ Itoa i ]} ∪ parts_of s (partsKey id)]> (cs_parts s))).
Proof.
  intros Hok Hm Ht Hi id' meta' total' Hm' Ht' m. unfold parts_of at 1. cbn. intros Hin.
  destruct (decide (id' = id)) as [->|Hne].
  - rewrite lookup_insert_eq in Hin. simpl in Hin. cbn in Hm'. assert (meta' = meta) as -> by congruence.
    assert (total' = total) as -> by congruence.
    apply elem_of_union in Hin as [->%elem_of_singleton|Hin]; [by exists i|by eapply Hok].
  - assert (partsKey id' <> partsKey id) as Hk.
    { unfold partsKey, uploadKey. intros E. apply Hne. rewrite !str_app_assoc in E. apply str_app_inj_l in E.
      by apply str_app_inj_r in E. }
    rewrite lookup_insert_ne in Hin by congruence. by eapply (Hok id').
Qed.

(** Receiving a chunk. [UploadChunk] accepts only the caller's own upload, an index below its announced
    total and at most 5 MiB; when it reports success, the bytes are stored under the object name the merge
    will read, and the index is marked as received; whatever happens, failures of Redis and of the object
    store included, the received indexes stay numbers below the total of their upload. *)
Theorem UploadChunk_keeps (ctx : Context) (id : string) (idx total : Z) (fh : option FileHeader) (userID : Z)
    (s : chunks_state) :
  parts_ok s ->
  swp holds_up (UploadChunk ctx id idx total fh userID) s (fun r s' =>
    parts_ok s'
    /\ (r = Ok tt -> exists f meta,
          fh = Some f /\ fh_Size f <= MaxChunkBytes
          /\ cs_meta s !! uploadKey id = Some meta /\ field meta "userId" = FormatInt userID
          /\ Atoi (field meta "totalChunks") = Some total /\ 0 <= idx < total
          /\ cs_objs s' !! partName id (Z.to_nat idx) = Some (str_take (Z.to_nat (fh_Size f)) (fh_Content f))
          /\ Itoa idx ∈ parts_of s' (partsKey id))).
Proof.
  intros Hok. unfold UploadChunk. destruct fh as [f|]; [|done]. destruct (fh_Size f =? 0); [done|].
  destruct (Z.ltb_spec MaxChunkBytes (fh_Size f)) as [|Hmax]; [done|].
  unfold bind_ok at 1. apply swp_bind. eapply swp_mono; [apply requireUpload_swp|].
  intros [meta|e] s1 [-> Hreq]; [|done]. destruct (Hreq meta eq_refl) as (Hu & Hmeta & Hown).
  destruct (Atoi (field meta "totalChunks")) as [expected|] eqn:Et; [|done].
  destruct (negb (total =? expected) || (idx <? 0) || (expected <=? idx)) eqn:Eb; [done|].
  apply orb_false_iff in Eb as [[->%negb_false_iff%Z.eqb_eq Hlo]%orb_false_iff Hhi].
  assert (0 <= idx < expected) as Hidx by lia. clear Hlo Hhi.
  rewrite <- (Z2Nat.id idx) at 1 by lia. rewrite chunkObjectName_ok by done.
  unfold bind_ok, call. cbn [bind swp]. intros x s1 [-> Hx]. destruct x as [data|e]; [|done]. cbn [bind swp].
  set (stored := with_objs s (<[partName id (Z.to_nat idx) := str_take (Z.to_nat (fh_Size f)) (rd_data data)]> (cs_objs s))).
  intros x s1 Hput. assert (s1 = stored \/ s1 = s) as Hs1 by (destruct x; cbn in Hput; auto).
  assert (parts_ok s1) as Hok1 by (by destruct Hs1 as [-> | ->]).
  destruct x as [u|e]; [|done]. cbn in Hput. subst s1. cbn [swp]. intros y s2 Hy.
  pose proof (parts_ok_add stored id meta expected idx Hok1 Hmeta Et Hidx) as Hadd.
  split; [by apply applies_cases in Hy as [-> | ->]|]. intros ->. cbn in Hy. subst s2.
  exists f, meta. split_and!; try done; try lia; cbn.
  - rewrite lookup_insert_eq. by rewrite Hx.
  - unfold parts_of. cbn. rewrite lookup_insert_eq. simpl. apply elem_of_union. left. by apply elem_of_singleton.
Qed.

Lemma uploadKey_inj id id' : uploadKey id = uploadKey id' -> id = id'.
Proof. unfold uploadKey. apply str_app_inj_l. Qed.

(** Starting an upload keeps the received indexes of the others, and the new one has none. *)
Lemma Initialize_keeps ctx filename total userID s :
  parts_ok s ->
  swp holds_up (Initialize ctx filename total userID) s (fun r s' =>
    parts_ok s' /\ forall id, r = Ok id -> 0 < total <= MaxTotalChunks /\ parts_of s' (partsKey id) = ∅
      /\ exists meta, cs_meta s' !! uploadKey id = Some meta /\ field meta "userId" = FormatInt userID
           /\ Atoi (field meta "totalChunks") = Some total).
Proof.
  intros Hok. unfold Initialize. destruct (NormalizeVideoFilename filename) as [name|e]; [|done].
  destruct (Z.leb_spec total 0), (Z.ltb_spec MaxTotalChunks total); try done. cbn [orb swp].
  intros id s1 (-> & Hnew & Hpart). unfold bind_ok, call. cbn [bind swp]. intros x s1 Hx. cbn [holds_up] in Hx.
  rewrite Hnew in Hx.
  match type of Hx with applies ?t _ _ _ => assert (parts_ok t) as Hnewok end.
  { intros id' meta total' Hm Ht m. unfold parts_of. cbn in Hm |- *. destruct (decide (id' = id)) as [->|Hne].
    - rewrite Hpart. cbn. by intros ?%elem_of_empty.
    - rewrite lookup_insert_ne in Hm by (intros E; by apply Hne, eq_sym, uploadKey_inj). by eapply (Hok id'). }
  assert (parts_ok s1) as Hok1 by (by apply applies_cases in Hx as [-> | ->]).
  destruct x as [u|e]; [|done]. cbn [swp]. split; [done|]. intros id' [= <-]. cbn [applies] in Hx. subst s1.
  split; [lia|]. split; [unfold parts_of; cbn; by rewrite Hpart|]. eexists. cbn. rewrite lookup_insert_eq.
  split; [done|]. unfold field. simplify_map_eq. split; [done|]. apply Atoi_Itoa. unfold int_ok.
  assert (MaxTotalChunks = 410) by done. lia.
Qed.

End chunked.

(** ** Running an upload *)

#[local] Instance demoMd5 : Md5 := { md5Sum := fun _ => "0123456789abcdef"; md5Sum_size := fun _ => eq_refl }.
#[local] Instance demoList : ListCodec := { marshalList := fun _ => Ok ""; unmarshalList := fun _ => Ok [] }.
#[local] Instance demoMinio : MinioConfig := { endpoint := "http://minio:9000"; bucket := "media" }.
#[local] Instance demoUuid : UuidSyntax := fun _ => true.

(** A store that does what it is asked, except that it may refuse to record completions. *)
Definition obey (refuse : bool) (X : Type) (c : StoreE X) (s : chunks_state) : option (X * chunks_state) :=
  match c in StoreE X return option (X * chunks_state) with
  | SHGetAll _ key => Some (Ok (default ∅ (cs_meta s !! key)), s)
  | SMembers _ key => Some (Ok (elements (parts_of s key)), s)
  | SAddPart _ key m _ _ => Some (Ok tt, with_parts s (<[key := {[ m ]} ∪ parts_of s key]> (cs_parts s)))
  | SGet _ key => Some (Ok (cs_marks s !! key), s)
  | SSet _ key v _ =>
      if refuse && HasPrefix key uploadKeyPrefix then Some (Err (Internal "redis" None), s)
      else Some (Ok tt, with_marks s (<[key := v]> (cs_marks s)))
  | SDel _ keys => Some (Ok tt, remove_keys s keys)
  | MUploadObject _ name data n _ =>
      Some (Ok name, with_objs s (<[name := str_take (Z.to_nat n) (rd_data data)]> (cs_objs s)))
  | MCopyObjectTo _ name =>
      match cs_objs s !! name with Some d => Some (Ok d, s) | None => Some (Err (NotFound ""), s) end
  | MRemoveObject _ name => Some (Ok tt, with_objs s (delete name (cs_objs s)))
  | MUploadLocalFile _ path _ _ =>
      let url := "u" +:+ FormatInt (Z.of_nat (size (cs_files s))) in
      match cs_tmp s !! path, cs_files s !! url with
      | Some content, None => Some (Ok url, with_files s (<[url := content]> (cs_files s)))
      | _, _ => None
      end
  | OsCreateTemp _ => Some (Ok "tmp", with_tmp s (<["tmp" := ""]> (cs_tmp s)))
  | OsWrite path data => Some (Ok tt, with_tmp s (<[path := default "" (cs_tmp s !! path) +:+ data]> (cs_tmp s)))
  | OsRemove path => Some (Ok tt, with_tmp s (delete path (cs_tmp s)))
  | OsClose _ => Some (Ok tt, s)
  | DInsert _ m =>
      let id := 1 + Z.of_nat (size (cs_rows s)) in
      match cs_rows s !! id with
      | None => Some (Ok id, with_rows s (<[id := with_id m id]> (cs_rows s)))
      | Some _ => None
      end
  | NowLocal => Some (0, s)
  | FileOpen fh => Some (Ok (mkReader (fh_Content fh) None), s)
  | STryLock _ key _ => Some (Ok (Some (mkLock 0 key)), s)
  | SIsHeld _ => Some (true, s)
  | SUnlock _ _ => Some (Ok tt, s)
  | _ => None
  end.

Lemma obey_holds_up refuse X (c : StoreE X) s x s' : obey refuse X c s = Some (x, s') -> holds_up X c s x s'.
Proof.
  destruct c; cbn [obey holds_up]; intros Hx; repeat case_match; simplify_eq; try done.
  - by right.
  - split; [done|]. split; [apply NoDup_elements|]. intros m. by rewrite elem_of_elements.
  - by exists s0.
Qed.

Fixpoint obeyed (refuse : bool) {A} (p : proc StoreE A) (s : chunks_state) : option (A * chunks_state) :=
  match p with
  | Ret a => Some (a, s)
  | Do c k => match obey refuse _ c s with Some (x, s') => obeyed refuse (k x) s' | None => None end
  | Panic _ => None
  end.

Lemma obeyed_sruns refuse {A} (p : proc StoreE A) s a s' : obeyed refuse p s = Some (a, s') -> sruns holds_up p s a s'.
Proof.
  revert s. induction p as [b|X c k IH|why]; cbn [obeyed]; intros s Hr; [|destruct (obey _ _ _ _) as [[x s1]|] eqn:Ex|]; try done.
  - injection Hr as <- <-. constructor.
  - econstructor; [by eapply obey_holds_up|]. auto.
Qed.

(** Upload "u1" of user 3: two chunks, both received. *)
Definition twoChunks : chunks_state :=
  mkChunks {[ uploadKey "u1" := {[ "filename" := "a.mp4"; "totalChunks" := "2"; "userId" := "3" ]} ]}
    {[ partsKey "u1" := {[ "0"; "1" ]} ]} ∅
    {[ partName "u1" 0 := "hello, "; partName "u1" 1 := "world" ]} ∅ ∅ ∅.

Lemma twoChunks_ok : parts_ok twoChunks.
Proof.
  intros id meta total Hm Ht m Hin. cbn in Hm. apply lookup_singleton_Some in Hm as [Hk <-].
  apply uploadKey_inj in Hk as <-. vm_compute in Ht. injection Ht as <-.
  assert (m ∈ ({[ "0"; "1" ]} : gset string)) as Hm' by exact Hin.
  apply elem_of_union in Hm' as [->%elem_of_singleton | ->%elem_of_singleton]; [exists 0|exists 1]; (split; [reflexivity|lia]).
Qed.

Definition afterMerge : option (res MediaFile * chunks_state) := obeyed false (Complete RequestContext "u1" 3) twoChunks.

Definition mergedState : chunks_state := match afterMerge with Some (_, s) => s | None => twoChunks end.
Definition mergedRow : MediaFile :=
  match afterMerge with Some (Ok mf, _) => mf | _ => mkMediaFile 0 0 "" "" "" None None None None 0 end.

Lemma merge_runs : sruns holds_up (Complete RequestContext "u1" 3) twoChunks (Ok mergedRow) mergedState.
Proof. apply (obeyed_sruns false). vm_compute. reflexivity. Qed.

Lemma Complete_merges_witness :
  sruns holds_up (Complete RequestContext "u1" 3) twoChunks (Ok mergedRow) mergedState
  /\ cs_files mergedState !! mf_FilePath mergedRow = Some "hello, world"
  /\ ((mergedState = twoChunks /\ exists v mid, cs_marks twoChunks !! completedKey "u1" = Some v
         /\ ParseInt 64 v = Some mid /\ cs_rows twoChunks !! mid = Some mergedRow /\ mf_UserID mergedRow = 3)
      \/ exists meta n, announced twoChunks "u1" 3 meta n
           /\ (forall i, 0 <= i < Z.of_nat n -> Itoa i ∈ parts_of twoChunks (partsKey "u1"))
           /\ assembled twoChunks "u1" n 3 mergedRow mergedState).
Proof.
  split; [exact merge_runs|]. split; [vm_compute; reflexivity|].
  exact (swp_sruns _ _ _ _ _ _ (Complete_merges RequestContext "u1" 3 twoChunks twoChunks_ok) merge_runs mergedRow eq_refl).
Defined.

Definition sampleChunk : FileHeader := mkFileHeader "blob" 5 "" "world".

Lemma UploadChunk_keeps_witness :
  parts_ok twoChunks
  /\ swp holds_up (UploadChunk RequestContext "u1" 1 2 (Some sampleChunk) 3) twoChunks (fun r s' =>
    parts_ok s'
    /\ (r = Ok tt -> exists f meta,
          Some sampleChunk = Some f /\ fh_Size f <= MaxChunkBytes
          /\ cs_meta twoChunks !! uploadKey "u1" = Some meta /\ field meta "userId" = FormatInt 3
          /\ Atoi (field meta "totalChunks") = Some 2 /\ 0 <= 1 < 2
          /\ cs_objs s' !! partName "u1" (Z.to_nat 1) = Some (str_take (Z.to_nat (fh_Size f)) (fh_Content f))
          /\ Itoa 1 ∈ parts_of s' (partsKey "u1"))).
Proof.
  split; [exact twoChunks_ok|].
  apply (UploadChunk_keeps RequestContext "u1" 1 2 (Some sampleChunk) 3 twoChunks twoChunks_ok).
Defined.

(** A retry can insert a second media row: when the store refuses to record the completion after the row
    was inserted, [Complete] reports an error, the chunks are still there, and a retry inserts another row
    for the same upload. *)
Theorem retry_inserts_again :
  exists s1 s2 e mf,
    sruns holds_up (Complete RequestContext "u1" 3) twoChunks (Err e) s1
    /\ sruns holds_up (Complete RequestContext "u1" 3) s1 (Ok mf) s2
    /\ size (cs_rows twoChunks) = 0%nat /\ size (cs_rows s1) = 1%nat /\ size (cs_rows s2) = 2%nat.
Proof.
  destruct (obeyed true (Complete RequestContext "u1" 3) twoChunks) as [[[mf1|e] s1]|] eqn:E1; [exfalso; vm_compute in E1; discriminate E1| |exfalso; vm_compute in E1; discriminate E1].
  destruct (obeyed false (Complete RequestContext "u1" 3) s1) as [[[mf|e'] s2]|] eqn:E2.
  - exists s1, s2, e, mf. split; [by eapply obeyed_sruns|]. split; [by eapply obeyed_sruns|].
    vm_compute in E1. injection E1 as <- <-. vm_compute in E2. injection E2 as <- <-. vm_compute. done.
  - exfalso. vm_compute in E1. injection E1 as <- <-. vm_compute in E2. discriminate E2.
  - exfalso. vm_compute in E1. injection E1 as <- <-. vm_compute in E2. discriminate E2.
Qed.
