(* ===== verification/Analyzer.v ===== *)
(** * One analysis (internal/analysis/analyzer.go) and its telemetry seed (videocontext/telemetry.go)

    The seed is a shared object that the functions mutate; it is threaded through them, so a function that
    receives it returns it with its result. *)

From S2P Require Import Prelude GoStrings Proc Errors Model GoContext TaskKeys Billing AgentClient.

Local Open Scope string_scope.
Local Open Scope list_scope.
Local Open Scope Z_scope.

(** ** The telemetry seed *)

Definition Seed := TelemetrySeed.

Definition NewSeed (traceID : string) : Seed := mkTelemetrySeed traceID ∅ ∅.

Definition Increment (s : Seed) (name : string) (delta : Z) : Seed :=
  mkTelemetrySeed (tm_TraceID s) (tm_Stages s) (<[name := default 0 (tm_Counters s !! name) + delta]> (tm_Counters s)).

Definition Stage (s : Seed) (name : string) (durationMs : Z) (success : bool) : Seed :=
  mkTelemetrySeed (tm_TraceID s) (<[name := mkStageSeed durationMs success]> (tm_Stages s)) (tm_Counters s).

Definition Snapshot (s : Seed) : option TelemetrySeed := Some s.

(** ** The analyzer's dependencies *)

Definition contextLockWait : Z := 300 * second.
Definition contextOwnerTTL : Z := 7 * 24 * hour.

Inductive AnalyzerE : Type -> Type :=
| AFindByID (ctx : Context) (id : Z) : AnalyzerE (res (option MediaFile))
| AUpdateAnalysis (ctx : Context) (id : Z) (summary : string) (transcript : option string) : AnalyzerE (res unit)
| AInvalidateUserList (ctx : Context) (userID : Z) : AnalyzerE unit
| AContentHash (ctx : Context) (id : Z) : AnalyzerE (res string)
| ALoadContext (ctx : Context) (id : Z) : AnalyzerE (res (option VideoContext))
| ASaveContext (ctx : Context) (id : Z) (vc : VideoContext) : AnalyzerE (res unit)
| ASaveFailure (ctx : Context) (id : Z) (goal : string) (mode : AnalysisMode) (stage : TaskStage) (e : gerror)
  : AnalyzerE (res unit)
| AHasResult (ctx : Context) (id : Z) (goal : string) (mode : AnalysisMode) : AnalyzerE (res bool)
| APublish (ctx : Context) (id : Z) (goal : string) (mode : AnalysisMode) (st : TaskStatus) (stage : TaskStage)
  : AnalyzerE (res unit)
| AGet (ctx : Context) (key : string) : AnalyzerE (res (option string))
| ASet (ctx : Context) (key value : string) (ttl : Z) : AnalyzerE (res unit)
| ADel (ctx : Context) (key : string) : AnalyzerE (res unit)
| ATryLock (ctx : Context) (key : string) (wait : Z) : AnalyzerE (res (option Lock))
| AIsHeld (l : Lock) : AnalyzerE bool
| AUnlock (ctx : Context) (l : Lock) : AnalyzerE (res unit)
| ABuild (ctx : Context) (path goal : string) : AnalyzerE (res VideoContext * list (string * Z)) (* and its counters *)
| ADeleteFrames (ctx : Context) (vc : VideoContext) : AnalyzerE unit
| AResult (ctx : Context) (id : Z) (goal : string) (mode : AnalysisMode) : AnalyzerE (res ResultResponse)
| ARun (ctx : Context) (req : RunRequest) : AnalyzerE (res RunResult)
| AReuse (ctx : Context) (id source : Z) (goal : string) (mode : AnalysisMode) (target : string)
  : AnalyzerE (res ReuseResponse)
| ANewUUID : AnalyzerE string
| ANow : AnalyzerE Z.

(** ** Reusing a context *)

Fixpoint reuseSegments (targetSource : string) (l : list VideoSegment) : res (list VideoSegment) :=
  match l with
  | [] => Ok []
  | s :: l' =>
      let frames := match EvidenceFrames s with
                    | [] => []
                    | _ => [targetSource +:+ "#timestampMs=" +:+ FormatInt (StartMs s)]
                    end in
      match NewVideoSegment (StartMs s) (EndMs s) (Transcript s) (OcrTexts s) frames with
      | Err e => Err e
      | Ok ns => match reuseSegments targetSource l' with Err e => Err e | Ok segs => Ok (ns :: segs) end
      end
  end.

Definition ReusableContext (targetSource : string) (src : VideoContext) : res VideoContext :=
  match reuseSegments targetSource (vc_Segments src) with
  | Err e => Err e
  | Ok segs => NewVideoContext targetSource "" segs
  end.

Definition contextOwner (ctx : Context) (contentHash : string) : proc AnalyzerE (option Z) :=
  Do (AGet ctx (ContextOwner contentHash)) (fun r =>
  match r with
  | Ok (Some v) =>
      match ParseInt 64 v with
      | Some id => Ret (Some id)
      | None => Do (ADel ctx (ContextOwner contentHash)) (fun _ => Ret None)
      end
  | Ok None | Err _ => Ret None
  end).

Definition rememberContextOwner (ctx : Context) (contentHash : string) (mediaID : Z) : proc AnalyzerE unit :=
  Do (ASet ctx (ContextOwner contentHash) (FormatInt mediaID) contextOwnerTTL) (fun _ => Ret tt).

Definition reuseContentContext (ctx : Context) (mf : MediaFile) (userGoal : string) (seed : Seed) (contentHash : string)
  : proc AnalyzerE (res (option VideoContext) * Seed) :=
  bind (contextOwner ctx contentHash) (fun owner =>
  match owner with
  | None => Ret (Ok None, seed)
  | Some owner =>
      if owner =? mf_ID mf then Ret (Ok None, seed)
      else
        Do (ALoadContext ctx owner) (fun r =>
        match r with
        | Err e => Ret (Err e, seed)
        | Ok None =>
            Do (ADel ctx (ContextOwner contentHash)) (fun d =>
            match d with Err e => Ret (Err e, seed) | Ok _ => Ret (Ok None, seed) end)
        | Ok (Some ownerCtx) =>
            match ReusableContext (mf_FilePath mf) ownerCtx with
            | Err e => Ret (Err e, seed)
            | Ok localized =>
                Do (ASaveContext ctx (mf_ID mf) localized) (fun w =>
                match w with
                | Err e => Ret (Err e, seed)
                | Ok _ =>
                    let seed := Increment seed "contextContentReuses" 1 in
                    match NewVideoContext (vc_Source localized) userGoal (vc_Segments localized) with
                    | Err e => Ret (Err e, seed)
                    | Ok out => Ret (Ok (Some out), seed)
                    end
                end)
            end
        end)
  end).

(** The milliseconds of [time.Since]. *)
Definition elapsedMs (started now : Z) : Z := (now - started) / millisecond.

Definition buildContext (ctx : Context) (mf : MediaFile) (userGoal : string) (seed : Seed) (contentHash : string)
    (mode : AnalysisMode) (lock : Lock) : proc AnalyzerE (res VideoContext * Seed) :=
  let bctx := WithSource (LeaseLost lock) ctx in
  Do (APublish ctx (mf_ID mf) userGoal mode (StatusOf StateProcessing "正在并行提取语音与关键帧") StageVideoContext) (fun p =>
  match p with
  | Err e => Ret (Err e, seed)
  | Ok _ =>
      Do ANow (fun started =>
      Do (ABuild bctx (mf_FilePath mf) userGoal) (fun '(r, counts) =>
      let seed := fold_left (fun s '(name, n) => Increment s name n) counts seed in
      match r with
      | Err e => Do ANow (fun now => Ret (Err e, Stage seed StageVideoContext (elapsedMs started now) false))
      | Ok vc =>
          Do (ASaveContext ctx (mf_ID mf) vc) (fun w =>
          match w with
          | Err e =>
              Do (ADeleteFrames ctx vc) (fun _ =>
              Do ANow (fun now => Ret (Err e, Stage seed StageVideoContext (elapsedMs started now) false)))
          | Ok _ =>
              bind (rememberContextOwner ctx contentHash (mf_ID mf)) (fun _ =>
              Do ANow (fun now => Ret (Ok vc, Stage seed StageVideoContext (elapsedMs started now) true)))
          end)
      end))
  end).

(** [resolveContext] once the lock was tried: under it when [lock] is there. *)
Definition resolveLocked (ctx : Context) (mf : MediaFile) (userGoal : string) (seed : Seed) (contentHash : string)
    (mode : AnalysisMode) (lock : option Lock) : proc AnalyzerE (res VideoContext * Seed) :=
  Do (ALoadContext ctx (mf_ID mf)) (fun own =>
  match own with
  | Err e => Ret (Err e, seed)
  | Ok (Some own) =>
      Ret (NewVideoContext (vc_Source own) userGoal (vc_Segments own), Increment seed "contextCheckpointHits" 1)
  | Ok None =>
      bind (reuseContentContext ctx mf userGoal seed contentHash) (fun '(reused, seed) =>
      match reused with
      | Err e => Ret (Err e, seed)
      | Ok (Some vc) => Ret (Ok vc, seed)
      | Ok None =>
          match lock with
          | None => Ret (Err (Internal "同一视频的上下文正在构建中，稍后重试" None), Increment seed "contextLockContentions" 1)
          | Some l => buildContext ctx mf userGoal seed contentHash mode l
          end
      end)
  end).

Definition releaseContextLock (ctx : Context) (lock : option Lock) : proc AnalyzerE unit :=
  match lock with
  | None => Ret tt
  | Some l => Do (AIsHeld l) (fun held =>
      if held : bool then Do (AUnlock (WithoutCancel ctx) l) (fun _ => Ret tt) else Ret tt)
  end.

Definition resolveContext (ctx : Context) (mf : MediaFile) (userGoal : string) (seed : Seed) (mode : AnalysisMode)
  : proc AnalyzerE (res VideoContext * Seed) :=
  Do (ALoadContext ctx (mf_ID mf)) (fun cp =>
  match cp with
  | Err e => Ret (Err e, seed)
  | Ok (Some cp) =>
      Ret (NewVideoContext (vc_Source cp) userGoal (vc_Segments cp), Increment seed "contextCheckpointHits" 1)
  | Ok None =>
      Do (AContentHash ctx (mf_ID mf)) (fun h =>
      match h with
      | Err e => Ret (Err e, seed)
      | Ok hash =>
          let contentHash := NormalizeContentHash (mf_ID mf) hash in
          bind (reuseContentContext ctx mf userGoal seed contentHash) (fun '(reused, seed) =>
          match reused with
          | Err e => Ret (Err e, seed)
          | Ok (Some vc) => Ret (Ok vc, seed)
          | Ok None =>
              Do (ATryLock ctx (ContextLock contentHash) contextLockWait) (fun l =>
              match l with
              | Err e => Ret (Err (Internal "等待视频上下文构建锁被中断" (Some e)), seed)
              | Ok lock =>
                  bind (resolveLocked ctx mf userGoal seed contentHash mode lock) (fun r =>
                  bind (releaseContextLock ctx lock) (fun _ => Ret r))
              end)
          end)
      end)
  end).

(** ** Running an analysis *)

Definition persistResult (ctx : Context) (mf : MediaFile) (markdown : string) (transcript : option string)
  : proc AnalyzerE (res unit) :=
  _ ←? call (AUpdateAnalysis ctx (mf_ID mf) markdown transcript);
  Do (AInvalidateUserList ctx (mf_UserID mf)) (fun _ => Ret (Ok tt)).

(** The part of [AsyncAnalyze] after the result checkpoint: the stage reached, and the result. *)
Definition runAgent (ctx : Context) (mediaID : Z) (mf : MediaFile) (userGoal : string) (mode : AnalysisMode) (seed : Seed)
  : proc AnalyzerE (TaskStage * res unit) :=
  bind (resolveContext ctx mf userGoal seed mode) (fun '(r, seed) =>
  match r with
  | Err e => Ret (StageVideoContext, Err e)
  | Ok vc =>
      let transcript := TranscriptText vc in
      Do (APublish ctx mediaID userGoal mode (StatusOf StateProcessing "多模态上下文已就绪，Agent 开始分析")
            StageAgentLoop) (fun p =>
      match p with
      | Err e => Ret (StageAgentLoop, Err e)
      | Ok _ =>
          Do (ARun (WithUser ctx (mf_UserID mf)) (mkRunRequest mediaID userGoal mode (Snapshot seed))) (fun run =>
          match run with
          | Err e => Ret (StageAgentLoop, Err e)
          | Ok out =>
              bind (persistResult ctx mf (rn_Markdown out) (Some transcript)) (fun w => Ret (StageAgentLoop, w))
          end)
      end)
  end).

(** The body of [AsyncAnalyze] that the deferred function watches. *)
Definition analyzeBody (ctx : Context) (mediaID : Z) (mf : MediaFile) (userGoal : string) (mode : AnalysisMode) (seed : Seed)
  : proc AnalyzerE (TaskStage * res unit) :=
  Do (AHasResult ctx mediaID userGoal mode) (fun h =>
  match h with
  | Err e => Ret (StageVideoContext, Err e)
  | Ok false => runAgent ctx mediaID mf userGoal mode seed
  | Ok true =>
      Do (AResult ctx mediaID userGoal mode) (fun r =>
      match r with
      | Err e => Ret (StageVideoContext, Err e)
      | Ok out =>
          if rr_Found out
          then bind (persistResult ctx mf (deref (rr_Markdown out)) None) (fun w => Ret (StageVideoContext, w))
          else runAgent ctx mediaID mf userGoal mode seed
      end)
  end).

(** What the deferred function makes of an error: only a budget error itself is passed on unchanged. *)
Definition analysisError (e : gerror) : gerror :=
  match e with
  | TypedErr KindBudgetExhausted _ _ _ => e
  | _ => Internal "AI analysis failed" (Some e)
  end.

Definition AsyncAnalyze (ctx : Context) (mediaID : Z) (userGoal : string) (mode : AnalysisMode)
  : proc AnalyzerE (res unit) :=
  let mode := Resolve mode in
  Do ANewUUID (fun traceID =>
  let seed := NewSeed traceID in
  found ←? call (AFindByID ctx mediaID);
  match found with
  | None => Ret (Err (InvalidArgument ("media does not exist: " +:+ FormatInt mediaID)))
  | Some mf =>
      bind (analyzeBody ctx mediaID mf userGoal mode seed) (fun '(stage, r) =>
      match r with
      | Ok _ => Ret (Ok tt)
      | Err e =>
          Do (ASaveFailure (WithoutCancel ctx) mediaID userGoal mode stage e) (fun _ => Ret (Err (analysisError e)))
      end)
  end).

Definition ReuseResult (ctx : Context) (mediaID sourceMediaID : Z) (goal : string) (mode : AnalysisMode)
  : proc AnalyzerE (res ReuseResponse) :=
  found ←? call (AFindByID ctx mediaID);
  match found with
  | None => Ret (Err (InvalidArgument ("media does not exist: " +:+ FormatInt mediaID)))
  | Some mf =>
      out ←? call (AReuse ctx mediaID sourceMediaID goal mode (mf_FilePath mf));
      if negb (ru_Reused out) then Ret (Ok out)
      else _ ←? persistResult ctx mf (deref (ru_Markdown out)) None; Ret (Ok out)
  end.

(** ** Reading a trace *)

(** The steps of resolving a context, with what they were given and what came of them. *)
Inductive cstep :=
| CLoad (id : Z) (found : option VideoContext)               (* a context read *)
| CHash (id : Z) (hash : string)                             (* the content hash of a media file *)
| CAsk (key : string) (r : res (option string))              (* an owner looked up *)
| CForget (key : string)
| CTried (key : string) (wait : Z) (lock : option Lock)
| CBuild (ctx : Context) (path goal : string) (r : res VideoContext)
| CSave (ctx : Context) (id : Z) (vc : VideoContext) (saved : bool)
| COwner (key value : string) (ttl : Z)                      (* registered as owner *)
| CDeleted (ctx : Context) (vc : VideoContext)
| CHeld (l : Lock) (held : bool)
| CUnlock (ctx : Context) (l : Lock).

Definition csteps : trace AnalyzerE -> list cstep :=
  select (fun X c =>
    match c in AnalyzerE X return X -> option cstep with
    | ALoadContext _ id => fun r => match r with Ok found => Some (CLoad id found) | Err _ => None end
    | AContentHash _ id => fun r => match r with Ok hash => Some (CHash id hash) | Err _ => None end
    | AGet _ key => fun r => Some (CAsk key r)
    | ADel _ key => fun _ => Some (CForget key)
    | ATryLock _ key wait => fun r => match r with Ok l => Some (CTried key wait l) | Err _ => None end
    | ABuild ctx path goal => fun r => Some (CBuild ctx path goal r.1)
    | ASaveContext ctx id vc => fun r => Some (CSave ctx id vc (match r with Ok _ => true | Err _ => false end))
    | ASet _ key v ttl => fun _ => Some (COwner key v ttl)
    | ADeleteFrames ctx vc => fun _ => Some (CDeleted ctx vc)
    | AIsHeld l => fun held => Some (CHeld l held)
    | AUnlock ctx l => fun _ => Some (CUnlock ctx l)
    | _ => fun _ => None
    end).

(** Looking for a context and reusing one: nothing locked, built, registered or deleted. *)
Definition looking (mf : MediaFile) (c : cstep) : Prop :=
  match c with CLoad _ _ | CHash _ _ | CAsk _ _ | CForget _ => True | CSave _ id _ _ => id = mf_ID mf | _ => False end.

(** The steps of finding no context of another media file with content [h] to reuse. *)
Inductive noOther (mf : MediaFile) (h : string) : list cstep -> Prop :=
| no_answer e : noOther mf h [CAsk (ContextOwner h) (Err e)]
| no_owner : noOther mf h [CAsk (ContextOwner h) (Ok None)]
| no_number v : ParseInt 64 v = None -> noOther mf h [CAsk (ContextOwner h) (Ok (Some v)); CForget (ContextOwner h)]
| own_number v : ParseInt 64 v = Some (mf_ID mf) -> noOther mf h [CAsk (ContextOwner h) (Ok (Some v))]
| no_context v owner : ParseInt 64 v = Some owner -> owner <> mf_ID mf ->
    noOther mf h [CAsk (ContextOwner h) (Ok (Some v)); CLoad owner None; CForget (ContextOwner h)].

Lemma csteps_app tr tr' : csteps (tr ++ tr') = csteps tr ++ csteps tr'.
Proof. apply select_app. Qed.

Lemma csteps_cons X (c : AnalyzerE X) x tr : csteps (Ev c x :: tr) = csteps [Ev c x] ++ csteps tr.
Proof. apply (csteps_app [Ev c x]). Qed.

Lemma reuseContentContext_spec ctx mf goal seed h :
  wp (reuseContentContext ctx mf goal seed h) (fun tr out =>
    Forall (looking mf) (csteps tr) /\ (out.1 = Ok None -> noOther mf h (csteps tr))).
Proof.
  unfold reuseContentContext, contextOwner. wp_go; answers;
    (split; [cbn; by repeat constructor|]); try done; intros _; cbn; try by econstructor.
  all: match goal with E : (_ =? _) = true |- _ => apply Z.eqb_eq in E; subst; by constructor
       | E : (_ =? _) = false |- _ => apply Z.eqb_neq in E; by econstructor end.
Qed.

(** Building under [l], from the steps after the second look: what failed is not saved; what was built is saved
    and then registered, or else its frames are deleted. *)
Definition builds (ctx : Context) (mf : MediaFile) (goal h : string) (l : Lock) (steps : list cstep)
    (r : res VideoContext) : Prop :=
  exists b after, steps = CBuild (WithSource (LeaseLost l) ctx) (mf_FilePath mf) goal b :: after
    /\ match b with
       | Err e => after = [] /\ r = Err e
       | Ok vc =>
           (after = [CSave ctx (mf_ID mf) vc true; COwner (ContextOwner h) (FormatInt (mf_ID mf)) contextOwnerTTL]
            /\ r = Ok vc)
           \/ (after = [CSave ctx (mf_ID mf) vc false; CDeleted ctx vc] /\ exists e, r = Err e)
       end.

Lemma buildContext_spec ctx mf goal seed h mode l :
  wp (buildContext ctx mf goal seed h mode l) (fun tr out =>
    (csteps tr = [] /\ exists e, out.1 = Err e) \/ builds ctx mf goal h l (csteps tr) out.1).
Proof.
  unfold buildContext, rememberContextOwner, builds. wp_go; answers.
  all: first [ left; split; [reflexivity|by eexists]
             | right; do 2 eexists; split; [reflexivity|]; cbn;
               first [by split | by left; split | by right; split; [|eexists]] ].
Qed.

(** What happens once the lock was tried. *)
Definition underLock (ctx : Context) (mf : MediaFile) (goal h : string) (lock : option Lock) (steps : list cstep)
    (r : res VideoContext) : Prop :=
  Forall (looking mf) steps
  \/ exists l again built, lock = Some l /\ steps = CLoad (mf_ID mf) None :: again ++ built
       /\ noOther mf h again /\ builds ctx mf goal h l built r.

Lemma resolveLocked_spec ctx mf goal seed h mode lock :
  wp (resolveLocked ctx mf goal seed h mode lock) (fun tr out => underLock ctx mf goal h lock (csteps tr) out.1).
Proof.
  unfold resolveLocked, underLock. cbn [wp]. intros [[own|]|e]; [left; cbn; by repeat constructor| |by left; constructor].
  apply wp_bind. eapply wp_mono; [apply reuseContentContext_spec|]. intros tr [reused seed'] [Hq Hnone]. cbn [fst] in *.
  assert (forall tr', Forall (looking mf) (csteps tr') ->
    Forall (looking mf) (csteps (Ev (ALoadContext ctx (mf_ID mf)) (Ok None) :: tr ++ tr'))) as Hlook.
  { intros tr' Htr'. rewrite csteps_cons, csteps_app. constructor; [done|]. by apply Forall_app. }
  destruct reused as [[vc|]|e]; [by left; apply Hlook; constructor| |by left; apply Hlook; constructor].
  destruct lock as [l|]; [|by left; apply Hlook; constructor].
  eapply wp_mono; [apply buildContext_spec|]. intros tr' out [[Hn _]|Hb].
  - left. apply Hlook. by rewrite Hn.
  - right. exists l, (csteps tr), (csteps tr'). rewrite csteps_cons, csteps_app. auto.
Qed.

(** Giving a lock back: always asked for, and unlocked unless the lease is gone. *)
Definition released (ctx : Context) (lock : option Lock) (steps : list cstep) : Prop :=
  match lock with
  | None => steps = []
  | Some l => steps = [CHeld l false] \/ steps = [CHeld l true; CUnlock (WithoutCancel ctx) l]
  end.

Lemma releaseContextLock_spec ctx lock :
  wp (releaseContextLock ctx lock) (fun tr _ => released ctx lock (csteps tr)).
Proof. unfold releaseContextLock, released. wp_go; answers; cbn; auto. Qed.

Definition resolve_post (ctx : Context) (mf : MediaFile) (goal : string) (steps : list cstep) (r : res VideoContext) : Prop :=
  Forall (looking mf) steps
  \/ exists hash looked lock work rel, let h := NormalizeContentHash (mf_ID mf) hash in
       steps = CLoad (mf_ID mf) None :: CHash (mf_ID mf) hash :: looked
                 ++ CTried (ContextLock h) contextLockWait lock :: work ++ rel
       /\ noOther mf h looked /\ underLock ctx mf goal h lock work r /\ released ctx lock rel.

(** C21. The context of a video is built once and published safely. [resolveContext] either only looks for a
    context and reuses one; or, having found neither its own nor another media file's, tries once the build lock
    of the content hash it was told for this media file, waiting up to five minutes. A lock it gets is given
    back last, under a context no cancellation reaches, unless its lease is gone. It builds only between the
    two, after a second look found nothing either, from the file of the media and under a context that a lost
    lease cancels. What was built is saved first and registered as the owner of that same content hash
    afterwards, for seven days, so a registered owner is readable; if it cannot be saved, its evidence frames
    are deleted and nothing is registered. On every other path nothing is built, registered or deleted. *)
Theorem resolveContext_protocol (ctx : Context) (mf : MediaFile) (goal : string) (seed : Seed) (mode : AnalysisMode) :
  wp (resolveContext ctx mf goal seed mode) (fun tr out => resolve_post ctx mf goal (csteps tr) out.1).
Proof.
  unfold resolveContext, resolve_post. cbn [wp].
  intros [[cp|]|e]; [left; cbn; by repeat constructor| |by left; constructor].
  intros [hash|e]; [|left; cbn; by repeat constructor]. set (h := NormalizeContentHash (mf_ID mf) hash).
  apply wp_bind. eapply wp_mono; [apply reuseContentContext_spec|]. intros tr [reused seed'] [Hq Hnone]. cbn [fst] in *.
  assert (forall tr', csteps (Ev (ALoadContext ctx (mf_ID mf)) (Ok None) :: Ev (AContentHash ctx (mf_ID mf)) (Ok hash)
    :: tr ++ tr') = CLoad (mf_ID mf) None :: CHash (mf_ID mf) hash :: csteps tr ++ csteps tr') as Hs.
  { intros tr'. exact (f_equal (fun l => _ :: _ :: l) (csteps_app tr tr')). }
  assert (forall tr', csteps tr' = [] -> Forall (looking mf) (CLoad (mf_ID mf) None :: CHash (mf_ID mf) hash :: csteps tr ++ csteps tr'))
    as Hlook.
  { intros tr' ->. rewrite app_nil_r. by do 2 (constructor; [done|]). }
  destruct reused as [[vc|]|e]; cbn [wp]; [by left; rewrite Hs; apply Hlook| |by left; rewrite Hs; apply Hlook].
  intros [lock|e]; [|by left; rewrite Hs; apply Hlook].
  apply wp_bind. eapply wp_mono; [apply resolveLocked_spec|]. intros tr1 out H1.
  apply wp_bind. eapply wp_mono; [apply releaseContextLock_spec|]. intros tr2 [] H2. cbn [wp].
  right. exists hash, (csteps tr), lock, (csteps tr1), (csteps tr2). fold h.
  rewrite Hs, csteps_cons, app_nil_r, csteps_app. auto.
Qed.

(** ** One analysis *)

Definition failures : trace AnalyzerE -> list (Context * Z * TaskStage * gerror) :=
  select (fun X c =>
    match c in AnalyzerE X return X -> option (Context * Z * TaskStage * gerror) with
    | ASaveFailure ctx id _ _ stage e => fun _ => Some (ctx, id, stage, e)
    | _ => fun _ => None
    end).

Definition persisted : trace AnalyzerE -> list (Z * string * option string) :=
  select (fun X c =>
    match c in AnalyzerE X return X -> option (Z * string * option string) with
    | AUpdateAnalysis _ id summary transcript => fun r =>
        match r with Ok _ => Some (id, summary, transcript) | Err _ => None end
    | _ => fun _ => None
    end).

Definition agentRuns : trace AnalyzerE -> list (Context * res RunResult) :=
  select (fun X c =>
    match c in AnalyzerE X return X -> option (Context * res RunResult) with
    | ARun ctx _ => fun r => Some (ctx, r)
    | _ => fun _ => None
    end).

Definition foundMedia : trace AnalyzerE -> list MediaFile :=
  select (fun X c =>
    match c in AnalyzerE X return X -> option MediaFile with
    | AFindByID _ _ => fun r => match r with Ok m => m | Err _ => None end
    | _ => fun _ => None
    end).

(** Calls that neither run the agent nor record an outcome. *)
Definition preparing {X} (c : AnalyzerE X) : Prop :=
  match c with ASaveFailure _ _ _ _ _ _ | AUpdateAnalysis _ _ _ _ | ARun _ _ => False | _ => True end.

Lemma preparing_quiet tr : called (fun X c => preparing c) tr ->
  failures tr = [] /\ persisted tr = [] /\ agentRuns tr = [].
Proof.
  induction 1 as [|[X c x] tr Hc Htr (IH1 & IH2 & IH3)]; [done|].
  unfold failures, persisted, agentRuns, select in *. destruct c; cbn in *; done.
Qed.

Lemma resolveContext_preparing ctx mf goal seed mode :
  calls (fun X c => preparing c) (resolveContext ctx mf goal seed mode).
Proof.
  unfold resolveContext, resolveLocked, reuseContentContext, contextOwner, buildContext, rememberContextOwner, releaseContextLock.
  calls_go.
Qed.

Lemma resolveContext_runs ctx mf goal seed mode :
  wp (resolveContext ctx mf goal seed mode) (fun tr out =>
    execs (resolveContext ctx mf goal seed mode) tr out /\ failures tr = [] /\ persisted tr = [] /\ agentRuns tr = []).
Proof.
  assert (wp (resolveContext ctx mf goal seed mode) (fun _ _ => True)) as Ht.
  { unfold resolveContext, resolveLocked, reuseContentContext, contextOwner, buildContext, rememberContextOwner, releaseContextLock.
    by wp_go. }
  eapply wp_mono; [apply wp_and; [apply wp_self, Ht|apply wp_calls; [apply resolveContext_preparing|exact Ht]]|].
  intros tr out [[Hex _] [Hc _]]. split; [done|]. by apply preparing_quiet.
Qed.

Definition body_post (ctx : Context) (mediaID : Z) (mf : MediaFile) (goal : string) (mode : AnalysisMode)
    (seed : Seed) (tr : trace AnalyzerE) (stage : TaskStage) (r : res unit) : Prop :=
  failures tr = []
  /\ match r with
     | Ok _ =>
         (exists out, Ev (AResult ctx mediaID goal mode) (Ok out) ∈ tr /\ rr_Found out = true
            /\ agentRuns tr = [] /\ persisted tr = [(mf_ID mf, deref (rr_Markdown out), None)])
         \/ (exists out vc tr1 seed1, execs (resolveContext ctx mf goal seed mode) tr1 (Ok vc, seed1)
               /\ agentRuns tr = [(WithUser ctx (mf_UserID mf), Ok out)]
               /\ persisted tr = [(mf_ID mf, rn_Markdown out, Some (TranscriptText vc))])
     | Err _ => persisted tr = []
         /\ ((stage = StageVideoContext /\ agentRuns tr = []) \/ stage = StageAgentLoop)
     end.

Lemma runAgent_spec ctx mediaID mf goal mode seed :
  wp (runAgent ctx mediaID mf goal mode seed) (fun tr out => body_post ctx mediaID mf goal mode seed tr out.1 out.2).
Proof.
  unfold runAgent. apply wp_bind. eapply wp_mono; [apply resolveContext_runs|].
  intros tr [r seed'] (Hex & Hf & Hp & Ha). unfold body_post, failures, persisted, agentRuns in *.
  destruct r as [vc|e]; unfold persistResult; wp_go; answers; rewrite !select_app, Hf, Hp, Ha; cbn; eauto 10.
Qed.

Lemma analyzeBody_spec ctx mediaID mf goal mode seed :
  wp (analyzeBody ctx mediaID mf goal mode seed) (fun tr out => body_post ctx mediaID mf goal mode seed tr out.1 out.2).
Proof.
  unfold analyzeBody. cbn [wp]. intros [[|]|e]; [| |by (split; [done|split; [done|by left]])].
  - intros [out|e]; [|by (split; [done|split; [done|by left]])]. destruct (rr_Found out) eqn:Ef.
    + unfold persistResult. wp_go; answers; unfold body_post; cbn; [|eauto].
      split; [done|]. left. exists out. split; [ev_in|done].
    + eapply wp_mono; [apply runAgent_spec|]. intros tr [stage r] (Hf & Hr). unfold body_post, failures, persisted, agentRuns in *.
      cbn [fst snd] in *. split; [done|]. destruct r; [|done]. destruct Hr as [(out' & Hin & Hrest)|Hr]; [left|right; exact Hr].
      exists out'. split; [by do 2 right|done].
  - eapply wp_mono; [apply runAgent_spec|]. intros tr [stage r] (Hf & Hr). unfold body_post, failures, persisted, agentRuns in *.
    cbn [fst snd] in *. split; [done|]. destruct r; [|done]. destruct Hr as [(out' & Hin & Hrest)|Hr]; [left|right; exact Hr].
    exists out'. split; [by right|done].
Qed.

Lemma analysisError_budget e : HasErr (analysisError e) KindBudgetExhausted = HasErr e KindBudgetExhausted.
Proof. by destruct e as [[] code msg c|msg snt c]. Qed.

Lemma analysisError_permanent e : (length (chain e) < maxCauseDepth)%nat ->
  IsPermanentFailure (Some (analysisError e)) = IsPermanentFailure (Some e).
Proof.
  intros Hlen. assert (forall e', IsPermanentFailure (Some (Internal "AI analysis failed" (Some e')))
    = existsb permanent_kind (take 15 (chain e'))) as Hw by (intros e'; unfold IsPermanentFailure; by rewrite permanent_walk_chain).
  assert (analysisError e = e \/ analysisError e = Internal "AI analysis failed" (Some e)) as [->| ->].
  { destruct e as [[] code msg c|msg snt c]; auto. }
  - done.
  - rewrite Hw. unfold IsPermanentFailure. rewrite permanent_walk_chain. unfold maxCauseDepth in *.
    by rewrite !take_ge by lia.
Qed.

(** C18. The outcome of one analysis. [AsyncAnalyze] reports success only when a result was persisted exactly
    once: the finished one the agent already has, or the one of a single agent run over the resolved context,
    billed to the owner of the video, with that context's transcript. When it fails after the media was found,
    nothing was persisted, the failure was checkpointed exactly once, last, under a context no cancellation
    reaches, with the stage it happened in; and the error that is returned is a budget error exactly when the
    cause is one, and permanent exactly when the cause is (for cause chains within the bound). *)
Theorem AsyncAnalyze_contract (ctx : Context) (mediaID : Z) (goal : string) (mode : AnalysisMode) :
  wp (AsyncAnalyze ctx mediaID goal mode) (fun tr r =>
    match r with
    | Ok _ => exists mf traceID tr', Ev (AFindByID ctx mediaID) (Ok (Some mf)) ∈ tr /\ failures tr = []
        /\ body_post ctx mediaID mf goal (Resolve mode) (NewSeed traceID) tr' StageAgentLoop (Ok tt)
        /\ persisted tr = persisted tr' /\ agentRuns tr = agentRuns tr'
    | Err e => persisted tr = []
        /\ ((failures tr = [] /\ agentRuns tr = [] /\ foundMedia tr = [])
            \/ exists tr' stage cause u,
                 tr = tr' ++ [Ev (ASaveFailure (WithoutCancel ctx) mediaID goal (Resolve mode) stage cause) u]
                 /\ failures tr = [(WithoutCancel ctx, mediaID, stage, cause)] /\ detached (WithoutCancel ctx)
                 /\ ((stage = StageVideoContext /\ agentRuns tr = []) \/ stage = StageAgentLoop)
                 /\ e = analysisError cause
                 /\ HasErr e KindBudgetExhausted = HasErr cause KindBudgetExhausted
                 /\ ((length (chain cause) < maxCauseDepth)%nat ->
                     IsPermanentFailure (Some e) = IsPermanentFailure (Some cause)))
    end).
Proof.
  unfold AsyncAnalyze, bind_ok, call. cbn [bind wp]. intros traceID [[mf|]|e].
  2-3: cbn [wp]; split; [done|]; by left.
  cbn [bind]. apply wp_bind. eapply wp_mono; [apply analyzeBody_spec|]. intros tr [stage r] (Hf & Hr). cbn [fst snd] in *.
  assert (forall tr', failures (Ev ANewUUID traceID :: Ev (AFindByID ctx mediaID) (Ok (Some mf)) :: tr ++ tr') = failures tr ++ failures tr'
    /\ persisted (Ev ANewUUID traceID :: Ev (AFindByID ctx mediaID) (Ok (Some mf)) :: tr ++ tr') = persisted tr ++ persisted tr'
    /\ agentRuns (Ev ANewUUID traceID :: Ev (AFindByID ctx mediaID) (Ok (Some mf)) :: tr ++ tr') = agentRuns tr ++ agentRuns tr') as Hs.
  { intros tr'. unfold failures, persisted, agentRuns. cbn [select omap list_omap]. by rewrite !omap_app. }
  destruct r as [u|e]; cbn [wp].
  - destruct (Hs []) as (-> & Hp & Ha). exists mf, traceID, tr. rewrite Hp, Ha. cbn. rewrite !app_nil_r.
    split; [ev_in|]. split; [done|]. split; [|done]. split; [done|]. exact Hr.
  - intros w. destruct Hr as [Hp Hst]. destruct (Hs [Ev (ASaveFailure (WithoutCancel ctx) mediaID goal (Resolve mode) stage e) w]) as (Hf' & Hp' & Ha').
    rewrite Hp'. split; [by rewrite Hp|]. right.
    exists (Ev ANewUUID traceID :: Ev (AFindByID ctx mediaID) (Ok (Some mf)) :: tr), stage, e, w.
    split; [done|]. rewrite Hf', Ha', Hf. cbn. rewrite app_nil_r.
    split_and!; try done; [apply analysisError_budget|apply analysisError_permanent].
Qed.

(** ** Reused contexts *)

(** The segment a reuse makes of [s] for the media file at [target]. *)
Definition localizes (target : string) (s s' : VideoSegment) : Prop :=
  StartMs s' = StartMs s /\ EndMs s' = EndMs s /\ Transcript s' = TrimSpace (Transcript s) /\ OcrTexts s' = OcrTexts s
  /\ EvidenceFrames s' = (if Nat.eqb (length (EvidenceFrames s)) 0 then []
                          else [target +:+ "#timestampMs=" +:+ FormatInt (StartMs s)]).

Lemma reuseSegments_spec target l l' :
  reuseSegments target l = Ok l' -> Forall segment_ok l' /\ Forall2 (localizes target) l l'.
Proof.
  revert l'. induction l as [|s l IH]; intros l'; cbn [reuseSegments]; [intros [= <-]; split; constructor|].
  destruct (NewVideoSegment _ _ _ _ _) as [ns|e] eqn:En; [|done].
  destruct (reuseSegments target l) as [segs|e]; [|done]. intros [= <-]. destruct (IH segs eq_refl) as [H1 H2].
  split; (constructor; [|done]); [by eapply NewVideoSegment_ok|].
  unfold NewVideoSegment in En. case_match; [done|]. injection En as <-. unfold localizes. cbn.
  by destruct (EvidenceFrames s).
Qed.

Lemma reuseSegments_total target l : Forall segment_ok l -> exists l', reuseSegments target l = Ok l'.
Proof.
  induction 1 as [|s l [Hr Ht] _ (l' & IH)]; cbn [reuseSegments]; [by eexists|].
  unfold NewVideoSegment. replace ((StartMs s <? 0) || (EndMs s <=? StartMs s)) with false by lia. rewrite IH. by eexists.
Qed.

(** Reusing another media's context shares its content and nothing else. For a well-formed source
    context and a non-blank target the reuse always succeeds; the result is well formed, belongs to the
    target, carries no goal, keeps the time ranges, transcripts and on-screen texts in order, and every
    evidence frame is a reference into the target itself, so no stored frame of the source media is
    shared (and deleting one media cannot break the other's evidence). *)
Theorem ReusableContext_spec (target : string) (src : VideoContext) :
  context_ok src -> is_blank target = false ->
  exists c, ReusableContext target src = Ok c /\ context_ok c
    /\ vc_Source c = target /\ vc_UserGoal c = "" /\ Forall2 (localizes target) (vc_Segments src) (vc_Segments c)
    /\ Forall (fun s => Forall (fun f => f = target +:+ "#timestampMs=" +:+ FormatInt (StartMs s)) (EvidenceFrames s))
         (vc_Segments c).
Proof.
  intros (_ & _ & Hsegs) Ht. destruct (reuseSegments_total target _ Hsegs) as [segs Hr].
  destruct (reuseSegments_spec _ _ _ Hr) as [Hok Hl]. unfold ReusableContext, NewVideoContext. rewrite Hr, Ht.
  eexists. split; [done|]. split_and!; try done.
  cbn. clear -Hl. induction Hl as [|s s' l l' (H1 & _ & _ & _ & Hf) _ IH]; constructor; [|done].
    rewrite Hf, H1. case_match; by repeat constructor.
Qed.

Lemma ReusableContext_spec_witness :
  let src := mkContext "http://minio/media/a.mp4" "notes" [mkSegment 0 60000 "hello" ["title"] ["http://minio/media/f.jpg"]] in
  context_ok src /\ is_blank "http://minio/media/b.mp4" = false
  /\ exists c, ReusableContext "http://minio/media/b.mp4" src = Ok c /\ context_ok c
    /\ vc_Source c = "http://minio/media/b.mp4" /\ vc_UserGoal c = ""
    /\ Forall2 (localizes "http://minio/media/b.mp4") (vc_Segments src) (vc_Segments c)
    /\ Forall (fun s => Forall (fun f => f = "http://minio/media/b.mp4" +:+ "#timestampMs=" +:+ FormatInt (StartMs s)) (EvidenceFrames s))
         (vc_Segments c).
Proof.
  assert (context_ok (mkContext "http://minio/media/a.mp4" "notes" [mkSegment 0 60000 "hello" ["title"] ["http://minio/media/f.jpg"]])) as Hok.
  { split; [reflexivity|]. split; [reflexivity|]. repeat constructor; cbn; lia. }
  split; [exact Hok|]. split; [reflexivity|].
  apply (ReusableContext_spec "http://minio/media/b.mp4" _ Hok). reflexivity.
Defined.
