(* ===== verification/Frames.v ===== *)
(** * Key frames and the merge of the two branches (internal/videocontext: frames.go, service.go)

    The pure part of the context builder: the perceptual hash of a decoded image, the distance of two
    hashes, and the merge of transcribed audio and recognised frames into 60-second segments. *)

From S2P Require Import Prelude GoStrings Errors Model.

Local Open Scope string_scope.
Local Open Scope list_scope.
Local Open Scope Z_scope.

(** ** Images *)

(** A decoded image: its bounds and the channels of [At(x, y).RGBA()], each a 16-bit value. *)
Record Image := mkImage {
  im_MinX : Z; im_MinY : Z; im_Dx : Z; im_Dy : Z; im_RGBA : Z -> Z -> Z * Z * Z }.

(** Where the sample of cell (x, y) is taken. *)
Definition sampleX (img : Image) (x : Z) : Z := im_MinX img + Z.quot ((2 * x + 1) * im_Dx img) 18.
Definition sampleY (img : Image) (y : Z) : Z := im_MinY img + Z.quot ((2 * y + 1) * im_Dy img) 16.

(** [(299*r + 587*g + 114*bl) / 1000] in [uint32]. *)
Definition gray (img : Image) (y x : Z) : Z :=
  let '(r, g, bl) := im_RGBA img (sampleX img x) (sampleY img y) in
  u32 (299 * r + 587 * g + 114 * bl) / 1000.

Definition brighter (img : Image) (y x : Z) : bool := gray img y (x + 1) <? gray img y x.

(** The 8x8 comparisons in the order of the two loops. *)
Definition cells : list (Z * Z) := y ← seqZ 0 8; x ← seqZ 0 8; [(y, x)].

(** [hash <<= 1; if bit { hash |= 1 }]. *)
Definition hash_step (hash : Z) (bit : bool) : Z :=
  let hash := u64 (Z.shiftl hash 1) in if bit then Z.lor hash 1 else hash.

(** [None] is a file that cannot be opened or decoded. *)
Definition DifferenceHash (img : option Image) : Z :=
  match img with
  | None => 0
  | Some img =>
      if (im_Dx img =? 0) || (im_Dy img =? 0) then 0
      else fold_left hash_step ((fun '(y, x) => brighter img y x) <$> cells) 0
  end.

(** [bits.OnesCount64]. *)
Definition OnesCount64 (z : Z) : Z := Z.of_nat (length (List.filter (Z.testbit z) (seqZ 0 64))).

Definition HammingDistance (a b : Z) : Z := OnesCount64 (Z.lxor a b).

(** ** Merging the branches *)

Definition segmentMs : Z := 60000.

Record framePart := mkFramePart { fp_timestampMs : Z; fp_ocrText : string; fp_frameName : string }.

Record segmentBuilder := mkBuilder {
  sb_transcripts : list string; sb_ocrTexts : list string; sb_frames : list string }.

(** Go's division truncates. *)
Definition windowStart (ts : Z) : Z := Z.quot ts segmentMs * segmentMs.

Definition get (windows : gmap Z segmentBuilder) (k : Z) : segmentBuilder :=
  default (mkBuilder [] [] []) (windows !! k).

Definition addTranscript (windows : gmap Z segmentBuilder) (t : TranscriptSegment) : gmap Z segmentBuilder :=
  let k := windowStart (tr_StartMs t) in
  let b := get windows k in
  <[k := mkBuilder (sb_transcripts b ++ [tr_Text t]) (sb_ocrTexts b) (sb_frames b)]> windows.

Definition addFrame (windows : gmap Z segmentBuilder) (f : framePart) : gmap Z segmentBuilder :=
  let k := windowStart (fp_timestampMs f) in
  let b := get windows k in
  let ocr := if negb (is_blank (fp_ocrText f)) then sb_ocrTexts b ++ [fp_ocrText f] else sb_ocrTexts b in
  <[k := mkBuilder (sb_transcripts b) ocr (sb_frames b ++ [fp_frameName f])]> windows.

Definition newline : string := String (ascii_of_Z 10) "".

Fixpoint segmentsOf (windows : gmap Z segmentBuilder) (keys : list Z) : res (list VideoSegment) :=
  match keys with
  | [] => Ok []
  | k :: keys =>
      let b := get windows k in
      match NewVideoSegment k (int64 (k + segmentMs)) (Join (sb_transcripts b) newline) (sb_ocrTexts b)
              (sb_frames b) with
      | Err e => Err e
      | Ok seg => match segmentsOf windows keys with Err e => Err e | Ok out => Ok (seg :: out) end
      end
  end.

Definition merge (transcripts : list TranscriptSegment) (frames : list framePart) : res (list VideoSegment) :=
  let windows := fold_left addFrame frames (fold_left addTranscript transcripts ∅) in
  segmentsOf windows (merge_sort Z.le (fst <$> map_to_list windows)).

(** ** The hash *)

Lemma hash_step_bit h b (i : Z) :
  0 <= i < 64 -> Z.testbit (hash_step h b) i = if i =? 0 then b else Z.testbit h (i - 1).
Proof.
  intros Hi. unfold hash_step, u64. destruct (Z.eqb_spec i 0) as [->|Hne].
  - destruct b; rewrite ?Z.lor_spec, Z.mod_pow2_bits_low, Z.shiftl_spec_low by lia; done.
  - assert (Z.testbit 1 i = false) as H1.
    { replace 1 with (2 ^ 0) by done. apply Z.pow2_bits_false. lia. }
    destruct b; rewrite ?Z.lor_spec, Z.mod_pow2_bits_low, Z.shiftl_spec, ?H1, ?orb_false_r by lia;
      f_equal; lia.
Qed.

(** Bit [i] of the hash of at most 64 comparisons is the [i]-th comparison from the end. *)
Lemma hash_bits (bs : list bool) (i : Z) :
  0 <= i < Z.of_nat (length bs) -> (length bs <= 64)%nat ->
  Z.testbit (fold_left hash_step bs 0) i = nth (length bs - 1 - Z.to_nat i) bs false.
Proof.
  revert i. induction bs as [|b bs IH] using rev_ind; intros i Hi Hlen; [simpl in Hi; lia|].
  rewrite length_app in *. simpl in *. rewrite fold_left_app. cbn [fold_left].
  rewrite hash_step_bit by lia. destruct (Z.eqb_spec i 0) as [->|Hne].
  - rewrite app_nth2 by lia. by replace (_ - _)%nat with 0%nat by lia.
  - rewrite IH by lia. rewrite app_nth1 by lia. f_equal. lia.
Qed.

Lemma filter_fmap_length {A} (f : A -> bool) (l : list A) :
  length (List.filter f l) = length (List.filter id (f <$> l)).
Proof. induction l as [|a l IH]; [done|]. cbn. destruct (f a); cbn; lia. Qed.

Lemma filter_rev_length (l : list bool) : length (List.filter id (rev l)) = length (List.filter id l).
Proof.
  induction l as [|b l IH]; [done|]. cbn [rev]. rewrite List.filter_app, length_app, IH.
  destruct b; cbn; lia.
Qed.

(** The set bits of a word whose bit [i] is the [i]-th comparison from the end. *)
Lemma count_bits (f : Z -> bool) (l : list bool) :
  (forall i, 0 <= i < Z.of_nat (length l) -> f i = nth (length l - 1 - Z.to_nat i) l false) ->
  length (List.filter f (seqZ 0 (Z.of_nat (length l)))) = length (List.filter id l).
Proof.
  intros Hf. rewrite filter_fmap_length, <- filter_rev_length. do 2 f_equal.
  apply nth_ext with false false; [by rewrite length_rev, length_fmap, length_seqZ, Nat2Z.id|].
  intros n Hn. rewrite length_rev, length_fmap, length_seqZ, Nat2Z.id in Hn.
  rewrite rev_nth, length_fmap, length_seqZ, Nat2Z.id by by rewrite length_fmap, length_seqZ, Nat2Z.id.
  rewrite (nth_indep (f <$> _) false (f 0)) by (rewrite length_fmap, length_seqZ; lia).
  rewrite (map_nth f).
  replace (nth (length l - S n) (seqZ 0 (Z.of_nat (length l))) 0) with (Z.of_nat (length l - S n)).
  - rewrite Hf by lia. f_equal. lia.
  - symmetry. apply nth_lookup_Some. by rewrite lookup_seqZ_lt by lia.
Qed.

Lemma xor_bits (l : list (Z * Z)) (f g : Z * Z -> bool) (n : nat) :
  xorb (nth n (f <$> l) false) (nth n (g <$> l) false) = nth n ((fun c => xorb (f c) (g c)) <$> l) false.
Proof. revert n. induction l as [|c l IH]; intros [|n]; try done. apply IH. Qed.

Definition sized (img : Image) : Prop := 0 < im_Dx img /\ 0 < im_Dy img.

(** 16-bit channels, as [color.Color] promises. *)
Definition channels_ok (img : Image) : Prop :=
  forall x y, let '(r, g, bl) := im_RGBA img x y in 0 <= r < 2 ^ 16 /\ 0 <= g < 2 ^ 16 /\ 0 <= bl < 2 ^ 16.

Lemma sample_range (min d k n : Z) :
  0 < d -> 0 <= k < n -> min <= min + Z.quot ((2 * k + 1) * d) (2 * n) < min + d.
Proof.
  intros Hd Hk. rewrite Z.quot_div_nonneg by nia.
  assert (0 <= (2 * k + 1) * d / (2 * n)) by (apply Z.div_pos; nia).
  assert ((2 * k + 1) * d / (2 * n) < d) by (apply Z.div_lt_upper_bound; nia). lia.
Qed.

(** Skipping a frame compares pictures. The distance of the hashes of two decoded images is the number of
    the 64 cell pairs that one image orders differently from the other, every sample is taken inside the
    bounds of the image, and the weighted grey value does not overflow its 32 bits. *)
Theorem HammingDistance_counts (a b : Image) :
  sized a -> sized b -> channels_ok a ->
  HammingDistance (DifferenceHash (Some a)) (DifferenceHash (Some b))
    = Z.of_nat (length (List.filter (fun '(y, x) => xorb (brighter a y x) (brighter b y x)) cells))
  /\ forall y x, 0 <= y < 8 -> 0 <= x < 9 ->
       im_MinX a <= sampleX a x < im_MinX a + im_Dx a /\ im_MinY a <= sampleY a y < im_MinY a + im_Dy a
       /\ let '(r, g, bl) := im_RGBA a (sampleX a x) (sampleY a y) in
          gray a y x = (299 * r + 587 * g + 114 * bl) / 1000.
Proof.
  intros [Hw Hh] [Hw' Hh'] Hch. split.
  - unfold DifferenceHash.
    replace ((im_Dx a =? 0) || (im_Dy a =? 0)) with false by lia.
    replace ((im_Dx b =? 0) || (im_Dy b =? 0)) with false by lia.
    unfold HammingDistance, OnesCount64. f_equal.
    rewrite (filter_fmap_length _ cells).
    change (seqZ 0 64) with (seqZ 0 (Z.of_nat (length ((fun '(y, x) => xorb (brighter a y x) (brighter b y x)) <$> cells)))).
    apply count_bits. rewrite length_fmap. intros i Hi.
    rewrite Z.lxor_spec, !hash_bits by (rewrite length_fmap; done || (vm_compute in Hi |- *; lia)).
    rewrite !length_fmap. rewrite xor_bits. f_equal.
  - intros y x Hy Hx. specialize (Hch (sampleX a x) (sampleY a y)).
    split; [apply (sample_range _ _ x 9); lia|]. split; [apply (sample_range _ _ y 8); lia|]. unfold gray.
    destruct (im_RGBA a _ _) as [[r g] bl]. by rewrite u32_id by lia.
Qed.

(** ** The merge *)

Definition inWindow (k ts : Z) : bool := windowStart ts =? k.

Lemma lookup_addTranscripts ts w k :
  fold_left addTranscript ts w !! k =
  match List.filter (fun t => inWindow k (tr_StartMs t)) ts with
  | [] => w !! k
  | here => Some (mkBuilder (sb_transcripts (get w k) ++ (tr_Text <$> here)) (sb_ocrTexts (get w k)) (sb_frames (get w k)))
  end.
Proof.
  revert w. induction ts as [|t ts IH]; intros w; [done|]. cbn [fold_left List.filter]. rewrite IH.
  unfold addTranscript, inWindow, get. destruct (Z.eqb_spec (windowStart (tr_StartMs t)) k) as [->|Hne].
  - destruct (List.filter _ ts); rewrite lookup_insert_eq; [done|]. cbn. by rewrite <- app_assoc.
  - destruct (List.filter _ ts); by rewrite lookup_insert_ne.
Qed.

Definition ocrOf (frames : list framePart) : list string :=
  List.filter (fun s => negb (is_blank s)) (fp_ocrText <$> frames).

Lemma lookup_addFrames fs w k :
  fold_left addFrame fs w !! k =
  match List.filter (fun f => inWindow k (fp_timestampMs f)) fs with
  | [] => w !! k
  | here => Some (mkBuilder (sb_transcripts (get w k)) (sb_ocrTexts (get w k) ++ ocrOf here)
                    (sb_frames (get w k) ++ (fp_frameName <$> here)))
  end.
Proof.
  revert w. induction fs as [|f fs IH]; intros w; [done|]. cbn [fold_left List.filter]. rewrite IH.
  unfold addFrame, inWindow, get, ocrOf. destruct (Z.eqb_spec (windowStart (fp_timestampMs f)) k) as [->|Hne].
  - destruct (List.filter _ fs) eqn:E; rewrite lookup_insert_eq; cbn; destruct (is_blank (fp_ocrText f)); cbn;
      by rewrite <- ?app_assoc, ?app_nil_r.
  - destruct (List.filter _ fs); by rewrite lookup_insert_ne.
Qed.

(** The builder of one window, and whether there is one. *)
Definition windowOf (ts : list TranscriptSegment) (fs : list framePart) (k : Z) : segmentBuilder :=
  let ts := List.filter (fun t => inWindow k (tr_StartMs t)) ts in
  let fs := List.filter (fun f => inWindow k (fp_timestampMs f)) fs in
  mkBuilder (tr_Text <$> ts) (ocrOf fs) (fp_frameName <$> fs).

Definition stamps (ts : list TranscriptSegment) (fs : list framePart) : list Z :=
  (tr_StartMs <$> ts) ++ (fp_timestampMs <$> fs).

Lemma filter_window_nil {A} (f : A -> Z) (l : list A) k :
  List.filter (fun a => inWindow k (f a)) l = [] <-> k ∉ (windowStart <$> (f <$> l)).
Proof.
  induction l as [|a l IH]; cbn; [split; [intros _; set_solver|done]|].
  rewrite not_elem_of_cons. unfold inWindow at 1. destruct (Z.eqb_spec (windowStart (f a)) k) as [->|Hne].
  - split; [done|]. intros [Hn _]. by destruct Hn.
  - rewrite IH. split; [by split|by intros [_ ?]].
Qed.

Lemma windows_spec ts fs k :
  let w := fold_left addFrame fs (fold_left addTranscript ts ∅) in
  get w k = windowOf ts fs k /\ (is_Some (w !! k) <-> k ∈ windowStart <$> stamps ts fs).
Proof.
  cbv zeta. unfold get at 1. rewrite lookup_addFrames. unfold get. rewrite lookup_addTranscripts.
  rewrite lookup_empty. unfold stamps, windowOf. rewrite fmap_app, elem_of_app.
  pose proof (filter_window_nil tr_StartMs ts k) as Ht. pose proof (filter_window_nil fp_timestampMs fs k) as Hf.
  destruct (List.filter (fun t => inWindow k (tr_StartMs t)) ts) eqn:Et,
    (List.filter (fun f => inWindow k (fp_timestampMs f)) fs) eqn:Ef; cbn; (split; [done|]).
  - split; [by intros [? ?]|]. intros [Hk|Hk]; exfalso; [by apply Ht|by apply Hf].
  - split; [intros _; right|by eexists]. apply dec_stable. intros Hk%Hf. done.
  - split; [intros _; left|by eexists]. apply dec_stable. intros Hk%Ht. done.
  - split; [intros _; left|by eexists]. apply dec_stable. intros Hk%Ht. done.
Qed.

Definition segmentAt (w : gmap Z segmentBuilder) (k : Z) : VideoSegment :=
  mkSegment k (k + segmentMs) (TrimSpace (Join (sb_transcripts (get w k)) newline)) (sb_ocrTexts (get w k))
    (sb_frames (get w k)).

Lemma segmentsOf_ok w keys :
  Forall (fun k => 0 <= k < 2 ^ 63 - segmentMs) keys -> segmentsOf w keys = Ok (segmentAt w <$> keys).
Proof.
  induction 1 as [|k keys Hk Hkeys IH]; [done|]. cbn [segmentsOf]. unfold NewVideoSegment.
  unfold segmentMs in *. rewrite int64_id by lia.
  replace ((k <? 0) || (k + 60000 <=? k)) with false by lia. by rewrite IH.
Qed.

Lemma windowStart_bounds s : 0 <= s -> windowStart s <= s < windowStart s + segmentMs /\ 0 <= windowStart s.
Proof.
  intros Hs. unfold windowStart. rewrite Z.quot_div_nonneg by (done || lia).
  pose proof (Z.mul_div_le s segmentMs). pose proof (Z.mul_succ_div_gt s segmentMs).
  assert (0 <= s / segmentMs) by (by apply Z.div_pos). unfold segmentMs in *. lia.
Qed.

Definition inRange (lo hi : Z) (s : Z) : bool := (lo <=? s) && (s <? hi).

(** In an aligned window, being in the window is being in its range. *)
Lemma inWindow_range s0 s :
  0 <= s0 -> 0 <= s -> inWindow (windowStart s0) s = inRange (windowStart s0) (windowStart s0 + segmentMs) s.
Proof.
  intros Hs0 Hs. pose proof (windowStart_bounds s Hs) as [Hb _]. unfold inWindow, inRange.
  unfold windowStart in *. rewrite !Z.quot_div_nonneg in * by (done || lia). unfold segmentMs in *.
  destruct (Z.eqb_spec (s / 60000 * 60000) (s0 / 60000 * 60000)) as [E|E]; lia.
Qed.

Lemma filter_stamps {A} (f : A -> Z) (l : list A) s0 :
  0 <= s0 -> Forall (fun a => 0 <= f a) l ->
  List.filter (fun a => inWindow (windowStart s0) (f a)) l =
  List.filter (fun a => inRange (windowStart s0) (windowStart s0 + segmentMs) (f a)) l.
Proof.
  intros Hs0. induction 1 as [|a l Ha Hl IH]; [done|]. cbn. by rewrite inWindow_range, IH.
Qed.

Lemma keys_sorted (w : gmap Z segmentBuilder) :
  StronglySorted Z.lt (merge_sort Z.le (fst <$> map_to_list w))
  /\ forall k, k ∈ merge_sort Z.le (fst <$> map_to_list w) <-> is_Some (w !! k).
Proof.
  split.
  - assert (NoDup (merge_sort Z.le (fst <$> map_to_list w))) as Hnd.
    { rewrite merge_sort_Permutation. apply NoDup_fst_map_to_list. }
    pose proof (StronglySorted_merge_sort Z.le (fst <$> map_to_list w)) as Hs.
    induction Hs as [|k l Hl IH Hk]; [constructor|]. apply NoDup_cons in Hnd as [Hnk Hnd].
    constructor; [by apply IH|]. rewrite Forall_forall in *. intros j Hj.
    specialize (Hk j Hj). assert (j <> k) by (by intros ->). lia.
  - intros k. rewrite merge_sort_Permutation, list_elem_of_fmap. split.
    + intros ([k' b] & -> & Hin%elem_of_map_to_list). by exists b.
    + intros [b Hb]. exists (k, b). split; [done|by apply elem_of_map_to_list].
Qed.

Lemma segmentsOf_frames w keys segs :
  segmentsOf w keys = Ok segs -> EvidenceFrames <$> segs = (fun k => sb_frames (get w k)) <$> keys.
Proof.
  revert segs. induction keys as [|k keys IH]; cbn [segmentsOf]; intros segs Hs; [by injection Hs as <-|].
  unfold NewVideoSegment in Hs. destruct (_ || _); [done|].
  destruct (segmentsOf w keys) as [out|]; [|done]. injection Hs as <-. cbn. f_equal. by apply IH.
Qed.

(** The frames of merged segments are the frames of the vision branch. *)
Lemma merge_frames ts fs segs u :
  merge ts fs = Ok segs ->
  (exists seg, seg ∈ segs /\ u ∈ EvidenceFrames seg) <-> u ∈ fp_frameName <$> fs.
Proof.
  unfold merge. set (w := fold_left addFrame fs (fold_left addTranscript ts ∅)). intros Hm.
  destruct (keys_sorted w) as [_ Hkeys]. set (keys := merge_sort Z.le (fst <$> map_to_list w)) in *.
  apply segmentsOf_frames in Hm.
  assert ((exists seg, seg ∈ segs /\ u ∈ EvidenceFrames seg) <-> exists k, k ∈ keys /\ u ∈ sb_frames (get w k)) as ->.
  { split.
    - intros (seg & Hseg & Hu). apply (list_elem_of_fmap_2 EvidenceFrames) in Hseg. rewrite Hm in Hseg.
      apply list_elem_of_fmap in Hseg as (k & Hk & Hin). exists k. by rewrite <- Hk.
    - intros (k & Hk & Hu). apply (list_elem_of_fmap_2 (fun k => sb_frames (get w k))) in Hk. rewrite <- Hm in Hk.
      apply list_elem_of_fmap in Hk as (seg & Hseg & Hin). exists seg. by rewrite <- Hseg. }
  split.
  - intros (k & _ & Hu). destruct (windows_spec ts fs k) as [Hw _]. fold w in Hw. rewrite Hw in Hu. cbn in Hu.
    apply list_elem_of_fmap in Hu as (f & -> & Hf). apply list_elem_of_fmap_2. apply list_elem_of_In, filter_In in Hf as [Hf _].
    by apply list_elem_of_In.
  - intros (f & -> & Hf)%list_elem_of_fmap. exists (windowStart (fp_timestampMs f)).
    destruct (windows_spec ts fs (windowStart (fp_timestampMs f))) as [Hw Hin]. fold w in Hw, Hin. split.
    + apply Hkeys, Hin. unfold stamps. rewrite fmap_app, elem_of_app. right. by do 2 apply list_elem_of_fmap_2.
    + rewrite Hw. cbn. apply list_elem_of_fmap_2, list_elem_of_In, filter_In. split; [by apply list_elem_of_In|].
      unfold inWindow. lia.
Qed.

(** The merge loses nothing and invents nothing. For timestamps of a video (non-negative, not within a
    minute of the largest [int64]) the two branches are merged into segments of one minute in strictly
    increasing order; every transcript and frame lies in the range of one of them, no segment is empty, and
    a segment holds exactly the texts, non-blank recognised texts and frame names of its minute, in the
    order the branches delivered them. *)
Theorem merge_windows (ts : list TranscriptSegment) (fs : list framePart) :
  Forall (fun s => 0 <= s < 2 ^ 63 - segmentMs) (stamps ts fs) ->
  exists segs, merge ts fs = Ok segs
    /\ StronglySorted Z.lt (StartMs <$> segs)
    /\ (forall s, s ∈ stamps ts fs -> exists seg, seg ∈ segs /\ StartMs seg <= s < EndMs seg)
    /\ forall seg, seg ∈ segs ->
         let here := inRange (StartMs seg) (EndMs seg) in
         (segmentMs | StartMs seg) /\ EndMs seg = StartMs seg + segmentMs
         /\ (exists s, s ∈ stamps ts fs /\ StartMs seg <= s < EndMs seg)
         /\ Transcript seg
            = TrimSpace (Join (tr_Text <$> List.filter (fun t => here (tr_StartMs t)) ts) newline)
         /\ OcrTexts seg = ocrOf (List.filter (fun f => here (fp_timestampMs f)) fs)
         /\ EvidenceFrames seg = fp_frameName <$> List.filter (fun f => here (fp_timestampMs f)) fs.
Proof.
  intros Hstamps. unfold merge. set (w := fold_left addFrame fs (fold_left addTranscript ts ∅)).
  destruct (keys_sorted w) as [Hsorted Hkeys]. set (keys := merge_sort Z.le (fst <$> map_to_list w)) in *.
  assert (forall k, k ∈ keys <-> k ∈ windowStart <$> stamps ts fs) as Hin.
  { intros k. rewrite Hkeys. apply windows_spec. }
  pose proof Hstamps as Hst. rewrite Forall_forall in Hst.
  exists (segmentAt w <$> keys). split; [|split; [|split]].
  - apply segmentsOf_ok, Forall_forall. intros k (s & -> & Hs)%Hin%list_elem_of_fmap.
    specialize (Hst s Hs). pose proof (windowStart_bounds s ltac:(lia)). lia.
  - by rewrite <- list_fmap_compose, list_fmap_id.
  - intros s Hs. specialize (Hst s Hs). exists (segmentAt w (windowStart s)).
    split; [apply list_elem_of_fmap_2, Hin, list_elem_of_fmap_2, Hs|]. apply windowStart_bounds. lia.
  - intros seg (k & -> & (s & -> & Hs)%Hin%list_elem_of_fmap)%list_elem_of_fmap. cbn zeta.
    specialize (Hst s Hs). apply Forall_app in Hstamps as [Hts%Forall_fmap Hfs%Forall_fmap].
    assert (0 <= s) by lia.
    unfold segmentAt. cbn [StartMs EndMs Transcript OcrTexts EvidenceFrames].
    destruct (windows_spec ts fs (windowStart s)) as [Hw _]. fold w in Hw. rewrite Hw. unfold windowOf. cbn [sb_transcripts sb_ocrTexts sb_frames].
    rewrite !filter_stamps by (done || (eapply Forall_impl; [eassumption|]; cbn; lia)).
    split; [by eexists|]. split; [done|]. split; [|done]. exists s. split; [done|]. apply windowStart_bounds. lia.
Qed.

Definition sampleSpeech : list TranscriptSegment :=
  [mkTranscript 0 60000 "hello"; mkTranscript 60000 120000 "world"].
Definition sampleFrames : list framePart :=
  [mkFramePart 500 "title" "f0"; mkFramePart 61000 " " "f1"; mkFramePart 200000 "end" "f2"].

Lemma merge_windows_witness :
  merge sampleSpeech sampleFrames
  = Ok [mkSegment 0 60000 "hello" ["title"] ["f0"]; mkSegment 60000 120000 "world" [] ["f1"];
        mkSegment 180000 240000 "" ["end"] ["f2"]]
  /\ exists segs, merge sampleSpeech sampleFrames = Ok segs /\ StronglySorted Z.lt (StartMs <$> segs).
Proof.
  split; [vm_compute; reflexivity|].
  destruct (merge_windows sampleSpeech sampleFrames) as (segs & H1 & H2 & _); [|exists segs; exact (conj H1 H2)].
  apply Forall_forall. intros s Hs. in_cases Hs; unfold segmentMs; lia.
Defined.

Definition greyscale (f : Z -> Z -> Z) : Image := mkImage 0 0 18 16 (fun x y => (f x y, f x y, f x y)).

Lemma HammingDistance_counts_witness :
  let dark := greyscale (fun _ _ => 0) in
  let ramp := greyscale (fun x _ => Z.max 0 (65535 - 1000 * Z.max 0 x) mod 65536) in
  HammingDistance (DifferenceHash (Some dark)) (DifferenceHash (Some ramp)) = 64
  /\ gray ramp 0 1 = (299 * 62535 + 587 * 62535 + 114 * 62535) / 1000.
Proof.
  split; [vm_compute; reflexivity|].
  apply (HammingDistance_counts (greyscale (fun x _ => Z.max 0 (65535 - 1000 * Z.max 0 x) mod 65536))
           (greyscale (fun _ _ => 0))); try (unfold sized; cbn; lia).
  intros x y. cbn. pose proof (Z.mod_pos_bound (Z.max 0 (65535 - 1000 * Z.max 0 x)) 65536). lia.
Defined.
