(* ===== verification/ASR.v ===== *)
(** * The speech recognition client (internal/videocontext/asr.go)

    [AudioToText] with its retry loop and [execute] over the interface [AsrE] of the file system, the
    HTTP transport and the clock.  The JSON decoder is the class [AsrCodec]. *)

From S2P Require Import Prelude GoStrings Proc Errors Model GoContext.

Local Open Scope string_scope.
Local Open Scope list_scope.
Local Open Scope Z_scope.

(** A decoded JSON value: what the type switch of [execute] tells apart; [JOther] carries
    [fmt.Sprint(v)]. *)
Inductive JsonValue := JNull | JString (s : string) | JOther (printed : string).

(** [json.Unmarshal] of a body into [map[string]any]. *)
Class AsrCodec := { jsonObject : string -> res (gmap string JsonValue) }.

Record ASR := mkASR { asr_APIKey : string; asr_URL : string; asr_Model : string }.

(** The multipart request: the file part, the model field and the authorisation header. *)
Record AsrRequest := mkAsrRequest {
  hr_URL : string; hr_File : string; hr_Content : string; hr_Model : string; hr_Authorization : string }.

Inductive AsrE : Type -> Type :=
| AsrIsRegular (path : string) : AsrE bool
| AsrOpen (path : string) : AsrE (res unit)
| AsrCreateFormFile (name : string) : AsrE (res unit)
| AsrReadFile (path : string) : AsrE (res string)
| AsrNewRequest (ctx : Context) (req : AsrRequest) : AsrE (res unit)
| AsrDo (ctx : Context) (req : AsrRequest) : AsrE (res Z)
| AsrCtxErr (ctx : Context) : AsrE (option gerror)
| AsrReadBody : AsrE (res string)
| AsrSleep (ctx : Context) (d : Z) : AsrE (res unit).

(** A failure of [execute]: [*retryableError], or any other error. *)
Inductive execError := Retryable (msg : string) (cause : option gerror) | Final (e : gerror).

(** The error value of a [*retryableError]. *)
Definition retryableError (msg : string) (cause : option gerror) : gerror := OtherErr msg None cause.

Section client.
Context `{AsrCodec} (a : ASR).

(** The answer to a status and a body. *)
Definition asrResponse (status : Z) (body : string) : result execError string :=
  if (200 <=? status) && (status <? 300) then
    match jsonObject body with
    | Err e => Err (Final (Internal "ASR response parse failed" (Some e)))
    | Ok obj =>
        match obj !! "text" with
        | None | Some JNull => Ok ""
        | Some (JString v) => Ok v
        | Some (JOther v) => Ok v
        end
    end
  else if (status =? 429) || (500 <=? status) then Err (Retryable ("ASR transient HTTP " +:+ Itoa status) None)
  else Err (Final (InvalidArgument ("ASR request rejected with HTTP " +:+ Itoa status))).

Definition execute (ctx : Context) (filePath : string) : proc AsrE (result execError string) :=
  Do (AsrOpen filePath) (fun f =>
  match f with
  | Err e => Ret (Err (Final (Internal "ASR audio file does not exist" (Some e))))
  | Ok _ =>
  Do (AsrCreateFormFile (Base filePath)) (fun part =>
  match part with
  | Err e => Ret (Err (Final (Internal "ASR request build failed" (Some e))))
  | Ok _ =>
  Do (AsrReadFile filePath) (fun content =>
  match content with
  | Err e => Ret (Err (Retryable "ASR audio read failed" (Some e)))
  | Ok content =>
  let req := mkAsrRequest (asr_URL a) (Base filePath) content (asr_Model a) ("Bearer " +:+ asr_APIKey a) in
  Do (AsrNewRequest ctx req) (fun built =>
  match built with
  | Err e => Ret (Err (Final (Internal "ASR request build failed" (Some e))))
  | Ok _ =>
  Do (AsrDo ctx req) (fun resp =>
  match resp with
  | Err e =>
      Do (AsrCtxErr ctx) (fun cancelled =>
      match cancelled with
      | Some c => Ret (Err (Final (Internal "ASR request cancelled" (Some c))))
      | None => Ret (Err (Retryable "ASR transport failure" (Some e)))
      end)
  | Ok status =>
  Do AsrReadBody (fun body =>
  match body with
  | Err e => Ret (Err (Retryable "ASR response read failed" (Some e)))
  | Ok body => Ret (asrResponse status body)
  end) end) end) end) end) end).

Definition asrMaxAttempts : nat := 3.

(** [n] attempts are left; [attempt] is the loop variable. *)
Fixpoint attemptLoop (n : nat) (ctx : Context) (filePath : string) (last : option gerror)
  : proc AsrE (res string) :=
  match n with
  | O => Ret (Err (Internal "ASR 调用失败，已达到最大重试次数" last))
  | S n =>
      let attempt := Z.of_nat (asrMaxAttempts - S n) in
      bind (execute ctx filePath) (fun r =>
      match r with
      | Ok text =>
          if is_blank text then Ret (Err (Internal "ASR 返回空文本" None)) else Ret (Ok (TrimSpace text))
      | Err (Final e) => Ret (Err e)
      | Err (Retryable msg cause) =>
          let last := Some (retryableError msg cause) in
          if attempt <? Z.of_nat asrMaxAttempts - 1 then
            Do (AsrSleep ctx (Z.shiftl second attempt)) (fun s =>
            match s with
            | Err serr => Ret (Err (Internal "ASR retry interrupted" (Some serr)))
            | Ok _ => attemptLoop n ctx filePath last
            end)
          else attemptLoop n ctx filePath last
      end)
  end.

Definition AudioToText (ctx : Context) (filePath : string) : proc AsrE (res string) :=
  Do (AsrIsRegular filePath) (fun there =>
  if negb there then Ret (Err (Internal "ASR audio file does not exist" None))
  else attemptLoop asrMaxAttempts ctx filePath None).

End client.

(** ** Readers of a trace *)

Definition posts : trace AsrE -> list (res Z) :=
  select (fun X (c : AsrE X) => match c with AsrDo _ _ => fun r => Some r | _ => fun _ => None end).

Definition sleeps : trace AsrE -> list Z :=
  select (fun X (c : AsrE X) => match c with AsrSleep _ d => fun _ => Some d | _ => fun _ => None end).

(** The errors the file system, the transport and the context answered. *)
Definition answered : trace AsrE -> list gerror :=
  select (fun X (c : AsrE X) => match c with
    | AsrOpen _ => failure | AsrCreateFormFile _ => failure | AsrReadFile _ => failure
    | AsrNewRequest _ _ => failure | AsrDo _ _ => failure | AsrReadBody => failure | AsrSleep _ _ => failure
    | AsrCtxErr _ => fun r => r | AsrIsRegular _ => fun _ => None end).

Definition accepts (s : Z) : Prop := 200 <= s < 300.
Definition rejects (s : Z) : Prop := ~ accepts s /\ s <> 429 /\ s < 500.

(** What the transport last answered: a status whose body is still to be read, a complete answer, or
    something else since then. *)
Inductive reply := NoReply | Pending (s : Z) | Complete (s : Z).

Definition next_reply (st : reply) (e : event AsrE) : reply :=
  match e with
  | Ev c x =>
      (match c in AsrE X return X -> reply with
       | AsrDo _ _ => fun r => match r with Ok s => Pending s | Err _ => NoReply end
       | AsrReadBody => fun r => match r, st with Ok _, Pending s => Complete s | _, _ => NoReply end
       | _ => fun _ => NoReply
       end) x
  end.

Definition reply_from (st : reply) (tr : trace AsrE) : reply := fold_left next_reply tr st.

(** The provider turned the request itself down. *)
Definition rejected (st : reply) : Prop := exists s, st = Complete s /\ rejects s.

Lemma sleeps_app tr tr' : sleeps (tr ++ tr') = sleeps tr ++ sleeps tr'.
Proof. apply select_app. Qed.
Lemma sleeps_pause ctx d x tr : sleeps (Ev (AsrSleep ctx d) x :: tr) = d :: sleeps tr.
Proof. done. Qed.
Lemma posts_app tr tr' : posts (tr ++ tr') = posts tr ++ posts tr'.
Proof. apply select_app. Qed.
Lemma posts_pause ctx d x tr : posts (Ev (AsrSleep ctx d) x :: tr) = posts tr.
Proof. done. Qed.
Lemma answered_app tr tr' : answered (tr ++ tr') = answered tr ++ answered tr'.
Proof. apply select_app. Qed.

(** The errors of [encoding/json] are none of the gateway's. *)
Class AsrCodecLaws `{AsrCodec} := { jsonObject_plain b e : jsonObject b = Err e -> plain e }.

Section proofs.
Context `{AsrCodecLaws} (a : ASR).

(** What one request says about the next step. *)
Definition execute_post (tr : trace AsrE) (r : result execError string) : Prop :=
  sleeps tr = [] /\ (length (posts tr) <= 1)%nat /\ forall st,
  match r with
  | Ok _ => exists s, reply_from st tr = Complete s /\ accepts s
  | Err (Final e) => rejected (reply_from st tr) /\ IsPermanentFailure (Some e) = true
                     \/ ~ rejected (reply_from st tr) /\ (Forall plain (answered tr) -> plain e)
  | Err (Retryable msg c) => ~ rejected (reply_from st tr)
                     /\ (Forall plain (answered tr) -> plain (retryableError msg c))
  end.

Lemma asrResponse_spec s b :
  match asrResponse s b with
  | Ok _ => accepts s
  | Err (Final e) => rejects s /\ IsPermanentFailure (Some e) = true \/ accepts s /\ plain e
  | Err (Retryable msg c) => ~ rejects s /\ plain (retryableError msg c)
  end.
Proof.
  unfold asrResponse, rejects, accepts.
  destruct ((200 <=? s) && (s <? 300)) eqn:Ea.
  - destruct (jsonObject b) as [obj|e] eqn:Ej.
    + destruct (obj !! "text") as [[]|]; lia.
    + right. split; [lia|]. apply Internal_plain. intros ? [= <-]. by eapply jsonObject_plain.
  - destruct ((s =? 429) || (500 <=? s)) eqn:Er.
    + split; [lia|]. by apply OtherErr_plain.
    + left. split; [lia|done].
Qed.

Ltac no_reply := intros (? & ? & ?); cbn in *; congruence.
Ltac plainly := intros Hp; cbn in Hp; rewrite ?Forall_cons in Hp;
  first [apply Internal_plain | apply OtherErr_plain]; intros ? ?; simplify_eq; tauto.

Lemma execute_spec ctx path : wp (execute a ctx path) execute_post.
Proof.
  unfold execute. wp_go; unfold execute_post; (split; [done|]); (split; [cbn; lia|]); intros st;
    try (right; split; [no_reply|plainly]); try (split; [no_reply|plainly]).
  match goal with |- context [asrResponse ?s ?b] => pose proof (asrResponse_spec s b) as Hs; destruct (asrResponse s b) as [|[]] end;
    cbn in *.
  - eauto.
  - split; [intros (? & [= <-] & ?); tauto|tauto].
  - destruct Hs as [[? ?]|[? ?]]; [left|right]; (split; [|done]); [by eexists|].
    intros (? & [= <-] & ? & ?). tauto.
Qed.

Definition pauses : list Z := [second; 2 * second].

(** The loop with [n] attempts left, after an earlier failure [last] and with the transport in state [st]. *)
Lemma attemptLoop_spec n ctx path lst : (n <= asrMaxAttempts)%nat ->
  wp (attemptLoop a n ctx path lst) (fun tr r => exists m,
    sleeps tr = take m (drop (asrMaxAttempts - n) pauses) /\ (length (posts tr) <= S m `min` n)%nat
    /\ (m < n \/ n = 0)%nat
    /\ forall st, ~ rejected st ->
       match r with
       | Ok t => is_blank t = false /\ TrimSpace t = t /\ exists s, reply_from st tr = Complete s /\ accepts s
       | Err e =>
           rejected (reply_from st tr) /\ IsPermanentFailure (Some e) = true
           \/ ~ rejected (reply_from st tr) /\
              (Forall plain (answered tr) -> (forall l, lst = Some l -> plain l) -> plain e)
       end).
Proof.
  revert lst. induction n as [|n IH]; intros lst Hn.
  { exists 0%nat. cbn. split; [done|]. split; [lia|]. split; [lia|]. intros st Hst. right.
    split; [done|]. intros _ Hl. by apply Internal_plain. }
  cbn [attemptLoop]. wp_use execute_spec. intros tr r (Hs & Hp & Hst).
  assert (sleeps tr = take 0 (drop (asrMaxAttempts - S n) pauses)) as Hs0 by done.
  destruct r as [text|[msg c|e]].
  - destruct (is_blank text) eqn:Eb; cbn [wp]; exists 0%nat; rewrite app_nil_r; (split; [done|]); (split; [lia|]);
      (split; [lia|]); intros st _; destruct (Hst st) as (s & Hr & Ha).
    + right. split; [|intros _ _; by apply Internal_plain]. rewrite Hr. intros (? & [= <-] & [Hn' _]). by destruct Hn'.
    + split; [by rewrite is_blank_TrimSpace|]. split; [apply TrimSpace_idem|eauto].
  - destruct (_ <? _) eqn:Elast.
    + assert (n <> 0)%nat by (apply Z.ltb_lt in Elast; unfold asrMaxAttempts in Elast; lia).
      intros [[]|serr]; cbn [wp].
      * eapply wp_mono; [apply IH; lia|]. intros tr' r (m & Hs' & Hp' & Hm & Hpost).
        exists (S m). rewrite sleeps_app, posts_app, length_app, Hs. cbn [app]. split; [|split; [|split]].
        -- rewrite sleeps_pause, Hs'.
           unfold asrMaxAttempts in *. by destruct n as [|[|[|]]]; try lia.
        -- rewrite posts_pause. lia.
        -- lia.
        -- intros st Hrej. unfold reply_from. rewrite fold_left_app. cbn [fold_left].
           specialize (Hpost NoReply). destruct r as [t|e].
           ++ apply Hpost. by intros (? & ? & _).
           ++ destruct Hpost as [?|[? Hplain]]; [by intros (? & ? & _)|by left|right].
              split; [done|]. rewrite answered_app, Forall_app. intros [Hp1 Hp2] _. apply Hplain; [done|].
              intros l [= <-]. by apply (Hst st).
      * exists 1%nat. rewrite sleeps_app, posts_app, length_app, Hs. split; [|split; [|split]].
        -- unfold asrMaxAttempts in *. by destruct n as [|[|[|]]]; try lia.
        -- rewrite posts_pause. cbn. lia.
        -- lia.
        -- intros st _. right. unfold reply_from. rewrite fold_left_app. split; [by intros (? & ? & _)|].
           rewrite answered_app, Forall_app. intros [_ [He _]%Forall_cons] _. apply Internal_plain. by intros ? [= <-].
    + assert (n = 0)%nat as -> by (apply Z.ltb_ge in Elast; unfold asrMaxAttempts in *; lia). exists 0%nat. cbn [attemptLoop wp].
      rewrite app_nil_r. split; [done|]. split; [lia|]. split; [lia|]. intros st _. right.
      destruct (Hst st) as [Hrej Hplain]. split; [done|]. intros Ha _. apply Internal_plain. intros ? [= <-]. auto.
  - exists 0%nat. cbn [wp]. rewrite app_nil_r. split; [done|]. split; [lia|]. split; [lia|]. intros st _.
    destruct (Hst st) as [Hl|[Hr Hplain]]; [by left|right]. auto.
Qed.

(** The retry loop of speech recognition. A file is posted at most three times, with pauses of one and two
    seconds in between; a text that is returned is trimmed, not blank and came with a 2xx status; and as
    long as the operating system and the libraries do not raise errors of the gateway's own taxonomy, an
    error is permanent exactly when the provider answered with a status other than 2xx, 429 and 5xx, so that
    only such a rejection keeps the task from being retried. *)
Theorem AudioToText_retries (ctx : Context) (path : string) :
  wp (AudioToText a ctx path) (fun tr r =>
    (exists m, (m <= 2)%nat /\ sleeps tr = take m [second; 2 * second] /\ (length (posts tr) <= S m)%nat)
    /\ match r with
       | Ok t => is_blank t = false /\ TrimSpace t = t
                 /\ exists s, reply_from NoReply tr = Complete s /\ 200 <= s < 300
       | Err e =>
           (rejected (reply_from NoReply tr) -> IsPermanentFailure (Some e) = true)
           /\ (Forall plain (answered tr) -> IsPermanentFailure (Some e) = true -> rejected (reply_from NoReply tr))
       end).
Proof.
  unfold AudioToText. intros [|]; cbn [negb]; [|].
  2: { split; [exists 0%nat; split; [lia|split; [done|cbn; lia]]|]. split; [by intros (? & ? & _)|done]. }
  eapply wp_mono; [by apply attemptLoop_spec|]. intros tr r (m & Hs & Hp & Hm & Hpost).
  unfold asrMaxAttempts in *. split.
  { exists m. split; [lia|]. split; [exact Hs|]. change (length (posts tr) <= S m)%nat. lia. }
  specialize (Hpost NoReply). destruct r as [t|e]; [apply Hpost; by intros (? & ? & _)|].
  destruct Hpost as [[Hr Hperm]|[Hr Hplain]]; [by intros (? & ? & _)|by split|].
  split; [done|]. intros Ha Hperm. exfalso.
  assert (plain e) as He by (apply Hplain; [exact Ha|done]).
  unfold IsPermanentFailure in Hperm. by rewrite plain_walk in Hperm.
Qed.

End proofs.

(** ** A run: the provider is overloaded once *)

Module Example.
#[local] Instance textCodec : AsrCodec := { jsonObject b := Ok {[ "text" := JString b ]} }.
#[local] Instance textCodecLaws : AsrCodecLaws.
Proof. by constructor. Qed.

Definition overloadedOnce : env AsrE := fun past X c =>
  match c with
  | AsrIsRegular _ => true
  | AsrOpen _ => Ok tt
  | AsrCreateFormFile _ => Ok tt
  | AsrReadFile _ => Ok "audio"
  | AsrNewRequest _ _ => Ok tt
  | AsrDo _ _ => Ok (match posts past with [] => 503 | _ => 200 end)
  | AsrCtxErr _ => None
  | AsrReadBody => Ok " hello"
  | AsrSleep _ _ => Ok tt
  end.

Definition siliconflow : ASR := mkASR "key" "https://api.siliconflow.cn/v1/audio/transcriptions" "sense-voice".

Lemma AudioToText_retries_witness :
  let p := AudioToText siliconflow Background "/tmp/a.mp3" in
  exists tr, execs p tr (Ok "hello") /\ sleeps tr = [second] /\ length (posts tr) = 2%nat
    /\ exists s, reply_from NoReply tr = Complete s /\ 200 <= s < 300.
Proof.
  set (o := run overloadedOnce [] (AudioToText siliconflow Background "/tmp/a.mp3")).
  assert (execs (AudioToText siliconflow Background "/tmp/a.mp3") o.1 (Ok "hello")) as Hex.
  { apply run_returns. vm_compute. reflexivity. }
  exists o.1. split; [exact Hex|]. split; [vm_compute; reflexivity|]. split; [vm_compute; reflexivity|].
  pose proof (wp_execs _ _ _ _ (AudioToText_retries siliconflow Background "/tmp/a.mp3") Hex) as [_ (_ & _ & H)].
  exact H.
Defined.
End Example.
