(* ===== verification/Transcriber.v ===== *)
(** * Audio transcription (internal/videocontext/transcribe.go)

    [VideoE] is what the context builder calls: the object store, the file system, ffmpeg, OCR, the
    shared list of uploaded frames and the two branches.  The goroutines of [Transcribe], one per audio
    segment behind a semaphore of ten, are the transition system [fan_step]; the call [VFanOut] of the
    sequential program stands for starting them and waiting for all of them. *)

From S2P Require Import Prelude GoStrings Proc Errors Model GoContext Frames.

Local Open Scope string_scope.
Local Open Scope list_scope.
Local Open Scope Z_scope.

Inductive VideoE : Type -> Type :=
(* the object store *)
| VReadableSource (ctx : Context) (source : string) : VideoE (res string)
| VUploadLocalFile (ctx : Context) (path name prefix : string) : VideoE (res string)
| VRemoveFile (ctx : Context) (url : string) : VideoE (res unit)
(* the operating system *)
| VNewUUID : VideoE string
| VTempDir : VideoE string
| VMkdirAll (dir : string) : VideoE (res unit)
| VReadDir (dir : string) : VideoE (res (list (string * bool))) (* name, is a regular file *)
| VIsRegular (path : string) : VideoE bool
| VRemoveAll (dir : string) : VideoE (res unit)
| VCtxErr (ctx : Context) : VideoE (option gerror)
(* processes: whether the deadline of the command passed, and the error of the run *)
| VRunFFmpeg (ctx : Context) (timeout : Z) (args : list string) : VideoE (bool * option gerror)
| VFrameGap (ctx : Context) (video : string) : VideoE Z (* FrameGapSeconds(probeDuration(video)) *)
| VFrameTimestamps (ctx : Context) (args : list string) : VideoE (res (list Z)) (* runFrameCommand *)
| VDecodeImage (path : string) : VideoE (option Image)
| VRecognize (ctx : Context) (image : string) : VideoE (res string)
(* telemetry and the closure of the OCR branch *)
| VIncrement (name : string) : VideoE unit
| VOnUpload (url : string) : VideoE unit
(* the goroutines of Transcribe *)
| VFanOut (ctx : Context) (files : list string) : VideoE (list (res string))
(* the branches of Build *)
| VSubmitASR (ctx : Context) (readable workDir : string) : VideoE unit
| VSubmitFrames (ctx : Context) (readable workDir : string) : VideoE unit
| VAwaitASR (ctx : Context) : VideoE (option (res (list TranscriptSegment))) (* None: the context is done *)
| VAwaitFrames (ctx : Context) : VideoE (option (res (list framePart)))
| VCancelBranches : VideoE bool
| VUploaded : VideoE (list string)
| VClearUploaded : VideoE unit.

(** [filepath.Join] of the clean, non-empty paths the package builds. *)
Definition pathJoin (dir name : string) : string := dir +:+ "/" +:+ name.

Definition inc (name : string) : proc VideoE unit := call (VIncrement name).

(** ** One ffmpeg run *)

Definition FFmpegSegmentArgs (video outputPattern : string) : list string :=
  ["-y"; "-i"; video; "-vn"; "-ac"; "1"; "-ar"; "16000"; "-acodec"; "libmp3lame"; "-b:a"; "48k";
   "-f"; "segment"; "-segment_time"; "60"; "-reset_timestamps"; "1"; outputPattern].

Definition runFFmpeg (ctx : Context) (args : list string) (timeoutMsg : string) : proc VideoE (res unit) :=
  Do (VRunFFmpeg ctx (15 * minute) args) (fun '(late, err) =>
  if late : bool then Ret (Err (Internal timeoutMsg None))
  else match err with
       | None => Ret (Ok tt)
       | Some e =>
           Do (VCtxErr ctx) (fun c =>
           match c with Some c => Ret (Err c) | None => Ret (Err (Internal "FFmpeg 执行失败" (Some e))) end)
       end).

(** Go's [sort.Strings] orders by bytes. *)
Definition string_le (a b : string) : Prop := String.leb a b = true.
#[export] Instance string_le_dec : RelDecision string_le.
Proof. intros a b. unfold string_le. apply _. Defined.

Definition regularFiles (dir : string) : proc VideoE (res (list string)) :=
  entries ←? call (VReadDir dir);
  Ret (Ok (merge_sort string_le (pathJoin dir <$> (fst <$> List.filter snd entries)))).

(** ** The segments' goroutines *)

Definition asrParallel : Z := 10.

Inductive task := Blocked | Calling | Done (out : res string).

(** [cancelled] is whether the context is done. *)
Record fanout := mkFanout { fo_cancelled : bool; fo_tasks : list task }.

Definition calling (t : task) : bool := match t with Calling => true | _ => false end.
Definition holders (f : fanout) : Z := Z.of_nat (length (List.filter calling (fo_tasks f))).

Definition set_task (f : fanout) (i : nat) (t : task) : fanout :=
  mkFanout (fo_cancelled f) (<[i := t]> (fo_tasks f)).

(** The select on the semaphore and the context, the return of [AudioToText] for segment [i], which may
    be any of the outcomes [answers i], and the cancellation. *)
Inductive fan_step (answers : nat -> res string -> Prop) : fanout -> fanout -> Prop :=
| fan_acquire f i :
    fo_tasks f !! i = Some Blocked -> holders f < asrParallel -> fan_step answers f (set_task f i Calling)
| fan_skip f i e :
    fo_tasks f !! i = Some Blocked -> fo_cancelled f = true -> fan_step answers f (set_task f i (Done (Err e)))
| fan_return f i out :
    fo_tasks f !! i = Some Calling -> answers i out -> fan_step answers f (set_task f i (Done out))
| fan_cancel f : fan_step answers f (mkFanout true (fo_tasks f)).

Definition fan_start (n : nat) : fanout := mkFanout false (replicate n Blocked).

(** [wg.Wait()] returns, with [outs]. *)
Definition fan_done (f : fanout) (outs : list (res string)) : Prop := fo_tasks f = Done <$> outs.

(** ** After the goroutines *)

(** The loop over [outs] from index [i]: the segments so far, the failures so far and the last one. *)
Fixpoint collect (i : Z) (outs : list (res string)) (result : list TranscriptSegment) (failed : Z)
    (lastErr : option gerror) : proc VideoE (res (list TranscriptSegment)) :=
  match outs with
  | [] =>
      if (Z.of_nat (length result) =? 0) && (0 <? failed)
      then Ret (Err (Internal "所有 ASR 分片均处理失败" lastErr)) else Ret (Ok result)
  | Err e :: outs =>
      Do (VIncrement "asrSegmentFailures") (fun _ => collect (i + 1) outs result (failed + 1) (Some e))
  | Ok text :: outs =>
      if negb (is_blank text) then
        match NewTranscriptSegment (i * segmentMs) ((i + 1) * segmentMs) text with
        | Err e => Ret (Err e)
        | Ok seg => collect (i + 1) outs (result ++ [seg]) failed lastErr
        end
      else collect (i + 1) outs result failed lastErr
  end.

Definition Transcribe (ctx : Context) (videoPath audioDir : string) : proc VideoE (res (list TranscriptSegment)) :=
  _ ←? call (VMkdirAll audioDir);
  _ ←? runFFmpeg ctx (FFmpegSegmentArgs videoPath (pathJoin audioDir "audio_%03d.mp3")) "FFmpeg 执行超时";
  files ←? regularFiles audioDir;
  Do (VFanOut ctx files) (fun outs =>
  Do (VCtxErr ctx) (fun c =>
  match c with Some e => Ret (Err e) | None => collect 0 outs [] 0 None end)).

Definition TranscribeToText (ctx : Context) (videoPath : string) : proc VideoE (res string) :=
  Do VTempDir (fun tmp =>
  Do VNewUUID (fun u =>
  let workDir := pathJoin tmp ("transcription-" +:+ u) in
  bind (bind (Transcribe ctx videoPath workDir) (fun r =>
        match r with
        | Err e => Ret (Err (Internal "视频转写失败" (Some e)))
        | Ok segs => Ret (Ok (Join (List.filter (fun s => negb (is_blank s)) (tr_Text <$> segs)) newline))
        end)) (fun r =>
  Do (VRemoveAll workDir) (fun _ => Ret r)))).

Definition TranscribeVideo (ctx : Context) (videoPath : string) : proc VideoE (res string) :=
  if is_blank videoPath then Ret (Err (InvalidArgument "视频路径为空"))
  else if negb (HasPrefix videoPath "http") then
    Do (VIsRegular videoPath) (fun there =>
    if negb there then Ret (Err (InvalidArgument "视频文件不存在")) else TranscribeToText ctx videoPath)
  else TranscribeToText ctx videoPath.

(** ** The goroutines *)

Section fan.
Context (answers : nat -> res string -> Prop).

Lemma holders_set f i t t' :
  fo_tasks f !! i = Some t ->
  holders (set_task f i t') = holders f - Z.b2z (calling t) + Z.b2z (calling t').
Proof.
  intros Hi. unfold holders. cbn [set_task fo_tasks].
  rewrite <- (list_insert_id _ _ _ Hi) at 2. pose proof (lookup_lt_Some _ _ _ Hi) as Hlt.
  rewrite !insert_take_drop, !List.filter_app, !length_app by done. cbn [List.filter].
  destruct (calling t), (calling t'); cbn [length Z.b2z]; lia.
Qed.

(** How much is left to do: two steps for a blocked goroutine, one for a calling one. *)
Definition work_of (t : task) : nat := match t with Blocked => 2 | Calling => 1 | Done _ => 0 end.
Definition work (f : fanout) : nat := sum_list_with work_of (fo_tasks f).

Lemma work_set f i t t' :
  fo_tasks f !! i = Some t -> (work (set_task f i t') + work_of t = work f + work_of t')%nat.
Proof.
  intros Hi. unfold work. cbn [set_task fo_tasks].
  rewrite <- (list_insert_id _ _ _ Hi) at 2. pose proof (lookup_lt_Some _ _ _ Hi) as Hlt.
  rewrite !insert_take_drop, !sum_list_with_app by done. cbn [sum_list_with]. lia.
Qed.

Record fan_inv (n : nat) (f : fanout) : Prop := {
  fi_length : length (fo_tasks f) = n;
  fi_holders : holders f <= asrParallel;
  fi_outs : forall i out, fo_tasks f !! i = Some (Done out) ->
    answers i out \/ (fo_cancelled f = true /\ exists e, out = Err e) }.

Lemma set_outs f i t :
  (forall j out, fo_tasks f !! j = Some (Done out) ->
    answers j out \/ (fo_cancelled f = true /\ exists e, out = Err e)) ->
  (forall out, t = Done out -> answers i out \/ (fo_cancelled f = true /\ exists e, out = Err e)) ->
  forall j out, fo_tasks (set_task f i t) !! j = Some (Done out) ->
    answers j out \/ (fo_cancelled (set_task f i t) = true /\ exists e, out = Err e).
Proof.
  intros Hf Ht j out. cbn. intros [(-> & Hout & _)|[_ Hj]]%list_lookup_insert_Some; [by apply Ht|by apply Hf].
Qed.

Lemma fan_step_inv n f f' : fan_inv n f -> fan_step answers f f' -> fan_inv n f'.
Proof.
  intros [Hl Hh Ho] Hstep. destruct Hstep as [f i Hi Hfree|f i e Hi Hc|f i out Hi Ha|f].
  - split; [by rewrite <- Hl; apply length_insert|rewrite (holders_set _ _ _ _ Hi); cbn; lia|].
    by apply set_outs.
  - split; [by rewrite <- Hl; apply length_insert|rewrite (holders_set _ _ _ _ Hi); cbn; lia|].
    apply set_outs; [done|]. intros ? [= <-]. eauto.
  - split; [by rewrite <- Hl; apply length_insert|rewrite (holders_set _ _ _ _ Hi); cbn; lia|].
    apply set_outs; [done|]. intros ? [= <-]. auto.
  - split; [done|done|]. intros i out Hi. destruct (Ho i out Hi) as [?|[_ ?]]; auto.
Qed.

Lemma fan_start_inv n : fan_inv n (fan_start n).
Proof.
  assert (forall m, List.filter calling (replicate m Blocked) = []) as Hnone by (by induction m).
  split; [apply length_replicate|unfold holders; cbn; by rewrite Hnone|].
  intros i out [Hi _]%lookup_replicate. done.
Qed.

Lemma fan_reachable n f : rtc (fan_step answers) (fan_start n) f -> fan_inv n f.
Proof.
  apply rtc_invariant; [intros x y Hs Hi; by eapply fan_step_inv|apply fan_start_inv].
Qed.

Lemma unfinished (l : list task) :
  (exists outs, l = Done <$> outs) \/ exists i t, l !! i = Some t /\ forall out, t <> Done out.
Proof.
  induction l as [|t l IH]; [left; by exists []|].
  destruct t as [| |out]; [right; by exists 0%nat, Blocked|right; by exists 0%nat, Calling|].
  destruct IH as [[outs ->]|(i & t & Hi & Ht)]; [left; by exists (out :: outs)|right; by exists (S i), t].
Qed.

Lemma some_caller f : 0 < holders f -> exists i, fo_tasks f !! i = Some Calling.
Proof.
  unfold holders. intros Hpos. destruct (List.filter calling (fo_tasks f)) as [|t l] eqn:E; [cbn in Hpos; lia|].
  assert (In t (List.filter calling (fo_tasks f))) as [Hin Ht]%filter_In by (rewrite E; by left).
  apply list_elem_of_In, list_elem_of_lookup in Hin as [i Hi]. exists i. by destruct t.
Qed.

(** Some goroutine can move: a blocked one while the semaphore has room, otherwise one that holds it. *)
Lemma fan_progress f :
  (forall i, exists out, answers i out) ->
  (exists outs, fan_done f outs) \/ exists f', fan_step answers f f' /\ (work f' < work f)%nat.
Proof.
  intros Hans.
  assert (forall i, fo_tasks f !! i = Some Calling -> exists f', fan_step answers f f' /\ (work f' < work f)%nat) as Hret.
  { intros i Hi. destruct (Hans i) as [out Hout]. exists (set_task f i (Done out)). split; [by constructor|].
    pose proof (work_set f i _ (Done out) Hi). cbn in *. lia. }
  destruct (unfinished (fo_tasks f)) as [|(i & t & Hi & Ht)]; [by left|right].
  destruct t as [| |out]; [|by eapply Hret|by destruct (Ht out)].
  destruct (decide (holders f < asrParallel)) as [Hroom|Hfull].
  - exists (set_task f i Calling). split; [by constructor|]. pose proof (work_set f i _ Calling Hi). cbn in *. lia.
  - destruct (some_caller f) as [j Hj]; [unfold asrParallel in *; lia|]. by eapply Hret.
Qed.

(** C26. Transcribing the segments side by side. Whatever the interleaving, at most ten calls of the provider
    run at a time; as long as every call returns, the goroutines never block each other for good (every
    step but the cancellation uses up work, and while some goroutine is unfinished such a step is
    possible); and what [wg.Wait] leaves in [outs] is, position by position, an outcome of that very
    segment, or an error after a cancellation: exactly what a sequential loop over the segments could have
    collected. *)
Theorem fan_out_refines (n : nat) (f : fanout) :
  rtc (fan_step answers) (fan_start n) f -> (forall i, exists out, answers i out) ->
  holders f <= asrParallel
  /\ ((exists outs, fan_done f outs) \/ exists f', fan_step answers f f' /\ (work f' < work f)%nat)
  /\ (forall f', fan_step answers f f' -> fo_tasks f' = fo_tasks f \/ (work f' < work f)%nat)
  /\ forall outs, fan_done f outs ->
       length outs = n /\ forall i out, outs !! i = Some out ->
         answers i out \/ (fo_cancelled f = true /\ exists e, out = Err e).
Proof.
  intros Hr Hans. destruct (fan_reachable n f Hr) as [Hl Hh Ho]. split; [done|]. split; [by apply fan_progress|].
  split.
  - intros f' Hstep. destruct Hstep as [f i Hi _|f i e Hi _|f i out Hi _|f]; [right..|by left];
      [pose proof (work_set f i _ Calling Hi)|pose proof (work_set f i _ (Done (Err e)) Hi)
       |pose proof (work_set f i _ (Done out) Hi)]; cbn in *; lia.
  - intros outs Hd. unfold fan_done in Hd. split; [by rewrite <- Hl, Hd, length_fmap|].
    intros i out Hi. apply Ho. by rewrite Hd, list_lookup_fmap, Hi.
Qed.

End fan.

(** ** Collecting the outcomes *)

(** The segments of the outcomes, the first of which is at position [i]. *)
Fixpoint speech_from (i : Z) (outs : list (res string)) : list TranscriptSegment :=
  match outs with
  | [] => []
  | Ok text :: outs =>
      (if negb (is_blank text) then [mkTranscript (i * segmentMs) ((i + 1) * segmentMs) (TrimSpace text)] else [])
      ++ speech_from (i + 1) outs
  | Err _ :: outs => speech_from (i + 1) outs
  end.

Definition speech : list (res string) -> list TranscriptSegment := speech_from 0.

Definition failures (outs : list (res string)) : list gerror := omap failure outs.

Lemma collect_spec outs i result failed lst :
  0 <= i -> 0 <= failed ->
  wp (collect i outs result failed lst) (fun tr r =>
    tr = replicate (length (failures outs)) (Ev (VIncrement "asrSegmentFailures") tt)
    /\ match r with
       | Ok segs => segs = result ++ speech_from i outs /\ (segs = [] -> failed = 0 /\ failures outs = [])
       | Err e => result ++ speech_from i outs = []
           /\ e = Internal "所有 ASR 分片均处理失败" (match last (failures outs) with Some l => Some l | None => lst end)
           /\ (failures outs = [] -> 0 < failed)
       end).
Proof.
  revert i result failed lst. induction outs as [|[text|e] outs IH]; intros i result failed lst Hi Hf; cbn [collect speech_from].
  - destruct (_ && _) eqn:E; cbn [wp]; rewrite app_nil_r; (split; [done|]).
    + apply andb_true_iff in E as [E1%Z.eqb_eq E2%Z.ltb_lt]. split; [apply length_zero_iff_nil; lia|done].
    + split; [done|]. intros ->. cbn in E. apply Z.ltb_ge in E. split; [lia|done].
  - destruct (is_blank text) eqn:Eb; cbn [negb].
    + by apply IH; lia.
    + unfold NewTranscriptSegment, segmentMs in *. replace (_ || _) with false by lia.
      rewrite app_assoc. by apply IH; lia.
  - intros []. eapply wp_mono; [apply (IH (i + 1) result (failed + 1) (Some e)); lia|]. cbn beta. intros tr r [-> Hr].
    change (failures (Err e :: outs)) with (e :: failures outs). split; [done|]. rewrite last_cons.
    destruct r as [segs|e'].
    + destruct Hr as [-> Hr]. split; [done|]. intros Hnil. destruct (Hr Hnil). lia.
    + destruct Hr as (Hnil & -> & _). split; [done|]. split; [by destruct (last _)|done].
Qed.

Lemma speech_from_ok i outs :
  0 <= i ->
  Forall (fun s => i * segmentMs <= tr_StartMs s /\ tr_EndMs s = tr_StartMs s + segmentMs
                   /\ is_blank (tr_Text s) = false /\ TrimSpace (tr_Text s) = tr_Text s) (speech_from i outs)
  /\ StronglySorted Z.lt (tr_StartMs <$> speech_from i outs).
Proof.
  revert i. induction outs as [|[text|e] outs IH]; intros i Hi; cbn [speech_from]; [by repeat constructor| |].
  - destruct (IH (i + 1) ltac:(lia)) as [Hok Hs].
    assert (Forall (fun s => (i + 1) * segmentMs <= tr_StartMs s) (speech_from (i + 1) outs)) as Hge.
    { eapply Forall_impl; [exact Hok|]. by intros s [? _]. }
    destruct (is_blank text) eqn:Eb; cbn [negb app fmap list_fmap]; unfold segmentMs in *.
    + split; [|done]. eapply Forall_impl; [exact Hok|]. cbn. intros s (? & ?). split; [lia|done].
    + split; constructor; cbn [tr_StartMs tr_EndMs tr_Text fmap list_fmap]; [| |done|].
      * split; [lia|]. split; [lia|]. by rewrite is_blank_TrimSpace, TrimSpace_idem.
      * eapply Forall_impl; [exact Hok|]. cbn. intros s (? & ?). split; [lia|done].
      * apply Forall_fmap. eapply Forall_impl; [exact Hge|]. cbn. intros s. lia.
  - destruct (IH (i + 1) ltac:(lia)) as [Hok Hs]. split; [|done].
    eapply Forall_impl; [exact Hok|]. cbn. unfold segmentMs. intros s (? & ?). split; [lia|done].
Qed.

Definition fanned (tr : trace VideoE) : list (list (res string)) :=
  select (fun X (c : VideoE X) => match c with VFanOut _ _ => fun outs => Some outs | _ => fun _ => None end) tr.

Lemma fanned_app tr tr' : fanned (tr ++ tr') = fanned tr ++ fanned tr'.
Proof. apply select_app. Qed.

(** One event at a time. *)
Lemma fanned_cons e tr : fanned (e :: tr) = fanned [e] ++ fanned tr.
Proof. apply (fanned_app [e]). Qed.

Lemma runFFmpeg_quiet ctx args msg : wp (runFFmpeg ctx args msg) (fun tr _ => fanned tr = []).
Proof. unfold runFFmpeg. by wp_go. Qed.

(** A transcription is what was heard. It is the texts of the non-silent segments, trimmed, each at the
    minute of its audio file and in the order of the video; a segment that failed is only left out while
    another one was heard. When nothing was heard and something failed, the error wraps the last failure
    unchanged, so that a rejection by the provider stays permanent and an outage stays retryable. *)
Theorem Transcribe_speech (ctx : Context) (video dir : string) :
  wp (Transcribe ctx video dir) (fun tr r =>
    match r with
    | Ok segs => exists outs, fanned tr = [outs] /\ segs = speech outs
        /\ (segs = [] -> failures outs = [])
        /\ StronglySorted Z.lt (tr_StartMs <$> segs)
        /\ Forall (fun s => 0 <= tr_StartMs s /\ tr_EndMs s = tr_StartMs s + segmentMs
                            /\ is_blank (tr_Text s) = false /\ TrimSpace (tr_Text s) = tr_Text s) segs
    | Err e => fanned tr = [] \/ Ev (VCtxErr ctx) (Some e) ∈ tr
        \/ exists outs l, fanned tr = [outs] /\ speech outs = [] /\ last (failures outs) = Some l
             /\ e = Internal "所有 ASR 分片均处理失败" (Some l)
             /\ IsPermanentFailure (Some e) = permanent_walk 15 (Some l)
    end).
Proof.
  unfold Transcribe. intros [[]|e]; cbn [bind_ok bind call]; [|by left].
  wp_use runFFmpeg_quiet. intros tr [_|e] Hq; [|by left].
  unfold regularFiles. intros [entries|e]; cbn [bind_ok bind call wp];
    [|left; by rewrite fanned_cons, fanned_app, Hq].
  intros outs [c|]; cbn [wp].
  { right; left. apply list_elem_of_further, elem_of_app. right. ev_in. }
  eapply wp_mono; [by apply collect_spec|]. cbn [app]. intros tr' r [-> Hr].
  assert (forall n, fanned (replicate n (Ev (VIncrement "asrSegmentFailures") tt)) = []) as Hinc by (by induction n).
  assert (fanned (Ev (VMkdirAll dir) (Ok tt) :: tr ++ Ev (VReadDir dir) (Ok entries) ::
      Ev (VFanOut ctx (merge_sort string_le (pathJoin dir <$> (List.filter snd entries).*1))) outs :: Ev (VCtxErr ctx) None ::
      replicate (length (failures outs)) (Ev (VIncrement "asrSegmentFailures") tt)) = [outs]) as Hf.
  { by rewrite fanned_cons, fanned_app, Hq, (fanned_cons (Ev (VReadDir _) _)), (fanned_cons (Ev (VFanOut _ _) _)), (fanned_cons (Ev (VCtxErr _) _)), Hinc. }
  destruct r as [segs|e].
  - destruct Hr as [-> Hr]. exists outs. split; [exact Hf|]. split; [done|]. split; [by intros [_ ?]%Hr|].
    destruct (speech_from_ok 0 outs) as [Hok Hs]; [done|]. split; [exact Hs|]. exact Hok.
  - destruct Hr as (Hnil & -> & Hfail). right; right.
    destruct (last (failures outs)) as [l|] eqn:El.
    + exists outs, l. split; [exact Hf|]. split; [exact Hnil|]. split; [exact El|]. split; reflexivity.
    + apply last_None in El. specialize (Hfail El). lia.
Qed.

Definition everyAnswer (i : nat) (out : res string) : Prop := out = Ok "hello" \/ out = Err (Internal "ASR 返回空文本" None).

Lemma fan_out_refines_witness :
  let f := mkFanout false [Done (Ok "hello"); Blocked] in
  rtc (fan_step everyAnswer) (fan_start 2) f
  /\ ((exists outs, fan_done f outs) \/ exists f', fan_step everyAnswer f f' /\ (work f' < work f)%nat).
Proof.
  assert (rtc (fan_step everyAnswer) (fan_start 2) (mkFanout false [Done (Ok "hello"); Blocked])) as Hr.
  { eapply rtc_l; [by apply (fan_acquire _ _ 0)|].
    eapply rtc_l; [apply (fan_return _ _ 0 (Ok "hello")); [done|by left]|]. apply rtc_refl. }
  split; [exact Hr|]. apply (fan_out_refines everyAnswer 2); [exact Hr|]. intros i. exists (Ok "hello"). by left.
Defined.
