(* ===== verification/VideoContext.v ===== *)
(** * The context builder (internal/videocontext: service.go, frames.go)

    [Build] starts the speech branch and the frame branch on their pools, waits for both within the total
    budget and merges what they deliver.  The branches run concurrently with [Build]: [builder] is the
    service its program talks to, whose state holds the rest of each branch's program, and every call of
    [Build] may be preceded by any number of steps of the branches. *)

From S2P Require Import Prelude GoStrings Proc Errors Model GoContext Frames Transcriber.

Local Open Scope string_scope.
Local Open Scope list_scope.
Local Open Scope Z_scope.

Definition evidenceObjectPrefix : string := "evidence-frames".
Definition fallbackFrameIntervalMs : Z := 30000.
Definition totalBudget : Z := 60 * minute.
Definition hashSkipDistance : Z := 5.

(** The predicate of the interface [Store]; its other methods are calls. *)
Class EvidenceStore := { IsManagedFileWithPrefix : string -> string -> bool }.

(** ** Key frames *)

Definition FFmpegFrameArgs (video frameDir : string) (gap : Z) : list string :=
  ["-y"; "-skip_frame"; "nokey"; "-i"; video; "-vf";
   "select=eq(n\,0)+gte(t-prev_selected_t\," +:+ Itoa (Z.max 60 gap)
     +:+ ")+gt(scene\,0.3)*gte(t-prev_selected_t\," +:+ Itoa gap +:+ "),scale='min(1280\,iw)':-2,showinfo";
   "-vsync"; "vfr"; pathJoin frameDir "frame_%06d.jpg"].

(** Whether a frame looks like the last one that was kept. *)
Definition similar (prev : option Z) (hash : Z) : bool :=
  match prev with Some p => HammingDistance p hash <=? hashSkipDistance | None => false end.

(** The loop over the frame files from index [i]. *)
Fixpoint frameLoop (ctx : Context) (videoPath : string) (timestamps : list Z) (i : nat) (files : list string)
    (prev : option Z) (failedFrames : Z) (result : list framePart) : proc VideoE (res (list framePart)) :=
  match files with
  | [] =>
      if (Z.of_nat (length result) =? 0) && (0 <? failedFrames)
      then Ret (Err (Internal "所有 OCR 关键帧均处理失败" None)) else Ret (Ok result)
  | file :: files =>
      Do (VCtxErr ctx) (fun c =>
      match c with
      | Some e => Ret (Err e)
      | None =>
          Do (VDecodeImage file) (fun img =>
          let hash := DifferenceHash img in
          if similar prev hash then frameLoop ctx videoPath timestamps (S i) files prev failedFrames result
          else
            let ts := match timestamps !! i with Some ts => ts | None => Z.of_nat i * fallbackFrameIntervalMs end in
            Do (VIncrement "ocrCalls") (fun _ =>
            Do (VRecognize ctx file) (fun o =>
            match o with
            | Err _ =>
                Do (VIncrement "ocrFrameFailures") (fun _ =>
                frameLoop ctx videoPath timestamps (S i) files (Some hash) (failedFrames + 1) result)
            | Ok ocrText =>
                Do (VUploadLocalFile ctx file (Base file) evidenceObjectPrefix) (fun u =>
                match u with
                | Err _ =>
                    Do (VIncrement "frameUploadFailures") (fun _ =>
                    let frameURL := videoPath +:+ "#timestampMs=" +:+ FormatInt ts in
                    frameLoop ctx videoPath timestamps (S i) files (Some hash) failedFrames
                      (result ++ [mkFramePart ts ocrText frameURL]))
                | Ok frameURL =>
                    Do (VOnUpload frameURL) (fun _ =>
                    frameLoop ctx videoPath timestamps (S i) files (Some hash) failedFrames
                      (result ++ [mkFramePart ts ocrText frameURL]))
                end)
            end)))
      end)
  end.

Definition extractKeyFrames (ctx : Context) (videoPath frameDir : string) : proc VideoE (res (list framePart)) :=
  _ ←? call (VMkdirAll frameDir);
  Do (VFrameGap ctx videoPath) (fun gap =>
  timestamps ←? call (VFrameTimestamps ctx (FFmpegFrameArgs videoPath frameDir gap));
  files ←? regularFiles frameDir;
  frameLoop ctx videoPath timestamps 0 files None 0 []).

Section service.
Context `{EvidenceStore}.

(** ** Deleting frames *)

Fixpoint deleteLoop (ctx : Context) (seen frames : list string) : proc VideoE unit :=
  match frames with
  | [] => Ret tt
  | f :: frames =>
      if bool_decide (f ∈ seen) || negb (IsManagedFileWithPrefix f evidenceObjectPrefix)
      then deleteLoop ctx seen frames
      else Do (VRemoveFile (WithoutCancel ctx) f) (fun _ => deleteLoop ctx (f :: seen) frames)
  end.

Definition deleteFrames (ctx : Context) (frames : list string) : proc VideoE unit := deleteLoop ctx [] frames.

(** The frames of a context, each once, in the order they are met. *)
Definition framesOf (vc : VideoContext) : list string :=
  fold_left (fun seen f => if bool_decide (f ∈ seen) then seen else seen ++ [f])
    (concat (EvidenceFrames <$> vc_Segments vc)) [].

Definition DeleteEvidenceFrames (ctx : Context) (vc : option VideoContext) : proc VideoE unit :=
  match vc with None => Ret tt | Some vc => deleteFrames ctx (framesOf vc) end.

(** ** Joining the branches *)

Definition finish (ctx : Context) (videoPath userGoal : string) (t : res (list TranscriptSegment))
    (f : res (list framePart)) : proc VideoE (res VideoContext) :=
  match t, f with
  | Err terr, Err _ => Ret (Err (Internal "ASR 和 OCR 分支均失败" (Some terr)))
  | _, _ =>
      bind (match t with Err _ => inc "asrBranchFailures" | Ok _ => Ret tt end) (fun _ =>
      bind (match f with
            | Err _ =>
                Do (VIncrement "ocrBranchFailures") (fun _ =>
                Do VUploaded (fun uploaded =>
                bind (deleteFrames ctx uploaded) (fun _ => call VClearUploaded)))
            | Ok _ => Ret tt
            end) (fun _ =>
      Ret match merge (match t with Ok items => items | Err _ => [] end)
                      (match f with Ok items => items | Err _ => [] end) with
          | Err e => Err e
          | Ok [] => Err (Internal "视频未解析出有效语音或画面文字" None)
          | Ok segments => NewVideoContext videoPath userGoal segments
          end))
  end.

(** The closure [fail] of [Build]. *)
Definition failBuild (ctx : Context) (err : gerror) : proc VideoE (res VideoContext) :=
  Do VUploaded (fun uploaded =>
  bind (deleteFrames ctx uploaded) (fun _ => Ret (Err (Internal "VideoContext 构建失败" (Some err))))).

(** The budget ran out: cancel, wait up to ten seconds, and report whether the work directory may go. *)
Definition overBudget (ctx bctx : Context) : proc VideoE (bool * res VideoContext) :=
  Do VCancelBranches (fun cleanup =>
  Do (VCtxErr bctx) (fun c =>
  bind (failBuild ctx (Internal "VideoContext 分支处理超过总时间预算" c)) (fun r => Ret (cleanup, r)))).

(** [Build] after its deferred cleanup is registered: whether the work directory may be removed, and the
    result. *)
Definition buildBody (ctx : Context) (videoPath userGoal readable workDir : string)
  : proc VideoE (bool * res VideoContext) :=
  Do (VMkdirAll workDir) (fun m =>
  match m with
  | Err e => bind (failBuild ctx e) (fun r => Ret (true, r))
  | Ok _ =>
      let bctx := WithSource BranchCancel (WithSource (TimedOut totalBudget) ctx) in
      Do (VSubmitASR bctx readable workDir) (fun _ =>
      Do (VSubmitFrames bctx readable workDir) (fun _ =>
      Do (VAwaitASR bctx) (fun t =>
      match t with
      | None => overBudget ctx bctx
      | Some t =>
          Do (VAwaitFrames bctx) (fun f =>
          match f with
          | None => overBudget ctx bctx
          | Some f =>
              bind (finish ctx videoPath userGoal t f) (fun r =>
              match r with
              | Err e => bind (failBuild ctx e) (fun r => Ret (true, r))
              | Ok vc => Ret (true, Ok vc)
              end)
          end)
      end)))
  end).

Definition Build (ctx : Context) (videoPath userGoal : string) : proc VideoE (res VideoContext) :=
  Do (VReadableSource ctx videoPath) (fun s =>
  match s with
  | Err e => Ret (Err (Internal "VideoContext 构建失败" (Some e)))
  | Ok readable =>
      Do VTempDir (fun tmp =>
      Do VNewUUID (fun u =>
      let workDir := pathJoin tmp ("video-context-" +:+ u) in
      bind (buildBody ctx videoPath userGoal readable workDir) (fun '(cleanup, r) =>
      if cleanup : bool then Do (VRemoveAll workDir) (fun _ => Ret r) else Ret r)))
  end).

End service.

(** ** The branches *)

(** Where a branch is: not submitted, running the rest of its program, or done with its result in the
    channel (a pool that rejects it puts the rejection there). *)
Inductive branch (A : Type) : Type :=
| Idle
| Working (p : proc VideoE (res A))
| Sent (r : res A).
Arguments Idle {A}.
Arguments Working {A} p.
Arguments Sent {A} r.

(** What [Build] shares with the branches.  The fields behind [bu_uploaded] are the history: every URL given to
    [onUpload], every URL [RemoveFile] deleted, every URL it answered with an error for, whether
    [cancelBranches] gave up waiting, and the URLs given to [onUpload] after that. *)
Record building := mkBuilding {
  bu_asr : branch (list TranscriptSegment); bu_ocr : branch (list framePart);
  bu_uploaded : list string; bu_ever : list string; bu_removed : list string; bu_refused : list string;
  bu_retained : bool; bu_late : list string }.

Definition set_asr b s :=
  mkBuilding b (bu_ocr s) (bu_uploaded s) (bu_ever s) (bu_removed s) (bu_refused s) (bu_retained s) (bu_late s).
Definition set_ocr b s :=
  mkBuilding (bu_asr s) b (bu_uploaded s) (bu_ever s) (bu_removed s) (bu_refused s) (bu_retained s) (bu_late s).

(** The URL a call of the frame branch adds to the shared list. *)
Definition onUpload {X} (c : VideoE X) : list string := match c with VOnUpload url => [url] | _ => [] end.

Definition add_uploads (l : list string) (s : building) : building :=
  mkBuilding (bu_asr s) (bu_ocr s) (bu_uploaded s ++ l) (bu_ever s ++ l) (bu_removed s) (bu_refused s) (bu_retained s)
    (bu_late s ++ (if bu_retained s then l else [])).

Definition working {A} (b : branch A) : bool := match b with Working _ => true | _ => false end.

(** One step of a branch. *)
Inductive advance : building -> building -> Prop :=
| adv_asr s X (c : VideoE X) k x :
    bu_asr s = Working (Do c k) -> advance s (set_asr (Working (k x)) s)
| adv_asr_sent s r : bu_asr s = Working (Ret r) -> advance s (set_asr (Sent r) s)
| adv_ocr s X (c : VideoE X) k x :
    bu_ocr s = Working (Do c k) -> advance s (add_uploads (onUpload c) (set_ocr (Working (k x)) s))
| adv_ocr_sent s r : bu_ocr s = Working (Ret r) -> advance s (set_ocr (Sent r) s).

(** The answer to a call of [Build] itself. *)
Definition answer {X} (c : VideoE X) (s : building) : X -> building -> Prop :=
  match c in VideoE X return X -> building -> Prop with
  | VSubmitASR ctx readable workDir => fun _ s' =>
      s' = set_asr (Working (Transcribe ctx readable (pathJoin workDir "audio"))) s
      \/ exists e, s' = set_asr (Sent (Err e)) s
  | VSubmitFrames ctx readable workDir => fun _ s' =>
      s' = set_ocr (Working (extractKeyFrames ctx readable (pathJoin workDir "frames"))) s
      \/ exists e, s' = set_ocr (Sent (Err e)) s
  | VAwaitASR _ => fun x s' => s' = s /\ (x = None \/ exists r, x = Some r /\ bu_asr s = Sent r)
  | VAwaitFrames _ => fun x s' => s' = s /\ (x = None \/ exists r, x = Some r /\ bu_ocr s = Sent r)
  | VCancelBranches => fun finished s' =>
      s' = mkBuilding (bu_asr s) (bu_ocr s) (bu_uploaded s) (bu_ever s) (bu_removed s) (bu_refused s) (negb finished)
             (bu_late s)
      /\ (finished = true -> working (bu_asr s) = false /\ working (bu_ocr s) = false)
  | VUploaded => fun x s' => s' = s /\ x = bu_uploaded s
  | VClearUploaded => fun _ s' =>
      s' = mkBuilding (bu_asr s) (bu_ocr s) [] (bu_ever s) (bu_removed s) (bu_refused s) (bu_retained s) (bu_late s)
  | VRemoveFile _ url => fun x s' =>
      s' = match x with
           | Ok _ => mkBuilding (bu_asr s) (bu_ocr s) (bu_uploaded s) (bu_ever s) (bu_removed s ++ [url]) (bu_refused s)
                       (bu_retained s) (bu_late s)
           | Err _ => mkBuilding (bu_asr s) (bu_ocr s) (bu_uploaded s) (bu_ever s) (bu_removed s) (bu_refused s ++ [url])
                        (bu_retained s) (bu_late s)
           end
  | _ => fun _ s' => s' = s
  end.

Definition builder (X : Type) (c : VideoE X) (s : building) (x : X) (s' : building) : Prop :=
  exists s1, rtc advance s s1 /\ answer c s1 x s'.

Definition unstarted : building := mkBuilding Idle Idle [] [] [] [] false [].

(** ** What the frame branch uploads *)

Definition uploads (tr : trace VideoE) : list string := concat ((fun '(Ev c _) => onUpload c) <$> tr).

Definition names (items : list framePart) : list string := fp_frameName <$> items.

(** Every URL in [up] or uploaded in [tr] is the name of a frame of a successful result. *)
Definition covers (up : list string) (tr : trace VideoE) (r : res (list framePart)) : Prop :=
  match r with Ok items => forall u, u ∈ up ++ uploads tr -> u ∈ names items | Err _ => True end.

Lemma covers_cons up X (c : VideoE X) x tr r : covers (up ++ onUpload c) tr r -> covers up (Ev c x :: tr) r.
Proof. unfold covers, uploads. destruct r; [|done]. cbn [fmap list_fmap concat]. by rewrite app_assoc. Qed.

Lemma covers_weaken up up' tr r : up' ⊆ up -> covers up tr r -> covers up' tr r.
Proof.
  unfold covers. destruct r; [|done]. intros Hs Hc u Hu. apply Hc. rewrite elem_of_app in *.
  destruct Hu; [left; by apply Hs|by right].
Qed.

Lemma frameLoop_covers ctx v tss i files prev failed result :
  wp (frameLoop ctx v tss i files prev failed result) (covers (names result)).
Proof.
  revert i prev failed result. induction files as [|file files IH]; intros i prev failed result.
  { cbn [frameLoop]. destruct (_ && _); cbn [wp covers]; [done|]. by rewrite app_nil_r. }
  assert (forall part, names result ⊆ names (result ++ [part])) as Hadd.
  { intros part. unfold names. rewrite fmap_app. by apply list_subseteq_app_l. }
  cbn [frameLoop]. intros [e|]; [done|]. intros img. cbv zeta.
  destruct (similar prev _).
  { eapply wp_mono; [apply IH|]. intros tr r Hc. do 2 apply covers_cons. by rewrite !app_nil_r. }
  intros [] [ocr|e]; cbn [wp].
  - intros [url|e] []; (eapply wp_mono; [apply IH|]); intros tr r Hc; do 6 apply covers_cons; cbn [onUpload app];
      rewrite ?app_nil_r; (eapply covers_weaken; [|exact Hc]).
    + unfold names. rewrite fmap_app. done.
    + apply Hadd.
  - intros []. eapply wp_mono; [apply IH|]. intros tr r Hc. do 5 apply covers_cons. by rewrite !app_nil_r.
Qed.

Lemma extractKeyFrames_covers ctx v dir : wp (extractKeyFrames ctx v dir) (covers []).
Proof.
  unfold extractKeyFrames. intros [[]|e]; cbn [bind_ok bind call]; [|done]. intros gap [tss|e]; cbn [bind_ok bind call]; [|done].
  unfold regularFiles. intros [entries|e]; cbn [bind_ok bind call]; [|done].
  eapply wp_mono; [apply frameLoop_covers|]. intros tr r Hc. do 4 apply covers_cons. exact Hc.
Qed.

(** ** The shared state *)

Definition ocr_ok (s : building) : Prop :=
  match bu_ocr s with
  | Idle => bu_ever s = []
  | Working p => wp p (covers (bu_ever s))
  | Sent r => covers (bu_ever s) [] r
  end.

(** The deletion of [u] was asked for: done, or refused by the object store. *)
Definition gone (s : building) (u : string) : Prop := u ∈ bu_removed s \/ u ∈ bu_refused s.

(** While nothing has been deleted. *)
Record fresh (s : building) : Prop := {
  fr_ocr : ocr_ok s; fr_uploaded : bu_uploaded s = bu_ever s; fr_gone : forall u, ~ gone s u;
  fr_retained : bu_retained s = false; fr_late : bu_late s = [] }.

(** How the state goes on: deletions stay; once waiting was given up, new uploads are late ones; when the frame
    branch is not running, there are none. *)
Record grows (s s' : building) : Prop := {
  gr_gone : forall u, gone s u -> gone s' u;
  gr_retained : bu_retained s' = bu_retained s;
  gr_late : bu_late s ⊆ bu_late s';
  gr_ever : bu_retained s = true -> forall u, u ∈ bu_ever s' -> u ∈ bu_ever s \/ u ∈ bu_late s';
  gr_ocr : working (bu_ocr s) = false ->
    bu_ocr s' = bu_ocr s /\ bu_ever s' = bu_ever s /\ bu_uploaded s' = bu_uploaded s /\ bu_late s' = bu_late s }.

(** What the branches cannot change. *)
Record still (s s' : building) : Prop := {
  st_grows : grows s s'; st_gone : forall u, gone s' u -> gone s u;
  st_uploaded : bu_uploaded s = bu_ever s -> bu_uploaded s' = bu_ever s' }.

Lemma grows_refl s : grows s s.
Proof. split; auto. Qed.

Lemma grows_trans s1 s2 s3 : grows s1 s2 -> grows s2 s3 -> grows s1 s3.
Proof.
  intros [G1 R1 L1 E1 O1] [G2 R2 L2 E2 O2]. split; [auto|congruence|set_solver| |].
  - intros Hr u Hu. destruct (E2 ltac:(congruence) u Hu) as [Hu'|]; [|by right].
    destruct (E1 Hr u Hu') as [|]; [by left|right; by apply L2].
  - intros Hw. destruct (O1 Hw) as (H1 & H2 & H3 & H4). destruct O2 as (? & ? & ? & ?); [by rewrite H1|].
    split_and!; congruence.
Qed.

Lemma still_trans s1 s2 s3 : still s1 s2 -> still s2 s3 -> still s1 s3.
Proof. intros [G1 B1 U1] [G2 B2 U2]. split; [by eapply grows_trans|auto|auto]. Qed.

Lemma advance_still s s' : advance s s' -> still s s'.
Proof.
  intros Hs. destruct Hs as [s X c k x Hb|s r Hb|s X c k x Hb|s r Hb]; (split; [split|..]); try done; cbn;
    rewrite ?Hb; try done; try (intros; by left); [by apply list_subseteq_app_l| |by intros ->].
  intros -> u. rewrite !elem_of_app. intros [?|?]; [by left|by right; right].
Qed.

Lemma advance_fresh s s' : advance s s' -> fresh s -> fresh s'.
Proof.
  intros Hs [H1 H2 H3 H4 H5]. destruct Hs as [s X c k x Hb|s r Hb|s X c k x Hb|s r Hb]; split; try done;
    unfold ocr_ok in *; cbn in *; rewrite ?Hb in H1.
  - eapply wp_mono; [apply (H1 x)|]. intros tr r. unfold covers, uploads. destruct r; [|done].
    cbn [fmap list_fmap concat]. by rewrite app_assoc.
  - by rewrite H2.
  - by rewrite H4, H5.
  - exact H1.
Qed.

Lemma advances_still s s' : rtc advance s s' -> still s s'.
Proof.
  induction 1 as [s|s s1 s2 Hs _ IH]; [by split; [apply grows_refl|..]|].
  eapply still_trans; [by apply advance_still|done].
Qed.

Lemma advances_grow s s' : rtc advance s s' -> grows s s'.
Proof. intros Hadv. apply advances_still, Hadv. Qed.

Lemma advances_fresh s s' : rtc advance s s' -> fresh s -> fresh s'.
Proof. induction 1; [done|]. eauto using advance_fresh. Qed.

Section proofs.
Context `{EvidenceStore}.

Definition managed (u : string) : Prop := IsManagedFileWithPrefix u evidenceObjectPrefix = true.

Lemma deleteLoop_swp ctx seen frames s :
  (forall u, u ∈ seen -> gone s u) ->
  swp builder (deleteLoop ctx seen frames) s (fun _ s' => grows s s' /\ forall u, u ∈ frames -> managed u -> gone s' u).
Proof.
  revert seen s. induction frames as [|f frames IH]; intros seen s Hseen; cbn [deleteLoop].
  { split; [apply grows_refl|]. by intros u ?%elem_of_nil. }
  destruct (_ || _) eqn:E.
  - eapply swp_mono; [by apply IH|]. cbn beta. intros [] s' (Hg & Hall). split; [done|].
    intros u [->|Hu]%elem_of_cons Hm; [|auto]. apply (gr_gone _ _ Hg).
    apply orb_true_iff in E as [E%bool_decide_eq_true|E%negb_true_iff]; [auto|]. unfold managed in Hm. congruence.
  - intros x s' (s1 & Hadv & Hx). pose proof (advances_grow _ _ Hadv) as Hg1.
    assert (grows s1 s') as Hg2.
    { cbn in Hx. destruct x; subst s'; split; try done; unfold gone; cbn; set_solver. }
    assert (gone s' f) as Hf by (cbn in Hx; destruct x; subst s'; unfold gone; cbn; set_solver).
    eapply swp_mono; [apply IH|].
    { intros u [->|Hu]%elem_of_cons; [done|]. by apply (gr_gone _ _ Hg2), (gr_gone _ _ Hg1), Hseen. }
    cbn. intros [] s2 (Hg3 & Hall). split; [exact (grows_trans _ _ _ (grows_trans _ _ _ Hg1 Hg2) Hg3)|].
    intros u [->|Hu]%elem_of_cons Hm; [by apply (gr_gone _ _ Hg3)|auto].
Qed.

(** Every upload is accounted for: deleted, or the object store refused to delete it; or part of the result; or
    made by a branch that had not stopped in time, after a failing [Build] had given up waiting for it.  What
    the result refers to was not deleted, and no upload is to come, unless a branch was given up on. *)
Definition accounted (s : building) (r : res VideoContext) : Prop :=
  (forall u, u ∈ bu_ever s -> managed u ->
     u ∈ bu_removed s \/ u ∈ bu_refused s
     \/ (exists vc, r = Ok vc /\ exists seg, seg ∈ vc_Segments vc /\ u ∈ EvidenceFrames seg)
     \/ (u ∈ bu_late s /\ exists e, r = Err e))
  /\ (forall vc, r = Ok vc -> bu_late s = [] /\
       forall seg u, seg ∈ vc_Segments vc -> u ∈ EvidenceFrames seg -> (u ∉ bu_removed s) /\ (u ∉ bu_refused s))
  /\ ((bu_retained s = true /\ exists e, r = Err e) \/ working (bu_ocr s) = false).

Lemma accounted_advance s s' r : rtc advance s s' -> accounted s r -> accounted s' r.
Proof.
  intros Hadv (H1 & H2 & H3). pose proof (advances_still _ _ Hadv) as [[Hgone Hret Hlate Hever Hocr] Hback _].
  assert (forall u, u ∈ bu_ever s' -> u ∈ bu_ever s \/ (u ∈ bu_late s' /\ exists e, r = Err e)) as Hnew.
  { intros u Hu. destruct H3 as [[Hr He]|Hw]; [destruct (Hever Hr u Hu); auto|].
    destruct (Hocr Hw) as (_ & Ee & _). left. by rewrite <- Ee. }
  split; [|split].
  - intros u Hu Hm. destruct (Hnew u Hu) as [Hu'|]; [|by do 3 right].
    destruct (H1 u Hu' Hm) as [Hg|[Hg|[Hv|[Hl He]]]].
    + destruct (Hgone u (or_introl Hg)); auto.
    + destruct (Hgone u (or_intror Hg)); auto.
    + by do 2 right; left.
    + do 3 right. split; [by apply Hlate|done].
  - intros vc Hvc. destruct (H2 vc Hvc) as [Hl Hkeep]. split.
    + destruct H3 as [[_ [e He]]|Hw]; [congruence|]. destruct (Hocr Hw) as (_ & _ & _ & ->). done.
    + intros seg u Hseg Hu. destruct (Hkeep seg u Hseg Hu).
      split; intros Hg; [destruct (Hback u (or_introl Hg))|destruct (Hback u (or_intror Hg))]; done.
  - rewrite Hret. destruct H3 as [?|H3]; [by left|right]. destruct (Hocr H3) as (-> & _). done.
Qed.

(** What is known when something has gone wrong: what was uploaded is still in the list, and nothing runs any
    more or the branch was given up on; or everything was deleted. *)
Definition failing (s : building) : Prop :=
  ((bu_retained s = true \/ working (bu_ocr s) = false) /\ bu_uploaded s = bu_ever s)
  \/ (working (bu_ocr s) = false /\ forall u, u ∈ bu_ever s -> managed u -> gone s u).

Lemma failing_advance s s' : rtc advance s s' -> failing s -> failing s'.
Proof.
  intros Hadv. pose proof (advances_still _ _ Hadv) as [[Hgone Hret _ _ Hocr] _ Hup]. unfold failing.
  intros [[Hw Hu]|[Hw Hall]]; [left|right].
  - split; [|auto]. destruct Hw as [Hw|Hw]; [left; congruence|right]. by destruct (Hocr Hw) as (-> & _).
  - destruct (Hocr Hw) as (-> & -> & _). auto.
Qed.

Lemma failBuild_swp ctx e s :
  failing s -> swp builder (failBuild ctx e) s (fun r s' => (exists e', r = Err e') /\ accounted s' r).
Proof.
  intros Hf x s' (s1 & Hadv & -> & ->). apply (failing_advance _ _ Hadv) in Hf. apply swp_bind.
  eapply swp_mono; [apply deleteLoop_swp; by intros u ?%elem_of_nil|]. cbn beta. intros [] s2 (Hg & Hall).
  cbn [swp]. split; [by eexists|]. split; [|split; [by intros vc ?|]].
  - intros u Hu Hm. assert (gone s2 u \/ u ∈ bu_late s2) as [[?|?]|?]; [|auto..|do 3 right; split; [done|by eexists]].
    destruct Hf as [[Hw Hup]|[Hw Hup]].
    + destruct Hw as [Hr|Hw].
      * destruct (gr_ever _ _ Hg Hr u Hu) as [Hu'|]; [left|by right]. apply Hall; [by rewrite Hup|done].
      * destruct (gr_ocr _ _ Hg Hw) as (_ & Ee & _). left. apply Hall; [by rewrite Hup, <- Ee|done].
    + destruct (gr_ocr _ _ Hg Hw) as (_ & Ee & _). left. apply (gr_gone _ _ Hg), Hup; [by rewrite <- Ee|done].
  - assert (bu_retained s1 = true \/ working (bu_ocr s1) = false) as [Hr|Hw] by (destruct Hf as [[? _]|[? _]]; auto).
    + left. split; [by rewrite (gr_retained _ _ Hg)|by eexists].
    + right. destruct (gr_ocr _ _ Hg Hw) as (-> & _). done.
Qed.

Lemma fresh_idle_failing s : fresh s -> working (bu_ocr s) = false -> failing s.
Proof. intros [_ Hup _ _ _] Hw. left. auto. Qed.

Definition joined (r : res VideoContext) (s' : building) : Prop :=
  match r with Ok vc => accounted s' (Ok vc) | Err _ => failing s' end.

Lemma NewVideoContext_segments v goal segs vc : NewVideoContext v goal segs = Ok vc -> vc_Segments vc = segs.
Proof. unfold NewVideoContext. destruct (is_blank v); [done|]. by intros [= <-]. Qed.

(** The pure end of [finish]: an error, or the segments of the merge. *)
Lemma joined_merge v goal ts fs s :
  (forall segs vc, merge ts fs = Ok segs -> vc_Segments vc = segs -> accounted s (Ok vc)) -> failing s ->
  joined match merge ts fs with
         | Err e => Err e
         | Ok [] => Err (Internal "视频未解析出有效语音或画面文字" None)
         | Ok segments => NewVideoContext v goal segments
         end s.
Proof.
  intros Hok Hf. destruct (merge ts fs) as [[|seg segs]|e]; [done| |done].
  destruct (NewVideoContext v goal (seg :: segs)) as [vc|e] eqn:E; [|done].
  eapply Hok; [done|]. by eapply NewVideoContext_segments.
Qed.

Lemma fresh_sent_advance s s' f :
  rtc advance s s' -> fresh s -> bu_ocr s = Sent f -> fresh s' /\ bu_ocr s' = Sent f.
Proof.
  intros Hadv Hf Ho. split; [by eapply advances_fresh|]. pose proof (gr_ocr _ _ (advances_grow _ _ Hadv)) as Hs.
  rewrite Ho in Hs. by apply Hs.
Qed.

(** Both branches failed to deliver anything to delete: the frame branch's result [f] decides. *)
Lemma finish_frames_swp v goal ts fs s :
  fresh s -> bu_ocr s = Sent (Ok fs) ->
  joined match merge ts fs with
         | Err e => Err e
         | Ok [] => Err (Internal "视频未解析出有效语音或画面文字" None)
         | Ok segments => NewVideoContext v goal segments
         end s.
Proof.
  intros Hf Ho. apply joined_merge; [|by apply fresh_idle_failing; [|rewrite Ho]].
  destruct Hf as [Hocr _ Hrem Hret Hlate]. unfold ocr_ok in Hocr. rewrite Ho in Hocr.
  intros segs vc Hm Hs. split; [|split; [|right; by rewrite Ho]].
  - intros u Hu _. do 2 right; left. exists vc. split; [done|]. rewrite Hs. apply (merge_frames _ _ _ _ Hm), Hocr.
    apply elem_of_app. by left.
  - intros ? [= <-]. split; [done|]. intros seg u _ _. by split; intros Hg; apply (Hrem u); [left|right].
Qed.

Lemma finish_deleted_swp ctx v goal ts terr s :
  fresh s -> bu_ocr s = Sent (Err terr) ->
  swp builder
    (bind (Do (VIncrement "ocrBranchFailures") (fun _ =>
           Do VUploaded (fun uploaded => bind (deleteFrames ctx uploaded) (fun _ => call VClearUploaded))))
       (fun _ => Ret match merge ts [] with
                     | Err e => Err e
                     | Ok [] => Err (Internal "视频未解析出有效语音或画面文字" None)
                     | Ok segments => NewVideoContext v goal segments
                     end)) s joined.
Proof.
  intros Hf Ho [] s' (s1 & Hadv & ->). destruct (fresh_sent_advance _ _ _ Hadv Hf Ho) as [Hf1 Ho1].
  intros up s' (s2 & Hadv2 & -> & ->). destruct (fresh_sent_advance _ _ _ Hadv2 Hf1 Ho1) as [Hf2 Ho2].
  do 2 apply swp_bind. eapply swp_mono; [apply deleteLoop_swp; by intros u ?%elem_of_nil|].
  cbn beta. intros [] s3 (Hg3 & Hall). destruct Hf2 as [_ Hup _ _ Hlate].
  destruct (gr_ocr _ _ Hg3) as (Ho3 & Hever & _ & Hl3); [by rewrite Ho2|].
  intros [] s' (s4 & Hadv4 & ->). pose proof (advances_grow _ _ Hadv4) as Hg4.
  destruct (gr_ocr _ _ Hg4) as (Ho4 & Hever4 & _ & Hl4); [by rewrite Ho3, Ho2|].
  assert (forall u, u ∈ bu_ever s4 -> managed u -> gone s4 u) as Hgone.
  { intros u. rewrite Hever4, Hever, <- Hup. intros Hu Hm. apply (gr_gone _ _ Hg4). by apply Hall. }
  cbn [swp]. apply joined_merge.
  - intros segs vc Hm Hs. split; [intros u Hu Hmu; destruct (Hgone u Hu Hmu); auto|]. cbn.
    split; [|right; by rewrite Ho4, Ho3, Ho2]. intros ? [= <-]. split; [congruence|]. intros seg u Hseg Hu. exfalso. rewrite Hs in Hseg.
    assert (u ∈ fp_frameName <$> []) as Hnil by (apply (merge_frames _ _ _ _ Hm); eauto). by apply elem_of_nil in Hnil.
  - right. cbn. by split; [rewrite Ho4, Ho3, Ho2|].
Qed.

Lemma finish_swp ctx v goal t f s :
  fresh s -> bu_ocr s = Sent f -> swp builder (finish ctx v goal t f) s joined.
Proof.
  intros Hf Ho. unfold finish.
  destruct t as [ts|terr], f as [fs|ferr]; cbn [bind inc call swp].
  - by apply finish_frames_swp.
  - by eapply finish_deleted_swp.
  - intros [] s' (s1 & Hadv & ->). destruct (fresh_sent_advance _ _ _ Hadv Hf Ho). by apply finish_frames_swp.
  - apply fresh_idle_failing; [done|by rewrite Ho].
Qed.

Lemma overBudget_swp ctx bctx s :
  fresh s -> swp builder (overBudget ctx bctx) s (fun out s' => accounted s' out.2).
Proof.
  intros Hf ok s' (s1 & Hadv & -> & Hfin). intros c s' (s2 & Hadv2 & ->). apply swp_bind.
  eapply swp_mono; [apply failBuild_swp|cbn; by intros r s' [_ ?]].
  eapply failing_advance; [exact Hadv2|]. destruct (advances_fresh _ _ Hadv Hf) as [_ Hup _ _ _]. left. split; [|done].
  destruct ok; [right|by left]. by apply Hfin.
Qed.

Lemma bind_failBuild_swp ctx e s :
  failing s -> swp builder (bind (failBuild ctx e) (fun r => Ret (true, r))) s (fun out s' => accounted s' out.2).
Proof. intros Hf. apply swp_bind. eapply swp_mono; [by apply failBuild_swp|]. cbn. by intros r s' [_ ?]. Qed.

Lemma fresh_set_asr b s : fresh s -> fresh (set_asr b s).
Proof. by intros [H1 H2 H3 H4 H5]. Qed.

Lemma idle_advance s s' :
  rtc advance s s' -> fresh s -> bu_ocr s = Idle -> fresh s' /\ bu_ocr s' = Idle.
Proof.
  intros Hadv Hf Ho. split; [by eapply advances_fresh|]. pose proof (gr_ocr _ _ (advances_grow _ _ Hadv)) as Hs.
  rewrite Ho in Hs. by apply Hs.
Qed.

(** Both branches are submitted. *)
Lemma awaiting_swp ctx bctx v goal s :
  fresh s ->
  swp builder
    (Do (VAwaitASR bctx) (fun t =>
      match t with
      | None => overBudget ctx bctx
      | Some t =>
          Do (VAwaitFrames bctx) (fun f =>
          match f with
          | None => overBudget ctx bctx
          | Some f =>
              bind (finish ctx v goal t f) (fun r =>
              match r with
              | Err e => bind (failBuild ctx e) (fun r => Ret (true, r))
              | Ok vc => Ret (true, Ok vc)
              end)
          end)
      end)) s (fun out s' => accounted s' out.2).
Proof.
  intros Hf [t|] s' (s1 & Hadv & -> & _); pose proof (advances_fresh _ _ Hadv Hf) as Hf1; [|by apply overBudget_swp].
  intros f s' (s2 & Hadv2 & -> & Hsent). pose proof (advances_fresh _ _ Hadv2 Hf1) as Hf2.
  destruct f as [f|]; [|by apply overBudget_swp]. destruct Hsent as [?|(r & [= <-] & Ho)]; [done|].
  apply swp_bind. eapply swp_mono; [by apply finish_swp|]. intros [vc|e] s3 Hj; [exact Hj|].
  by apply bind_failBuild_swp.
Qed.

Lemma buildBody_swp ctx v goal readable dir s :
  fresh s -> bu_ocr s = Idle ->
  swp builder (buildBody ctx v goal readable dir) s (fun out s' => accounted s' out.2).
Proof.
  intros H0 Hi0 m s' (s1 & Hadv & ->). destruct (idle_advance _ _ Hadv H0 Hi0) as [H1 Hi1].
  destruct m as [[]|e]; [|by apply bind_failBuild_swp, fresh_idle_failing; [|rewrite Hi1]].
  intros [] s' (s2 & Hadv2 & Hs'). destruct (idle_advance _ _ Hadv2 H1 Hi1) as [H2 Hi2].
  assert (fresh s' /\ bu_ocr s' = Idle) as [H2' Hi2'].
  { destruct Hs' as [-> | [e ->]]; (split; [by apply fresh_set_asr|done]). }
  intros [] s'' (s3 & Hadv3 & Hs''). destruct (idle_advance _ _ Hadv3 H2' Hi2') as [[Hocr Hup Hrem Hret Hlate] Hi3].
  apply awaiting_swp. unfold ocr_ok in Hocr. rewrite Hi3 in Hocr.
  destruct Hs'' as [-> | [e ->]]; split; try done. unfold ocr_ok. cbn. rewrite Hocr. apply extractKeyFrames_covers.
Qed.

(** C19. No evidence frame is lost track of. Whatever the interleaving of [Build] with its two branches, of
    rejections by the pools, failures of any call and an expiring budget, when [Build] returns every managed
    frame the vision branch uploaded has been deleted, or the object store refused to delete it, or it is
    referred to by the context that is returned, or - only if the build failed, having waited out the grace
    period for its branches in vain - it was uploaded after that; but for the last case the branch uploads
    nothing more; and no frame the returned context refers to has been deleted. *)
Theorem Build_frames (ctx : Context) (videoPath userGoal : string) :
  swp builder (Build ctx videoPath userGoal) unstarted (fun r s => accounted s r).
Proof.
  assert (fresh unstarted) as H0 by (split; try done; intros u [Hu|Hu]; by apply elem_of_nil in Hu). assert (bu_ocr unstarted = Idle) as Hi0 by done.
  intros r s' (s1 & Hadv & ->). destruct (idle_advance _ _ Hadv H0 Hi0) as [H1 Hi1].
  destruct r as [readable|e].
  2: { destruct H1 as [Hocr _ _ _ _]. unfold ocr_ok in Hocr. rewrite Hi1 in Hocr.
       split; [|split; [by intros vc ?|right; by rewrite Hi1]]. intros u. rewrite Hocr. by intros ?%elem_of_nil. }
  intros tmp s' (s2 & Hadv2 & ->). destruct (idle_advance _ _ Hadv2 H1 Hi1) as [H2 Hi2].
  intros u s' (s3 & Hadv3 & ->). destruct (idle_advance _ _ Hadv3 H2 Hi2) as [H3 Hi3].
  apply swp_bind. eapply swp_mono; [by apply buildBody_swp|]. cbn beta. intros [[] r] s4 Hacc; [|exact Hacc].
  intros x s' (s5 & Hadv5 & ->). by eapply accounted_advance.
Qed.

End proofs.

(** ** Which frames are read *)

(** The hashes of the images handed to OCR; [h] is the hash of the image decoded last. *)
Fixpoint recognised (h : Z) (tr : trace VideoE) : list Z :=
  match tr with
  | [] => []
  | Ev c x :: tr =>
      (match c in VideoE X return X -> list Z with
       | VDecodeImage _ => fun img => recognised (DifferenceHash img) tr
       | VRecognize _ _ => fun _ => h :: recognised h tr
       | _ => fun _ => recognised h tr
       end) x
  end.

(** No image looks like the one before it. *)
Fixpoint distinct (prev : option Z) (hashes : list Z) : Prop :=
  match hashes with [] => True | h :: hashes => similar prev h = false /\ distinct (Some h) hashes end.

(** The time of frame [i]. *)
Definition stampOf (timestamps : list Z) (i : nat) : Z :=
  default (Z.of_nat i * fallbackFrameIntervalMs) (timestamps !! i).

Definition loop_post (tss : list Z) (i : nat) (files : list string) (prev : option Z) (result : list framePart)
    (tr : trace VideoE) (r : res (list framePart)) : Prop :=
  (forall h, distinct prev (recognised h tr) /\ (length (recognised h tr) <= length files)%nat)
  /\ forall items, r = Ok items ->
       exists new, items = result ++ new /\ (fp_timestampMs <$> new) `sublist_of` (stampOf tss <$> seq i (length files)).

Lemma frameLoop_spec ctx v tss i files prev failed result :
  wp (frameLoop ctx v tss i files prev failed result) (loop_post tss i files prev result).
Proof.
  revert i prev failed result. induction files as [|file files IH]; intros i prev failed result.
  { cbn [frameLoop]. destruct (_ && _); cbn [wp]; [by split|split; [by intros h|]].
    intros items [= <-]. exists []. by rewrite app_nil_r. }
  cbn [frameLoop]. intros [e|]; [split; [|done]; intros h; split; [done|cbn; lia]|]. intros img. cbv zeta.
  destruct (similar prev _) eqn:Es.
  { eapply wp_mono; [apply IH|]. intros tr r [Hd Hi]. split.
    - intros h. cbn. destruct (Hd (DifferenceHash img)). split; [done|lia].
    - intros items Hr. destruct (Hi items Hr) as (new & -> & Hs). exists new. split; [done|]. by constructor. }
  intros [] [ocr|e]; cbn [wp].
  - assert (forall name tr r,
      loop_post tss (S i) files (Some (DifferenceHash img)) (result ++ [mkFramePart (stampOf tss i) ocr name]) tr r ->
      (distinct prev (DifferenceHash img :: recognised (DifferenceHash img) tr)
       /\ (length (DifferenceHash img :: recognised (DifferenceHash img) tr) <= S (length files))%nat)
      /\ forall items, r = Ok items -> exists new, items = result ++ new /\
           (fp_timestampMs <$> new) `sublist_of` (stampOf tss <$> seq i (S (length files)))) as Hnext.
    { intros name tr r [Hd Hi]. destruct (Hd (DifferenceHash img)). split; [split; [done|cbn; lia]|].
      intros items Hr. destruct (Hi items Hr) as (new & -> & Hs).
      exists (mkFramePart (stampOf tss i) ocr name :: new). rewrite <- app_assoc. split; [done|].
      cbn [fmap list_fmap seq]. by constructor. }
    intros [url|e] []; (eapply wp_mono; [apply IH|]); intros tr r Hpost; apply Hnext in Hpost as [Hd Hi];
      (split; [by intros h|done]).
  - intros []. eapply wp_mono; [apply IH|]. intros tr r [Hd Hi]. split.
    + intros h. destruct (Hd (DifferenceHash img)). cbn. split; [done|lia].
    + intros items Hr. destruct (Hi items Hr) as (new & -> & Hs). exists new. split; [done|]. by constructor.
Qed.

(** Reading the key frames. At most one OCR run per frame file, and no frame is read whose picture looks
    like the picture of the frame read before it; the frames returned carry the times of distinct frames
    of the video in its order, taken from ffmpeg's log or, where that is short, thirty seconds apart. *)
Theorem extractKeyFrames_reads (ctx : Context) (video dir : string) :
  wp (extractKeyFrames ctx video dir) (fun tr r =>
    distinct None (recognised 0 tr) /\
    forall items, r = Ok items -> exists timestamps (n : nat), (length (recognised 0 tr) <= n)%nat /\
      (exists c args, Ev (VFrameTimestamps c args) (Ok timestamps) ∈ tr) /\
      (fp_timestampMs <$> items) `sublist_of` (stampOf timestamps <$> seq 0 n)).
Proof.
  unfold extractKeyFrames. intros [[]|e]; cbn [bind_ok bind call]; [|done]. intros gap [tss|e]; cbn [bind_ok bind call]; [|done].
  unfold regularFiles. intros [entries|e]; cbn [bind_ok bind call]; [|done].
  eapply wp_mono; [apply frameLoop_spec|]. intros tr r [Hd Hi]. destruct (Hd 0) as [Hd0 Hl]. split; [exact Hd0|].
  intros items Hr. destruct (Hi items Hr) as (new & -> & Hs). eexists tss, _. split; [exact Hl|]. split; [|exact Hs].
  do 2 eexists. ev_in.
Qed.

(** A video whose frames show no text and that has no speech still gets a context: the check for an empty
    result counts windows, and a frame opens a window whether or not it has text. *)
Theorem blank_context_accepted `{EvidenceStore} (ctx : Context) (goal : string) :
  exists vc, finish ctx "v.mp4" goal (Ok []) (Ok [mkFramePart 0 "" "http://minio/media/evidence-frames/a.jpg"]) = Ret (Ok vc)
    /\ Forall (fun seg => Transcript seg = "" /\ OcrTexts seg = []) (vc_Segments vc).
Proof.
  exists (mkContext "v.mp4" (TrimSpace goal)
            [mkSegment 0 60000 "" [] ["http://minio/media/evidence-frames/a.jpg"]]).
  split; [reflexivity|]. by repeat constructor.
Qed.
