(* ===== verification/Transcription.v ===== *)
(** * Standalone transcription (internal/analysis/transcription.go)

    [Transcriptions] over the interface [TranscriptionE] of its fields: the Redis client, the event hub,
    the media service and repository, the transcriber and the AI pool. *)

From S2P Require Import Prelude GoStrings Proc Errors Model GoContext.

Local Open Scope string_scope.
Local Open Scope list_scope.
Local Open Scope Z_scope.

Inductive TranscriptionE : Type -> Type :=
| TSetNX (ctx : Context) (key value : string) (ttl : Z) : TranscriptionE (res bool)
| TSet (ctx : Context) (key value : string) (ttl : Z) : TranscriptionE (res unit)
| TDel (ctx : Context) (key : string) : TranscriptionE (res unit)
| TGet (ctx : Context) (key : string) : TranscriptionE (res (option string))
| TExists (ctx : Context) (key : string) : TranscriptionE (res Z)
| TPublish (ctx : Context) (mediaID : Z) (status : TaskStatus) (stage : TaskStage) : TranscriptionE unit
| TFindByID (ctx : Context) (mediaID : Z) : TranscriptionE (res (option MediaFile))
| TReadableSource (ctx : Context) (path : string) : TranscriptionE (res string)
| TTranscribeVideo (ctx : Context) (src : string) : TranscriptionE (res string)
| TUpdateTranscript (ctx : Context) (mediaID : Z) (text : string) : TranscriptionE (res unit)
| TInvalidateUserList (ctx : Context) (userID : Z) : TranscriptionE unit
| TSubmit (mediaID : Z) : TranscriptionE (res unit). (* Pool.Submit of the closure that calls run *)

Definition transcriptionActiveTTL : Z := 2 * hour.

Definition activeKey (id : Z) : string := "transcription:active:" +:+ FormatInt id.
Definition stateKey (id : Z) : string := "transcription:state:" +:+ FormatInt id.

Definition setState (ctx : Context) (mediaID : Z) (st : State) (ttl : Z) : proc TranscriptionE unit :=
  Do (TSet ctx (stateKey mediaID) st ttl) (fun _ => Ret tt).

Definition clearActive (ctx : Context) (mediaID : Z) : proc TranscriptionE unit :=
  Do (TDel ctx (activeKey mediaID)) (fun _ => Ret tt).

Definition publishState (ctx : Context) (mediaID : Z) (status : TaskStatus) (stage : TaskStage) : proc TranscriptionE unit :=
  call (TPublish ctx mediaID status stage).

Definition Queue (ctx : Context) (mediaID : Z) : proc TranscriptionE (res bool) :=
  ok ←? call (TSetNX ctx (activeKey mediaID) "1" transcriptionActiveTTL);
  if negb ok then Ret (Ok false)
  else
    bind (setState ctx mediaID StateQueued transcriptionActiveTTL) (fun _ =>
    bind (publishState ctx mediaID (StatusOf StateQueued "文字提取任务已排队") StageQueued) (fun _ =>
    Ret (Ok true))).

Definition Transcribe (mediaID : Z) : proc TranscriptionE (res unit) := call (TSubmit mediaID).

(** The closure [fail] of [run]. *)
Definition failRun (ctx : Context) (mediaID : Z) : proc TranscriptionE unit :=
  bind (setState ctx mediaID StateFailed hour) (fun _ =>
  publishState ctx mediaID (StatusOf StateFailed "文字提取失败，请稍后重试") StageFailed).

(** [run] between the registration of its deferred call and its return. *)
Definition runBody (ctx : Context) (mediaID : Z) (mf : MediaFile) : proc TranscriptionE unit :=
  bind (setState ctx mediaID StateProcessing transcriptionActiveTTL) (fun _ =>
  bind (publishState ctx mediaID (StatusOf StateProcessing "正在识别视频语音") StageASR) (fun _ =>
  Do (TReadableSource ctx (mf_FilePath mf)) (fun src =>
  match src with
  | Err _ => failRun ctx mediaID
  | Ok src =>
      Do (TTranscribeVideo ctx src) (fun text =>
      match text with
      | Err _ => failRun ctx mediaID
      | Ok text =>
          Do (TUpdateTranscript ctx mediaID text) (fun w =>
          match w with
          | Err _ => failRun ctx mediaID
          | Ok _ =>
              Do (TInvalidateUserList ctx (mf_UserID mf)) (fun _ =>
              bind (setState ctx mediaID StateCompleted (7 * 24 * hour)) (fun _ =>
              publishState ctx mediaID (StatusCompleted text) StageCompleted))
          end)
      end)
  end))).

Definition run (ctx : Context) (mediaID : Z) : proc TranscriptionE unit :=
  Do (TFindByID ctx mediaID) (fun found =>
  match found with
  | Ok (Some mf) => bind (runBody ctx mediaID mf) (fun _ => clearActive ctx mediaID)
  | _ => clearActive ctx mediaID
  end).

Definition RejectQueued (ctx : Context) (mediaID : Z) : proc TranscriptionE unit :=
  bind (clearActive ctx mediaID) (fun _ =>
  bind (setState ctx mediaID StateFailed (10 * minute)) (fun _ =>
  publishState ctx mediaID (StatusOf StateFailed "任务队列已满，请稍后重试") StageDispatchFailed)).

(** [Status] when there is no stored transcript. *)
Definition runtimeStatus (ctx : Context) (mf : MediaFile) : proc TranscriptionE (res TaskStatus) :=
  v ←? call (TGet ctx (stateKey (mf_ID mf)));
  match v with
  | None =>
      n ←? call (TExists ctx (activeKey (mf_ID mf)));
      if 0 <? n then Ret (Ok (StatusOf StateProcessing "正在提取文字"))
      else Ret (Ok (StatusOf StateNotStarted "尚未提交文字提取任务"))
  | Some v =>
      Ret (Ok
        (if negb (ValidState v) then StatusOf StateNotStarted "任务状态不可用"
         else if String.eqb v StateCompleted then StatusCompletedNullable (mf_TranscriptText mf)
         else if String.eqb v StateFailed then StatusOf StateFailed "文字提取失败，请稍后重试"
         else if String.eqb v StateQueued then StatusOf StateQueued "文字提取任务已排队"
         else if String.eqb v StateProcessing then StatusOf StateProcessing "正在提取文字"
         else StatusOf StateNotStarted "尚未提交文字提取任务"))
  end.

Definition Status (ctx : Context) (mf : MediaFile) : proc TranscriptionE (res TaskStatus) :=
  match mf_TranscriptText mf with
  | Some text => if negb (is_blank text) then Ret (Ok (StatusCompleted text)) else runtimeStatus ctx mf
  | None => runtimeStatus ctx mf
  end.

(** The part of the handler [transcribe] (httpapi/handlers_media.go) after the ownership check: queue,
    dispatch, and roll back when the pool rejects. *)
Definition submitTranscription (ctx : Context) (mediaID : Z) : proc TranscriptionE (res unit) :=
  queued ←? Queue ctx mediaID;
  if negb queued then Ret (Err (Business CodeConflict "文字提取任务正在处理中"))
  else
    bind (Transcribe mediaID) (fun r =>
    match r with
    | Ok _ => Ret (Ok tt)
    | Err _ =>
        bind (RejectQueued ctx mediaID) (fun _ =>
        Ret (Err (Business CodeServiceUnavailable "任务队列已满，请稍后重试")))
    end).

(** ** What a run shows *)

Definition stateWrites : trace TranscriptionE -> list (string * State) :=
  select (fun X (c : TranscriptionE X) => match c with TSet _ k v _ => fun _ => Some (k, v) | _ => fun _ => None end).

Definition shown : trace TranscriptionE -> list (Z * TaskStatus) :=
  select (fun X (c : TranscriptionE X) => match c with TPublish _ id st _ => fun _ => Some (id, st) | _ => fun _ => None end).

Definition stored : trace TranscriptionE -> list (Z * string) :=
  select (fun X (c : TranscriptionE X) => match c with
    | TUpdateTranscript _ id t => fun r => match r with Ok _ => Some (id, t) | Err _ => None end
    | _ => fun _ => None end).

Definition cleared : trace TranscriptionE -> list string :=
  select (fun X (c : TranscriptionE X) => match c with TDel _ k => fun _ => Some k | _ => fun _ => None end).

(** The end of the trace is the release of the active marker. *)
Definition released (id : Z) (tr : trace TranscriptionE) : Prop :=
  cleared tr = [activeKey id] /\ exists pre ctx r, tr = pre ++ [Ev (TDel ctx (activeKey id)) r].

Ltac end_of_trace :=
  match goal with |- exists pre ctx r, ?l = _ => exists (removelast l); do 2 eexists; reflexivity end.

(** Why a run on [mf] failed: its source could not be read, not be transcribed, or its text not be stored. *)
Inductive failedBy (ctx : Context) (mf : MediaFile) (tr : trace TranscriptionE) : Prop :=
| by_source e : Ev (TReadableSource ctx (mf_FilePath mf)) (Err e) ∈ tr -> failedBy ctx mf tr
| by_speech src e : Ev (TTranscribeVideo ctx src) (Err e) ∈ tr -> failedBy ctx mf tr
| by_row id text e : Ev (TUpdateTranscript ctx id text) (Err e) ∈ tr -> failedBy ctx mf tr.

(** C33. The active marker outlives the work and never the task. Every run of a transcription looks the media
    file up first and ends by deleting the marker, exactly once and as its last call. If the file is unknown or
    the lookup failed, that is all it does. Otherwise it announces the task as processing, and then either as
    completed, when the file's own source was read and transcribed and exactly that text stored in its row
    before, the text shown being the text stored; or as failed, when one of these three steps failed, with no
    text acknowledged as stored. The state in Redis and the events agree at every point. *)
Theorem run_settles (ctx : Context) (mediaID : Z) :
  wp (run ctx mediaID) (fun tr _ =>
    released mediaID tr
    /\ (fun '(id, st) => (stateKey id, ts_State st)) <$> shown tr = stateWrites tr
    /\ exists found work x, tr = Ev (TFindByID ctx mediaID) found :: work ++ [Ev (TDel ctx (activeKey mediaID)) x]
    /\ match found with
       | Ok (Some mf) =>
           (exists src text, Ev (TReadableSource ctx (mf_FilePath mf)) (Ok src) ∈ work
              /\ Ev (TTranscribeVideo ctx src) (Ok text) ∈ work /\ stored tr = [(mediaID, text)]
              /\ stateWrites tr = [(stateKey mediaID, StateProcessing); (stateKey mediaID, StateCompleted)]
              /\ snd <$> last (shown tr) = Some (StatusCompleted text))
           \/ (failedBy ctx mf work /\ stored tr = []
              /\ stateWrites tr = [(stateKey mediaID, StateProcessing); (stateKey mediaID, StateFailed)])
       | _ => work = []
       end).
Proof.
  unfold run, runBody, failRun, setState, clearActive, publishState.
  wp_go; (split; [split; [reflexivity|by end_of_trace]|split; [reflexivity|]]);
    match goal with |- exists found work x, ?h :: ?l = _ /\ _ => eexists _, (removelast l), _ end;
    (split; [reflexivity|]); try done; cbn [removelast].
  all: first
    [ left; do 2 eexists; split; [ev_in|]; split; [ev_in|]; by split_and!
    | right; split; [first [eapply by_source; ev_in; fail | eapply by_speech; ev_in; fail | eapply by_row; ev_in; fail]|by split] ].
Qed.

(** The answers of the pool, and of the marker. *)
Definition dispatched : trace TranscriptionE -> list (Z * res unit) :=
  select (fun X (c : TranscriptionE X) => match c with TSubmit id => fun r => Some (id, r) | _ => fun _ => None end).

Definition claimed : trace TranscriptionE -> list (string * res bool) :=
  select (fun X (c : TranscriptionE X) => match c with TSetNX _ k _ _ => fun r => Some (k, r) | _ => fun _ => None end).

(** A submission through the handler either leaves the task with the pool, queued and announced as such, or
    takes the marker back and shows the failure; while the file is being transcribed a second submission
    changes nothing. *)
Theorem submitTranscription_contract (ctx : Context) (mediaID : Z) :
  wp (submitTranscription ctx mediaID) (fun tr r =>
    match r with
    | Ok _ => claimed tr = [(activeKey mediaID, Ok true)] /\ dispatched tr = [(mediaID, Ok tt)] /\ cleared tr = []
              /\ shown tr = [(mediaID, StatusOf StateQueued "文字提取任务已排队")]
              /\ stateWrites tr = [(stateKey mediaID, StateQueued)]
    | Err e =>
        (exists x, claimed tr = [(activeKey mediaID, x)] /\ x <> Ok true /\ dispatched tr = [] /\ cleared tr = []
                   /\ shown tr = [] /\ stateWrites tr = [])
        \/ (exists e', claimed tr = [(activeKey mediaID, Ok true)] /\ dispatched tr = [(mediaID, Err e')]
             /\ cleared tr = [activeKey mediaID]
             /\ stateWrites tr = [(stateKey mediaID, StateQueued); (stateKey mediaID, StateFailed)]
             /\ e = Business CodeServiceUnavailable "任务队列已满，请稍后重试")
    end).
Proof.
  unfold submitTranscription, Queue, Transcribe, RejectQueued, setState, clearActive, publishState.
  intros [[|]|e]; cbn [bind_ok bind call wp negb]; try (left; eexists; by repeat split).
  intros ? [] [[]|e]; cbn [bind call wp]; [by repeat split|].
  intros ? ? []. right. eexists. by repeat split.
Qed.

Definition readState : trace TranscriptionE -> list (res (option string)) :=
  select (fun X (c : TranscriptionE X) => match c with TGet _ _ => fun r => Some r | _ => fun _ => None end).

Lemma ValidState_cases v :
  ValidState v = true ->
  v = StateNotStarted \/ v = StateQueued \/ v = StateProcessing \/ v = StateCompleted \/ v = StateFailed.
Proof.
  unfold ValidState. cbn [existsb]. rewrite !orb_true_iff, !String.eqb_eq. intuition discriminate.
Qed.

(** The states a client can see come from the stored transcript first, then from the task: a non-blank
    transcript answers without asking Redis, an answer always carries one of the five states, and a state
    that was written is what is shown, with the transcript of the row once it is complete. *)
Theorem Status_reports (ctx : Context) (mf : MediaFile) :
  wp (Status ctx mf) (fun tr r =>
    (is_blank (deref (mf_TranscriptText mf)) = false ->
       tr = [] /\ r = Ok (StatusCompletedNullable (mf_TranscriptText mf)))
    /\ match r with
       | Err _ => is_blank (deref (mf_TranscriptText mf)) = true
       | Ok st =>
           ValidState (ts_State st) = true
           /\ (forall v, readState tr = [Ok (Some v)] -> ValidState v = true -> ts_State st = v)
           /\ (ts_State st = StateCompleted -> ts_Result st = mf_TranscriptText mf)
       end).
Proof.
  unfold Status. destruct (is_blank (deref (mf_TranscriptText mf))) eqn:Eb.
  - assert (Status ctx mf = runtimeStatus ctx mf) as Hst.
    { unfold Status. destruct (mf_TranscriptText mf) as [text|]; [|done]. change (is_blank text = true) in Eb. by rewrite Eb. }
    unfold Status in Hst. rewrite Hst. unfold runtimeStatus.
    intros [[v|]|e]; cbn [bind_ok bind call wp]; [|intros [n|e]; cbn [wp]; [destruct (0 <? n)|]|];
      (split; [done|]); try done; try (split; [done|]; by split).
    destruct (ValidState v) eqn:Ev; cbn [negb].
    + destruct (ValidState_cases v Ev) as [-> | [-> | [-> | [-> | ->]]]]; (split; [done|]); (split; [|done]);
        by intros v' [= <-].
    + split; [done|]. split; [|done]. intros v' [= <-]. congruence.
  - destruct (mf_TranscriptText mf) as [text|]; [|done]. cbn [deref] in Eb. rewrite Eb. cbn [negb wp].
    split; [done|]. split; [done|]. split; [done|]. done.
Qed.
