(* ===== verification/AgentRpc.v ===== *)
(** * Calls of the agent service (internal/agentclient: client.go, convert.go)

    The protocol messages, the conversions between them and the domain types, the mapping of failed calls
    to the error taxonomy, the interceptor, and the client's methods over the interface [RpcE] of the
    generated stub. *)

From S2P Require Import Prelude GoStrings Proc Errors Model GoContext AgentClient Billing.

Local Open Scope string_scope.
Local Open Scope list_scope.
Local Open Scope Z_scope.

(** ** Protocol messages

    Optional fields are options, as in the generated code; a proto3 field without presence is its zero
    value when unset, which is what the generated getters of a nil message return too. *)

(** [agentv1.AnalysisMode] by number; a peer may send any number. *)
Definition PbMode := Z.
Definition PB_GENERAL : PbMode := 1.
Definition PB_LEARNING : PbMode := 2.
Definition PB_REVIEW : PbMode := 3.
Definition PB_CREATION : PbMode := 4.

Record PbTaskStatus := mkPbStatus { ps_State : string; ps_Result : string; ps_Message : string }.

Record PbFeedback := mkPbFeedback {
  pf_MediaId : Z; pf_Goal : string; pf_Mode : PbMode; pf_Rating : option Z; pf_ErrorType : option string;
  pf_Comment : option string; pf_CorrectedGoal : option string; pf_CorrectedTasks : list string;
  pf_EvidenceTimestamp : option Z; pf_EvidenceAccepted : option bool; pf_CreatedAt : string }.

Record PbStageTiming := mkPbTiming { pt_DurationMs : Z; pt_Success : bool }.
Record PbTelemetrySeed := mkPbSeed {
  pd_TraceId : string; pd_Stages : gmap string PbStageTiming; pd_Counters : gmap string Z }.

Record GoalRef := mkGoalRef { gr_MediaId : Z; gr_Goal : string; gr_Mode : PbMode }.
Record PbRunRequest := mkPbRun {
  pr_MediaId : Z; pr_Goal : string; pr_Mode : PbMode; pr_TelemetrySeed : option PbTelemetrySeed }.
Record PbRunResponse := mkPbRunResponse { po_Round : Z; po_Markdown : string; po_TaskStatus : option PbTaskStatus }.
Record PbResultResponse := mkPbResult { pu_Found : bool; pu_Markdown : string; pu_TaskStatus : option PbTaskStatus }.
Record PbReuseRequest := mkPbReuse {
  pe_MediaId : Z; pe_SourceMediaId : Z; pe_Goal : string; pe_Mode : PbMode; pe_TargetSource : string }.
Record PbFollowUp := mkPbFollowUp {
  pq_MediaId : Z; pq_Goal : option string; pq_Question : string; pq_Mode : PbMode }.
Record PbEvidenceHit := mkPbHit {
  ph_StartMs : Z; ph_EndMs : Z; ph_Source : string; ph_Snippet : string; ph_Transcript : string;
  ph_OcrTexts : list string }.
Record PbPlan := mkPbPlan { pp_UnderstoodGoal : string; pp_Tasks : list string }.

(** [google.protobuf.Value]; a number by its bits. *)
#[warnings="-register-all"] Inductive PbValue :=
| PbNull
| PbNumber (bits : Z)
| PbString (s : string)
| PbBool (b : bool)
| PbStruct (fields : list (string * PbValue))
| PbList (items : list PbValue).

(** ** Enumerations *)

Definition ModeToProto (m : AnalysisMode) : PbMode :=
  let m := Resolve m in
  if String.eqb m ModeLearning then PB_LEARNING
  else if String.eqb m ModeReview then PB_REVIEW
  else if String.eqb m ModeCreation then PB_CREATION
  else PB_GENERAL.

Definition ModeFromProto (m : PbMode) : AnalysisMode :=
  if m =? PB_LEARNING then ModeLearning
  else if m =? PB_REVIEW then ModeReview
  else if m =? PB_CREATION then ModeCreation
  else ModeGeneral.

(** ** Messages to domain types *)

Definition nonEmpty (s : string) : option string := if String.eqb s "" then None else Some s.

Definition TaskStatusFromProto (s : option PbTaskStatus) : TaskStatus :=
  let s := default (mkPbStatus "" "" "") s in
  let state := if String.eqb (ps_State s) "" then StateCompleted else ps_State s in
  mkTaskStatus state (nonEmpty (ps_Result s)) (nonEmpty (ps_Message s)).

(** Nil and empty slices are the same list: the client receives [[]]. *)
Definition HitsFromProto (hits : list PbEvidenceHit) : list EvidenceHit :=
  (fun h => mkEvidenceHit (ph_StartMs h) (ph_EndMs h) (ph_Source h) (ph_Snippet h) (ph_Transcript h)
              (ph_OcrTexts h)) <$> hits.

Definition PlanFromProto (p : PbPlan) : Plan := mkPlan (pp_UnderstoodGoal p) (pp_Tasks p).

(** A nil or empty struct is "none"; the values pass through. *)
Definition StructToJSON (s : option (list (string * PbValue))) : option (list (string * PbValue)) :=
  match s with None | Some [] => None | Some fields => Some fields end.

Definition FeedbackFromProto (f : PbFeedback) : AgentFeedback :=
  mkFeedback (Some (pf_MediaId f)) (Some (pf_Goal f)) (Some (ModeFromProto (pf_Mode f))) (pf_Rating f)
    (pf_ErrorType f) (pf_Comment f) (pf_CorrectedGoal f) (pf_CorrectedTasks f) (pf_EvidenceTimestamp f)
    (pf_EvidenceAccepted f) (nonEmpty (pf_CreatedAt f)).

(** ** Domain types to messages *)

Definition FeedbackToProto (f : AgentFeedback) : PbFeedback :=
  mkPbFeedback (default 0 (fb_MediaID f)) (deref (fb_Goal f))
    (match fb_Mode f with Some m => ModeToProto (ModeFromNullable m) | None => 0 end)
    (int32 <$> fb_Rating f) (fb_ErrorType f) (fb_Comment f) (fb_CorrectedGoal f) (fb_CorrectedTasks f)
    (fb_EvidenceTimestamp f) (fb_EvidenceAccepted f) (deref (fb_CreatedAt f)).

Definition SeedToProto (s : option TelemetrySeed) : option PbTelemetrySeed :=
  match s with
  | None => None
  | Some s => Some (mkPbSeed (tm_TraceID s)
      ((fun v => mkPbTiming (sd_DurationMs v) (sd_Success v)) <$> tm_Stages s) (tm_Counters s))
  end.

(** ** Errors *)

Inductive grpcCode :=
| CodeCanceled | CodeUnknown | CodeInvalid | CodeDeadline | CodeNotFoundRpc | CodeAlreadyExists
| CodePermissionDenied | CodeResourceExhausted | CodeFailedPrecondition | CodeAborted | CodeOutOfRange
| CodeUnimplemented | CodeInternalRpc | CodeUnavailable | CodeDataLoss | CodeUnauthenticated
| CodeOther (n : Z).

#[export] Instance grpcCode_eq_dec : EqDecision grpcCode.
Proof. solve_decision. Defined.

(** [codes.Code.String]. *)
Definition codeString (c : grpcCode) : string :=
  match c with
  | CodeCanceled => "Canceled" | CodeUnknown => "Unknown" | CodeInvalid => "InvalidArgument"
  | CodeDeadline => "DeadlineExceeded" | CodeNotFoundRpc => "NotFound" | CodeAlreadyExists => "AlreadyExists"
  | CodePermissionDenied => "PermissionDenied" | CodeResourceExhausted => "ResourceExhausted"
  | CodeFailedPrecondition => "FailedPrecondition" | CodeAborted => "Aborted" | CodeOutOfRange => "OutOfRange"
  | CodeUnimplemented => "Unimplemented" | CodeInternalRpc => "Internal" | CodeUnavailable => "Unavailable"
  | CodeDataLoss => "DataLoss" | CodeUnauthenticated => "Unauthenticated"
  | CodeOther n => "Code(" +:+ Itoa n +:+ ")"
  end.

(** An error of the stub: the error value, and its status when [status.FromError] finds one. *)
Record callError := mkCallError { ce_error : gerror; ce_status : option (grpcCode * string) }.

(** What the interceptor returns: the error, wrapped in an [*agentError] when the trailer was set. *)
Record rpcError := mkRpcError { re_call : callError; re_reason : option string }.

(** An [*agentError] embeds the error (same text) and unwraps to it. *)
Definition rpcErrorValue (e : rpcError) : gerror :=
  match re_reason e with
  | None => ce_error (re_call e)
  | Some _ => OtherErr (ErrorString (ce_error (re_call e))) None (Some (ce_error (re_call e)))
  end.

(** [status.FromError]: an [*agentError] has a [GRPCStatus] method, which returns the status of what it
    wraps, Unknown with the error's text when that has none. *)
Definition FromError (e : rpcError) : option (grpcCode * string) :=
  match ce_status (re_call e), re_reason e with
  | Some st, _ => Some st
  | None, Some _ => Some (CodeUnknown, ErrorString (ce_error (re_call e)))
  | None, None => None
  end.

Definition MapError (e : rpcError) : gerror :=
  let err := Some (rpcErrorValue e) in
  match FromError e with
  | None => Transient "agent call failed" err
  | Some (code, msg) =>
      match code with
      | CodeInvalid => TypedErr KindInvalidArgument noCode msg err
      | CodeFailedPrecondition => TypedErr KindNotReady noCode NotReadyMessage err
      | CodeResourceExhausted =>
          match re_reason e with
          | Some r => if String.eqb r "BUDGET_EXHAUSTED" then BudgetExhausted msg err
                      else Transient ("agent overloaded: " +:+ msg) err
          | None => Transient ("agent overloaded: " +:+ msg) err
          end
      | CodeUnauthenticated => Transient "agent rejected the internal token" err
      | _ => Transient (if is_blank msg then "agent service " +:+ codeString code else msg) err
      end
  end.

(** ** The stub *)

(** One constructor per method the client calls, indexed by its response. *)
Inductive rpc : Type -> Type :=
| Run_ (req : PbRunRequest) : rpc PbRunResponse
| GetResult (req : GoalRef) : rpc PbResultResponse
| ReuseResult (req : PbReuseRequest) : rpc PbResultResponse
| Purge_ (mediaID : Z) : rpc unit
| FollowUp_ (req : PbFollowUp) : rpc string
| SearchEvidence (mediaID : Z) (query : string) : rpc (list PbEvidenceHit)
| ClassifyMode_ (goal : string) : rpc (PbMode * string)
| StageRevision_ (fb : PbFeedback) (mode : PbMode) : rpc string
| BeginRevision_ (req : GoalRef) : rpc bool
| CompleteRevision_ (req : GoalRef) : rpc unit
| CancelRevision_ (req : GoalRef) : rpc unit
| SaveFeedback_ (fb : PbFeedback) : rpc unit
| ListFeedback (mediaID : Z) : rpc (list PbFeedback)
| GetPlan (req : GoalRef) : rpc (bool * option PbPlan)
| GetTrace (req : GoalRef) : rpc (option (list (string * PbValue)))
| GetEvaluation (req : GoalRef) : rpc (option (list (string * PbValue))).

Definition fullMethod {R} (c : rpc R) : string :=
  "/dovideo.agent.v1.AgentService/" +:+
  match c with
  | Run_ _ => "Run" | GetResult _ => "GetResult" | ReuseResult _ => "ReuseResult" | Purge_ _ => "Purge"
  | FollowUp_ _ => "FollowUp" | SearchEvidence _ _ => "SearchEvidence" | ClassifyMode_ _ => "ClassifyMode"
  | StageRevision_ _ _ => "StageRevision" | BeginRevision_ _ => "BeginRevision"
  | CompleteRevision_ _ => "CompleteRevision" | CancelRevision_ _ => "CancelRevision"
  | SaveFeedback_ _ => "SaveFeedback" | ListFeedback _ => "ListFeedback" | GetPlan _ => "GetPlan"
  | GetTrace _ => "GetTrace" | GetEvaluation _ => "GetEvaluation"
  end.

(** The invoker with the outgoing metadata: the values of the error trailer, and the response. *)
Inductive RpcE : Type -> Type :=
| Invoke {R : Type} (ctx : Context) (md : list (string * string)) (c : rpc R)
  : RpcE (list string * result callError R).

Definition TokenHeader : string := "x-internal-token".
Definition AgentErrorTrailer : string := "x-agent-error".
Definition DefaultTimeout : Z := 10 * second.

Record Timeouts := mkTimeouts { to_Run : Z; to_Interactive : Z }.

(** [Timeouts.For]. *)
Definition For (t : Timeouts) (method : string) : Z :=
  let named name := String.eqb method ("/dovideo.agent.v1.AgentService/" +:+ name) in
  if named "Run" then to_Run t
  else if named "FollowUp" || named "ClassifyMode" || named "SearchEvidence" then to_Interactive t
  else DefaultTimeout.

(** ** Transparent retries ([retryServiceConfig]) *)

Record retryPolicy := mkRetryPolicy {
  rp_MaxAttempts : nat; rp_InitialBackoff : Z; rp_MaxBackoff : Z; rp_BackoffMultiplier : Z; rp_Codes : list grpcCode }.

Record methodConfig := mkMethodConfig { mc_Names : list (string * string); mc_RetryPolicy : retryPolicy }.

(** The JSON text, as the client reads it. *)
Definition retryServiceConfig : list methodConfig :=
  [mkMethodConfig
    ((fun m => ("dovideo.agent.v1.AgentService", m)) <$>
      ["GetResult"; "GetPlan"; "GetTrace"; "GetEvaluation"; "ListFeedback"; "SearchEvidence"])
    (mkRetryPolicy 4 (200 * millisecond) (2 * second) 2 [CodeUnavailable])].

(** The policy of a method: that of the first entry that names its service and method. *)
Definition policyOf (method : string) : option retryPolicy :=
  mc_RetryPolicy <$> List.find (fun mc => existsb (fun n => String.eqb ("/" +:+ n.1 +:+ "/" +:+ n.2) method) (mc_Names mc))
    retryServiceConfig.

(** The waits between the attempts of one call, at their longest. *)
Fixpoint longestBackoffs (n : nat) (b : Z) (p : retryPolicy) : list Z :=
  match n with O => [] | S n => Z.min b (rp_MaxBackoff p) :: longestBackoffs n (b * rp_BackoffMultiplier p) p end.

(** The last segment of a method name, the label of its metrics. *)
Definition shortMethod (full : string) : string :=
  match LastIndexByte full "/" with Some i => str_drop (S i) full | None => full end.

Section client.
Context (token : string) (timeouts : Timeouts).

(** [Interceptor] around one call of the stub. *)
Definition Interceptor {R} (ctx : Context) (c : rpc R) : proc RpcE (result rpcError R) :=
  let cctx := WithSource (TimedOut (For timeouts (fullMethod c))) ctx in
  let md := [(TokenHeader, token)] ++
            match UserFrom cctx with Some uid => [(BillingHeader, FormatInt uid)] | None => [] end in
  Do (Invoke cctx md c) (fun '(trailer, r) => Ret
    match r with
    | Ok res => Ok res
    | Err e => Err (mkRpcError e (head trailer))
    end).

(** [res, err := c.api.M(...); if err != nil { return _, MapError(err) }]. *)
Definition ask {R A} (ctx : Context) (c : rpc R) (k : R -> A) : proc RpcE (res A) :=
  bind (Interceptor ctx c) (fun r => Ret match r with Ok res => Ok (k res) | Err e => Err (MapError e) end).

Definition goalRef (mediaID : Z) (goal : string) (mode : AnalysisMode) : GoalRef :=
  mkGoalRef mediaID goal (ModeToProto mode).

(** ** Analysis lifecycle *)

Definition Run (ctx : Context) (req : RunRequest) : proc RpcE (res RunResult) :=
  ask ctx (Run_ (mkPbRun (rq_MediaID req) (rq_Goal req) (ModeToProto (rq_Mode req)) (SeedToProto (rq_TelemetrySeed req))))
    (fun r => mkRunResult (po_Markdown r) (po_Round r) (TaskStatusFromProto (po_TaskStatus r))).

Definition statusOf (s : option PbTaskStatus) : option TaskStatus :=
  match s with Some _ => Some (TaskStatusFromProto s) | None => None end.

Definition Result_ (ctx : Context) (mediaID : Z) (goal : string) (mode : AnalysisMode) : proc RpcE (res ResultResponse) :=
  ask ctx (GetResult (goalRef mediaID goal mode)) (fun r =>
    if pu_Found r then mkResultResponse true (Some (pu_Markdown r)) (statusOf (pu_TaskStatus r))
    else mkResultResponse false None None).

Definition Reuse (ctx : Context) (mediaID sourceMediaID : Z) (goal : string) (mode : AnalysisMode) (targetSource : string)
  : proc RpcE (res ReuseResponse) :=
  ask ctx (ReuseResult (mkPbReuse mediaID sourceMediaID goal (ModeToProto mode) targetSource)) (fun r =>
    if pu_Found r then mkReuseResponse true (Some (pu_Markdown r)) (statusOf (pu_TaskStatus r))
    else mkReuseResponse false None None).

Definition Purge (ctx : Context) (mediaID : Z) : proc RpcE (res unit) := ask ctx (Purge_ mediaID) (fun _ => tt).

(** ** Interactive *)

Definition FollowUp (ctx : Context) (mediaID : Z) (goal : option string) (question : string) (mode : AnalysisMode)
  : proc RpcE (res string) :=
  ask ctx (FollowUp_ (mkPbFollowUp mediaID goal question (ModeToProto mode))) id.

Definition EvidenceSearch (ctx : Context) (mediaID : Z) (query : string) : proc RpcE (res (list EvidenceHit)) :=
  ask ctx (SearchEvidence mediaID query) HitsFromProto.

Definition ClassifyMode (ctx : Context) (goal : string) : proc RpcE (res RouteDecision) :=
  ask ctx (ClassifyMode_ goal) (fun '(m, reason) => NewRouteDecision (ModeFromProto m) reason).

(** ** Revisions and feedback *)

Definition StageRevision (ctx : Context) (fb : AgentFeedback) (mode : AnalysisMode) : proc RpcE (res string) :=
  ask ctx (StageRevision_ (FeedbackToProto fb) (ModeToProto mode)) id.

Definition BeginRevision (ctx : Context) (mediaID : Z) (goal : string) (mode : AnalysisMode) : proc RpcE (res bool) :=
  ask ctx (BeginRevision_ (goalRef mediaID goal mode)) id.

Definition CompleteRevision (ctx : Context) (mediaID : Z) (goal : string) (mode : AnalysisMode) : proc RpcE (res unit) :=
  ask ctx (CompleteRevision_ (goalRef mediaID goal mode)) (fun _ => tt).

Definition CancelRevision (ctx : Context) (mediaID : Z) (goal : string) (mode : AnalysisMode) : proc RpcE (res unit) :=
  ask ctx (CancelRevision_ (goalRef mediaID goal mode)) (fun _ => tt).

Definition SaveFeedback (ctx : Context) (fb : AgentFeedback) : proc RpcE (res unit) :=
  ask ctx (SaveFeedback_ (FeedbackToProto fb)) (fun _ => tt).

Definition LoadFeedback (ctx : Context) (mediaID : Z) : proc RpcE (res (list AgentFeedback)) :=
  ask ctx (ListFeedback mediaID) (fmap FeedbackFromProto).

(** ** Inspection *)

Definition PlanOf (ctx : Context) (mediaID : Z) (goal : string) (mode : AnalysisMode) : proc RpcE (res (option Plan)) :=
  ask ctx (GetPlan (goalRef mediaID goal mode)) (fun '(found, p) =>
    match found, p with true, Some p => Some (PlanFromProto p) | _, _ => None end).

Definition Trace (ctx : Context) (mediaID : Z) (goal : string) (mode : AnalysisMode)
  : proc RpcE (res (option (list (string * PbValue)))) :=
  ask ctx (GetTrace (goalRef mediaID goal mode)) StructToJSON.

Definition Evaluation (ctx : Context) (mediaID : Z) (goal : string) (mode : AnalysisMode)
  : proc RpcE (res (option (list (string * PbValue)))) :=
  ask ctx (GetEvaluation (goalRef mediaID goal mode)) StructToJSON.

End client.

(** ** Properties *)

Lemma rpcErrorValue_foreign e : foreign (ce_error (re_call e)) -> foreign (rpcErrorValue e).
Proof.
  intros He. unfold rpcErrorValue. destruct (re_reason e); [|done]. unfold foreign. cbn. by constructor.
Qed.

(** C38. The class of a failed call of the agent. Provided the transport does not raise errors of the gateway's
    own taxonomy, a failure is permanent exactly for INVALID_ARGUMENT, counts as an exhausted budget exactly
    for RESOURCE_EXHAUSTED with the trailer that says so (an overloaded agent stays retryable), is "not
    ready" exactly for FAILED_PRECONDITION, and otherwise transient; the original error is kept as cause. *)
Theorem MapError_classes (e : rpcError) :
  foreign (ce_error (re_call e)) ->
  (IsPermanentFailure (Some (MapError e)) = true <-> exists msg, FromError e = Some (CodeInvalid, msg))
  /\ (Has (Some (MapError e)) KindBudgetExhausted = true <->
      exists msg, FromError e = Some (CodeResourceExhausted, msg) /\ re_reason e = Some "BUDGET_EXHAUSTED")
  /\ (Has (Some (MapError e)) KindNotReady = true <-> exists msg, FromError e = Some (CodeFailedPrecondition, msg))
  /\ Unwrap (MapError e) = Some (rpcErrorValue e).
Proof.
  intros Hf%rpcErrorValue_foreign.
  assert (forall k code msg, IsPermanentFailure (Some (TypedErr k code msg (Some (rpcErrorValue e))))
            = permanent_kind (TypedErr k code msg None)) as Hp.
  { intros k code msg.
    change (IsPermanentFailure (Some (TypedErr k code msg (Some (rpcErrorValue e)))))
      with (if permanent_kind (TypedErr k code msg None) then true else permanent_walk 15 (Some (rpcErrorValue e))).
    destruct (permanent_kind _); [done|]. by apply plain_walk, foreign_plain. }
  assert (forall k k' code msg, Has (Some (TypedErr k code msg (Some (rpcErrorValue e)))) k'
            = bool_decide (k = k')) as Hh.
  { intros k k' code msg. cbn [Has]. rewrite HasErr_chain. cbn [chain existsb typed_kind].
    rewrite <- (HasErr_chain (rpcErrorValue e)), foreign_HasErr, orb_false_r by done.
    apply bool_decide_ext. naive_solver. }
  unfold MapError. destruct (FromError e) as [[code msg]|]; [|unfold Transient; rewrite Hp, !Hh; naive_solver].
  destruct code; unfold Transient, BudgetExhausted; rewrite ?Hp, ?Hh; try (naive_solver).
  destruct (re_reason e) as [r|]; [destruct (String.eqb_spec r "BUDGET_EXHAUSTED") as [->|Hne]|];
    unfold Transient, BudgetExhausted; rewrite ?Hp, ?Hh; naive_solver.
Qed.

Section policy.
Context (token : string) (timeouts : Timeouts).

(** [p] makes one call of the agent, under a deadline of [t] on top of what can cancel [ctx], with the
    internal token and the user the work is charged to. *)
Definition called_within {A} (t : Z) (ctx : Context) (p : proc RpcE A) : Prop :=
  wp p (fun tr _ => exists R (c : rpc R) x,
    tr = [Ev (Invoke (mkCtx (TimedOut t :: ctx_sources ctx) (ctx_user ctx))
                ((TokenHeader, token) :: match ctx_user ctx with
                                         | Some uid => [(BillingHeader, FormatInt uid)]
                                         | None => [] end) c) x]).

Lemma ask_called {R A} ctx (c : rpc R) (k : R -> A) :
  called_within (For timeouts (fullMethod c)) ctx (ask token timeouts ctx c k).
Proof. intros [trailer r]. destruct r as [r|e]; cbn [wp]; by eexists R, c, (trailer, _). Qed.

(** Every call of the agent is bounded, authenticated and charged. Each method of the client makes exactly
    one call, under the deadline of its kind: the budget of a run, the interactive budget while a user is
    waiting, ten seconds otherwise. *)
Theorem client_policy (ctx : Context) (id source : Z) (goal text : string) (g : option string)
    (mode : AnalysisMode) (req : RunRequest) (fb : AgentFeedback) :
  called_within (to_Run timeouts) ctx (Run token timeouts ctx req)
  /\ called_within (to_Interactive timeouts) ctx (FollowUp token timeouts ctx id g text mode)
  /\ called_within (to_Interactive timeouts) ctx (EvidenceSearch token timeouts ctx id text)
  /\ called_within (to_Interactive timeouts) ctx (ClassifyMode token timeouts ctx goal)
  /\ called_within DefaultTimeout ctx (Result_ token timeouts ctx id goal mode)
  /\ called_within DefaultTimeout ctx (Reuse token timeouts ctx id source goal mode text)
  /\ called_within DefaultTimeout ctx (Purge token timeouts ctx id)
  /\ called_within DefaultTimeout ctx (StageRevision token timeouts ctx fb mode)
  /\ called_within DefaultTimeout ctx (BeginRevision token timeouts ctx id goal mode)
  /\ called_within DefaultTimeout ctx (CompleteRevision token timeouts ctx id goal mode)
  /\ called_within DefaultTimeout ctx (CancelRevision token timeouts ctx id goal mode)
  /\ called_within DefaultTimeout ctx (SaveFeedback token timeouts ctx fb)
  /\ called_within DefaultTimeout ctx (LoadFeedback token timeouts ctx id)
  /\ called_within DefaultTimeout ctx (PlanOf token timeouts ctx id goal mode)
  /\ called_within DefaultTimeout ctx (Trace token timeouts ctx id goal mode)
  /\ called_within DefaultTimeout ctx (Evaluation token timeouts ctx id goal mode).
Proof. repeat match goal with |- _ /\ _ => split end; apply ask_called. Qed.

End policy.

(** The calls that change nothing at the agent and cost no model run. *)
Definition readOnly {R} (c : rpc R) : bool :=
  match c with
  | GetResult _ | GetPlan _ | GetTrace _ | GetEvaluation _ | ListFeedback _ | SearchEvidence _ _ => true
  | _ => false
  end.

(** Only reads are repeated behind the caller's back: a call is retried exactly when it is read-only, then only
    on UNAVAILABLE, at most three times, and the pauses between add up to less than the default deadline. Runs
    and writes are sent once. *)
Theorem reads_retried {R} (c : rpc R) :
  (readOnly c = false -> policyOf (fullMethod c) = None)
  /\ (readOnly c = true -> exists p, policyOf (fullMethod c) = Some p
       /\ rp_Codes p = [CodeUnavailable] /\ (rp_MaxAttempts p - 1 = 3)%nat
       /\ foldr Z.add 0 (longestBackoffs (rp_MaxAttempts p - 1) (rp_InitialBackoff p) p) < DefaultTimeout).
Proof.
  split; intros E.
  - destruct c; try discriminate E; vm_compute; reflexivity.
  - destruct c; try discriminate E; eexists; (split; [vm_compute; reflexivity|]);
      (split; [vm_compute; reflexivity|]); (split; [vm_compute; reflexivity|]); vm_compute; reflexivity.
Qed.

Lemma reads_retried_witness :
  policyOf (fullMethod (GetPlan (mkGoalRef 7 "summary" PB_GENERAL))) <> None.
Proof.
  destruct (proj2 (reads_retried (GetPlan (mkGoalRef 7 "summary" PB_GENERAL))) eq_refl) as (p & -> & _). discriminate.
Defined.

(** Feedback as the service stores it: named media, goal and mode, a rating that fits 32 bits, and a
    creation time. *)
Definition complete (f : AgentFeedback) : Prop :=
  (exists id, fb_MediaID f = Some id) /\ (exists g, fb_Goal f = Some g)
  /\ (exists m, fb_Mode f = Some m /\ m ∈ all_modes)
  /\ (forall r, fb_Rating f = Some r -> - 2 ^ 31 <= r < 2 ^ 31)
  /\ (exists c, fb_CreatedAt f = Some c /\ c <> "").

Lemma mode_roundtrip m : m ∈ all_modes -> ModeFromProto (ModeToProto (ModeFromNullable m)) = m.
Proof. unfold all_modes. intros Hm. in_cases Hm; reflexivity. Qed.

(** Feedback survives the agent. What [FeedbackToProto] sends comes back from [FeedbackFromProto]
    unchanged for complete feedback, and a stored message with a known mode is sent back unchanged. *)
Theorem feedback_roundtrip (f : AgentFeedback) :
  complete f -> FeedbackFromProto (FeedbackToProto f) = f.
Proof.
  intros ((id & Hid) & (g & Hg) & (m & Hm & Hv) & Hr & (c & Hc & Hne)).
  destruct f as [fid fgoal fmode frating ferr fcom fcg fct fet fea fca]. cbn in *. subst.
  unfold FeedbackFromProto, FeedbackToProto. cbn -[ModeFromProto ModeToProto ModeFromNullable int32].
  rewrite mode_roundtrip by done. unfold nonEmpty. rewrite (proj2 (String.eqb_neq c "") Hne).
  destruct frating as [r|]; cbn -[int32]; [|done]. by rewrite int32_id by auto.
Qed.

Definition sampleFeedback : AgentFeedback :=
  mkFeedback (Some 7) (Some "summary") (Some ModeReview) (Some (-1)) (Some "WRONG_EVIDENCE") None None ["a"; "b"]
    (Some 61000) (Some false) (Some "2026-01-01T00:00:00Z").

Lemma feedback_roundtrip_witness :
  pf_Mode (FeedbackToProto sampleFeedback) = PB_REVIEW
  /\ FeedbackFromProto (FeedbackToProto sampleFeedback) = sampleFeedback.
Proof.
  split; [reflexivity|]. apply feedback_roundtrip. split; [by eexists|]. split; [by eexists|].
  split; [exists ModeReview; split; [done|]; right; right; left|]. split; [|by eexists].
  intros r [= <-]. lia.
Defined.

Definition overloaded (reason : option string) : rpcError :=
  mkRpcError (mkCallError (OtherErr "rpc error: code = ResourceExhausted desc = tokens" None None)
                (Some (CodeResourceExhausted, "tokens"))) reason.

Lemma MapError_classes_witness :
  Has (Some (MapError (overloaded (Some "BUDGET_EXHAUSTED")))) KindBudgetExhausted = true
  /\ IsPermanentFailure (Some (MapError (overloaded None))) = false.
Proof.
  split.
  - apply (MapError_classes (overloaded (Some "BUDGET_EXHAUSTED"))); [by repeat constructor|]. by exists "tokens".
  - destruct (MapError_classes (overloaded None)) as (Hp & _); [by repeat constructor|].
    apply not_true_is_false. intros [msg Hm]%Hp. discriminate.
Defined.
