(* ===== verification/Base64.v ===== *)
(** * Unpadded base64 (the encodings [RawStdEncoding] and [RawURLEncoding] of encoding/base64)

    The language's library code that internal/auth uses, with the round trip the accounts rely on. *)

From S2P Require Import Prelude GoStrings.

Local Open Scope string_scope.
Local Open Scope list_scope.
Local Open Scope Z_scope.

Inductive alphabet := StdAlphabet | URLAlphabet.

(** The digit of [n], a 6-bit value. *)
Definition b64_char (al : alphabet) (n : Z) : ascii :=
  ascii_of_Z
    (if n <? 26 then 65 + n
     else if n <? 52 then 71 + n
     else if n <? 62 then n - 4
     else match al with StdAlphabet => if n =? 62 then 43 else 47 | URLAlphabet => if n =? 62 then 45 else 95 end).

Definition b64_value (al : alphabet) (a : ascii) : option Z :=
  let b := byte a in
  if in_range 65 90 b then Some (b - 65)
  else if in_range 97 122 b then Some (b - 71)
  else if in_range 48 57 b then Some (b + 4)
  else match al with
       | StdAlphabet => if b =? 43 then Some 62 else if b =? 47 then Some 63 else None
       | URLAlphabet => if b =? 45 then Some 62 else if b =? 95 then Some 63 else None
       end.

Section alphabet.
Context (al : alphabet).

(** [EncodeToString]. *)
Fixpoint b64_encode (s : string) : string :=
  let c n := b64_char al (n mod 64) in
  match s with
  | EmptyString => ""
  | String x EmptyString =>
      let v := byte x * 65536 in
      String (c (v / 262144)) (String (c (v / 4096)) "")
  | String x (String y EmptyString) =>
      let v := byte x * 65536 + byte y * 256 in
      String (c (v / 262144)) (String (c (v / 4096)) (String (c (v / 64)) ""))
  | String x (String y (String z r)) =>
      let v := byte x * 65536 + byte y * 256 + byte z in
      String (c (v / 262144)) (String (c (v / 4096)) (String (c (v / 64)) (String (c v) (b64_encode r))))
  end.

(** The decoder skips line breaks. *)
Fixpoint skip_breaks (s : string) : string :=
  match s with
  | EmptyString => ""
  | String a r => if (byte a =? 10) || (byte a =? 13) then skip_breaks r else String a (skip_breaks r)
  end.

(** Quanta of four digits, the last of two or three; trailing bits are not checked. *)
Fixpoint decode_quanta (s : string) : option string :=
  let byte_at v n := ascii_of_Z ((v / n) mod 256) in
  match s with
  | EmptyString => Some ""
  | String _ EmptyString => None
  | String a (String b EmptyString) =>
      match b64_value al a, b64_value al b with
      | Some a, Some b => Some (String (byte_at (a * 262144 + b * 4096) 65536) "")
      | _, _ => None
      end
  | String a (String b (String c EmptyString)) =>
      match b64_value al a, b64_value al b, b64_value al c with
      | Some a, Some b, Some c =>
          let v := a * 262144 + b * 4096 + c * 64 in
          Some (String (byte_at v 65536) (String (byte_at v 256) ""))
      | _, _, _ => None
      end
  | String a (String b (String c (String d r))) =>
      match b64_value al a, b64_value al b, b64_value al c, b64_value al d, decode_quanta r with
      | Some a, Some b, Some c, Some d, Some r =>
          let v := a * 262144 + b * 4096 + c * 64 + d in
          Some (String (byte_at v 65536) (String (byte_at v 256) (String (byte_at v 1) r)))
      | _, _, _, _, _ => None
      end
  end.

(** [DecodeString]. *)
Definition b64_decode (s : string) : option string := decode_quanta (skip_breaks s).

(** ** The round trip *)

(** Induction in steps of three bytes. *)
Lemma string3_ind (P : string -> Prop) :
  P "" -> (forall x, P (String x "")) -> (forall x y, P (String x (String y ""))) ->
  (forall x y z r, P r -> P (String x (String y (String z r)))) -> forall s, P s.
Proof.
  intros H0 H1 H2 H3 s.
  assert (forall n s, (String.length s <= n)%nat -> P s) as Hn; [|by apply (Hn (String.length s))].
  induction n as [|n IH]; intros t Ht; [by destruct t; [|simpl in Ht; lia]|].
  destruct t as [|x [|y [|z r]]]; [done|apply H1|apply H2|]. apply H3, IH. simpl in Ht. lia.
Qed.

Lemma of_Z_byte a : ascii_of_Z (byte a) = a.
Proof. unfold byte, ascii_of_Z. by rewrite N2Z.id, ascii_N_embedding. Qed.

Lemma b64_value_char n : b64_value al (b64_char al (n mod 64)) = Some (n mod 64).
Proof.
  pose proof (Z.mod_pos_bound n 64). set (m := n mod 64) in *. clearbody m.
  assert (Forall (fun k => b64_value al (b64_char al k) = Some k) (seqZ 0 64)) as Hall.
  { apply Forall_forall. assert (forallb (fun k => bool_decide (b64_value al (b64_char al k) = Some k)) (seqZ 0 64) = true)
      as Hb by (destruct al; vm_compute; reflexivity).
    rewrite forallb_forall in Hb. intros k Hk%list_elem_of_In%Hb. by apply bool_decide_eq_true in Hk. }
  rewrite Forall_seqZ in Hall. apply Hall. lia.
Qed.

(** The digits: letters, numbers and two signs. *)
Definition b64_digit (a : ascii) : bool := match b64_value al a with Some _ => true | None => false end.

Lemma b64_encode_digits s : str_forall b64_digit (b64_encode s) = true.
Proof.
  assert (forall n, b64_digit (b64_char al (n mod 64)) = true) as Hd.
  { intros n. unfold b64_digit. by rewrite b64_value_char. }
  induction s as [|x|x y|x y z r IH] using string3_ind; cbn [b64_encode str_forall]; rewrite ?Hd; done.
Qed.

Lemma skip_breaks_id s : str_forall b64_digit s = true -> skip_breaks s = s.
Proof.
  induction s as [|a s IH]; [done|]. cbn [str_forall skip_breaks]. intros [Ha Hs]%andb_true_iff.
  assert (negb ((byte a =? 10) || (byte a =? 13)) = true) as Hb%negb_true_iff; [|by rewrite Hb, IH].
  revert a Ha. unfold b64_digit. generalize al. intros []; by_bytes.
Qed.

(** A 24-bit quantum is the sum of its four digits, and its three bytes are read back from it. *)
Lemma quantum_digits v : 0 <= v < 16777216 ->
  (v / 262144) mod 64 * 262144 + (v / 4096) mod 64 * 4096 + (v / 64) mod 64 * 64 + v mod 64 = v.
Proof.
  intros Hv.
  replace (v / 4096) with (v / 64 / 64) by (rewrite Z.div_div by lia; done).
  replace (v / 262144) with (v / 64 / 64 / 64) by (rewrite !Z.div_div by lia; done).
  Z.to_euclidean_division_equations; lia.
Qed.

Lemma quantum_bytes x y z : 0 <= x < 256 -> 0 <= y < 256 -> 0 <= z < 256 ->
  let v := x * 65536 + y * 256 + z in
  (v / 65536) mod 256 = x /\ (v / 256) mod 256 = y /\ (v / 1) mod 256 = z.
Proof. intros. subst v. rewrite Z.div_1_r. repeat split; Z.to_euclidean_division_equations; lia. Qed.

Lemma b64_roundtrip s : b64_decode (b64_encode s) = Some s.
Proof.
  unfold b64_decode. rewrite skip_breaks_id by apply b64_encode_digits.
  induction s as [|x|x y|x y z r IH] using string3_ind; [done|..]; cbn [b64_encode decode_quanta];
    rewrite ?b64_value_char, ?IH; cbv beta zeta iota.
  - pose proof (byte_nonneg x) as Hx. set (v := byte x * 65536).
    pose proof (quantum_bytes (byte x) 0 0 Hx ltac:(lia) ltac:(lia)) as (E & _ & _).
    pose proof (quantum_digits v ltac:(lia)) as D.
    replace ((v / 64) mod 64) with 0 in D by (subst v; Z.to_euclidean_division_equations; lia).
    replace (v mod 64) with 0 in D by (subst v; Z.to_euclidean_division_equations; lia).
    replace (_ + _) with v by lia. replace (byte x * 65536 + 0 * 256 + 0) with v in E by lia.
    by rewrite E, of_Z_byte.
  - pose proof (byte_nonneg x) as Hx. pose proof (byte_nonneg y) as Hy. set (v := byte x * 65536 + byte y * 256).
    pose proof (quantum_bytes (byte x) (byte y) 0 Hx Hy ltac:(lia)) as (E1 & E2 & _).
    pose proof (quantum_digits v ltac:(lia)) as D.
    replace (v mod 64) with 0 in D by (subst v; Z.to_euclidean_division_equations; lia).
    replace (_ + _ + _) with v by lia. replace (byte x * 65536 + byte y * 256 + 0) with v in E1, E2 by lia.
    by rewrite E1, E2, !of_Z_byte.
  - pose proof (byte_nonneg x) as Hx. pose proof (byte_nonneg y) as Hy. pose proof (byte_nonneg z) as Hz.
    pose proof (quantum_bytes _ _ _ Hx Hy Hz) as (E1 & E2 & E3).
    rewrite quantum_digits by lia. by rewrite E1, E2, E3, !of_Z_byte.
Qed.

Lemma b64_length32 s : String.length s = 32%nat -> String.length (b64_encode s) = 43%nat.
Proof.
  do 33 (destruct s as [|? s]; try discriminate). reflexivity.
Qed.

End alphabet.
