(* ===== verification/Password.v ===== *)
(** * Password hashes (internal/auth/auth.go: [HashPassword] and what reads its format)

    The stored form [pbkdf2$iterations$salt$hash], its parser, and the comparison with a password.
    PBKDF2-HMAC-SHA256 is the class [Pbkdf2]. *)

From S2P Require Import Prelude GoStrings Base64.

Local Open Scope string_scope.
Local Open Scope list_scope.
Local Open Scope Z_scope.

(** [pbkdf2.Key(password, salt, iterations, keyLen, sha256.New)]: a key of [keyLen] bytes. *)
Class Pbkdf2 := {
  pbkdf2Key : string -> string -> Z -> Z -> string;
  pbkdf2Key_size : forall password salt iterations n,
    0 < iterations -> 0 <= n -> strlen (pbkdf2Key password salt iterations n) = n }.

Definition passwordPrefix : string := "pbkdf2".
Definition passwordIterations : Z := 600000.
Definition passwordKeyBytes : Z := 32.
Definition saltBytes : nat := 16.

Definition formatHash (iterations : Z) (salt hash : string) : string :=
  Join [passwordPrefix; Itoa iterations; b64_encode StdAlphabet salt; b64_encode StdAlphabet hash] "$".

Definition derive `{Pbkdf2} (password salt : string) (iterations : Z) : string :=
  pbkdf2Key password salt iterations passwordKeyBytes.

Definition IsHashed (stored : string) : bool := HasPrefix stored (passwordPrefix +:+ "$").

Definition NeedsRehash (stored : string) : bool :=
  if negb (IsHashed stored) then true
  else
    match split_on "$" stored with
    | _ :: n :: _ :: _ :: _ =>
        match Atoi n with
        | None => true
        | Some iterations => iterations <? passwordIterations
        end
    | _ => true
    end.

(** [subtle.ConstantTimeCompare(a, b) == 1] is [String.eqb]. *)
Definition PasswordMatches `{Pbkdf2} (raw stored : string) : bool :=
  if negb (IsHashed stored) then String.eqb raw stored
  else
    match split_on "$" stored with
    | _ :: n :: salt :: expected :: _ =>
        match Atoi n with
        | None => false
        | Some iterations =>
            if iterations <=? 0 then false
            else
              match b64_decode StdAlphabet salt with
              | None => false
              | Some salt =>
                  match b64_decode StdAlphabet expected with
                  | None => false
                  | Some expected => String.eqb (pbkdf2Key raw salt iterations (strlen expected)) expected
                  end
              end
        end
    | _ => false
    end.

(** ** Reading back what was written *)

Lemma std_digit_no_dollar a : b64_digit StdAlphabet a = true -> negb (Ascii.eqb a "$") = true.
Proof. revert a. by_bytes. Qed.

Lemma encode_no_dollar s : no_sep "$" (b64_encode StdAlphabet s) = true.
Proof. eapply str_forall_weaken; [apply std_digit_no_dollar|]. apply b64_encode_digits. Qed.

Lemma dec_char_no_dollar a : dec_char a = true -> negb (Ascii.eqb a "$") = true.
Proof. revert a. by_bytes. Qed.

Lemma Itoa_no_dollar n : no_sep "$" (Itoa n) = true.
Proof. eapply str_forall_weaken; [apply dec_char_no_dollar|]. apply FormatInt_chars. Qed.

Lemma formatHash_parts n salt hash :
  split_on "$" (formatHash n salt hash)
  = [passwordPrefix; Itoa n; b64_encode StdAlphabet salt; b64_encode StdAlphabet hash].
Proof.
  apply split_join; [done|]. cbn [forallb]. by rewrite Itoa_no_dollar, !encode_no_dollar.
Qed.

Lemma formatHash_IsHashed n salt hash : IsHashed (formatHash n salt hash) = true.
Proof.
  unfold IsHashed, formatHash, Join.
  change (String.concat "$" [passwordPrefix; Itoa n; b64_encode StdAlphabet salt; b64_encode StdAlphabet hash])
    with ((passwordPrefix +:+ "$") +:+ Join [Itoa n; b64_encode StdAlphabet salt; b64_encode StdAlphabet hash] "$").
  apply HasPrefix_app.
Qed.

Lemma formatHash_read `{Pbkdf2} n salt hash raw : 0 < n -> int_ok 64 n = true ->
  NeedsRehash (formatHash n salt hash) = (n <? passwordIterations)
  /\ PasswordMatches raw (formatHash n salt hash) = String.eqb (pbkdf2Key raw salt n (strlen hash)) hash.
Proof.
  intros Hn Hok. unfold NeedsRehash, PasswordMatches.
  rewrite formatHash_IsHashed, formatHash_parts, Atoi_Itoa by done. cbn [negb]. split; [done|].
  rewrite (proj2 (Z.leb_gt _ _)), !b64_roundtrip by done. done.
Qed.

(** What [HashPassword] stores: fresh enough, and matching the password it was made from. *)
Lemma hash_current `{Pbkdf2} pw salt :
  let stored := formatHash passwordIterations salt (derive pw salt passwordIterations) in
  IsHashed stored = true /\ NeedsRehash stored = false /\ PasswordMatches pw stored = true.
Proof.
  cbv zeta. split; [apply formatHash_IsHashed|].
  destruct (formatHash_read passwordIterations salt (derive pw salt passwordIterations) pw) as [-> ->]; [done|done|].
  split; [done|]. unfold derive. rewrite pbkdf2Key_size by done. apply String.eqb_refl.
Qed.

(** A hash written with any positive number of iterations reads back: it is recognised as a hash, it asks
    for a rehash exactly when it was made with fewer iterations than the current setting, and a password
    matches it exactly when it derives the same key from the same salt - so the password it was made from
    always does, and no salt or key bytes can make the parser see other fields. *)
Theorem password_roundtrip `{Pbkdf2} (iterations : Z) (salt password raw : string) :
  0 < iterations < 2 ^ 63 ->
  let stored := formatHash iterations salt (derive password salt iterations) in
  IsHashed stored = true
  /\ NeedsRehash stored = (iterations <? passwordIterations)
  /\ PasswordMatches raw stored = String.eqb (derive raw salt iterations) (derive password salt iterations)
  /\ PasswordMatches password stored = true.
Proof.
  intros Hn. cbv zeta. split; [apply formatHash_IsHashed|].
  assert (int_ok 64 iterations = true) as Hok by (unfold int_ok; apply andb_true_iff; lia).
  pose proof (fun raw => formatHash_read iterations salt (derive password salt iterations) raw ltac:(lia) Hok) as Hread.
  unfold derive in *. rewrite pbkdf2Key_size in Hread by (done || lia).
  split; [apply Hread; exact raw|]. split; [apply Hread|]. rewrite (proj2 (Hread password)). apply String.eqb_refl.
Qed.

(** A stand-in for PBKDF2 with the length the function promises. *)
Definition padded_key (password salt : string) (iterations n : Z) : string :=
  str_take (Z.to_nat n) (password +:+ salt) +:+
  string_of_list_ascii (repeat "."%char (Z.to_nat n - String.length (str_take (Z.to_nat n) (password +:+ salt)))).

Lemma padded_key_size password salt iterations n : 0 <= n -> strlen (padded_key password salt iterations n) = n.
Proof.
  intros Hn. unfold strlen, padded_key. rewrite str_app_length.
  pose proof (str_take_length (Z.to_nat n) (password +:+ salt)) as Hl.
  assert (forall k, String.length (string_of_list_ascii (repeat "."%char k)) = k) as -> by (induction k; simpl; congruence).
  lia.
Qed.

Definition example_pbkdf2 : Pbkdf2 := {|
  pbkdf2Key := padded_key; pbkdf2Key_size := fun p s i n _ Hn => padded_key_size p s i n Hn |}.

Lemma password_roundtrip_witness :
  let _ := example_pbkdf2 in
  let stored := formatHash 1000 "0123456789abcdef" (derive "secret-password" "0123456789abcdef" 1000) in
  NeedsRehash stored = true
  /\ PasswordMatches "secret-password" stored = true /\ PasswordMatches "other-password" stored = false.
Proof.
  cbv zeta.
  destruct (@password_roundtrip example_pbkdf2 1000 "0123456789abcdef" "secret-password" "other-password" ltac:(lia))
    as (_ & H1 & H2 & H3).
  split; [exact H1|]. split; [exact H3|]. etransitivity; [exact H2|]. vm_compute. reflexivity.
Defined.

(** A stored hash whose key part is empty matches every password: zero key bytes are derived and compared. *)
Theorem empty_hash_matches `{Pbkdf2} (raw : string) : PasswordMatches raw "pbkdf2$600000$c2FsdA$" = true.
Proof.
  assert (forall b, PasswordMatches raw "pbkdf2$600000$c2FsdA$" = String.eqb b "" -> strlen b = 0 ->
    PasswordMatches raw "pbkdf2$600000$c2FsdA$" = true) as Hstep.
  { intros b -> Hb. destruct b; [done|]. unfold strlen in Hb. cbn [String.length] in Hb. lia. }
  apply (Hstep (pbkdf2Key raw "salt" 600000 0)); [reflexivity|]. by apply pbkdf2Key_size.
Qed.
