(* ===== verification/Auth.v ===== *)
(** * Accounts and sessions (internal/auth/auth.go)

    [Service] over the interface [AuthE]: the Redis client, the users repository, the random source and
    the clock.  SHA-256, PBKDF2 and the table of printable runes are classes.  The last sections read
    sessions and login throttling against a Redis keyspace with expiry. *)

From S2P Require Import Prelude GoStrings Proc Errors Model GoContext Base64 Password.

Local Open Scope string_scope.
Local Open Scope list_scope.
Local Open Scope Z_scope.

(** [sha256.Sum256]. *)
Class Sha256Sum := sha256Sum : string -> string.

(** [strconv.IsPrint] above ASCII. *)
Class PrintTable := printable : Z -> bool.

(** The invite code the server was configured with; empty for open registration. *)
Class InviteConfig := InviteCode : string.

Definition tokenBytes : nat := 32.
Definition sessionTTL : Z := 24 * hour.
Definition sessionPrefix : string := "auth:session:".
Definition loginFailurePrefix : string := "auth:login-failures:".
Definition maxLoginFailures : Z := 8.
Definition loginFailureWindow : Z := 10 * minute.
Definition maxPasswordLength : Z := 128.
Definition maxNicknameLength : Z := 50.

(** A buffer of [n] bytes. *)
Definition bytes (n : nat) : Type := { b : string | String.length b = n }.

Inductive AuthE : Type -> Type :=
| AGet (ctx : Context) (key : string) : AuthE (res (option string))
| ASet (ctx : Context) (key value : string) (ttl : Z) : AuthE (res unit)
| ADel (ctx : Context) (key : string) : AuthE (res unit)
| AIncr (ctx : Context) (key : string) : AuthE (res Z)
| AExpire (ctx : Context) (key : string) (ttl : Z) : AuthE (res unit)
| ACount (ctx : Context) (username : string) : AuthE (res Z)
| ACreate (ctx : Context) (u : User) : AuthE (res Z) (* the id the row was given *)
| AFindByUsername (ctx : Context) (username : string) : AuthE (res (option User))
| AFindByID (ctx : Context) (id : Z) : AuthE (res (option User))
| AUpdatePassword (ctx : Context) (id : Z) (hashed : string) : AuthE (res unit)
| ARead (n : nat) : AuthE (res (bytes n))
| ANow : AuthE Z.

(** ** Input *)

(** [usernameRe], [^[A-Za-z0-9_]{3,32}$]. *)
Definition username_char (a : ascii) : bool :=
  in_range 65 90 (byte a) || in_range 97 122 (byte a) || is_digit a || Ascii.eqb a "_".

Definition usernameRe (s : string) : bool :=
  in_range 3 32 (strlen s) && str_forall username_char s.

Definition normalizeUsername (username : option string) : string * bool :=
  match username with
  | None => ("", false)
  | Some username => let n := TrimSpace username in (n, usernameRe n)
  end.

Definition normalizeNickname (nickname : option string) : string * bool :=
  match nickname with
  | None => ("", true)
  | Some nickname =>
      if is_blank nickname then ("", true)
      else let n := TrimSpace nickname in (n, utf16Len n <=? maxNicknameLength)
  end.

Definition response (code : Z) (msg : string) (user : option UserInfo) (token : string) : AuthResponse :=
  mkAuthResponse code msg user token.

Definition userView (u : User) : UserInfo :=
  mkUserInfo (u_ID u) (u_Username u) (u_Nickname u) (u_Avatar u) (u_Role u).

Definition InviteRequiredMsg : string := "项目内测中，请联系作者索要内测码".
Definition badCredentialsForm : string := "账号需为 3-32 位字母、数字或下划线，密码需为 8-128 位".

(** ** Tokens *)

Definition BearerToken (authorization : string) : res string :=
  if negb (HasPrefix authorization "Bearer ") then Err (Forbidden "请先登录")
  else
    let token := TrimSpace (str_drop 7 authorization) in
    if utf16Len token <? 32 then Err (Forbidden "无效的登录凭证") else Ok token.

Section service.
Context `{Pbkdf2, Sha256Sum, PrintTable, InviteConfig}.

Definition SessionKey (token : string) : string := sessionPrefix +:+ b64_encode URLAlphabet (sha256Sum token).

Definition HashPassword (password : string) : proc AuthE (res string) :=
  salt ←? call (ARead saltBytes);
  Ret (Ok (formatHash passwordIterations (proj1_sig salt) (derive password (proj1_sig salt) passwordIterations))).

Definition CreateSession (ctx : Context) (userID : Z) : proc AuthE (res string) :=
  b ←? call (ARead tokenBytes);
  let token := b64_encode URLAlphabet (proj1_sig b) in
  _ ←? call (ASet ctx (SessionKey token) (FormatInt userID) sessionTTL);
  Ret (Ok token).

Definition ResolveUser (ctx : Context) (authorization : string) : proc AuthE (res Z) :=
  token ←? Ret (BearerToken authorization);
  v ←? call (AGet ctx (SessionKey token));
  match v with
  | None => Ret (Err (Forbidden "登录状态已失效"))
  | Some v =>
      match ParseInt 64 v with
      | None => Ret (Err (InvalidArgument ("invalid number " +:+ Quote printable v)))
      | Some id => Ret (Ok id)
      end
  end.

Definition RevokeSession (ctx : Context) (authorization : string) : proc AuthE (res unit) :=
  token ←? Ret (BearerToken authorization);
  call (ADel ctx (SessionKey token)).

(** ** Login throttling *)

Definition LoginAttemptAllowed (ctx : Context) (username : string) : proc AuthE (res bool) :=
  v ←? call (AGet ctx (loginFailurePrefix +:+ username));
  match v with
  | None => Ret (Ok true)
  | Some v =>
      match ParseInt 64 v with
      | None => Do (ADel ctx (loginFailurePrefix +:+ username)) (fun _ => Ret (Ok true))
      | Some n => Ret (Ok (n <? maxLoginFailures))
      end
  end.

Definition recordLoginFailure (ctx : Context) (username : string) : proc AuthE (res unit) :=
  let key := loginFailurePrefix +:+ username in
  n ←? call (AIncr ctx key);
  if n =? 1 then call (AExpire ctx key loginFailureWindow) else Ret (Ok tt).

(** ** Accounts *)

Definition Register (ctx : Context) (req : AuthRequest) : proc AuthE (res AuthResponse) :=
  if negb (String.eqb InviteCode "")
     && match ar_InviteCode req with
        | None => true
        | Some code => negb (String.eqb (TrimSpace code) InviteCode)
        end
  then Ret (Ok (response 403 InviteRequiredMsg None ""))
  else
    let '(username, ok) := normalizeUsername (ar_Username req) in
    let password := deref (ar_Password req) in
    if negb ok || match ar_Password req with None => true | Some _ => false end
       || (utf16Len password <? 8) || (maxPasswordLength <? utf16Len password)
    then Ret (Ok (response 400 badCredentialsForm None ""))
    else
      let '(nickname, ok) := normalizeNickname (ar_Nickname req) in
      if negb ok then Ret (Ok (response 400 "昵称不能超过 50 个字符" None ""))
      else
        count ←? call (ACount ctx username);
        if 0 <? count then Ret (Ok (response 409 "该账号已存在" None ""))
        else
          bind (if String.eqb nickname "" then Do ANow (fun now => Ret ("用户" +:+ FormatInt (UnixMilli now)))
                else Ret nickname) (fun nickname =>
          hashed ←? HashPassword password;
          let user := mkUser 0 username hashed nickname None "USER" in
          Do (ACreate ctx user) (fun created =>
          match created with
          | Err e =>
              if IsSentinel e ErrDuplicate then Ret (Ok (response 409 "该账号已存在" None ""))
              else Ret (Err e)
          | Ok id => Ret (Ok (response 200 "注册成功" (Some (userView (mkUser id username hashed nickname None "USER"))) ""))
          end)).

(** [Login] once the throttle lets the attempt through. *)
Definition loginAttempt (ctx : Context) (username password : string) : proc AuthE (res AuthResponse) :=
  user ←? call (AFindByUsername ctx username);
  match match user with Some u => if PasswordMatches password (u_Password u) then Some u else None | None => None end with
  | None =>
      _ ←? recordLoginFailure ctx username;
      Ret (Ok (response 401 "账号或密码错误" None ""))
  | Some user =>
      _ ←? (if NeedsRehash (u_Password user) then
              hashed ←? HashPassword password;
              call (AUpdatePassword ctx (u_ID user) hashed)
            else Ret (Ok tt));
      _ ←? call (ADel ctx (loginFailurePrefix +:+ username));
      token ←? CreateSession ctx (u_ID user);
      Ret (Ok (response 200 "登录成功" (Some (userView user)) token))
  end.

Definition Login (ctx : Context) (req : AuthRequest) : proc AuthE (res AuthResponse) :=
  let '(username, ok) := normalizeUsername (ar_Username req) in
  if negb ok || match ar_Password req with None => true | Some p => is_blank p end
  then Ret (Ok (response 400 "请输入账号和密码" None ""))
  else
    allowed ←? LoginAttemptAllowed ctx username;
    if negb allowed then Ret (Ok (response 429 "登录尝试过于频繁，请稍后再试" None ""))
    else loginAttempt ctx username (deref (ar_Password req)).

Definition RequireAdmin (ctx : Context) (userID : Z) : proc AuthE (res unit) :=
  u ←? call (AFindByID ctx userID);
  match u with
  | Some u => if negb (String.eqb (u_Role u) "ADMIN") then Ret (Err (Forbidden "仅管理员可操作失败任务")) else Ret (Ok tt)
  | None => Ret (Err (Forbidden "仅管理员可操作失败任务"))
  end.

(** ** What a run did *)

(** Session keys stored, with value and lifetime. *)
Definition issued : trace AuthE -> list (string * string * Z) :=
  select (fun X (c : AuthE X) => match c with
    | ASet _ k v ttl => fun r => match r with Ok _ => Some (k, v, ttl) | Err _ => None end | _ => fun _ => None end).

(** Counters incremented. *)
Definition counted : trace AuthE -> list string :=
  select (fun X (c : AuthE X) => match c with AIncr _ k => fun _ => Some k | _ => fun _ => None end).

Definition dropped : trace AuthE -> list string :=
  select (fun X (c : AuthE X) => match c with ADel _ k => fun _ => Some k | _ => fun _ => None end).

Definition read : trace AuthE -> list (string * res (option string)) :=
  select (fun X (c : AuthE X) => match c with AGet _ k => fun r => Some (k, r) | _ => fun _ => None end).

Definition lookedUp : trace AuthE -> list (string * res (option User)) :=
  select (fun X (c : AuthE X) => match c with AFindByUsername _ n => fun r => Some (n, r) | _ => fun _ => None end).

Definition counts : trace AuthE -> list (string * res Z) :=
  select (fun X (c : AuthE X) => match c with ACount _ n => fun r => Some (n, r) | _ => fun _ => None end).

Definition created : trace AuthE -> list (User * Z) :=
  select (fun X (c : AuthE X) => match c with
    | ACreate _ u => fun r => match r with Ok id => Some (u, id) | Err _ => None end | _ => fun _ => None end).

Definition rehashed : trace AuthE -> list (Z * string) :=
  select (fun X (c : AuthE X) => match c with AUpdatePassword _ id h => fun _ => Some (id, h) | _ => fun _ => None end).

(** A stored password the current code writes for [pw]. *)
Definition current_hash (pw stored : string) : Prop :=
  IsHashed stored = true /\ NeedsRehash stored = false /\ PasswordMatches pw stored = true.

(** The answer of the throttle to what it read. *)
Definition throttled (v : option string) : bool :=
  match v with Some v => match ParseInt 64 v with Some n => maxLoginFailures <=? n | None => false end | None => false end.

Lemma LoginAttemptAllowed_spec ctx name :
  wp (LoginAttemptAllowed ctx name) (fun tr r =>
    issued tr = [] /\ rehashed tr = [] /\ lookedUp tr = [] /\ counted tr = []
    /\ match r with
       | Err _ => True
       | Ok b => exists v, read tr = [(loginFailurePrefix +:+ name, Ok v)] /\ b = negb (throttled v)
       end).
Proof.
  unfold LoginAttemptAllowed. intros [v|e]; cbn [bind_ok bind call wp]; [|done].
  unfold throttled. destruct v as [v|]; [destruct (ParseInt 64 v) as [n|] eqn:En|]; cbn [wp]; try intros _;
    repeat (split; [reflexivity|]); eexists; (split; [reflexivity|]); cbv beta iota; rewrite ?En; try done.
  apply Z.ltb_antisym.
Qed.

(** What [loginAttempt] promises. *)
Definition attempt_post (name pw : string) (tr : trace AuthE) (r : res AuthResponse) : Prop :=
  match r with
  | Err _ => issued tr = []
  | Ok resp =>
      exists u, lookedUp tr = [(name, Ok u)]
      /\ ((exists u', u = Some u' /\ as_Code resp = 200 /\ counted tr = []
            /\ PasswordMatches pw (u_Password u') = true
            /\ last (dropped tr) = Some (loginFailurePrefix +:+ name)
            /\ issued tr = [(SessionKey (as_Token resp), FormatInt (u_ID u'), sessionTTL)]
            /\ as_UserInfo resp = Some (userView u')
            /\ (rehashed tr = [] /\ NeedsRehash (u_Password u') = false
                \/ exists h, rehashed tr = [(u_ID u', h)] /\ NeedsRehash (u_Password u') = true /\ current_hash pw h))
          \/ (as_Code resp = 401 /\ as_Token resp = "" /\ as_UserInfo resp = None
              /\ issued tr = [] /\ rehashed tr = [] /\ counted tr = [loginFailurePrefix +:+ name]
              /\ (forall u', u = Some u' -> PasswordMatches pw (u_Password u') = false)))
  end.

Lemma loginAttempt_spec ctx name pw :
  wp (loginAttempt ctx name pw) (fun tr r => read tr = [] /\ attempt_post name pw tr r).
Proof.
  unfold loginAttempt. intros [u|e]; proc_simpl; [|done].
  destruct u as [u|]; [destruct (PasswordMatches pw (u_Password u)) eqn:Epw|].
  - unfold HashPassword, CreateSession. destruct (NeedsRehash (u_Password u)) eqn:Enr.
    + intros [salt|e]; proc_simpl; [|done]. intros [[]|e]; proc_simpl; [|done]. intros [[]|e]; proc_simpl; [|done].
      intros [b|e]; proc_simpl; [|done]. intros [[]|e]; proc_simpl; [|done]. cbn. split; [done|].
      eexists. split; [done|]. left. eexists. repeat (split; [done|]). right. eexists. split; [done|]. split; [done|].
      apply hash_current.
    + intros [[]|e]; proc_simpl; [|done]. intros [b|e]; proc_simpl; [|done]. intros [[]|e]; proc_simpl; [|done]. cbn. split; [done|].
      eexists. split; [done|]. left. eexists. repeat (split; [done|]). by left.
  - unfold recordLoginFailure. intros [n|e]; proc_simpl; [|done].
    destruct (n =? 1); [intros [[]|e]; proc_simpl; [|done]|]; cbn; (split; [done|]); eexists; (split; [done|]); right;
      repeat (split; [done|]); by intros ? [= <-].
  - unfold recordLoginFailure. intros [n|e]; proc_simpl; [|done].
    destruct (n =? 1); [intros [[]|e]; proc_simpl; [|done]|]; cbn; (split; [done|]); eexists; (split; [done|]); right;
      repeat (split; [done|]); done.
Qed.

(** C31. A login succeeds only for a well-formed account name that is not throttled, whose row is found and
    whose stored password matches; it then clears the failure counter, issues exactly one session for that
    row under the digest of the returned token, and leaves the stored password as it was or replaces one
    that needed it by a current hash of the same password. A refused login issues nothing; a wrong
    password or unknown account is counted exactly once; a throttled one looks nothing up. *)
Theorem Login_contract (ctx : Context) (req : AuthRequest) :
  let name := fst (normalizeUsername (ar_Username req)) in
  let pw := deref (ar_Password req) in
  wp (Login ctx req) (fun tr r =>
    match r with
    | Err _ => issued tr = []
    | Ok resp =>
        (as_Code resp = 200
         /\ usernameRe name = true /\ is_blank pw = false
         /\ (exists v, read tr = [(loginFailurePrefix +:+ name, Ok v)] /\ throttled v = false)
         /\ counted tr = []
         /\ exists u, lookedUp tr = [(name, Ok (Some u))] /\ PasswordMatches pw (u_Password u) = true
              /\ last (dropped tr) = Some (loginFailurePrefix +:+ name)
              /\ issued tr = [(SessionKey (as_Token resp), FormatInt (u_ID u), sessionTTL)]
              /\ as_UserInfo resp = Some (userView u)
              /\ (rehashed tr = [] /\ NeedsRehash (u_Password u) = false
                  \/ exists h, rehashed tr = [(u_ID u, h)] /\ NeedsRehash (u_Password u) = true /\ current_hash pw h))
        \/ (as_Token resp = "" /\ as_UserInfo resp = None /\ issued tr = [] /\ rehashed tr = []
            /\ (as_Code resp = 400 /\ tr = [] /\ (usernameRe name = false \/ is_blank pw = true)
                \/ as_Code resp = 429 /\ lookedUp tr = [] /\ counted tr = []
                    /\ (exists v, read tr = [(loginFailurePrefix +:+ name, Ok v)] /\ throttled v = true)
                \/ as_Code resp = 401 /\ counted tr = [loginFailurePrefix +:+ name]
                    /\ exists u, lookedUp tr = [(name, Ok u)]
                         /\ (forall u', u = Some u' -> PasswordMatches pw (u_Password u') = false)))
    end).
Proof.
  cbv zeta. unfold Login. destruct (normalizeUsername (ar_Username req)) as [name ok] eqn:En. cbn [fst].
  assert (ok = usernameRe name) as ->.
  { unfold normalizeUsername in En. destruct (ar_Username req); by injection En as <- <-. }
  assert (match ar_Password req with None => true | Some p => is_blank p end = is_blank (deref (ar_Password req))) as ->
    by by destruct (ar_Password req).
  set (pw := deref (ar_Password req)).
  destruct (usernameRe name) eqn:Ere, (is_blank pw) eqn:Ebl; cbn [negb orb];
    try (cbn [wp]; right; repeat (split; [done|]); left; by auto).
  wp_use LoginAttemptAllowed_spec. intros tr [b|e] (Hi & Hr & Hl & Hc & Hb); [|done].
  destruct Hb as (v & Hread & ->). destruct (throttled v) eqn:Et; cbn [negb].
  { cbn [wp]. rewrite app_nil_r. right. repeat (split; [done|]). right. left. repeat (split; [done|]). by eexists. }
  eapply wp_mono; [apply loginAttempt_spec|]. intros tr' [resp|e] [Hread' Hp];
    unfold attempt_post in Hp; unfold issued, rehashed, lookedUp, counted, dropped, read in *; rewrite ?select_app, ?Hi, ?Hr, ?Hl, ?Hc, ?Hread; [|done].
  destruct Hp as (u & Hu & [(u' & -> & Hp)|Hp]).
  - left. rewrite Hread'. destruct Hp as (H200 & ? & ? & Hd & ?). repeat (split; [done|]). split; [by eexists|].
    split; [done|]. eexists. split; [done|]. split; [done|]. split; [|done]. by rewrite last_app, Hd.
  - right. destruct Hp as (? & ? & ? & ? & ? & ? & ?). repeat (split; [done|]). right. right.
    repeat (split; [done|]). by eexists.
Qed.

(** The caller may sign up: registration is open, or the code is the configured one. *)
Definition invited (req : AuthRequest) : Prop :=
  InviteCode = "" \/ exists code, ar_InviteCode req = Some code /\ TrimSpace code = InviteCode.

Lemma invited_guard req :
  negb (String.eqb InviteCode "")
    && match ar_InviteCode req with None => true | Some code => negb (String.eqb (TrimSpace code) InviteCode) end = false
  <-> invited req.
Proof.
  unfold invited. rewrite andb_false_iff, negb_false_iff, String.eqb_eq. destruct (ar_InviteCode req) as [code|].
  - rewrite negb_false_iff, String.eqb_eq. split; [intros [?|?]; eauto|]. intros [?|(c & [= ->] & ?)]; auto.
  - split; [intros [?|?]; [auto|done]|]. intros [?|(c & ? & ?)]; [auto|done].
Qed.

(** Dispatch a refusal: nothing was done, and the caller was admitted. *)
Ltac refused :=
  cbn [wp]; split; [done|]; split; [done|]; split; [split; [discriminate|intros []; assumption]|];
  split; [intros []; assumption|]; by right.

(** Registration creates at most one row, and only for an admitted caller with a well-formed free account
    name and a password of 8 to 128 code units: an ordinary user with a nickname, whose stored password is a
    current hash of that password. It never opens a session, never shows the password, and a caller without
    the invite code learns nothing: no call is made for it. *)
Theorem Register_contract (ctx : Context) (req : AuthRequest) :
  let name := fst (normalizeUsername (ar_Username req)) in
  let pw := deref (ar_Password req) in
  wp (Register ctx req) (fun tr r =>
    issued tr = []
    /\ match r with
       | Err _ => created tr = [] /\ invited req
       | Ok resp =>
           as_Token resp = ""
           /\ (as_Code resp = 403 <-> ~ invited req) /\ (~ invited req -> tr = [])
           /\ (as_Code resp = 200
               /\ usernameRe name = true /\ 8 <= utf16Len pw <= maxPasswordLength
               /\ (exists n, counts tr = [(name, Ok n)] /\ n <= 0)
               /\ (exists u id, created tr = [(u, id)] /\ u_Username u = name /\ u_Role u = "USER"
                    /\ current_hash pw (u_Password u)
                    /\ u_Nickname u <> ""
                    /\ (u_Nickname u = fst (normalizeNickname (ar_Nickname req)) ->
                          utf16Len (u_Nickname u) <= maxNicknameLength)
                    /\ as_UserInfo resp = Some (mkUserInfo id name (u_Nickname u) None "USER"))
               \/ as_Code resp <> 200 /\ created tr = [] /\ as_UserInfo resp = None)
       end).
Proof.
  cbv zeta. unfold Register.
  destruct (_ && _) eqn:Einv.
  { assert (~ invited req) as Hni by (rewrite <- invited_guard; congruence).
    cbn [wp]. split; [done|]. split; [done|]. split; [done|]. split; [done|]. right. done. }
  apply invited_guard in Einv.
  destruct (normalizeUsername (ar_Username req)) as [name ok] eqn:En. cbn [fst].
  assert (ok = usernameRe name) as ->.
  { unfold normalizeUsername in En. destruct (ar_Username req); by injection En as <- <-. }
  set (pw := deref (ar_Password req)).
  destruct (_ || _ || _ || _) eqn:Ebad.
  { refused. }
  rewrite !orb_false_iff, negb_false_iff, !Z.ltb_ge in Ebad. destruct Ebad as (((Hre & Hsome) & H8) & H128).
  destruct (normalizeNickname (ar_Nickname req)) as [nick okn] eqn:Enn. cbn [fst].
  assert (okn = true -> utf16Len nick <= maxNicknameLength) as Hnick.
  { unfold normalizeNickname in Enn. destruct (ar_Nickname req) as [k|]; [|by injection Enn as <- <-].
    destruct (is_blank k); injection Enn as <- <-; [done|]. intros ?%Z.leb_le. done. }
  destruct okn; cbn [negb]; [|refused].
  intros [n|e]; proc_simpl; [|done].
  destruct (Z.ltb_spec 0 n); [refused|].
  apply wp_bind.
  eapply (wp_mono _ (fun tr k => issued tr = [] /\ created tr = [] /\ counts tr = [] /\ k <> "")).
  { destruct (String.eqb_spec nick ""); cbn [wp]; [|by repeat split].
    intros now. by repeat (split; [done|]). }
  intros tr k (Hi & Hcr & Hco & Hk). unfold HashPassword.
  intros [salt|e]; proc_simpl; [|unfold issued, created in *; by rewrite !select_cons, !select_app, Hi, Hcr].
  intros [id|e]; [|destruct (IsSentinel e ErrDuplicate)]; cbn [wp]; unfold issued, created, counts in *;
    rewrite !select_cons, !select_app, Hi, Hcr, ?Hco.
  - split; [done|]. split; [done|]. split; [split; [discriminate|intros []; assumption]|]. split; [done|]. left.
    split; [done|]. split; [done|]. split; [done|]. split; [by exists n|].
    eexists _, _. split; [reflexivity|]. cbn [u_Username u_Role u_Password u_Nickname].
    split; [done|]. split; [done|]. split; [apply hash_current|]. split; [done|]. split; [|done].
    intros ->. by apply Hnick.
  - refused.
  - done.
Qed.

(** ** Against Redis *)

(** A keyspace: values with the instant they expire, if any; and the clock. *)
Record rstate := mkRState { kv : gmap string (string * option Z); now : Z }.

(** What a command finds under [k]: expired keys are gone. *)
Definition live (s : rstate) (k : string) : option (string * option Z) :=
  match kv s !! k with
  | Some (v, Some t) => if t <=? now s then None else Some (v, Some t)
  | other => other
  end.

Definition later (s s' : rstate) : Prop := kv s' = kv s /\ now s <= now s'.
Definition wrote (s : rstate) (k : string) (e : string * option Z) (s' : rstate) : Prop :=
  kv s' = <[k := e]> (kv s) /\ now s <= now s'.
Definition removed (s : rstate) (k : string) (s' : rstate) : Prop :=
  kv s' = delete k (kv s) /\ now s <= now s'.

(** One call: GET, SET with a lifetime, DEL, INCR and EXPIRE; a call may fail when Redis is not [up], and a
    failed write may or may not have been applied. Other calls leave the keyspace alone. *)
Definition redis (up : bool) (X : Type) (c : AuthE X) (s : rstate) : X -> rstate -> Prop :=
  match c in AuthE X return X -> rstate -> Prop with
  | AGet _ k => fun x s' => later s s' /\ (x = Ok (fst <$> live s k) \/ up = false /\ exists e, x = Err e)
  | ASet _ k v ttl => fun x s' =>
      x = Ok tt /\ wrote s k (v, Some (now s + ttl)) s'
      \/ up = false /\ (exists e, x = Err e) /\ (later s s' \/ wrote s k (v, Some (now s + ttl)) s')
  | ADel _ k => fun x s' =>
      x = Ok tt /\ removed s k s' \/ up = false /\ (exists e, x = Err e) /\ (later s s' \/ removed s k s')
  | AIncr _ k => fun x s' =>
      match live s k with
      | None => x = Ok 1 /\ wrote s k ("1", None) s'
                \/ up = false /\ (exists e, x = Err e) /\ (later s s' \/ wrote s k ("1", None) s')
      | Some (v, t) =>
          match ParseInt 64 v with
          | Some n =>
              int_ok 64 (n + 1) = true
              /\ (x = Ok (n + 1) /\ wrote s k (FormatInt (n + 1), t) s'
                  \/ up = false /\ (exists e, x = Err e) /\ (later s s' \/ wrote s k (FormatInt (n + 1), t) s'))
              \/ (exists e, x = Err e) /\ int_ok 64 (n + 1) = false /\ later s s'
          | None => (exists e, x = Err e) /\ later s s'
          end
      end
  | AExpire _ k ttl => fun x s' =>
      match live s k with
      | None => later s s' /\ (x = Ok tt \/ up = false /\ exists e, x = Err e)
      | Some (v, _) =>
          x = Ok tt /\ wrote s k (v, Some (now s + ttl)) s'
          \/ up = false /\ (exists e, x = Err e) /\ (later s s' \/ wrote s k (v, Some (now s + ttl)) s')
      end
  | _ => fun _ s' => later s s'
  end.

(** Runs against Redis, and the rule to establish what they reach. *)
Abbreviation runs up := (sruns (redis up)).
Abbreviation after up := (swp (redis up)).

(** *** Sessions *)

Lemma url_digit_plain a : b64_digit URLAlphabet a = true -> plain_ascii a = true.
Proof. revert a. by_bytes. Qed.

Lemma BearerToken_session (b : bytes tokenBytes) :
  BearerToken ("Bearer " +:+ b64_encode URLAlphabet (proj1_sig b)) = Ok (b64_encode URLAlphabet (proj1_sig b)).
Proof.
  destruct b as [b Hb]. unfold proj1_sig, BearerToken. rewrite HasPrefix_app. cbn [negb].
  change (str_drop 7 ("Bearer " +:+ b64_encode URLAlphabet b)) with (b64_encode URLAlphabet b).
  assert (str_forall plain_ascii (b64_encode URLAlphabet b) = true) as Hp.
  { eapply str_forall_weaken; [apply url_digit_plain|]. apply b64_encode_digits. }
  rewrite TrimSpace_plain, utf16Len_plain by done. unfold strlen. by rewrite b64_length32.
Qed.

(** Resolving a token whose session entry is [e]. *)
Lemma ResolveUser_after up ctx (b : bytes tokenBytes) s uid t :
  let token := b64_encode URLAlphabet (proj1_sig b) in
  kv s !! SessionKey token = Some (FormatInt uid, Some t) -> int_ok 64 uid = true ->
  after up (ResolveUser ctx ("Bearer " +:+ token)) s (fun r _ =>
    r = (if now s <? t then Ok uid else Err (Forbidden "登录状态已失效")) \/ up = false /\ exists e, r = Err e).
Proof.
  cbv zeta. intros Hkv Hok. unfold ResolveUser. rewrite BearerToken_session. cbn [bind_ok bind call swp].
  intros x s' [_ [-> |[Hup [e ->]]]]; [|cbn [bind_ok bind swp]; right; by eauto].
  unfold live. rewrite Hkv, (Z.leb_antisym (now s) t). destruct (now s <? t); cbn [negb fmap option_fmap option_map fst bind_ok bind].
  - rewrite ParseInt_FormatInt by done. by left.
  - by left.
Qed.

Lemma ResolveUser_gone up ctx (b : bytes tokenBytes) s :
  let token := b64_encode URLAlphabet (proj1_sig b) in
  kv s !! SessionKey token = None ->
  after up (ResolveUser ctx ("Bearer " +:+ token)) s (fun r _ => exists e, r = Err e).
Proof.
  cbv zeta. intros Hkv. unfold ResolveUser. rewrite BearerToken_session. cbn [bind_ok bind call swp].
  intros x s' [_ [-> |[Hup [e ->]]]]; [|by eexists]. unfold live. rewrite Hkv. by eexists.
Qed.

Lemma CreateSession_after up ctx uid s :
  after up (CreateSession ctx uid) s (fun r s' =>
    forall token, r = Ok token ->
      exists (b : bytes tokenBytes) at_, token = b64_encode URLAlphabet (proj1_sig b) /\ now s <= at_ <= now s'
        /\ kv s' !! SessionKey token = Some (FormatInt uid, Some (at_ + sessionTTL))).
Proof.
  intros [b|e] s1 [_ Hs1]; cbn [bind_ok bind call swp]; [|done].
  intros x s2 [[-> [Hkv Hn]]|(_ & [e ->] & _)]; cbn [swp]; [|done].
  intros token [= <-]. exists b, (now s1). split; [done|]. split; [lia|]. by rewrite Hkv, lookup_insert_eq.
Qed.

(** C23. A session lives exactly as long as it should. The token a session was created with resolves to the user
    it was created for as long as its entry stands and 24 hours have not passed since it was issued, and to
    an expired login afterwards (an error of Redis apart); once it was revoked it resolves to nobody. *)
Theorem session_lifecycle (up : bool) (ctx : Context) (uid : Z) (s s1 : rstate) (token : string) :
  int_ok 64 uid = true ->
  runs up (CreateSession ctx uid) s (Ok token) s1 ->
  (exists issuedAt, now s <= issuedAt <= now s1
     /\ forall s2 r s3, kv s2 !! SessionKey token = kv s1 !! SessionKey token ->
          runs up (ResolveUser ctx ("Bearer " +:+ token)) s2 r s3 ->
          r = (if now s2 <? issuedAt + sessionTTL then Ok uid else Err (Forbidden "登录状态已失效"))
          \/ up = false /\ exists e, r = Err e)
  /\ (forall s2 s3 s4 r s5,
        runs up (RevokeSession ctx ("Bearer " +:+ token)) s2 (Ok tt) s3 ->
        kv s4 !! SessionKey token = kv s3 !! SessionKey token ->
        runs up (ResolveUser ctx ("Bearer " +:+ token)) s4 r s5 -> exists e, r = Err e).
Proof.
  intros Hok Hrun. destruct (swp_sruns _ _ _ _ _ _ (CreateSession_after up ctx uid s) Hrun token eq_refl)
    as (b & at_ & -> & Hat & Hkv). split.
  - exists at_. split; [done|]. intros s2 r s3 Heq Hres. rewrite Hkv in Heq.
    exact (swp_sruns _ _ _ _ _ _ (ResolveUser_after up ctx b s2 uid _ Heq Hok) Hres).
  - intros s2 s3 s4 r s5 Hrev Heq Hres.
    assert (kv s3 !! SessionKey (b64_encode URLAlphabet (proj1_sig b)) = None) as Hnone.
    { refine (swp_sruns _ _ _ (fun r s' => r = Ok tt -> kv s' !! SessionKey _ = None) _ _ _ Hrev eq_refl).
      unfold RevokeSession. rewrite BearerToken_session. cbn [bind_ok bind call swp].
      intros x s' [[-> [-> _]]|(_ & [e ->] & _)] Hx; [by apply lookup_delete_eq|done]. }
    rewrite Hnone in Heq. exact (swp_sruns _ _ _ _ _ _ (ResolveUser_gone up ctx b s4 Heq) Hres).
Qed.

(** *** Login throttling *)

(** The failure counter of an account. *)
Definition failures (s : rstate) (name : string) : option (string * option Z) := kv s !! (loginFailurePrefix +:+ name).

(** [k] wrong passwords in a row, each recorded without an error. *)
Inductive guesses (up : bool) (ctx : Context) (name : string) : nat -> rstate -> rstate -> Prop :=
| guesses_none s : guesses up ctx name 0 s s
| guesses_one k s s1 s2 : guesses up ctx name k s s1 -> runs up (recordLoginFailure ctx name) s1 (Ok tt) s2 ->
    guesses up ctx name (S k) s s2.

Definition unexpired (s : rstate) (t : option Z) : Prop := forall x, t = Some x -> now s < x.

Lemma live_unexpired s k v t : kv s !! k = Some (v, t) -> unexpired s t -> live s k = Some (v, t).
Proof.
  intros Hk Ht. unfold live. rewrite Hk. destruct t as [x|]; [|done]. specialize (Ht x eq_refl).
  by rewrite (proj2 (Z.leb_gt _ _)).
Qed.

(** The first failure starts the counter, and its window if Redis does not fail in between. *)
Lemma record_first up ctx name s :
  live s (loginFailurePrefix +:+ name) = None ->
  after up (recordLoginFailure ctx name) s (fun r s' => now s <= now s' /\ (r = Ok tt ->
    exists t, failures s' name = Some ("1", Some t) /\ now s + loginFailureWindow <= t <= now s' + loginFailureWindow)).
Proof.
  intros Hnone. unfold recordLoginFailure. cbn [bind_ok bind call swp redis]. rewrite Hnone.
  intros x s1 [[-> [Hkv Hn]]|(_ & [e ->] & [[_ Hn]|[_ Hn]])]; cbn [bind_ok bind swp]; [|by split..].
  change (1 =? 1) with true. cbn [call swp redis]. intros x s2.
  assert (kv s1 !! (loginFailurePrefix +:+ name) = Some ("1", None)) as Hk by by rewrite Hkv, lookup_insert_eq.
  rewrite (live_unexpired _ _ _ _ Hk) by done.
  intros [[-> [Hkv2 Hn2]]|(_ & [e ->] & [[_ Hn2]|[_ Hn2]])]; (split; [lia|]); [|done..].
  intros _. exists (now s1 + loginFailureWindow). unfold failures. rewrite Hkv2, lookup_insert_eq. split; [done|lia].
Qed.

(** Every further failure counts one more and leaves the window where it was. *)
Lemma record_next up ctx name s k t :
  failures s name = Some (FormatInt k, t) -> unexpired s t -> 1 <= k -> k + 1 < 2 ^ 63 ->
  after up (recordLoginFailure ctx name) s (fun r s' => now s <= now s' /\ (r = Ok tt ->
    failures s' name = Some (FormatInt (k + 1), t))).
Proof.
  intros Hf Ht Hk Hmax. unfold recordLoginFailure. cbn [bind_ok bind call swp redis].
  rewrite (live_unexpired _ _ _ _ Hf Ht).
  assert (int_ok 64 k = true /\ int_ok 64 (k + 1) = true) as [Hok Hok']
    by (unfold int_ok; rewrite !andb_true_iff, !Z.leb_le, !Z.ltb_lt; lia).
  rewrite ParseInt_FormatInt by done.
  intros x s1 [[_ [[-> [Hkv Hn]]|(_ & [e ->] & [[_ Hn]|[_ Hn]])]]|(_ & ? & _)]; [|cbn; by split..|congruence].
  cbn [bind_ok bind]. rewrite (proj2 (Z.eqb_neq (k + 1) 1)) by lia. cbn [swp]. split; [done|].
  intros _. unfold failures. by rewrite Hkv, lookup_insert_eq.
Qed.

(** Time does not go back. *)
Lemma redis_monotone up X (c : AuthE X) s x s' : redis up X c s x s' -> now s <= now s'.
Proof.
  unfold redis, later, wrote, removed. destruct c; try (intuition lia);
    repeat match goal with |- context [match ?x with _ => _ end] => destruct x end; intuition lia.
Qed.

Lemma record_monotone up ctx name s r s' : runs up (recordLoginFailure ctx name) s r s' -> now s <= now s'.
Proof.
  refine (swp_sruns _ _ _ (fun _ s' => now s <= now s') _ _ _).
  apply (swp_invariant _ (fun s' => now s <= now s')); [|unfold recordLoginFailure; by wp_go|lia].
  intros X c s0 x s0' Hc%redis_monotone. lia.
Qed.

(** A counter without a window only grows. *)
Lemma guesses_forever up ctx name k s s' n :
  guesses up ctx name k s s' -> failures s name = Some (FormatInt n, None) -> 1 <= n -> n + Z.of_nat k < 2 ^ 63 ->
  failures s' name = Some (FormatInt (n + Z.of_nat k), None).
Proof.
  intros Hg Hf Hn Hmax. induction Hg as [s|k s s1 s2 Hg IH Hrun]; [by rewrite Z.add_0_r|].
  specialize (IH Hf ltac:(lia)).
  destruct (swp_sruns _ _ _ _ _ _ (record_next up ctx name s1 _ None IH ltac:(done) ltac:(lia) ltac:(lia)) Hrun) as [_ Hnext].
  rewrite (Hnext eq_refl). do 3 f_equal. lia.
Qed.

(** Guesses against an account whose counter starts anew. *)
Lemma guesses_entry up ctx name k s s' :
  guesses up ctx name k s s' -> live s (loginFailurePrefix +:+ name) = None -> 1 <= Z.of_nat k < 2 ^ 63 ->
  exists n t, failures s' name = Some (FormatInt n, Some t) /\ 1 <= n <= Z.of_nat k /\ t <= now s' + loginFailureWindow
    /\ (now s' < now s + loginFailureWindow -> n = Z.of_nat k /\ now s + loginFailureWindow <= t).
Proof.
  intros Hg Hnone. induction Hg as [s|k s s1 s2 Hg IH Hrun]; intros Hk; [lia|].
  assert (live s1 (loginFailurePrefix +:+ name) = None \/ exists n t, failures s1 name = Some (FormatInt n, Some t)
    /\ now s1 < t /\ 1 <= n <= Z.of_nat k /\ (now s1 < now s + loginFailureWindow -> n = Z.of_nat k /\ now s + loginFailureWindow <= t)
    /\ t <= now s1 + loginFailureWindow) as [Hl|(n & t & Hf & Ht & Hn & Hwin & Hub)].
  { destruct k as [|k]; [left; by inversion Hg; subst|].
    destruct IH as (n & t & Hf & Hn & Hub & Hwin); [done|lia|].
    destruct (Z.lt_ge_cases (now s1) t); [right; exists n, t; auto|].
    left. unfold failures in Hf. unfold live. rewrite Hf. by rewrite (proj2 (Z.leb_le _ _)). }
  - destruct (swp_sruns _ _ _ _ _ _ (record_first up ctx name s1 Hl) Hrun) as [Hmono Hfirst].
    destruct (Hfirst eq_refl) as (t & Hf & Ht). exists 1, t. split; [done|]. split; [lia|]. split; [lia|]. intros Hw.
    destruct k as [|k]; [inversion Hg; subst; split; lia|].
    exfalso. destruct IH as (n & t0 & Hf0 & Hn0 & _ & Hwin0); [done|lia|].
    destruct (Hwin0 ltac:(lia)) as [_ Ht0]. unfold failures in Hf0. unfold live in Hl. rewrite Hf0 in Hl.
    by rewrite (proj2 (Z.leb_gt _ _)) in Hl by lia.
  - assert (unexpired s1 (Some t)) as Hun by (intros x [= <-]; lia).
    destruct (swp_sruns _ _ _ _ _ _ (record_next up ctx name s1 n _ Hf Hun ltac:(lia) ltac:(lia)) Hrun) as [Hmono Hnext].
    exists (n + 1), t. split; [by apply Hnext|]. split; [lia|]. split; [lia|]. intros Hw. destruct (Hwin ltac:(lia)). lia.
Qed.

Lemma LoginAttemptAllowed_after up ctx name s n t :
  failures s name = Some (FormatInt n, t) -> int_ok 64 n = true ->
  after up (LoginAttemptAllowed ctx name) s (fun r _ =>
    (unexpired s t -> r = Ok (n <? maxLoginFailures) \/ up = false /\ exists e, r = Err e)
    /\ (forall x, t = Some x -> x <= now s -> r = Ok true \/ up = false /\ exists e, r = Err e)).
Proof.
  intros Hf Hok. unfold LoginAttemptAllowed. cbn [bind_ok bind call swp redis].
  intros x s' [_ [-> |[Hup [e ->]]]]; [|cbn [bind_ok bind swp]; split; right; by eauto].
  unfold failures in Hf. unfold live. rewrite Hf. destruct t as [x|]; [destruct (Z.leb_spec x (now s))|];
    cbn [fmap option_fmap option_map fst bind_ok bind]; rewrite ?ParseInt_FormatInt by done; cbn [swp].
  - split; [|by left]. intros Ht. specialize (Ht x eq_refl). lia.
  - split; [by left|]. intros y [= <-] Hy. lia.
  - split; [by left|done].
Qed.

(** C24. The throttle counts wrong passwords and forgets them. After [k] recorded failures, starting from no
    counter, a further attempt is allowed exactly when [k] is below 8, as long as the window of ten minutes
    that the first of them opened has not passed; ten minutes after the last of them it is allowed again
    (an error of Redis apart). *)
Theorem login_throttle (up : bool) (ctx : Context) (name : string) (k : nat) (s s1 s2 s3 : rstate) (r : res bool) :
  1 <= Z.of_nat k < 2 ^ 63 -> live s (loginFailurePrefix +:+ name) = None ->
  guesses up ctx name k s s1 -> now s1 <= now s2 -> failures s2 name = failures s1 name ->
  runs up (LoginAttemptAllowed ctx name) s2 r s3 ->
  (now s2 < now s + loginFailureWindow -> r = Ok (Z.of_nat k <? maxLoginFailures) \/ up = false /\ exists e, r = Err e)
  /\ (now s1 + loginFailureWindow <= now s2 -> r = Ok true \/ up = false /\ exists e, r = Err e).
Proof.
  intros Hk Hnone Hg Hle Heq Hrun.
  destruct (guesses_entry _ _ _ _ _ _ Hg Hnone Hk) as (n & t & Hf & Hn & Hub & Hwin). rewrite Hf in Heq.
  assert (int_ok 64 n = true) as Hok by (unfold int_ok; rewrite andb_true_iff, Z.leb_le, Z.ltb_lt; lia).
  destruct (swp_sruns _ _ _ _ _ _ (LoginAttemptAllowed_after up ctx name s2 n _ Heq Hok) Hrun) as [Hlive Hgone]. split.
  - intros Hw. destruct (Hwin ltac:(lia)) as [-> Ht]. apply Hlive. intros x [= <-]. lia.
  - intros Hw. apply (Hgone t eq_refl). lia.
Qed.

(** One guess, against a Redis that is up from now on and a counter without a window. *)
Lemma guess_run up ctx name s n :
  failures s name = Some (FormatInt n, None) -> 1 <= n -> n + 1 < 2 ^ 63 ->
  exists s', runs up (recordLoginFailure ctx name) s (Ok tt) s'.
Proof.
  intros Hf Hn Hmax.
  assert (int_ok 64 n = true /\ int_ok 64 (n + 1) = true) as [Hok Hok']
    by (unfold int_ok; rewrite !andb_true_iff, !Z.leb_le, !Z.ltb_lt; lia).
  exists (mkRState (<[loginFailurePrefix +:+ name := (FormatInt (n + 1), None)]> (kv s)) (now s)).
  unfold recordLoginFailure. apply (sruns_do _ _ _ _ _ (Ok (n + 1)) (mkRState (<[loginFailurePrefix +:+ name := (FormatInt (n + 1), None)]> (kv s)) (now s))).
  - cbn [redis]. rewrite (live_unexpired _ _ _ _ Hf) by done. rewrite ParseInt_FormatInt by done.
    left. split; [done|]. left. split; [done|]. split; [done|]. cbn. lia.
  - rewrite (proj2 (Z.eqb_neq (n + 1) 1)) by lia. constructor.
Qed.

Lemma guesses_run up ctx name k s n :
  failures s name = Some (FormatInt n, None) -> 1 <= n -> n + Z.of_nat k < 2 ^ 63 ->
  exists s', guesses up ctx name k s s'.
Proof.
  intros Hf Hn Hmax. induction k as [|k IH]; [exists s; constructor|].
  destruct IH as [s1 Hg]; [lia|]. pose proof (guesses_forever _ _ _ _ _ _ _ Hg Hf Hn ltac:(lia)) as Hf1.
  destruct (guess_run up ctx name s1 _ Hf1) as [s2 Hrun]; [lia..|]. exists s2. by econstructor.
Qed.

(** When setting the window fails after the first failure was counted, the counter stays without one: seven
    more wrong passwords, at any time, and the account is refused for ever - no later attempt is allowed,
    however long one waits. *)
Theorem lockout_without_window (ctx : Context) (name : string) (s : rstate) :
  live s (loginFailurePrefix +:+ name) = None ->
  exists e s1 s8, runs false (recordLoginFailure ctx name) s (Err e) s1
    /\ guesses true ctx name 7 s1 s8
    /\ forall up s2 r s3, failures s2 name = failures s8 name ->
         runs up (LoginAttemptAllowed ctx name) s2 r s3 -> r <> Ok true.
Proof.
  intros Hnone. set (e := OtherErr "i/o timeout" None None).
  set (s1 := mkRState (<[loginFailurePrefix +:+ name := ("1", None)]> (kv s)) (now s)).
  assert (failures s1 name = Some (FormatInt 1, None)) as Hf1 by (unfold failures, s1; cbn [kv]; by rewrite lookup_insert_eq).
  destruct (guesses_run true ctx name 7 s1 1 Hf1) as [s8 Hg]; [lia..|].
  exists e, s1, s8. split; [|split; [done|]].
  - unfold recordLoginFailure. apply (sruns_do _ _ _ _ _ (Ok 1) s1).
    + cbn [redis]. rewrite Hnone. left. split; [done|]. split; [done|]. cbn. lia.
    + apply (sruns_do _ _ _ _ _ (Err e) s1); [|constructor].
      cbn [redis]. rewrite (live_unexpired _ _ _ _ Hf1) by done. right. split; [done|]. split; [by exists e|].
      left. split; [done|]. lia.
  - intros up s2 r s3 Heq Hrun. pose proof (guesses_forever _ _ _ _ _ _ _ Hg Hf1 ltac:(lia) ltac:(lia)) as Hf8.
    rewrite Hf8 in Heq.
    destruct (swp_sruns _ _ _ _ _ _ (LoginAttemptAllowed_after up ctx name s2 _ _ Heq eq_refl) Hrun) as [Hlive _].
    destruct (Hlive ltac:(done)) as [-> |[_ [e' ->]]]; discriminate.
Qed.

End service.

(** ** Examples *)

Module Example.

#[local] Existing Instance example_pbkdf2.

(** Stand-ins for the digest and the table, and an open registration. *)
#[local] Instance digest : Sha256Sum := fun s => s.
#[local] Instance table : PrintTable := fun _ => true.
#[local] Instance invite : InviteConfig := "".

Definition random : bytes tokenBytes := exist _ "0123456789abcdef0123456789ABCDEF" eq_refl.
Definition token : string := b64_encode URLAlphabet (proj1_sig random).
Definition start : rstate := mkRState ∅ 0.
Definition signed_in : rstate := mkRState {[SessionKey token := ("7", Some sessionTTL)]} 0.

Lemma signed_in_run : sruns (redis true) (CreateSession Background 7) start (Ok token) signed_in.
Proof.
  apply (sruns_do _ _ _ _ _ (Ok random) start); [split; [done|cbn; lia]|].
  apply (sruns_do _ _ _ _ _ (Ok tt) signed_in); [left; split; [done|split; [reflexivity|cbn; lia]]|]. constructor.
Qed.

Lemma session_lifecycle_witness :
  int_ok 64 7 = true /\ sruns (redis true) (CreateSession Background 7) start (Ok token) signed_in
  /\ forall r s, sruns (redis true) (ResolveUser Background ("Bearer " +:+ token)) signed_in r s -> r = Ok 7.
Proof.
  split; [reflexivity|]. split; [apply signed_in_run|]. intros r s Hrun.
  destruct (session_lifecycle true Background 7 start signed_in token eq_refl signed_in_run) as [(at_ & Hat & Hres) _].
  cbn [now start signed_in] in Hat. assert (at_ = 0) as -> by lia.
  destruct (Hres signed_in r s eq_refl Hrun) as [-> |[? _]]; [reflexivity|discriminate].
Defined.

Definition counted_state (n : Z) : rstate := mkRState {[loginFailurePrefix +:+ "alice" := (FormatInt n, Some loginFailureWindow)]} 0.

Lemma one_guess : guesses true Background "alice" 1 start (counted_state 1).
Proof.
  apply (guesses_one _ _ _ 0 _ start); [constructor|]. unfold recordLoginFailure.
  apply (sruns_do _ _ _ _ _ (Ok 1) (mkRState {[loginFailurePrefix +:+ "alice" := ("1", None)]} 0)).
  - left. split; [done|]. split; [reflexivity|cbn; lia].
  - apply (sruns_do _ _ _ _ _ (Ok tt) (counted_state 1)); [|constructor].
    left. split; [done|]. split; [vm_compute; reflexivity|cbn; lia].
Qed.

Lemma login_throttle_witness :
  guesses true Background "alice" 1 start (counted_state 1)
  /\ forall r s, sruns (redis true) (LoginAttemptAllowed Background "alice") (counted_state 1) r s -> r = Ok true.
Proof.
  split; [apply one_guess|]. intros r s Hrun.
  destruct (login_throttle true Background "alice" 1 start (counted_state 1) (counted_state 1) s r
    ltac:(lia) eq_refl one_guess ltac:(lia) eq_refl Hrun) as [Hin _].
  destruct (Hin ltac:(cbn; unfold loginFailureWindow, minute, second, millisecond; lia)) as [-> |[? _]]; [reflexivity|discriminate].
Defined.

Lemma lockout_without_window_witness :
  exists e s1 s8, sruns (redis false) (recordLoginFailure Background "alice") start (Err e) s1
    /\ guesses true Background "alice" 7 s1 s8
    /\ forall up s2 r s3, failures s2 "alice" = failures s8 "alice" ->
         sruns (redis up) (LoginAttemptAllowed Background "alice") s2 r s3 -> r <> Ok true.
Proof. apply (lockout_without_window Background "alice" start). reflexivity. Defined.

End Example.
