(* ===== verification/AccountTable.v ===== *)
(** * Accounts over the users table

    The programs of Auth.v with their account calls done by [UsersRepo] (repo.go) against the tables, beside
    the Redis keyspace of Auth.v.  The unique key on the account name is what keeps two registrations apart,
    and it compares names under the collation of the column, which ignores case.  [Register] is proved
    alone against the table, and in any number of copies that race for names. *)

From S2P Require Import Gorm Repo UsersRepo.
From S2P Require Import Prelude GoStrings Proc Errors Model GoContext Collation Base64 Password Auth Concurrent.
Import Gorm(database, committed, pending, nextId, history, tb_users, DbE).

Local Open Scope string_scope.
Local Open Scope list_scope.
Local Open Scope Z_scope.

(** The repository method behind a call. *)
Definition accountCall (X : Type) (c : AuthE X) : option (proc DbE X) :=
  match c in AuthE X return option (proc DbE X) with
  | ACount ctx username => Some (UsersRepo.Count ctx username)
  | ACreate ctx u => Some (UsersRepo.Create ctx u)
  | AFindByUsername ctx username => Some (UsersRepo.FindByUsername ctx username)
  | AFindByID ctx id => Some (UsersRepo.FindByID ctx id)
  | AUpdatePassword ctx id hashed => Some (UsersRepo.UpdatePassword ctx id hashed)
  | _ => None
  end.

Record accounts := mkAccounts { ac_db : database; ac_redis : rstate }.

Definition users (a : accounts) : list User := tb_users (committed (ac_db a)).

Section accounts.
Context `{Collation} (up : bool).

Definition serveAccounts (X : Type) (c : AuthE X) (a : accounts) (x : X) (a' : accounts) : Prop :=
  match accountCall X c with
  | Some p => sruns Gorm.gorm p (ac_db a) x (ac_db a') /\ ac_redis a' = ac_redis a
  | None => redis up X c (ac_redis a) x (ac_redis a') /\ ac_db a' = ac_db a
  end.

(** No two rows have the same id or collating names, and new ids are larger than all of them. *)
Record distinctUsers (d : database) : Prop := mkDistinct {
  du_open : pending d = None;
  du_keys : forall i j u v, tb_users (committed d) !! i = Some u -> tb_users (committed d) !! j = Some v ->
    Gorm.sameKey Gorm.Users u v = true -> i = j;
  du_next : forall u, u ∈ tb_users (committed d) -> u_ID u < nextId d Gorm.Users }.

Lemma sameKey_sym (u v : User) : Gorm.sameKey Gorm.Users u v = Gorm.sameKey Gorm.Users v u.
Proof. cbn. by rewrite Z.eqb_sym, collates_sym. Qed.

(** *** Creating a row *)

(** The row [Create] stores. *)
Definition newUser (d : database) (u : User) : User :=
  if u_ID u =? 0 then mkUser (nextId d Gorm.Users) (u_Username u) (u_Password u) (u_Nickname u) (u_Avatar u) (u_Role u) else u.

Definition taken (d : database) (u : User) : bool :=
  existsb (Gorm.sameKey Gorm.Users (newUser d u)) (tb_users (committed d)).

Definition withUser (d : database) (u : User) : database :=
  Gorm.useId Gorm.Users (u_ID (newUser d u))
    (Gorm.write d (Gorm.put Gorm.Users (tb_users (committed d) ++ [newUser d u]) (committed d))).

Lemma stored_user d (u : User) : Gorm.stored Gorm.Users Gorm.db d u = newUser d u.
Proof.
  unfold Gorm.stored, newUser. change (Gorm.toInt (Gorm.column Gorm.Users u "id")) with (u_ID u).
  cbn [Gorm.autoIncrement andb Gorm.q_omit Gorm.db]. destruct (u_ID u =? 0); [|done]. by destruct u as [? ? ? ? [?|] ?].
Qed.

Lemma inserted_user d u : pending d = None ->
  Gorm.inserted Gorm.Users Gorm.db d (newUser d u)
  = if taken d u then None else Some (Gorm.put Gorm.Users (tb_users (committed d) ++ [newUser d u]) (committed d)).
Proof. intros Ho. unfold Gorm.inserted. rewrite Gorm.view_open by done. unfold taken. cbn [Gorm.rows]. by destruct (existsb _ _). Qed.

Lemma Create_swp ctx u d (Q : res Z -> database -> Prop) :
  pending d = None ->
  (taken d u = true -> forall e, e = Repo.errDuplicate \/ IsSentinel e ErrDuplicate = false ->
     forall d', d' = d \/ d' = Gorm.useId Gorm.Users (u_ID (newUser d u)) d -> Q (Err e) d') ->
  (taken d u = false -> Q (Ok (u_ID (newUser d u))) (withUser d u)) ->
  (taken d u = false -> forall e d', IsSentinel e ErrDuplicate = false -> d' = d \/ d' = withUser d u -> Q (Err e) d') ->
  swp Gorm.gorm (UsersRepo.Create ctx u) d Q.
Proof.
  intros Ho Ht Hn He. unfold UsersRepo.Create. cbn [swp Gorm.gorm]. intros x d'. rewrite stored_user, inserted_user by done.
  change (Gorm.toInt (Gorm.column Gorm.Users (newUser d u) "id")) with (u_ID (newUser d u)).
  destruct (taken d u).
  - intros [Hd (e & -> & He')].
    assert (d' = d \/ d' = Gorm.useId Gorm.Users (u_ID (newUser d u)) d) as Hd' by (by in_cases Hd; auto).
    destruct He' as [->|(H1 & H2 & H3)].
    + cbn [swp]. apply Ht; auto.
    + rewrite H2. cbn [swp]. apply Ht; auto.
  - unfold Gorm.changes. destruct x as [a|e].
    + intros [-> ->]. cbn [swp]. by apply Hn.
    + intros [(H1 & H2 & H3) Hd]. rewrite H2. cbn [swp]. apply He; [done|done|].
      rewrite !elem_of_cons, elem_of_nil in Hd. destruct Hd as [->|[->|[->|[]]]]; [by left|by right|left].
      destruct d. cbn in *. by subst.
Qed.

Lemma distinct_withUser d u : distinctUsers d -> taken d u = false -> distinctUsers (withUser d u).
Proof.
  intros [Ho Hk Hn] Ht. unfold withUser. rewrite Gorm.write_open by done. split; cbn.
  - done.
  - assert (forall v, v ∈ tb_users (committed d) -> Gorm.sameKey Gorm.Users (newUser d u) v = false) as Hfree.
    { intros v Hv. unfold taken in Ht. apply not_true_iff_false. intros E. apply not_true_iff_false in Ht. apply Ht.
      apply existsb_exists. exists v. split; [by apply list_elem_of_In|done]. }
    intros i j v w Hi Hj Hkey. apply lookup_app_Some in Hi as [Hi|[Hli Hi]], Hj as [?|[Hlj Hj]].
    + by eapply Hk.
    + apply list_lookup_singleton_Some in Hj as [_ <-]. change (Gorm.sameKey Gorm.Users v (newUser d u) = true) in Hkey.
      rewrite sameKey_sym, Hfree in Hkey; [done|]. by eapply list_elem_of_lookup_2.
    + apply list_lookup_singleton_Some in Hi as [_ <-]. change (Gorm.sameKey Gorm.Users (newUser d u) w = true) in Hkey.
      rewrite Hfree in Hkey; [done|]. by eapply list_elem_of_lookup_2.
    + apply list_lookup_singleton_Some in Hi as [? _], Hj as [? _]. lia.
  - intros v [Hv|Hv]%elem_of_app; [specialize (Hn v Hv); lia|]. apply list_elem_of_singleton in Hv as ->. lia.
Qed.

Lemma distinct_useId d id : distinctUsers d -> distinctUsers (Gorm.useId Gorm.Users id d).
Proof. intros [Ho Hk Hn]. split; cbn; [done|done|]. intros v Hv. specialize (Hn v Hv). lia. Qed.

(** *** Changing a password *)

Lemma assign_password h (u : User) :
  u_ID (Gorm.assign Gorm.Users [("password", Gorm.VStr h)] u) = u_ID u
  /\ u_Username (Gorm.assign Gorm.Users [("password", Gorm.VStr h)] u) = u_Username u.
Proof. done. Qed.

Definition repassword (d : database) (id : Z) (h : string) : database :=
  Gorm.write d (Gorm.put Gorm.Users (Gorm.updated Gorm.Users (Gorm.Where "id" (Gorm.VInt id) Gorm.db)
    [("password", Gorm.VStr h)] (tb_users (committed d))) (committed d)).

Lemma distinct_repassword d id h : distinctUsers d -> distinctUsers (repassword d id h).
Proof.
  intros [Ho Hk Hn]. unfold repassword. rewrite Gorm.write_open by done.
  set (f := fun u : User => if Gorm.satisfies Gorm.Users (Gorm.Where "id" (Gorm.VInt id) Gorm.db) u
                            then Gorm.assign Gorm.Users [("password", Gorm.VStr h)] u else u).
  assert (forall u, u_ID (f u) = u_ID u /\ u_Username (f u) = u_Username u) as Hf by (intros u; unfold f; by case_match).
  change (Gorm.updated _ _ _ _) with (f <$> tb_users (committed d)). clearbody f.
  split; cbn; [done| |].
  - intros i j u v Hi Hj. rewrite list_lookup_fmap in Hi, Hj.
    apply fmap_Some in Hi as (u0 & Hi & ->), Hj as (v0 & Hj & ->).
    destruct (Hf u0) as [-> ->], (Hf v0) as [-> ->]. by apply Hk.
  - intros u (u0 & -> & Hu)%list_elem_of_fmap. destruct (Hf u0) as [-> _]. by apply Hn.
Qed.

Lemma UpdatePassword_swp ctx id h d :
  pending d = None ->
  swp Gorm.gorm (UsersRepo.UpdatePassword ctx id h) d (fun x d' =>
    d' = repassword d id h \/ d' = d /\ x <> Ok tt).
Proof.
  intros Ho. unfold UsersRepo.UpdatePassword. cbn [swp Gorm.gorm]. intros x d'. rewrite Gorm.view_open by done.
  unfold Gorm.changes. destruct x as [n|e]; cbn [Repo.onlyError].
  - intros [_ ->]. by left.
  - intros [_ Hd]. rewrite !elem_of_cons, elem_of_nil in Hd. destruct Hd as [->|[->|[->|[]]]]; [by right|by left|right].
    split; [|done]. destruct d. cbn in *. by subst.
Qed.

(** *** Looking a name up *)

Definition spelled (name : string) (u : User) : bool := collates (u_Username u) name.

Lemma byName_satisfies name (u : User) n :
  Gorm.satisfies Gorm.Users (Gorm.Limit n (Gorm.Where "username" (Gorm.VStr name) Gorm.db)) u = spelled name u.
Proof. unfold Gorm.satisfies. cbn. apply andb_true_r. Qed.

Lemma Count_swp ctx name d :
  pending d = None ->
  swp Gorm.gorm (UsersRepo.Count ctx name) d (fun x d' => d' = d /\
    forall n, x = Ok n -> n = Z.of_nat (length (List.filter (spelled name) (tb_users (committed d))))).
Proof.
  intros Ho. unfold UsersRepo.Count, call. cbn [swp Gorm.gorm]. unfold Gorm.reads. rewrite Gorm.view_open by done.
  intros x d' [-> Hx]. split; [done|]. intros n ->. rewrite Hx. unfold Gorm.matching.
  do 2 f_equal. apply filter_ext. intros u. apply (byName_satisfies name u 0).
Qed.

Lemma FindByUsername_swp ctx name d :
  pending d = None ->
  swp Gorm.gorm (UsersRepo.FindByUsername ctx name) d (fun x d' => d' = d /\
    match x with
    | Ok (Some u) => u ∈ tb_users (committed d) /\ spelled name u = true
    | Ok None => forall u, u ∈ tb_users (committed d) -> spelled name u = false
    | Err e => IsSentinel e ErrRecordNotFound = false
    end).
Proof.
  intros Ho. unfold UsersRepo.FindByUsername. cbn [swp Gorm.gorm]. rewrite Gorm.view_open by done.
  intros x d' [-> Hx]. split; [done|]. destruct x as [r|e].
  - destruct Hx as (u & [Hin Hs]%Gorm.elem_of_matching & ->). rewrite byName_satisfies in Hs. cbn. done.
  - destruct Hx as [[-> Hnil]|(He & _)]; cbn [Repo.orNil IsSentinel].
    + intros u Hu. apply not_true_iff_false. intros Hs. rewrite <- (byName_satisfies name u 1) in Hs.
      pose proof (proj2 (Gorm.elem_of_matching Gorm.Users _ _ u) (conj Hu Hs)) as Hin. rewrite Hnil in Hin. inversion Hin.
    + by rewrite He.
Qed.

(** *** Any program *)

(** Rows stay, with their ids, names and roles. *)
Definition keeps (a a' : accounts) : Prop :=
  forall u, u ∈ users a -> exists u', u' ∈ users a' /\ u_ID u' = u_ID u /\ u_Username u' = u_Username u /\ u_Role u' = u_Role u.

#[export] Instance keeps_preorder : PreOrder keeps.
Proof.
  split; [intros a u Hu; eauto|]. intros a1 a2 a3 K1 K2 u Hu. destruct (K1 u Hu) as (v & Hv & E1 & E2 & E3).
  destruct (K2 v Hv) as (w & Hw & E4 & E5 & E6). exists w. split_and!; congruence.
Qed.

Lemma keeps_same a a' : users a' = users a -> keeps a a'.
Proof. intros E u Hu. exists u. by rewrite E. Qed.

Lemma keeps_withUser a u r : pending (ac_db a) = None -> keeps a (mkAccounts (withUser (ac_db a) u) r).
Proof.
  intros Ho v Hv. exists v. split; [|done]. unfold users, withUser. rewrite Gorm.write_open by done. cbn.
  apply elem_of_app. by left.
Qed.

Lemma keeps_repassword a id h r : pending (ac_db a) = None -> keeps a (mkAccounts (repassword (ac_db a) id h) r).
Proof.
  intros Ho u Hu. unfold users, repassword. rewrite Gorm.write_open by done. cbn.
  eexists. split; [apply list_elem_of_fmap; by exists u|]. by case_match.
Qed.

Lemma serveAccounts_keeps X (c : AuthE X) a x a' :
  serveAccounts X c a x a' -> distinctUsers (ac_db a) -> distinctUsers (ac_db a') /\ keeps a a'.
Proof.
  unfold serveAccounts. intros Hc Hd. destruct a' as [d' r']. destruct (accountCall X c) as [p|] eqn:Ep.
  2: { destruct Hc as [_ Ed]. cbn in Ed. subst d'. split; [done|by apply keeps_same]. }
  destruct Hc as [Hr _]. pose proof (du_open _ Hd) as Ho. cbn in Hr |- *.
  assert (forall d', d' = ac_db a -> distinctUsers d' /\ keeps a (mkAccounts d' r')) as Hsame.
  { intros d0 ->. split; [done|by apply keeps_same]. }
  assert (forall u, taken (ac_db a) u = false ->
    distinctUsers (withUser (ac_db a) u) /\ keeps a (mkAccounts (withUser (ac_db a) u) r')) as Hadd.
  { intros u Ht. split; [by apply distinct_withUser|by apply keeps_withUser]. }
  destruct c; try done; injection Ep as <-; by_run Hr.
  - eapply swp_mono; [by apply Count_swp|]. intros ? ? [-> _]. by apply Hsame.
  - apply Create_swp; [done|..].
    + intros _ e _ d0 [->| ->]; [by apply Hsame|]. split; [by apply distinct_useId|by apply keeps_same].
    + auto.
    + intros Ht e d0 _ [->| ->]; auto.
  - eapply swp_mono; [by apply FindByUsername_swp|]. intros ? ? [-> _]. by apply Hsame.
  - unfold UsersRepo.FindByID. cbn [swp Gorm.gorm]. intros ? ? [-> _]. by apply Hsame.
  - eapply swp_mono; [by apply UpdatePassword_swp|]. intros r d1 [->|[-> _]]; [|by apply Hsame].
    split; [by apply distinct_repassword|by apply keeps_repassword].
Qed.

(** ** Registration *)

Section register.
Context `{Pbkdf2, Sha256Sum, PrintTable, InviteConfig}.

(** A call to Redis, the random source or the clock, with what follows it. *)
Lemma swp_elsewhere {A X} (c : AuthE X) (k : X -> proc AuthE A) a (Q : A -> accounts -> Prop) :
  accountCall X c = None -> (forall x a', ac_db a' = ac_db a -> swp serveAccounts (k x) a' Q) ->
  swp serveAccounts (Do c k) a Q.
Proof. intros Hn Hk x a' Hc. unfold serveAccounts in Hc. rewrite Hn in Hc. by apply Hk, Hc. Qed.

(** A call to the repository, with what follows it. *)
Lemma swp_account {A X} (c : AuthE X) (k : X -> proc AuthE A) p a (Q : A -> accounts -> Prop) :
  accountCall X c = Some p ->
  swp Gorm.gorm p (ac_db a) (fun x d' => swp serveAccounts (k x) (mkAccounts d' (ac_redis a)) Q) ->
  swp serveAccounts (Do c k) a Q.
Proof.
  intros Hs Hk x a' Hc. unfold serveAccounts in Hc. rewrite Hs in Hc. destruct Hc as [Hr Hred].
  destruct a' as [d' r']. cbn in Hr, Hred. subst r'. exact (swp_sruns _ _ _ _ _ _ Hk Hr).
Qed.

(** The new row of a registration under [name]. *)
Definition addedOne (name : string) (a a' : accounts) : Prop :=
  exists u, users a' = users a ++ [u] /\ u_Username u = name /\ u_Role u = "USER".

Definition registered (name : string) (a : accounts) (r : res AuthResponse) (a' : accounts) : Prop :=
  match r with
  | Ok resp =>
      as_Code resp = 200 /\ addedOne name a a' /\ (forall v, v ∈ users a -> spelled name v = false)
      \/ as_Code resp = 409 /\ users a' = users a /\ (exists v, v ∈ users a /\ spelled name v = true)
      \/ as_Code resp <> 200 /\ as_Code resp <> 409 /\ users a' = users a
  | Err _ => users a' = users a \/ addedOne name a a'
  end.

Lemma create_registered ctx name hashed nickname a :
  distinctUsers (ac_db a) ->
  swp serveAccounts
    (Do (ACreate ctx (mkUser 0 name hashed nickname None "USER")) (fun created =>
       match created with
       | Err e =>
           if IsSentinel e ErrDuplicate then Ret (Ok (response 409 "该账号已存在" None ""))
           else Ret (Err e)
       | Ok id => Ret (Ok (response 200 "注册成功" (Some (userView (mkUser id name hashed nickname None "USER"))) ""))
       end)) a (registered name a).
Proof.
  intros Hd. set (u := mkUser 0 name hashed nickname None "USER").
  assert (taken (ac_db a) u = existsb (spelled name) (users a)) as Htk.
  { unfold taken, users. apply eq_iff_eq_true. rewrite !existsb_exists. split; intros (v & Hv & E); exists v; (split; [done|]).
    - cbn in E. apply orb_prop in E as [E%Z.eqb_eq|E]; [|unfold spelled; by rewrite collates_sym].
      apply list_elem_of_In in Hv. pose proof (du_next _ Hd v Hv). lia.
    - cbn. apply orb_true_iff. right. unfold spelled in E. by rewrite collates_sym. }
  assert (addedOne name a (mkAccounts (withUser (ac_db a) u) (ac_redis a))) as Hadd.
  { exists (newUser (ac_db a) u). split; [|done]. unfold users, withUser. rewrite Gorm.write_open by apply Hd. done. }
  eapply swp_account; [reflexivity|]. apply Create_swp; [apply Hd|..]; rewrite Htk.
  - intros (v & Hv%list_elem_of_In & Hs)%existsb_exists e He d' Hd'.
    assert (users (mkAccounts d' (ac_redis a)) = users a) as Hu by (by destruct Hd' as [->| ->]).
    destruct (IsSentinel e ErrDuplicate); cbn [swp registered].
    + right; left. split; [done|]. split; [done|]. by exists v.
    + by left.
  - intros Hn. cbn [swp registered]. left. split; [done|]. split; [done|]. intros v Hv.
    apply not_true_iff_false. intros Hs. apply not_true_iff_false in Hn. apply Hn, existsb_exists.
    exists v. split; [by apply list_elem_of_In|done].
  - intros _ e d' -> Hd'. cbn [swp registered]. destruct Hd' as [->| ->]; [by left|by right].
Qed.

(** What a registration does to the table. It answers 200 exactly when it added its row - one ordinary user
    under the requested name, where no row spelled that name before - and 409 exactly when some row already
    spells it (in whatever case), leaving the table alone, as does every other refusal. When it reports an
    error the row may have been added all the same, and a retry is then answered 409. *)
Theorem Register_table (ctx : Context) (req : AuthRequest) (a : accounts) :
  distinctUsers (ac_db a) ->
  swp serveAccounts (Register ctx req) a (registered (fst (normalizeUsername (ar_Username req))) a).
Proof.
  intros Hd. unfold Register. destruct (_ && _); [by right; right|].
  destruct (normalizeUsername (ar_Username req)) as [name ok]. cbn [fst].
  destruct (_ || _); [by right; right|].
  destruct (normalizeNickname (ar_Nickname req)) as [nickname ok']. destruct (negb ok'); [by right; right|].
  unfold bind_ok, call. cbn [bind].
  eapply swp_account; [reflexivity|]. eapply swp_mono; [apply Count_swp, Hd|].
  intros [n|e] d' [-> Hn]; [|by left]. specialize (Hn n eq_refl). destruct (Z.ltb_spec 0 n) as [Hpos|Hz].
  - right; left. split; [done|]. split; [done|]. unfold users. destruct (List.filter _ _) as [|v l] eqn:Ef; [cbn in Hn; lia|].
    exists v. apply Gorm.elem_of_filterb. rewrite Ef. apply list_elem_of_here.
  - assert (forall nickname a0, ac_db a0 = ac_db a -> swp serveAccounts
      (bind (HashPassword (deref (ar_Password req))) (fun r => match r with
         | Ok hashed => Do (ACreate ctx (mkUser 0 name hashed nickname None "USER")) (fun created =>
             match created with
             | Err e => if IsSentinel e ErrDuplicate then Ret (Ok (response 409 "该账号已存在" None "")) else Ret (Err e)
             | Ok id => Ret (Ok (response 200 "注册成功" (Some (userView (mkUser id name hashed nickname None "USER"))) ""))
             end)
         | Err e => Ret (Err e)
         end)) a0 (registered name a)) as Hrest.
    { intros nick a0 Ha0. unfold HashPassword, bind_ok, call. cbn [bind]. apply swp_elsewhere; [done|]. intros x a1 Ha1.
      assert (users a1 = users a) as Hu by (unfold users; congruence).
      destruct x as [salt|e]; cbn [bind]; [|by left].
      eapply swp_mono; [apply create_registered; congruence|]. intros r a2 Hr. unfold registered, addedOne in *. by rewrite <- Hu. }
    destruct (String.eqb nickname ""); [|by apply Hrest]. cbn [bind]. apply swp_elsewhere; [done|].
    intros now a1 Ha1. by apply Hrest.
Qed.

(** ** Registrations that race *)

(** The accounts beside what happened: the threads that were answered with a failure, and the thread that added
    each row, by the id it was told. *)
Record scene := mkScene { sc_accounts : accounts; sc_failed : list nat; sc_added : gmap Z nat }.

Definition failure {A} (x : res A) : bool := match x with Ok _ => false | Err _ => true end.

(** A call failed. That a row is refused for its name is not a failure. *)
Definition failed (X : Type) (c : AuthE X) : X -> bool :=
  match c in AuthE X return X -> bool with
  | AGet _ _ => failure | ASet _ _ _ _ => failure | ADel _ _ => failure | AIncr _ _ => failure | AExpire _ _ _ => failure
  | ACount _ _ => failure | AFindByUsername _ _ => failure | AFindByID _ _ => failure | AUpdatePassword _ _ _ => failure
  | ARead _ => failure
  | ACreate _ _ => fun x => match x with Ok _ => false | Err e => negb (IsSentinel e ErrDuplicate) end
  | ANow => fun _ => false
  end.

Definition addedRow (X : Type) (c : AuthE X) : X -> option Z :=
  match c in AuthE X return X -> option Z with
  | ACreate _ _ => fun x => match x with Ok id => Some id | Err _ => None end
  | _ => fun _ => None
  end.

Definition note (i : nat) (X : Type) (c : AuthE X) (x : X) (s : scene) (a' : accounts) : scene :=
  mkScene a' (if failed X c x then i :: sc_failed s else sc_failed s)
    (match addedRow X c x with Some id => <[id := i]> (sc_added s) | None => sc_added s end).

Definition serveScene (i : nat) (X : Type) (c : AuthE X) (s : scene) (x : X) (s' : scene) : Prop :=
  exists a', serveAccounts X c (sc_accounts s) x a' /\ s' = note i X c x s a'.

(** Keys of Redis expire, or are written by others. *)
Definition elsewhere (s s' : scene) : Prop :=
  ac_db (sc_accounts s') = ac_db (sc_accounts s) /\ sc_failed s' = sc_failed s /\ sc_added s' = sc_added s.

(** A request handled by [Register], with its answer; or any other program that does not panic. *)
Definition registering (ctx : Context) (req : AuthRequest) : proc AuthE (option (AuthRequest * res AuthResponse)) :=
  bind (Register ctx req) (fun r => Ret (Some (req, r))).

Definition servedBy (p : proc AuthE (option (AuthRequest * res AuthResponse))) : Prop :=
  (exists ctx req, p = registering ctx req) \/ wp p (fun _ o => o = None).

Definition requested (req : AuthRequest) : string := fst (normalizeUsername (ar_Username req)).

Record sceneInv (s : scene) : Prop := mkSceneInv {
  si_distinct : distinctUsers (ac_db (sc_accounts s));
  si_added : forall id i, sc_added s !! id = Some i -> exists u, u ∈ users (sc_accounts s) /\ u_ID u = id }.

(** How the others go on. *)
Definition onward (s s' : scene) : Prop :=
  keeps (sc_accounts s) (sc_accounts s') /\ sc_failed s ⊆ sc_failed s' /\ sc_added s ⊆ sc_added s'.

#[export] Instance onward_preorder : PreOrder onward.
Proof.
  split; [by intros s|]. intros s1 s2 s3 (K1 & K2 & K3) (K4 & K5 & K6). split; [by etrans|]. split; by etrans.
Qed.

Lemma onwards s s' : rtc onward s s' -> onward s s'.
Proof. induction 1; [done|by etrans]. Qed.

(** What an answer to a registration says, from then on. *)
Definition answered (i : nat) (o : option (AuthRequest * res AuthResponse)) (s : scene) : Prop :=
  match o with
  | None => True
  | Some (req, Err _) => i ∈ sc_failed s
  | Some (req, Ok resp) =>
      (as_Code resp = 200 -> exists u info, u ∈ users (sc_accounts s) /\ u_Username u = requested req /\ u_Role u = "USER"
         /\ as_UserInfo resp = Some info /\ ui_ID info = u_ID u /\ sc_added s !! u_ID u = Some i)
      /\ (as_Code resp = 409 -> exists u, u ∈ users (sc_accounts s) /\ spelled (requested req) u = true)
  end.

Lemma answered_onward i o s s' : answered i o s -> onward s s' -> answered i o s'.
Proof.
  destruct o as [[req [resp|e]]|]; [|by intros H' (_ & Hs & _); apply Hs|done]. intros [K1' K2'] (Hk & _ & Ha). split.
  - intros Hc. destruct (K1' Hc) as (u & info & Hu & <- & <- & Hi & Hid & Hown).
    destruct (Hk u Hu) as (v & Hv & E1 & E2 & E3). exists v, info. rewrite E1. split_and!; try done.
    by eapply lookup_weaken.
  - intros Hc. destruct (K2' Hc) as (u & Hu & Hs). destruct (Hk u Hu) as (v & Hv & _ & E2 & _).
    exists v. split; [done|]. unfold spelled in *. by rewrite E2.
Qed.

(** What [Count] and [Create] tell their caller. *)
Lemma serveCount ctx name a n a' :
  serveAccounts _ (ACount ctx name) a (Ok n) a' -> distinctUsers (ac_db a) -> 0 < n ->
  exists u, u ∈ users a' /\ spelled name u = true.
Proof.
  intros [Hr _] Hd Hpos. destruct a' as [d' r']. cbn in Hr.
  destruct (swp_sruns _ _ _ _ _ _ (Count_swp ctx name _ (du_open _ Hd)) Hr) as [-> Hn].
  rewrite (Hn n eq_refl) in Hpos. destruct (List.filter _ _) as [|v l] eqn:Ef; [cbn in Hpos; lia|].
  exists v. apply (Gorm.elem_of_filterb (spelled name) (tb_users (committed (ac_db a)))). rewrite Ef.
  apply list_elem_of_here.
Qed.

Lemma serveCreate ctx u a x a' :
  serveAccounts _ (ACreate ctx u) a x a' -> distinctUsers (ac_db a) ->
  match x with
  | Ok id => (forall v, v ∈ users a -> u_ID v <> id)
             /\ exists v, v ∈ users a' /\ u_ID v = id /\ u_Username v = u_Username u /\ u_Role v = u_Role u
  | Err e => IsSentinel e ErrDuplicate = true -> u_ID u = 0 -> exists v, v ∈ users a' /\ spelled (u_Username u) v = true
  end.
Proof.
  intros [Hr _] Hd. cbn in Hr. destruct a' as [d' r']. cbn in Hr. pose proof (du_open _ Hd) as Ho. by_run Hr.
  apply Create_swp; [done|..].
  - intros (v & Hv%list_elem_of_In & Hk)%existsb_exists e _ d0 Hd0 _ Hz. exists v.
    split; [by destruct Hd0 as [->| ->]|]. cbn in Hk. unfold spelled. rewrite collates_sym. unfold newUser in Hk.
    rewrite Hz in Hk. cbn in Hk. apply orb_prop in Hk as [Hk%Z.eqb_eq|Hk]; [|done].
    pose proof (du_next _ Hd v Hv). lia.
  - intros Ht. split.
    + intros v Hv E. apply not_true_iff_false in Ht. apply Ht, existsb_exists. exists v.
      split; [by apply list_elem_of_In|]. cbn. apply orb_true_iff. left. by apply Z.eqb_eq.
    + exists (newUser (ac_db a) u). split.
      * unfold users, withUser. rewrite Gorm.write_open by done. cbn. apply elem_of_app. right. by apply list_elem_of_singleton.
      * unfold newUser. by case_match.
  - intros _ e d0 He _. by rewrite He.
Qed.

(** Every call of every thread keeps the invariant, and moves the others onward. *)
Lemma note_step i X (c : AuthE X) s x a' :
  sceneInv s -> serveAccounts X c (sc_accounts s) x a' -> sceneInv (note i X c x s a') /\ onward s (note i X c x s a').
Proof.
  intros [Hd Hadd] Hc. destruct (serveAccounts_keeps _ _ _ _ _ Hc Hd) as [Hd' Hk].
  assert (forall id j, sc_added s !! id = Some j -> exists u, u ∈ users a' /\ u_ID u = id) as Hold.
  { intros id j Hj. destruct (Hadd id j Hj) as (u & Hu & <-). destruct (Hk u Hu) as (v & Hv & E & _). by exists v. }
  split; [split; [done|]|split; [done|split]]; cbn.
  - destruct (addedRow X c x) as [id|] eqn:Ea; [|done]. intros id' j Hj.
    destruct c; try done. destruct x as [id0|e]; [|done]. injection Ea as ->.
    destruct (serveCreate _ _ _ _ _ Hc Hd) as [_ (v & Hv & Hid & _)].
    apply lookup_insert_Some in Hj as [[<- _]|[_ Hj]]; [by exists v|by eapply Hold].
  - destruct (failed X c x); [by intros z Hz; right|done].
  - destruct (addedRow X c x) as [id|] eqn:Ea; [|done]. destruct c; try done. destruct x as [id0|e]; [|done].
    injection Ea as ->. destruct (serveCreate _ _ _ _ _ Hc Hd) as [Hnew _]. apply insert_subseteq.
    destruct (sc_added s !! id) as [j|] eqn:Ej; [|done]. destruct (Hadd id j Ej) as (w & Hw & E). by destruct (Hnew w Hw).
Qed.

Abbreviation among := (rgwp serveScene sceneInv (fun _ => onward)).

Lemma among_do i {A X} (c : AuthE X) (k : X -> proc AuthE A) s Q :
  (forall s1 x a', sceneInv s1 -> serveAccounts X c (sc_accounts s1) x a' -> among i (k x) (note i X c x s1 a') Q) ->
  among i (Do c k) s Q.
Proof.
  intros Hk s1 _ Hi x s2 (a' & Hc & ->). destruct (note_step i _ _ _ _ _ Hi Hc). split; [done|]. split; [done|]. auto.
Qed.

Lemma among_ret i o s : answered i o s -> among i (Ret o) s (answered i).
Proof. intros Ho s1 Hs. eapply answered_onward; [done|by apply onwards]. Qed.

Lemma registering_ok i ctx req s : among i (registering ctx req) s (answered i).
Proof.
  unfold registering. assert (forall code msg, code <> 200 -> code <> 409 ->
    among i (Ret (Some (req, Ok (response code msg None "")))) s (answered i)) as Hrefused.
  { intros code msg K1' K2'. apply among_ret. by split. }
  unfold Register. destruct (_ && _); [by apply Hrefused|].
  destruct (normalizeUsername (ar_Username req)) as [name ok] eqn:En. assert (requested req = name) as Hname by (unfold requested; by rewrite En).
  destruct (_ || _); [by apply Hrefused|]. destruct (normalizeNickname (ar_Nickname req)) as [nickname ok']. destruct (negb ok'); [by apply Hrefused|].
  clear Hrefused. unfold bind_ok, call. cbn [bind]. apply among_do. intros s1 n a1 Hi1 Hc1.
  destruct n as [n|e]; cbn [bind]; [|apply among_ret; cbn; by left].
  destruct (Z.ltb_spec 0 n) as [Hpos|Hz]; cbn [bind].
  { apply among_ret. split; [done|]. intros _. rewrite Hname. by eapply serveCount; [|apply Hi1|]. }
  clear Hz. generalize (note i _ (ACount ctx name) (Ok n) s1 a1). clear s s1 a1 n Hi1 Hc1. intros s.
  assert (forall nick s, among i (bind (bind (HashPassword (deref (ar_Password req))) (fun r => match r with
      | Ok hashed => Do (ACreate ctx (mkUser 0 name hashed nick None "USER")) (fun created =>
          match created with
          | Err e => if IsSentinel e ErrDuplicate then Ret (Ok (response 409 "该账号已存在" None "")) else Ret (Err e)
          | Ok id => Ret (Ok (response 200 "注册成功" (Some (userView (mkUser id name hashed nick None "USER"))) ""))
          end)
      | Err e => Ret (Err e)
      end)) (fun r => Ret (Some (req, r)))) s (answered i)) as Hrest.
  { intros nick s0. unfold HashPassword, bind_ok, call. cbn [bind]. apply among_do. intros s1 salt a1 _ _.
    destruct salt as [salt|e]; cbn [bind]; [|apply among_ret; cbn; by left].
    apply among_do. intros s2 created a2 Hi2 Hc2. pose proof (serveCreate _ _ _ _ _ Hc2 (si_distinct _ Hi2)) as Hx.
    destruct created as [id|e]; cbn [bind].
    - destruct Hx as [_ (v & Hv & Hid & Hu & Hr)]. apply among_ret. split; [intros _|done].
      exists v. eexists. rewrite Hname. cbn. split_and!; try done. by rewrite Hid, lookup_insert_eq.
    - destruct (IsSentinel e ErrDuplicate) eqn:Ee; cbn [bind]; apply among_ret.
      + split; [done|]. intros _. rewrite Hname. by apply Hx.
      + cbn. rewrite Ee. by left. }
  destruct (String.eqb nickname ""); [|by apply Hrest]. cbn [bind]. apply among_do. intros s1 now a1 _ _. cbn [bind]. apply Hrest.
Qed.

Lemma others_ok i (p : proc AuthE (option (AuthRequest * res AuthResponse))) s :
  wp p (fun _ o => o = None) -> among i p s (answered i).
Proof.
  revert s. assert (forall (Q : trace AuthE -> option (AuthRequest * res AuthResponse) -> Prop) s,
    (forall tr o, Q tr o -> o = None) -> wp p Q -> among i p s (answered i)) as Hgen; [|by intros s; apply (Hgen (fun _ o => o = None))].
  induction p as [o|X c k IH|why]; intros Q s HQ Hp; [|apply among_do; intros s1 x a' _ _|done].
  - apply among_ret. cbn in Hp. by rewrite (HQ _ _ Hp).
  - eapply IH; [|apply (Hp x)]. intros tr o. apply HQ.
Qed.


End register.

End accounts.

(** ** The throttle and the spelling of a name *)

Section throttle.
Context `{Collation}.

Lemma username_word name : usernameRe name = true -> str_forall word_char name = true.
Proof.
  intros [_ Hc]%andb_prop. revert Hc. apply str_forall_weaken. intros a. unfold username_char, word_char.
  intros ->. done.
Qed.

(** Recording a failure touches the counter of that spelling only. *)
Lemma record_frame up ctx name k s :
  k <> loginFailurePrefix +:+ name ->
  swp (redis up) (recordLoginFailure ctx name) s (fun _ s' => kv s' !! k = kv s !! k).
Proof.
  intros Hk. apply (swp_bind (redis up) (call (AIncr ctx (loginFailurePrefix +:+ name)))). cbn [call swp].
  assert (forall X (c : AuthE X) s x s', match c with AIncr _ k' | AExpire _ k' _ => k' = loginFailurePrefix +:+ name | _ => False end ->
    redis up X c s x s' -> kv s' !! k = kv s !! k) as Hframe.
  { intros X c s0 x s0' Hc Hr. destruct c; try done; subst; cbn [redis] in Hr; unfold wrote, later in Hr;
      repeat match type of Hr with context [match ?y with _ => _ end] => destruct y end;
      destruct_or?; destruct_and?; repeat match goal with H : _ \/ _ |- _ => destruct H end; destruct_and?; destruct_or?; destruct_and?;
      match goal with H : kv _ = _ |- _ => rewrite H end; by rewrite ?lookup_insert_ne by done. }
  intros x s1 Hx. pose proof (Hframe _ (AIncr ctx _) _ _ _ eq_refl Hx) as <-. destruct x as [n|e]; [|done].
  destruct (n =? 1); [|done]. cbn [call swp]. intros y s2 Hy. exact (Hframe _ (AExpire ctx _ _) _ _ _ eq_refl Hy).
Qed.

(** The throttle counts spellings, the table compares names. For two spellings of one account name that
    differ in case, any number of wrong passwords recorded under one leaves the other free: the next attempt
    under it is let through, while the lookup finds the same rows for both. So the limit of eight failures in
    ten minutes holds per spelling, and a name with [n] letters has [2^n] of them. *)
Theorem throttle_by_spelling (ctx : Context) (name name' : string) (k : nat) (s s' : rstate) :
  usernameRe name = true -> usernameRe name' = true -> ToLower name = ToLower name' -> name <> name' ->
  failures s name' = None -> guesses true ctx name k s s' ->
  swp (redis true) (LoginAttemptAllowed ctx name') s' (fun r _ => r = Ok true)
  /\ forall u, spelled name u = spelled name' u.
Proof.
  intros Hn Hn' Hl Hne Hnone Hg. split.
  - assert (loginFailurePrefix +:+ name' <> loginFailurePrefix +:+ name) as Hk.
    { intros E. apply Hne. by apply str_app_inj_l in E. }
    assert (kv s' !! (loginFailurePrefix +:+ name') = None) as Hf.
    { induction Hg as [s|k s s1 s2 Hg IH Hrun]; [done|]. rewrite <- (IH Hnone).
      exact (swp_sruns _ _ _ _ _ _ (record_frame true ctx name _ s1 Hk) Hrun). }
    unfold LoginAttemptAllowed. cbn [bind_ok bind call swp redis]. unfold live. rewrite Hf.
    intros x s1 [_ [->|[? _]]]; [|done]. done.
  - intros u. apply eq_iff_eq_true. unfold spelled.
    assert (collates name name' = true) as Hc.
    { rewrite collates_word by (by apply username_word). by apply String.eqb_eq. }
    split; intros Hu; (eapply collates_trans; [exact Hu|]); [done|by rewrite collates_sym].
Qed.

End throttle.

(** ** One account, three spellings *)

#[local] Existing Instance caseFolding.

Definition alice : User := mkUser 1 "Alice" "{pbkdf2}1$00$00" "Alice" None "USER".
Definition aliceTables : Gorm.tables := Gorm.mkTables [alice] [] [] [].
Definition aliceOnly : accounts :=
  mkAccounts (Gorm.mkDatabase aliceTables None (fun _ => 2) 0 [aliceTables]) (mkRState ∅ 0).

Lemma aliceOnly_distinct : distinctUsers (ac_db aliceOnly).
Proof.
  split; cbn; [done| |].
  - intros [|i] [|j] u v; cbn; try done; by rewrite lookup_nil.
  - intros u Hu. apply list_elem_of_singleton in Hu as ->. done.
Qed.

Import Auth.Example.
#[local] Existing Instances example_pbkdf2 digest table invite.

Lemma Register_table_witness :
  distinctUsers (ac_db aliceOnly)
  /\ swp (serveAccounts true) (Register Background (mkAuthRequest (Some "ALICE") (Some "12345678") None None)) aliceOnly
       (registered "ALICE" aliceOnly).
Proof.
  split; [apply aliceOnly_distinct|].
  apply (Register_table true Background (mkAuthRequest (Some "ALICE") (Some "12345678") None None) aliceOnly aliceOnly_distinct).
Defined.

Lemma throttle_by_spelling_witness :
  guesses true Background "alice" 1 start (counted_state 1)
  /\ swp (redis true) (LoginAttemptAllowed Background "ALICE") (counted_state 1) (fun r _ => r = Ok true)
  /\ spelled "alice" alice = spelled "ALICE" alice.
Proof.
  split; [apply one_guess|].
  destruct (throttle_by_spelling Background "alice" "ALICE" 1 start (counted_state 1) eq_refl eq_refl eq_refl
    ltac:(discriminate) eq_refl one_guess) as [H1 H2].
  split; [exact H1|exact (H2 alice)].
Defined.

(** Two clients ask for one name in two spellings at once: both count no row, one is told 200, the other 409. *)
Definition asBobby : AuthRequest := mkAuthRequest (Some "Bobby") (Some "12345678") (Some "B") None.
Definition asBOBBY : AuthRequest := mkAuthRequest (Some "BOBBY") (Some "12345678") (Some "B") None.

Definition salt : bytes saltBytes := exist _ "0123456789abcdef" eq_refl.

Ltac registers i c x a' :=
  eapply rtc_l; [eapply (sys_call _ _ _ _ _ i _ c _ x); [reflexivity|exists a'; split; [|reflexivity]]|].

Definition bobbyRow : User :=
  mkUser 0 "Bobby" (formatHash passwordIterations (proj1_sig salt) (derive "12345678" (proj1_sig salt) passwordIterations)) "B" None "USER".
Definition bobbyToo : accounts := mkAccounts (withUser (ac_db aliceOnly) bobbyRow) (ac_redis aliceOnly).

Lemma race_runs : exists y resp0 resp1,
  rtc (sys_step (serveScene true) elsewhere servedBy) (mkSystem (mkScene aliceOnly [] ∅) []) y
  /\ sys_threads y = [Ret (Some (asBobby, Ok resp0)); Ret (Some (asBOBBY, Ok resp1))]
  /\ as_Code resp0 = 200 /\ as_Code resp1 = 409.
Proof.
  do 3 eexists. split.
  { eapply rtc_l; [apply (sys_spawn _ _ _ _ _ (registering Background asBobby)); left; by do 2 eexists|].
    eapply rtc_l; [apply (sys_spawn _ _ _ _ _ (registering Background asBOBBY)); left; by do 2 eexists|].
    registers 0%nat (ACount Background "Bobby") (Ok 0 : res Z) aliceOnly; [by split; [eapply (sruns_do _ _ _ _ _ (Ok 0)); [|constructor]|]|].
    registers 1%nat (ACount Background "BOBBY") (Ok 0 : res Z) aliceOnly; [by split; [eapply (sruns_do _ _ _ _ _ (Ok 0)); [|constructor]|]|].
    registers 0%nat (ARead saltBytes) (Ok salt : res (bytes saltBytes)) aliceOnly; [by split|].
    registers 1%nat (ARead saltBytes) (Ok salt : res (bytes saltBytes)) aliceOnly; [by split|].
    registers 0%nat (ACreate Background bobbyRow) (Ok 2 : res Z) bobbyToo;
      [split; [|done]; eapply (sruns_do _ _ _ _ _ (Ok (newUser (ac_db aliceOnly) bobbyRow))); [|constructor]; cbn [Gorm.gorm]; rewrite stored_user, inserted_user by done; split; reflexivity|].
    registers 1%nat (ACreate Background (mkUser 0 "BOBBY" (u_Password bobbyRow) "B" None "USER")) (Err Repo.errDuplicate : res Z) bobbyToo;
      [split; [|done]; eapply (sruns_do _ _ _ _ _ (Err Gorm.duplicatedKey)); [|constructor]; cbn [Gorm.gorm]; rewrite stored_user, inserted_user by done; split; [by left|eexists; split; [reflexivity|by left]]|].
    apply rtc_refl. }
  split; [reflexivity|]. split; reflexivity.
Qed.


