(* ===== verification/HttpParams.v ===== *)
(** * Requests: parameters, validation, CORS (internal/httpapi: params.go, validation.go, middleware.go)

    The parts of the HTTP layer that are functions of the request.  Query and form lookups, headers and
    the multipart parts are fields of [request]; the JSON decoder and the struct validator are classes. *)

From S2P Require Import Prelude GoStrings Errors Model Store Upload.

Local Open Scope string_scope.
Local Open Scope list_scope.
Local Open Scope Z_scope.

(** A request as gin presents it. [rq_File] is [FormFile]: [Err true] when the body is over the limit. *)
Record request := mkRequest {
  rq_Method : string; rq_TLS : bool; rq_Host : string;
  rq_Header : string -> string;
  rq_Query : string -> option string;
  rq_Form : string -> option string;
  rq_Param : string -> string;
  rq_File : string -> result bool FileHeader;
  rq_Body : string }.

(** ** Parameters (params.go) *)

Definition rawParam (c : request) (name : string) : option string :=
  match rq_Query c name with Some v => Some v | None => rq_Form c name end.

Definition errBadParam : gerror := InvalidArgument "请求参数不合法".

Definition requiredString (c : request) (name : string) : res string :=
  match rawParam c name with None => Err errBadParam | Some v => Ok v end.

Definition optionalString (c : request) (name : string) : option string := rawParam c name.

Definition stringWithDefault (c : request) (name def : string) : string :=
  match rawParam c name with
  | Some v => if negb (String.eqb v "") then v else def
  | None => def
  end.

Definition requiredInt64 (c : request) (name : string) : res Z :=
  match rawParam c name with
  | None => Err errBadParam
  | Some v =>
      if is_blank v then Err errBadParam
      else match ParseInt 64 (TrimSpace v) with None => Err errBadParam | Some n => Ok n end
  end.

Definition requiredInt (c : request) (name : string) : res Z :=
  match rawParam c name with
  | None => Err errBadParam
  | Some v =>
      if is_blank v then Err errBadParam
      else match ParseInt 32 (TrimSpace v) with None => Err errBadParam | Some n => Ok n end
  end.

Definition maxGoalLength : Z := 500.

Definition normalizeText (value field : string) : res string :=
  if is_blank value || (maxGoalLength <? utf16Len value)
  then Err (InvalidArgument (field +:+ "不能为空且不能超过 500 字"))
  else Ok (TrimSpace value).

Definition modeParam (c : request) : res AnalysisMode :=
  ModeFromRequest (match optionalString c "mode" with Some v => v | None => "" end).

Definition upper_hex (n : Z) : ascii := ascii_of_Z (if n <? 10 then 48 + n else 55 + n).

Definition url_kept (a : ascii) : bool :=
  let b := byte a in
  in_range 97 122 b || in_range 65 90 b || in_range 48 57 b || existsb (Ascii.eqb a) ["."; "-"; "*"; "_"]%char.

Fixpoint formURLEncode (s : string) : string :=
  match s with
  | EmptyString => ""
  | String a r =>
      if url_kept a then String a (formURLEncode r)
      else if Ascii.eqb a " " then String "+" (formURLEncode r)
      else String "%" (String (upper_hex (byte a / 16)) (String (upper_hex (byte a mod 16)) (formURLEncode r)))
  end.

Definition parsePathID (v : string) : res Z :=
  match ParseInt 64 v with None => Err errBadParam | Some n => Ok n end.

(** [url.QueryEscape]. *)
Definition query_kept (a : ascii) : bool :=
  let b := byte a in
  in_range 97 122 b || in_range 65 90 b || in_range 48 57 b || existsb (Ascii.eqb a) ["-"; "_"; "."; "~"]%char.

Fixpoint QueryEscape (s : string) : string :=
  match s with
  | EmptyString => ""
  | String a r =>
      if query_kept a then String a (QueryEscape r)
      else if Ascii.eqb a " " then String "+" (QueryEscape r)
      else String "%" (String (upper_hex (byte a / 16)) (String (upper_hex (byte a mod 16)) (QueryEscape r)))
  end.

(** ** Bodies and validation (handlers_user.go, validation.go) *)

Record RouteRequest := mkRouteRequest { rr_Goal : option string }.

(** [json.Decoder.Decode] of a body into each of the request types; [None] is any error. *)
Class JsonBody := {
  decodeAuth : string -> option AuthRequest;
  decodeRoute : string -> option RouteRequest;
  decodeFeedback : string -> option AgentFeedback;
  decodeChallenge : string -> option ChallengeRequest;
  decodeProof : string -> option ProofRequest }.

Definition decodeBody {A} (decode : string -> option A) (c : request) : res A :=
  match decode (rq_Body c) with None => Err (InvalidArgument "请求参数不合法") | Some v => Ok v end.

(** The structs handed to the validator. *)
Inductive form :=
| registerForm (req : AuthRequest)
| loginForm (username password : option string)
| routeForm (req : RouteRequest)
| feedbackForm (fb : AgentFeedback).

(** [validator.FieldError]: the namespace, field name and tag of a rule that does not hold. *)
Record FieldError := mkFieldError { fe_Namespace : string; fe_Field : string; fe_Tag : string }.

(** [validate.Struct]: the rules that do not hold, in field order; none for a nil error. *)
Class Validator := structErrors : form -> list FieldError.

(** The rule [notblank] that [newValidator] registers, on a field of type *string. *)
Definition notblank (f : option string) : bool :=
  match f with None => false | Some s => negb (is_blank s) end.

(** The rules the handlers rely on: [required] and the registered [notblank]. *)
Class ValidatorLaws `{Validator} := {
  route_goal : forall req, structErrors (routeForm req) = [] -> notblank (rr_Goal req) = true;
  feedback_media : forall fb, structErrors (feedbackForm fb) = [] -> fb_MediaID fb <> None;
  feedback_goal : forall fb, structErrors (feedbackForm fb) = [] -> notblank (fb_Goal fb) = true }.

Definition messages (key : string) : option string :=
  let eq k := String.eqb key k in
  if eq "registerForm.username.notblank" then Some "账号不能为空"
  else if eq "registerForm.username.min" || eq "registerForm.username.max" then Some "账号需为 3-32 位"
  else if eq "registerForm.password.notblank" then Some "密码不能为空"
  else if eq "registerForm.password.max" then Some "密码不能超过 128 位"
  else if eq "registerForm.password.min" then Some "密码需至少 8 位"
  else if eq "registerForm.nickname.max" then Some "昵称不能超过 50 个字符"
  else if eq "loginForm.username.notblank" then Some "账号不能为空"
  else if eq "loginForm.username.max" then Some "账号不能超过 32 位"
  else if eq "loginForm.password.notblank" then Some "密码不能为空"
  else if eq "loginForm.password.max" then Some "密码不能超过 128 位"
  else if eq "RouteRequest.goal.notblank" then Some "分析目标不能为空"
  else if eq "RouteRequest.goal.max" then Some "分析目标不能超过 500 字"
  else if eq "AgentFeedback.mediaId.required" then Some "mediaId 不能为空"
  else if eq "AgentFeedback.goal.notblank" then Some "分析目标不能为空"
  else if eq "AgentFeedback.goal.max" then Some "分析目标不能超过 500 字"
  else if eq "AgentFeedback.errorType.max" then Some "错误类型不能超过 64 字"
  else if eq "AgentFeedback.comment.max" then Some "反馈说明不能超过 2000 字"
  else if eq "AgentFeedback.correctedGoal.max" then Some "修正后的分析目标不能超过 500 字"
  else if eq "AgentFeedback.correctedTasks.max" then Some "修正任务最多 5 条"
  else if eq "AgentFeedback.correctedTasks[].max" then Some "每条修正任务不能超过 500 字"
  else if eq "AgentFeedback.evidenceTimestamp.gte" then Some "证据时间戳不能为负数"
  else None.

(** [indexRe.ReplaceAllString(s, "[]")] for [\[\d+\]]: [digits] is what follows an open bracket. *)
Fixpoint all_digits (s : string) : string * string :=
  match s with
  | String a r => if is_digit a then let '(d, rest) := all_digits r in (String a d, rest) else ("", s)
  | EmptyString => ("", "")
  end.

Fixpoint replaceIndexes (fuel : nat) (s : string) : string :=
  match fuel, s with
  | S fuel, String a r =>
      if Ascii.eqb a "[" then
        match all_digits r with
        | (String _ _, String b rest) =>
            if Ascii.eqb b "]" then "[]" +:+ replaceIndexes fuel rest else String a (replaceIndexes fuel r)
        | _ => String a (replaceIndexes fuel r)
        end
      else String a (replaceIndexes fuel r)
  | _, _ => s
  end.

Definition fieldMessage (fe : FieldError) : string :=
  let key := replaceIndexes (String.length (fe_Namespace fe)) (fe_Namespace fe) +:+ "." +:+ fe_Tag fe in
  fe_Field fe +:+ ": " +:+ match messages key with Some m => m | None => "invalid value" end.

Definition validateStruct `{Validator} (v : form) : res unit :=
  match structErrors v with
  | [] => Ok tt
  | ve =>
      let detail := Join (map fieldMessage ve) "; " in
      Err (Validation (if String.eqb detail "" then "请求参数校验失败" else detail))
  end.

(** ** CORS (middleware.go) *)

(** The least rune of a [unicode.SimpleFold] orbit. *)
Class FoldTable := foldRune : Z -> Z.

(** [strings.EqualFold]. *)
Definition EqualFold `{FoldTable} (s t : string) : bool :=
  bool_decide (map foldRune (runes s) = map foldRune (runes t)).

Definition sameOrigin `{FoldTable} (r : request) (origin : string) : bool :=
  let scheme := if rq_TLS r then "https" else "http" in
  EqualFold origin (scheme +:+ "://" +:+ rq_Host r).

(** What a middleware decides: pass on, with headers set so far, or answer. *)
Inductive gate :=
| Next (headers : list (string * string))
| Answer (status : Z) (headers : list (string * string)) (body : string).

Definition cors `{FoldTable} (allowed : list string) (c : request) : gate :=
  let origin := rq_Header c "Origin" in
  if String.eqb origin "" || sameOrigin c origin then Next []
  else
    let requested := rq_Header c "Access-Control-Request-Method" in
    let preflight := String.eqb (rq_Method c) "OPTIONS" && negb (String.eqb requested "") in
    let vary := ("Vary", "Origin")
      :: (if preflight then [("Vary", "Access-Control-Request-Method"); ("Vary", "Access-Control-Request-Headers")] else []) in
    if negb (existsb (String.eqb origin) allowed) then Answer 403 vary "Invalid CORS request"
    else if preflight then
      if negb (existsb (String.eqb (ToUpper requested)) ["GET"; "POST"; "DELETE"; "OPTIONS"])
      then Answer 403 vary "Invalid CORS request"
      else
        let req := rq_Header c "Access-Control-Request-Headers" in
        Answer 200
          (vary ++ [("Access-Control-Allow-Origin", origin); ("Access-Control-Allow-Credentials", "true");
                    ("Access-Control-Allow-Methods", "GET,POST,DELETE,OPTIONS")]
           ++ (if negb (String.eqb req "") then [("Access-Control-Allow-Headers", req)] else [])
           ++ [("Access-Control-Max-Age", "3600")]) ""
    else Next (vary ++ [("Access-Control-Allow-Origin", origin); ("Access-Control-Allow-Credentials", "true")]).

(** ** Properties *)

(** The decoding of [application/x-www-form-urlencoded]: [+] is a space, [%XX] a byte. *)
Fixpoint formDecode (s : string) : option string :=
  match s with
  | EmptyString => Some ""
  | String a r =>
      if Ascii.eqb a "%" then
        match r with
        | String h (String l r) =>
            match from_hex h, from_hex l, formDecode r with
            | Some h, Some l, Some t => Some (String (ascii_of_Z (16 * h + l)) t)
            | _, _, _ => None
            end
        | _ => None
        end
      else String (if Ascii.eqb a "+" then " "%char else a) <$> formDecode r
  end.

(** What may stand in an [ext-value] of a header without quoting: no space, quote, separator or control. *)
Definition header_safe (a : ascii) : bool := url_kept a || Ascii.eqb a "+" || Ascii.eqb a "%".

Lemma escaped_byte a :
  match from_hex (upper_hex (byte a / 16)), from_hex (upper_hex (byte a mod 16)) with
  | Some h, Some l => Ascii.eqb (ascii_of_Z (16 * h + l)) a
  | _, _ => false
  end && header_safe (upper_hex (byte a / 16)) && header_safe (upper_hex (byte a mod 16)) = true.
Proof. revert a. apply ascii_forall. vm_compute. reflexivity. Qed.

Lemma kept_plain a : url_kept a = true -> negb (Ascii.eqb a "%") && negb (Ascii.eqb a "+") = true.
Proof. revert a. by_bytes. Qed.

(** A file name put in a Content-Disposition header survives the trip and cannot break out of it: the
    encoding consists of unreserved bytes, plus signs and percent escapes only - no line break, quote or
    separator, whatever the name - and decodes to exactly the name. *)
Theorem formURLEncode_roundtrip (s : string) :
  formDecode (formURLEncode s) = Some s /\ str_forall header_safe (formURLEncode s) = true.
Proof.
  induction s as [|a s [IH1 IH2]]; [done|]. cbn [formURLEncode].
  destruct (url_kept a) eqn:Ek; [|destruct (Ascii.eqb_spec a " ") as [->|Ha]].
  - pose proof (kept_plain a Ek) as [E1%negb_true_iff E2%negb_true_iff]%andb_true_iff.
    cbn [formDecode str_forall]. rewrite E1, E2, IH1, IH2. unfold header_safe. by rewrite Ek.
  - cbn [formDecode str_forall]. by rewrite IH1, IH2.
  - pose proof (escaped_byte a) as [[E H1]%andb_true_iff H2]%andb_true_iff.
    cbn [formDecode str_forall]. change (Ascii.eqb "%" "%") with true. cbv beta iota.
    destruct (from_hex (upper_hex (byte a / 16))), (from_hex (upper_hex (byte a mod 16))); try discriminate.
    apply Ascii.eqb_eq in E. rewrite IH1, IH2, H1, H2. cbn [andb]. by rewrite E.
Qed.

(** A cross-origin request is served only for a configured origin, and only then told so: a request that
    passes the CORS gate has no Origin, the server's own, or one of the configured ones; a preflight never
    reaches a handler; an allow header is sent to configured origins only and names exactly that origin;
    everything else is refused with 403. *)
Theorem cors_gate `{FoldTable} (allowed : list string) (c : request) :
  let origin := rq_Header c "Origin" in
  let own := String.eqb origin "" || sameOrigin c origin = true in
  match cors allowed c with
  | Next headers =>
      (own /\ headers = [])
      \/ (origin ∈ allowed /\ ("Access-Control-Allow-Origin", origin) ∈ headers
          /\ ~ (rq_Method c = "OPTIONS" /\ rq_Header c "Access-Control-Request-Method" <> ""))
  | Answer status headers _ =>
      ~ own
      /\ (status = 200 /\ origin ∈ allowed /\ rq_Method c = "OPTIONS"
          /\ (forall v, ("Access-Control-Allow-Origin", v) ∈ headers -> v = origin)
          \/ status = 403 /\ forall v, ("Access-Control-Allow-Origin", v) ∉ headers)
  end.
Proof.
  cbv zeta. unfold cors. destruct (_ || _) eqn:Eown; [left; done|].
  destruct (String.eqb (rq_Method c) "OPTIONS" && _) eqn:Epre.
  - apply andb_true_iff in Epre as [Em%String.eqb_eq Er%negb_true_iff].
    destruct (existsb _ allowed) eqn:Ea; cbn [negb].
    + apply existsb_eqb_In in Ea. destruct (existsb _ ["GET"; _; _; _]); cbn [negb].
      * split; [done|]. left. split; [done|]. split; [done|]. split; [done|]. intros v Hv.
        destruct (negb _); cbn [app] in Hv; rewrite !elem_of_cons, ?elem_of_nil in Hv; intuition congruence.
      * split; [done|]. right. split; [done|]. intros v Hv. rewrite !elem_of_cons, elem_of_nil in Hv. intuition congruence.
    + split; [done|]. right. split; [done|]. intros v Hv. rewrite !elem_of_cons, elem_of_nil in Hv. intuition congruence.
  - destruct (existsb _ allowed) eqn:Ea; cbn [negb].
    + apply existsb_eqb_In in Ea. right. split; [done|]. split; [set_solver|].
      intros [Hm Hr]. rewrite Hm in Epre. cbn in Epre. apply negb_false_iff, String.eqb_eq in Epre. done.
    + split; [done|]. right. split; [done|]. intros v Hv. rewrite !elem_of_cons, elem_of_nil in Hv. intuition congruence.
Qed.
