(* ===== verification/HttpApi.v ===== *)
(** * Controllers (internal/httpapi: api.go, middleware.go, handlers_user.go, handlers_media.go, handlers_analysis.go)

    Every handler is a program over [HttpE], the methods of the services an [API] holds; it returns the
    reply it writes.  [handler] is the routing table and [serve] the chain of middleware in front of it. *)

From S2P Require Import Prelude GoStrings Proc Errors Model GoContext Billing RateLimit TaskEvents AgentClient.
From S2P Require Import AgentRpc Dispatch Store Upload HttpParams Auth.

Local Open Scope string_scope.
Local Open Scope list_scope.
Local Open Scope Z_scope.

(** A free-form document, a JSON object. *)
Definition document : Type := list (string * PbValue).

(** What the select of [streamEvents] takes. *)
Inductive selected := Event (ev : TaskEvent) | TimedOut | RequestDone | ShuttingDown.

(** How a task on the AI pool relates to its caller's deadline: its answer arrives, or arrives too late, or
    it has not begun when the deadline passes. *)
Inductive awaited := Delivered | Late | NotBegun.

Inductive HttpE : Type -> Type :=
| HResolveUser (ctx : Context) (authorization : string) : HttpE (res Z)
| HRegister (ctx : Context) (req : AuthRequest) : HttpE (res AuthResponse)
| HLogin (ctx : Context) (req : AuthRequest) : HttpE (res AuthResponse)
| HRevokeSession (ctx : Context) (authorization : string) : HttpE (res unit)
| HRequireAdmin (ctx : Context) (userID : Z) : HttpE (res unit)
| HInitialize (ctx : Context) (filename : string) (total userID : Z) : HttpE (res string)
| HUploadedChunks (ctx : Context) (uploadID : string) (userID : Z) : HttpE (res (list Z))
| HUploadChunk (ctx : Context) (uploadID : string) (idx total : Z) (fh : FileHeader) (userID : Z) : HttpE (res unit)
| HComplete (ctx : Context) (uploadID : string) (userID : Z) : HttpE (res MediaFile)
| HChallenge (ctx : Context) (userID : Z) (req : ChallengeRequest) : HttpE (res (option Challenge))
| HProve (ctx : Context) (userID : Z) (req : ProofRequest) : HttpE (res MediaFile)
| HIngestFile (ctx : Context) (fh : FileHeader) (userID : Z) : HttpE (res MediaFile)
| HIngestURL (ctx : Context) (url : string) (userID : Z) : HttpE (res MediaFile)
| HListByUser (ctx : Context) (userID : Z) : HttpE (res (list MediaFile))
| HRequireOwnedMedia (ctx : Context) (mediaID userID : Z) : HttpE (res MediaFile)
| HPlaybackURL (ctx : Context) (path : string) : HttpE (res string)
| HDeleteOwnedMedia (ctx : Context) (mediaID userID : Z) : HttpE (res unit)
| HExportMP3 (ctx : Context) (mf : MediaFile) : HttpE (res string)
| HOpen (path : string) : HttpE (res string) (* the content of the file *)
| HRemove (path : string) : HttpE unit
| HQueue (ctx : Context) (mediaID : Z) : HttpE (res bool)
| HTranscribe (mediaID : Z) : HttpE (res unit)
| HRejectQueued (ctx : Context) (mediaID : Z) : HttpE unit
| HTranscriptionStatus (ctx : Context) (mf : MediaFile) : HttpE (res TaskStatus)
| HBillingCheck (ctx : Context) (userID : Z) : HttpE (res unit)
| HTakeRoute (ctx : Context) (scope : string) (userID : Z) (user global : Bucket) : HttpE (res bool)
| HRequireAiQuota (ctx : Context) (userID : Z) : HttpE (res unit)
| HSubmit (ctx : Context) (mf : MediaFile) (goal : string) (revision : option AgentFeedback) (mode : AnalysisMode)
    : HttpE (res SubmissionResult)
| HLoadResult (ctx : Context) (mediaID : Z) (goal : string) (mode : AnalysisMode) : HttpE (res (option ResultResponse))
| HCurrent (ctx : Context) (mediaID : Z) (goal : string) (mode : AnalysisMode) : HttpE (res TaskStatus)
| HStage (ctx : Context) (mediaID : Z) (goal : string) (mode : AnalysisMode) : HttpE (res TaskStage)
| HLatest (ctx : Context) : HttpE (res (list FailedAnalysisTask))
| HReplay (ctx : Context) (id : Z) : HttpE (res unit)
| HLoadContext (ctx : Context) (mediaID : Z) : HttpE (res (option VideoContext))
| HClassifyMode (ctx : Context) (goal : string) : HttpE (res RouteDecision)
| HFollowUp (ctx : Context) (mediaID : Z) (goal : option string) (question : string) (mode : AnalysisMode) : HttpE (res string)
| HEvidenceSearch (ctx : Context) (mediaID : Z) (query : string) : HttpE (res (list EvidenceHit))
| HSaveFeedback (ctx : Context) (fb : AgentFeedback) : HttpE (res unit)
| HLoadFeedback (ctx : Context) (mediaID : Z) : HttpE (res (list AgentFeedback))
| HPlan (ctx : Context) (mediaID : Z) (goal : string) (mode : AnalysisMode) : HttpE (res (option Plan))
| HEvaluation (ctx : Context) (mediaID : Z) (goal : string) (mode : AnalysisMode) : HttpE (res (option document))
| HTrace (ctx : Context) (mediaID : Z) (goal : string) (mode : AnalysisMode) : HttpE (res (option document))
| HSubscribe (mediaID : Z) (typ goal : string) (mode : AnalysisMode) (initial : TaskStatus) (stage : TaskStage) : HttpE (res nat)
| HClose (sub : nat) : HttpE unit
| HSelect (sub : nat) : HttpE selected
| HWrite (frame : string) : HttpE (res unit)
| HInstantNow : HttpE string
| HPoolSubmit : HttpE (res unit)
| HAwait : HttpE awaited.

(** ** Replies (middleware.go) *)

Inductive payload :=
| PText (s : string) | PChunks (l : list Z) | PSummary (m : MediaSummary) | PSummaries (l : list MediaSummary)
| PStatus (st : TaskStatus) | PRoute (d : RouteDecision) | PHits (l : list EvidenceHit) | PFeedback (l : list AgentFeedback)
| PPlan (p : Plan) | PDocument (d : document) | PTasks (l : list FailedTaskView) | PChallenge (ch : Challenge)
| PAuth (user : option UserInfo) (token : option string)
| PAuthConfig (inviteOnly : bool) (demo : option (string * string)) (limited : bool).

Inductive body := Envelope (r : Result payload) | Plain (s : string) | File (content : string) | Streamed.

Record reply := mkReply { rp_Status : Z; rp_Headers : list (string * string); rp_Body : body }.

Definition UserHeader : string := "X-Vparser-User".
Definition CodeHeader : string := "X-Vparser-Code".

(** [common.MarshalNoEscape] succeeds on a result; the text it makes of an event. *)
Class JsonEncoder := {
  encodable : Result payload -> bool;
  marshalEvent : TaskEvent -> res string }.

Definition encodeFailed : string :=
  replace_byte "'" (ascii_of_Z 34) "{'code':50000,'message':'服务暂时不可用','data':null}".

Definition addHeaders (hs : list (string * string)) (r : reply) : reply :=
  mkReply (rp_Status r) (hs ++ rp_Headers r) (rp_Body r).

Section replies.
Context `{JsonEncoder}.

Definition writeJSON (status : Z) (r : Result payload) : reply :=
  if encodable r then mkReply status [] (Envelope r) else mkReply 500 [] (Plain encodeFailed).

Definition ok (data : option payload) : reply := writeJSON 200 (OkResult data).
Definition okVoid : reply := ok None.
Definition accepted : reply := writeJSON 202 OkVoid.

Definition fail (err : gerror) : reply :=
  let '(status, r) := ToHTTP err in addHeaders [(CodeHeader, Itoa (res_code r))] (writeJSON status r).

(** [x, err := p; if err != nil { fail(c, err); return }; q] *)
Definition or_fail {A} (p : proc HttpE (res A)) (k : A -> proc HttpE reply) : proc HttpE reply :=
  bind p (fun r => match r with Err e => Ret (fail e) | Ok a => k a end).

(** A step that makes no call. *)
Definition pure {A} (r : res A) : proc HttpE (res A) := Ret r.

(** ** Configuration of the [API] *)

End replies.

Notation "x '←!' p ; q" := (or_fail p (fun x => q))
  (at level 20, p at level 100, q at level 200, right associativity, only parsing) : proc_scope.

Class ApiConfig := {
  InviteOnly : bool; DemoUsername : string; DemoPassword : string; demoLimited : bool; CORSOrigins : list string }.

Section api.
Context `{JsonEncoder, JsonBody, Validator, ApiConfig}.

(** ** Interactive calls (api.go) *)

Definition busyMsg : string := "AI 请求较多，请稍后再试".
Definition timeoutMsg : string := "AI 请求处理超时，请稍后再试".

(** [runInteractive]: the task's own calls are part of the run also when its answer comes too late. *)
Definition runInteractive {T} (fn : proc HttpE (res T)) : proc HttpE (res T) :=
  Do HPoolSubmit (fun r =>
  match r with
  | Err _ => Ret (Err (Business CodeServiceUnavailable busyMsg))
  | Ok _ =>
      Do HAwait (fun o =>
      match o with
      | Delivered => fn
      | Late => bind fn (fun _ => Ret (Err (Business CodeServiceUnavailable timeoutMsg)))
      | NotBegun => Ret (Err (Business CodeServiceUnavailable timeoutMsg))
      end)
  end).

(** ** Accounts (handlers_user.go) *)

Definition mapAuthCode (code : Z) : ErrorCode :=
  if code =? 400 then CodeInvalidArgument
  else if code =? 401 then CodeUnauthorized
  else if code =? 403 then CodeInviteRequired
  else if code =? 409 then CodeConflict
  else if code =? 429 then CodeRateLimited
  else CodeInternalError.

Definition authResult (resp : AuthResponse) : reply :=
  addHeaders (match as_UserInfo resp with Some u => [(UserHeader, FormatInt (ui_ID u))] | None => [] end)
    (if negb (as_Code resp =? 200) then fail (Business (mapAuthCode (as_Code resp)) (as_Msg resp))
     else ok (Some (PAuth (as_UserInfo resp)
                (if negb (String.eqb (as_Token resp) "") then Some (as_Token resp) else None)))).

Definition attemptHeader (username : option string) : list (string * string) :=
  match username with
  | Some username =>
      let name := TrimSpace username in
      [("X-Vparser-Attempt", QueryEscape (if 32 <? strlen name then str_take 32 name else name))]
  | None => []
  end.

Definition authConfig : reply :=
  ok (Some (PAuthConfig InviteOnly
        (if negb (String.eqb DemoUsername "") then Some (DemoUsername, DemoPassword) else None) demoLimited)).

(** [register] and [login] after the body was validated. *)
Definition answerAuth (username : option string) (p : proc HttpE (res AuthResponse)) : proc HttpE reply :=
  bind (resp ←! p; Ret (authResult resp)) (fun r => Ret (addHeaders (attemptHeader username) r)).

Definition register (ctx : Context) (c : request) : proc HttpE reply :=
  req ←! pure (decodeBody decodeAuth c);
  _ ←! pure (validateStruct (registerForm req));
  answerAuth (ar_Username req) (call (HRegister ctx req)).

Definition login (ctx : Context) (c : request) : proc HttpE reply :=
  req ←! pure (decodeBody decodeAuth c);
  _ ←! pure (validateStruct (loginForm (ar_Username req) (ar_Password req)));
  answerAuth (ar_Username req) (call (HLogin ctx req)).

Definition logout (ctx : Context) (c : request) : proc HttpE reply :=
  _ ←! call (HRevokeSession ctx (rq_Header c "Authorization"));
  Ret okVoid.

(** ** Media (handlers_media.go) *)

Definition formFile (c : request) (name : string) : res FileHeader :=
  match rq_File c name with
  | Ok fh => Ok fh
  | Err true => Err (InvalidArgument "上传文件超过大小限制")
  | Err false => Err errBadParam
  end.

(** The handlers below run for the signed-in caller [uid]. *)
Context (ctx : Context) (uid : Z) (c : request).

Definition initUpload : proc HttpE reply :=
  filename ←! pure (requiredString c "filename");
  total ←! pure (requiredInt c "totalChunks");
  id ←! call (HInitialize ctx filename total uid);
  Ret (ok (Some (PText id))).

Definition uploadStatus : proc HttpE reply :=
  uploadID ←! pure (requiredString c "uploadId");
  chunks ←! call (HUploadedChunks ctx uploadID uid);
  Ret (ok (Some (PChunks chunks))).

Definition uploadChunk : proc HttpE reply :=
  uploadID ←! pure (requiredString c "uploadId");
  idx ←! pure (requiredInt c "chunkIndex");
  total ←! pure (requiredInt c "totalChunks");
  fh ←! pure (formFile c "file");
  _ ←! call (HUploadChunk ctx uploadID idx total fh uid);
  Ret okVoid.

Definition completeUpload : proc HttpE reply :=
  uploadID ←! pure (requiredString c "uploadId");
  mf ←! call (HComplete ctx uploadID uid);
  Ret (ok (Some (PSummary (SummaryOf mf)))).

Definition uploadFile : proc HttpE reply :=
  fh ←! pure (formFile c "file");
  mf ←! call (HIngestFile ctx fh uid);
  Ret (ok (Some (PSummary (SummaryOf mf)))).

(** The link a visitor asked to import, escaped, at most 300 bytes of it. *)
Definition sourceHeader (raw : string) : list (string * string) :=
  let raw := TrimSpace raw in
  [("X-Vparser-Source", QueryEscape (if 300 <? strlen raw then str_take 300 raw else raw))].

Definition uploadURL : proc HttpE reply :=
  raw ←! pure (requiredString c "url");
  bind (mf ←! call (HIngestURL (WithoutCancel ctx) raw uid); Ret (ok (Some (PSummary (SummaryOf mf)))))
    (fun r => Ret (addHeaders (sourceHeader raw) r)).

Definition listMedia : proc HttpE reply :=
  list ←! call (HListByUser ctx uid);
  Ret (ok (Some (PSummaries (map SummaryOf list)))).

Definition playback : proc HttpE reply :=
  id ←! pure (requiredInt64 c "id");
  mf ←! call (HRequireOwnedMedia ctx id uid);
  src ←! call (HPlaybackURL ctx (mf_FilePath mf));
  Ret (ok (Some (PText src))).

Definition deleteMedia : proc HttpE reply :=
  id ←! pure (requiredInt64 c "id");
  _ ←! call (HDeleteOwnedMedia ctx id uid);
  Ret okVoid.

Definition transcribe : proc HttpE reply :=
  id ←! pure (requiredInt64 c "id");
  _ ←! call (HRequireOwnedMedia ctx id uid);
  queued ←! call (HQueue ctx id);
  if negb queued then Ret (fail (Business CodeConflict "文字提取任务正在处理中"))
  else
    Do (HTranscribe id) (fun r =>
    match r with
    | Err _ =>
        Do (HRejectQueued ctx id) (fun _ => Ret (fail (Business CodeServiceUnavailable "任务队列已满，请稍后重试")))
    | Ok _ => Ret accepted
    end).

Definition transcriptionStatus : proc HttpE reply :=
  id ←! pure (requiredInt64 c "id");
  mf ←! call (HRequireOwnedMedia ctx id uid);
  st ←! call (HTranscriptionStatus ctx mf);
  Ret (ok (Some (PStatus st))).

(** [extRe.ReplaceAllString(name, "")] for [\.[^.]+$]. *)
Definition dropExtension (name : string) : string :=
  match LastIndexByte name "." with
  | Some i => if Nat.ltb (S i) (String.length name) then str_take i name else name
  | None => name
  end.

Definition download : proc HttpE reply :=
  id ←! pure (requiredInt64 c "id");
  mf ←! call (HRequireOwnedMedia ctx id uid);
  out ←! call (HExportMP3 ctx mf);
  Do (HOpen out) (fun f =>
  Do (HRemove out) (fun _ => (* deferred *)
  match f with
  | Err e => Ret (fail e)
  | Ok f =>
      let filename := if negb (String.eqb (mf_Filename mf) "") then dropExtension (mf_Filename mf) +:+ ".mp3" else "audio.mp3" in
      Ret (mkReply 200
        [("Content-Type", "audio/mpeg");
         ("Content-Disposition", "attachment; filename*=UTF-8''" +:+ formURLEncode filename)] (File f))
  end)).

Definition instantUploadChallenge : proc HttpE reply :=
  req ←! pure (decodeBody decodeChallenge c);
  ch ←! call (HChallenge ctx uid req);
  Ret (ok (PChallenge <$> ch)).

Definition instantUpload : proc HttpE reply :=
  req ←! pure (decodeBody decodeProof c);
  mf ←! call (HProve ctx uid req);
  Ret (ok (Some (PSummary (SummaryOf mf)))).

(** ** Streams (handlers_analysis.go) *)

(** The loop of [streamEvents], [fuel] turns of it; [false] when it has not returned by then. *)
Fixpoint streamLoop (fuel : nat) (sub : nat) : proc HttpE bool :=
  match fuel with
  | O => Ret false
  | S fuel =>
      Do (HSelect sub) (fun s =>
      match s with
      | Event ev =>
          match marshalEvent ev with
          | Err _ => Ret true
          | Ok b =>
              Do (HWrite ("event:task-status" +:+ char 10 +:+ "data:" +:+ b +:+ char 10 +:+ char 10)) (fun w =>
              match w with
              | Err _ => Ret true
              | Ok _ => if Terminal ev then Ret true else streamLoop fuel sub
              end)
          end
      | TimedOut | RequestDone | ShuttingDown => Ret true
      end)
  end.

Definition streamHeaders : list (string * string) :=
  [("Content-Type", "text/event-stream;charset=UTF-8"); ("Cache-Control", "no-cache"); ("X-Accel-Buffering", "no")].

(** [None]: still streaming after [fuel] turns. *)
Definition streamEvents (fuel : nat) (sub : nat) : proc HttpE (option reply) :=
  bind (streamLoop fuel sub) (fun returned =>
  if negb returned then Ret None
  else Do (HClose sub) (fun _ => (* deferred *) Ret (Some (mkReply 200 streamHeaders Streamed)))).

(** A handler that ends in a stream: the reply, or the subscription to stream from. *)
Definition or_fail_stream {A} (p : proc HttpE (res A)) (k : A -> proc HttpE (reply + nat)) : proc HttpE (reply + nat) :=
  bind p (fun r => match r with Err e => Ret (inl (fail e)) | Ok a => k a end).

Definition transcriptionEvents : proc HttpE (reply + nat) :=
  or_fail_stream (pure (requiredInt64 c "id")) (fun id =>
  or_fail_stream (call (HRequireOwnedMedia ctx id uid)) (fun mf =>
  or_fail_stream (call (HTranscriptionStatus ctx mf)) (fun st =>
  or_fail_stream (call (HSubscribe id TypeTranscription "" ModeGeneral st StageTranscription)) (fun sub =>
  Ret (inr sub))))).

(** ** Analysis (handlers_analysis.go) *)

Definition requireVideoContext (mediaID : Z) : proc HttpE (res unit) :=
  vc ←? call (HLoadContext ctx mediaID);
  match vc with None => Ret (Err NotReady) | Some _ => Ret (Ok tt) end.

Definition tryRouteQuota : proc HttpE bool :=
  Do (HTakeRoute ctx ScopeRoute uid RouteUser RouteGlobal) (fun r =>
  Ret (match r with Err _ => false | Ok b => b end)).

(** A dereference of a pointer the code does not test. *)
Definition the {A} (p : option A) (k : A -> proc HttpE reply) : proc HttpE reply :=
  match p with None => Panic "nil pointer dereference" | Some a => k a end.

Definition route : proc HttpE reply :=
  req ←! pure (decodeBody decodeRoute c);
  _ ←! pure (validateStruct (routeForm req));
  the (rr_Goal req) (fun goal =>
  goal ←! pure (normalizeText goal "分析目标");
  Do (HBillingCheck ctx uid) (fun r =>
  match r with
  | Err _ => Ret (ok (Some (PRoute (NewRouteDecision ModeGeneral "今日额度已用完,已按通用模式分析"))))
  | Ok _ =>
      bind tryRouteQuota (fun allowed =>
      if negb allowed then Ret (ok (Some (PRoute (NewRouteDecision ModeGeneral "自动路由当前繁忙,已按通用模式分析"))))
      else
        Do (HClassifyMode ctx goal) (fun dec =>
        match dec with
        | Err _ => Ret (ok (Some (PRoute (NewRouteDecision ModeGeneral "意图识别暂不可用,已按通用模式分析"))))
        | Ok dec => Ret (ok (Some (PRoute dec)))
        end))
  end)).

Definition submissionResponse (res : SubmissionResult) : reply :=
  match res with
  | Accepted => accepted
  | RateLimited => fail (Business CodeRateLimited "系统繁忙，请稍后再试")
  | Duplicate => fail (Business CodeConflict "相同视频和分析目标正在处理中")
  | Failed => fail (Business CodeInternalError "任务提交失败")
  end.

Definition defaultGoal : string := "理解视频核心内容并生成结构化分析报告".

Definition aiAnalyze : proc HttpE reply :=
  id ←! pure (requiredInt64 c "id");
  goal ←! pure (normalizeText (stringWithDefault c "goal" defaultGoal) "分析目标");
  mode ←! pure (modeParam c);
  mf ←! call (HRequireOwnedMedia ctx id uid);
  res ←! call (HLoadResult ctx id goal mode);
  match res with
  | Some _ => Ret okVoid
  | None =>
      sub ←! call (HSubmit ctx mf goal None mode);
      Ret (submissionResponse sub)
  end.

Definition followUp : proc HttpE reply :=
  id ←! pure (requiredInt64 c "id");
  q ←! pure (requiredString c "question");
  let goalRaw := match optionalString c "goal" with Some v => v | None => "" end in
  question ←! pure (normalizeText q "追问内容");
  goal ←! pure (if is_blank goalRaw then Ok None
                else match normalizeText goalRaw "原始分析目标" with Err e => Err e | Ok g => Ok (Some g) end);
  _ ←! call (HRequireOwnedMedia ctx id uid);
  _ ←! requireVideoContext id;
  _ ←! call (HRequireAiQuota ctx uid);
  mode ←! pure (modeParam c);
  answer ←! runInteractive (call (HFollowUp ctx id goal question mode));
  Ret (ok (Some (PText answer))).

Definition evidenceSearch : proc HttpE reply :=
  id ←! pure (requiredInt64 c "id");
  q ←! pure (requiredString c "query");
  _ ←! call (HRequireOwnedMedia ctx id uid);
  _ ←! requireVideoContext id;
  _ ←! call (HRequireAiQuota ctx uid);
  query ←! pure (normalizeText q "检索问题");
  hits ←! runInteractive (call (HEvidenceSearch ctx id query));
  Ret (ok (Some (PHits hits))).

Definition ensureRating (fb : AgentFeedback) : res unit :=
  match fb_Rating fb with
  | Some r => if negb (r =? -1) && negb (r =? 1) then Err (Business CodeInvalidArgument "rating 只能是 -1 或 1") else Ok tt
  | None => Ok tt
  end.

(** The time [Normalized] reads for feedback without a creation time. *)
Definition feedbackNow (fb : AgentFeedback) : proc HttpE string :=
  match fb_CreatedAt fb with Some _ => Ret "" | None => call HInstantNow end.

Definition saveFeedback : proc HttpE reply :=
  fb ←! pure (decodeBody decodeFeedback c);
  _ ←! pure (validateStruct (feedbackForm fb));
  _ ←! pure (ensureRating fb);
  the (fb_MediaID fb) (fun mediaID =>
  _ ←! call (HRequireOwnedMedia ctx mediaID uid);
  mode ←! pure (ModeFromRequest (deref (fb_Mode fb)));
  bind (feedbackNow fb) (fun now =>
  _ ←! call (HSaveFeedback ctx (Normalized now mode fb));
  Ret okVoid)).

Definition reviseAgentResult : proc HttpE reply :=
  fb ←! pure (decodeBody decodeFeedback c);
  _ ←! pure (validateStruct (feedbackForm fb));
  _ ←! pure (ensureRating fb);
  the (fb_MediaID fb) (fun mediaID =>
  mf ←! call (HRequireOwnedMedia ctx mediaID uid);
  bind (feedbackNow fb) (fun now =>
  let revisedGoal := RevisionGoal now fb in
  mode ←! pure (modeParam c);
  res ←! call (HSubmit ctx mf revisedGoal (Some fb) mode);
  Ret (submissionResponse res))).

Definition loadFeedback : proc HttpE reply :=
  id ←! pure (requiredInt64 c "id");
  _ ←! call (HRequireOwnedMedia ctx id uid);
  items ←! call (HLoadFeedback ctx id);
  Ret (ok (Some (PFeedback items))).

Definition goalTarget : proc HttpE (res (Z * string * AnalysisMode)) :=
  id ←? pure (requiredInt64 c "id");
  goalRaw ←? pure (requiredString c "goal");
  _ ←? call (HRequireOwnedMedia ctx id uid);
  goal ←? pure (normalizeText goalRaw "分析目标");
  mode ←? pure (modeParam c);
  Ret (Ok (id, goal, mode)).

Definition agentPlan : proc HttpE reply :=
  or_fail goalTarget (fun '(id, goal, mode) =>
  plan ←! call (HPlan ctx id goal mode);
  Ret (ok (PPlan <$> plan))).

Definition okDocument (doc : option document) : reply := ok (PDocument <$> doc).

Definition agentEvaluation : proc HttpE reply :=
  or_fail goalTarget (fun '(id, goal, mode) =>
  doc ←! call (HEvaluation ctx id goal mode);
  Ret (okDocument doc)).

Definition agentTrace : proc HttpE reply :=
  or_fail goalTarget (fun '(id, goal, mode) =>
  doc ←! call (HTrace ctx id goal mode);
  Ret (okDocument doc)).

Definition analysisStatus : proc HttpE reply :=
  or_fail goalTarget (fun '(id, goal, mode) =>
  st ←! call (HCurrent ctx id goal mode);
  Ret (ok (Some (PStatus st)))).

Definition analysisEvents : proc HttpE (reply + nat) :=
  or_fail_stream goalTarget (fun '(id, goal, mode) =>
  or_fail_stream (call (HCurrent ctx id goal mode)) (fun st =>
  or_fail_stream (call (HStage ctx id goal mode)) (fun stage =>
  or_fail_stream (call (HSubscribe id TypeAnalysis goal mode st stage)) (fun sub =>
  Ret (inr sub))))).

(** ** Administration *)

Definition failedLatest : proc HttpE reply :=
  _ ←! call (HRequireAdmin ctx uid);
  tasks ←! call (HLatest ctx);
  Ret (ok (Some (PTasks (map FailedViewOf tasks)))).

Definition failedReplay : proc HttpE reply :=
  _ ←! call (HRequireAdmin ctx uid);
  id ←! pure (parsePathID (rq_Param c "id"));
  _ ←! call (HReplay ctx id);
  Ret accepted.

End api.

(** ** Routing (api.go) and the middleware in front of it *)

Inductive endpoint :=
| Health | Metrics | AuthConfig | Register_ | Login_ | Logout
| InitUpload | UploadStatus | UploadChunk_ | CompleteUpload | UploadFile | UploadURL | InstantChallenge | InstantUpload
| ListMedia | Playback | DeleteMedia
| Route | AiAnalyze | FollowUp' | EvidenceSearch' | SaveFeedback' | ReviseResult | LoadFeedback' | AgentPlan
| AnalysisStatus | AnalysisEvents | AgentEvaluation | AgentTrace | Transcribe_ | TranscriptionStatus
| TranscriptionEvents | Download | FailedLatest_ | FailedReplay.

(** Method, path and handler; the third group argument of the source is [signedIn]. *)
Definition routes : list (string * string * endpoint) :=
  [("GET", "/health", Health); ("GET", "/metrics", Metrics);
   ("GET", "/user/auth-config", AuthConfig); ("POST", "/user/register", Register_);
   ("POST", "/user/login", Login_); ("POST", "/user/logout", Logout);
   ("POST", "/media/init-upload", InitUpload); ("GET", "/media/upload-status", UploadStatus);
   ("POST", "/media/upload-chunk", UploadChunk_); ("POST", "/media/complete-upload", CompleteUpload);
   ("POST", "/media/upload", UploadFile); ("POST", "/media/upload-url", UploadURL);
   ("POST", "/media/instant-upload/challenge", InstantChallenge); ("POST", "/media/instant-upload", InstantUpload);
   ("GET", "/media/list", ListMedia); ("GET", "/media/playback", Playback); ("DELETE", "/media/delete", DeleteMedia);
   ("POST", "/analysis/route", Route); ("POST", "/analysis/ai", AiAnalyze); ("POST", "/analysis/follow-up", FollowUp');
   ("GET", "/analysis/evidence-search", EvidenceSearch'); ("POST", "/analysis/agent-feedback", SaveFeedback');
   ("POST", "/analysis/agent-revise", ReviseResult); ("GET", "/analysis/agent-feedback", LoadFeedback');
   ("GET", "/analysis/agent-plan", AgentPlan); ("GET", "/analysis/analysis-status", AnalysisStatus);
   ("GET", "/analysis/analysis-events", AnalysisEvents); ("GET", "/analysis/agent-evaluation", AgentEvaluation);
   ("GET", "/analysis/agent-trace", AgentTrace); ("POST", "/analysis/transcribe", Transcribe_);
   ("GET", "/analysis/transcription-status", TranscriptionStatus);
   ("GET", "/analysis/transcription-events", TranscriptionEvents); ("GET", "/analysis/download", Download);
   ("GET", "/admin/failed-analysis", FailedLatest_); ("POST", "/admin/failed-analysis/:id/replay", FailedReplay)].

(** The routes registered behind [authRequired]. *)
Definition signedIn (e : endpoint) : bool :=
  match e with Health | Metrics | AuthConfig | Register_ | Login_ => false | _ => true end.

Section router.
Context `{JsonEncoder, JsonBody, Validator, ApiConfig, FoldTable}.

(** The text of the metrics registry. *)
Context (metrics : string).

Definition handler (ctx : Context) (uid : Z) (c : request) (e : endpoint) : proc HttpE (reply + nat) :=
  let plain p := bind p (fun r => Ret (inl r)) in
  match e with
  | Health => Ret (inl (ok (Some (PText "UP"))))
  | Metrics => Ret (inl (mkReply 200 [] (Plain metrics)))
  | AuthConfig => Ret (inl authConfig)
  | Register_ => plain (register ctx c)
  | Login_ => plain (login ctx c)
  | Logout => plain (logout ctx c)
  | InitUpload => plain (initUpload ctx uid c)
  | UploadStatus => plain (uploadStatus ctx uid c)
  | UploadChunk_ => plain (uploadChunk ctx uid c)
  | CompleteUpload => plain (completeUpload ctx uid c)
  | UploadFile => plain (uploadFile ctx uid c)
  | UploadURL => plain (uploadURL ctx uid c)
  | InstantChallenge => plain (instantUploadChallenge ctx uid c)
  | InstantUpload => plain (instantUpload ctx uid c)
  | ListMedia => plain (listMedia ctx uid)
  | Playback => plain (playback ctx uid c)
  | DeleteMedia => plain (deleteMedia ctx uid c)
  | Route => plain (route ctx uid c)
  | AiAnalyze => plain (aiAnalyze ctx uid c)
  | FollowUp' => plain (followUp ctx uid c)
  | EvidenceSearch' => plain (evidenceSearch ctx uid c)
  | SaveFeedback' => plain (saveFeedback ctx uid c)
  | ReviseResult => plain (reviseAgentResult ctx uid c)
  | LoadFeedback' => plain (loadFeedback ctx uid c)
  | AgentPlan => plain (agentPlan ctx uid c)
  | AnalysisStatus => plain (analysisStatus ctx uid c)
  | AnalysisEvents => analysisEvents ctx uid c
  | AgentEvaluation => plain (agentEvaluation ctx uid c)
  | AgentTrace => plain (agentTrace ctx uid c)
  | Transcribe_ => plain (transcribe ctx uid c)
  | TranscriptionStatus => plain (transcriptionStatus ctx uid c)
  | TranscriptionEvents => transcriptionEvents ctx uid c
  | Download => plain (download ctx uid c)
  | FailedLatest_ => plain (failedLatest ctx uid)
  | FailedReplay => plain (failedReplay ctx uid c)
  end.

(** What [authRequired] answers when the session does not resolve. *)
Definition refusal (e : gerror) : reply :=
  if HasErr e KindForbidden then writeJSON 401 (FailResult CodeUnauthorized (ErrorString e)) else fail e.

Definition authRequired (c : request) (next : Context -> Z -> proc HttpE (reply + nat))
  : proc HttpE (list (string * string) * (reply + nat)) :=
  if String.eqb (rq_Method c) "OPTIONS" then bind (next RequestContext 0) (fun r => Ret ([], r))
  else
    Do (HResolveUser RequestContext (rq_Header c "Authorization")) (fun r =>
    match r with
    | Err e => Ret ([], inl (refusal e))
    | Ok id => bind (next (WithUser RequestContext id) id) (fun r => Ret ([(UserHeader, FormatInt id)], r))
    end).

(** The deferred function of [recovery]: a panic before anything was written becomes [answer]. *)
Fixpoint recovery {A} (answer : A) (next : proc HttpE A) : proc HttpE A :=
  match next with
  | Ret a => Ret a
  | Do c k => Do c (fun x => recovery answer (k x))
  | Panic _ => Ret answer
  end.

(** A program that does not panic is not changed by it. *)
Lemma recovery_wp {A} (answer : A) (p : proc HttpE A) Q : wp p Q -> wp (recovery answer p) Q.
Proof. revert Q. induction p as [a|X c k IH|why]; cbn; intros Q Hp; [done| |done]. intros x. by apply IH. Qed.

(** Nothing that [recovery] guards panics. *)
Lemma recovery_total {A} (answer : A) (p : proc HttpE A) : wp (recovery answer p) (fun _ _ => True).
Proof. induction p as [a|X c k IH|why]; cbn; [done| |done]. intros x. eapply wp_mono; [apply IH|]. done. Qed.

Definition panicked : reply := writeJSON 500 (FailResult CodeInternalError "服务暂时不可用").

(** What gin's router finds for the request. *)
Inductive matched := NoRoute | NoMethod | Found (e : endpoint).

(** One request: CORS, routing, authentication, the handler, and the stream it may end in, of which [fuel]
    turns are run. CORS and authentication set their headers before the handler runs and do nothing after
    it, so that a panic caught outside of them is the panic caught here, with their headers. *)
Definition serve (fuel : nat) (c : request) (m : matched) : proc HttpE (option reply) :=
  match cors CORSOrigins c with
  | Answer status headers b => Ret (Some (mkReply status headers (Plain b)))
  | Next headers =>
      bind (match m with
            | NoRoute => Ret ([], inl (writeJSON 404 (FailResult CodeNotFound "资源不存在")))
            | NoMethod => Ret ([], inl (writeJSON 405 (FailResult CodeInvalidArgument "请求方法不被支持")))
            | Found e =>
                let run ctx uid := recovery (inl panicked) (handler ctx uid c e) in
                if signedIn e then authRequired c run else bind (run RequestContext 0) (fun r => Ret ([], r))
            end) (fun '(user, r) =>
      match r with
      | inl r => Ret (Some (addHeaders (headers ++ user) r))
      | inr sub => bind (streamEvents fuel sub) (fun r => Ret (addHeaders (headers ++ user) <$> r))
      end)
  end.

End router.
