(* ===== verification/HttpAccess.v ===== *)
(** * Access and streams of the HTTP layer

    What a request may touch: every call of a handler is checked against what was established about the
    caller before it ([needs], [grant], [authorised]), with one rule per construct of the handlers; and what
    a stream shows. *)

From S2P Require Import Prelude GoStrings Proc Errors Model GoContext Billing TaskEvents AgentClient AgentRpc.
From S2P Require Import Dispatch Store Upload HttpParams HttpApi.

Local Open Scope string_scope.
Local Open Scope list_scope.
Local Open Scope Z_scope.

(** ** Authorisation *)

(** What the calls made so far established about the caller. *)
Record grants := mkGrants {
  g_ids : list Z;          (* media the caller owns *)
  g_rows : list MediaFile; (* the rows read with that check *)
  g_contexts : list Z;     (* media with a parsed context *)
  g_files : list string;   (* temporary files made for the caller *)
  g_subs : list nat;       (* event subscriptions of the request *)
  g_admin : bool;          (* the caller is an administrator *)
  g_quota : bool;          (* the analysis quota was charged *)
  g_allowance : bool;      (* the daily allowance is not used up *)
  g_route : bool           (* the routing quota was charged *) }.

Definition nothing : grants := mkGrants [] [] [] [] [] false false false false.

Definition grant (g : grants) (X : Type) (c : HttpE X) : X -> grants :=
  match c in HttpE X return X -> grants with
  | HRequireOwnedMedia _ id _ => fun r =>
      match r with Ok mf => mkGrants (id :: g_ids g) (mf :: g_rows g) (g_contexts g) (g_files g) (g_subs g)
                             (g_admin g) (g_quota g) (g_allowance g) (g_route g) | Err _ => g end
  | HLoadContext _ id => fun r =>
      match r with Ok (Some _) => mkGrants (g_ids g) (g_rows g) (id :: g_contexts g) (g_files g) (g_subs g)
                                    (g_admin g) (g_quota g) (g_allowance g) (g_route g) | _ => g end
  | HExportMP3 _ _ => fun r =>
      match r with Ok f => mkGrants (g_ids g) (g_rows g) (g_contexts g) (f :: g_files g) (g_subs g)
                             (g_admin g) (g_quota g) (g_allowance g) (g_route g) | Err _ => g end
  | HSubscribe _ _ _ _ _ _ => fun r =>
      match r with Ok s => mkGrants (g_ids g) (g_rows g) (g_contexts g) (g_files g) (s :: g_subs g)
                             (g_admin g) (g_quota g) (g_allowance g) (g_route g) | Err _ => g end
  | HRequireAdmin _ _ => fun r =>
      match r with Ok _ => mkGrants (g_ids g) (g_rows g) (g_contexts g) (g_files g) (g_subs g)
                             true (g_quota g) (g_allowance g) (g_route g) | Err _ => g end
  | HRequireAiQuota _ _ => fun r =>
      match r with Ok _ => mkGrants (g_ids g) (g_rows g) (g_contexts g) (g_files g) (g_subs g)
                             (g_admin g) true (g_allowance g) (g_route g) | Err _ => g end
  | HBillingCheck _ _ => fun r =>
      match r with Ok _ => mkGrants (g_ids g) (g_rows g) (g_contexts g) (g_files g) (g_subs g)
                             (g_admin g) (g_quota g) true (g_route g) | Err _ => g end
  | HTakeRoute _ _ _ _ _ => fun r =>
      match r with Ok true => mkGrants (g_ids g) (g_rows g) (g_contexts g) (g_files g) (g_subs g)
                                (g_admin g) (g_quota g) (g_allowance g) true | _ => g end
  | _ => fun _ => g
  end.

(** What a call needs: the caller's own id, a media file the caller was found to own, and for the calls that
    cost money or serve administrators also that. *)
Definition needs (uid : Z) (g : grants) (X : Type) (c : HttpE X) : Prop :=
  match c with
  | HResolveUser _ _ => False
  | HInitialize _ _ _ u | HUploadedChunks _ _ u | HUploadChunk _ _ _ _ _ u | HComplete _ _ u | HChallenge _ u _
  | HProve _ u _ | HIngestFile _ _ u | HIngestURL _ _ u | HListByUser _ u | HRequireOwnedMedia _ _ u
  | HDeleteOwnedMedia _ _ u | HRequireAdmin _ u | HBillingCheck _ u | HTakeRoute _ _ u _ _ | HRequireAiQuota _ u => u = uid
  | HPlaybackURL _ path => exists mf, In mf (g_rows g) /\ path = mf_FilePath mf
  | HExportMP3 _ mf | HTranscriptionStatus _ mf | HSubmit _ mf _ _ _ => In mf (g_rows g)
  | HOpen path | HRemove path => In path (g_files g)
  | HQueue _ id | HTranscribe id | HRejectQueued _ id | HLoadResult _ id _ _ | HCurrent _ id _ _ | HStage _ id _ _
  | HLoadContext _ id | HLoadFeedback _ id | HPlan _ id _ _ | HEvaluation _ id _ _ | HTrace _ id _ _
  | HSubscribe id _ _ _ _ _ => In id (g_ids g)
  | HSaveFeedback _ fb => exists id, In id (g_ids g) /\ fb_MediaID fb = Some id
  | HFollowUp _ id _ _ _ | HEvidenceSearch _ id _ => In id (g_ids g) /\ In id (g_contexts g) /\ g_quota g = true
  | HClassifyMode _ _ => g_allowance g = true /\ g_route g = true
  | HLatest _ | HReplay _ _ => g_admin g = true
  | HClose s | HSelect s => In s (g_subs g)
  | _ => True
  end.

Fixpoint authorised (uid : Z) (g : grants) (tr : trace HttpE) : Prop :=
  match tr with
  | [] => True
  | Ev c x :: tr => needs uid g _ c /\ authorised uid (grant g _ c x) tr
  end.

Fixpoint granted (g : grants) (tr : trace HttpE) : grants :=
  match tr with [] => g | Ev c x :: tr => granted (grant g _ c x) tr end.

Lemma authorised_app uid g tr tr' :
  authorised uid g (tr ++ tr') <-> authorised uid g tr /\ authorised uid (granted g tr) tr'.
Proof. revert g. induction tr as [|[X c x] tr IH]; intros g; cbn [app authorised granted]; [tauto|]. rewrite IH. tauto. Qed.

(** [safe uid g p Q]: starting with the grants [g], every call of [p] is authorised, and [p] ends without a
    panic in grants and a result that satisfy [Q]. *)
Definition safe (uid : Z) (g : grants) {A} (p : proc HttpE A) (Q : grants -> A -> Prop) : Prop :=
  wp p (fun tr a => authorised uid g tr /\ Q (granted g tr) a).

Section rules.
Context (uid : Z).

Lemma safe_ret g {A} (a : A) Q : Q g a -> safe uid g (Ret a) Q.
Proof. by intros. Qed.

Lemma safe_do g {X A} (c : HttpE X) (k : X -> proc HttpE A) Q :
  needs uid g X c -> (forall x, safe uid (grant g X c x) (k x) Q) -> safe uid g (Do c k) Q.
Proof. intros Hn Hk x. eapply wp_mono; [apply Hk|]. intros tr a [Ha HQ]. by split. Qed.

Lemma safe_bind g {A B} (p : proc HttpE A) (f : A -> proc HttpE B) Q :
  safe uid g p (fun g' a => safe uid g' (f a) Q) -> safe uid g (bind p f) Q.
Proof.
  intros H. apply wp_bind. eapply wp_mono; [exact H|]. intros tr a [Ha Hf]. eapply wp_mono; [exact Hf|].
  intros tr' b [Hb HQ]. rewrite authorised_app. split; [done|]. revert HQ. generalize b. clear -Ha.
  assert (granted g (tr ++ tr') = granted (granted g tr) tr') as ->; [|done].
  clear. revert g. induction tr as [|[X c x] tr IH]; intros g; [done|]. apply IH.
Qed.

Lemma safe_mono g {A} (p : proc HttpE A) (Q R : grants -> A -> Prop) :
  safe uid g p Q -> (forall g' a, Q g' a -> R g' a) -> safe uid g p R.
Proof. intros H HQ. eapply wp_mono; [exact H|]. intros tr a [? ?]. auto. Qed.

End rules.

Section authorisation.
Context `{JsonEncoder, JsonBody, ApiConfig, FoldTable, ValidatorLaws}.

Lemma validateStruct_ok v u : validateStruct v = Ok u -> structErrors v = [].
Proof. unfold validateStruct. destruct (structErrors v); [done|discriminate]. Qed.

(** Nothing is claimed about the reply. *)
Definition any {A} (_ : grants) (_ : A) : Prop := True.

Lemma safe_or_fail uid g {A} (p : proc HttpE (res A)) k :
  safe uid g p (fun g' r => forall a, r = Ok a -> safe uid g' (k a) any) -> safe uid g (or_fail p k) any.
Proof.
  intros Hp. apply safe_bind. eapply safe_mono; [exact Hp|]. intros g' [a|e] Hk; [by apply Hk|by apply safe_ret].
Qed.

Lemma safe_pure uid g {A} (r : res A) k :
  (forall a, r = Ok a -> safe uid g (k a) any) -> safe uid g (or_fail (pure r) k) any.
Proof. intros Hk. apply safe_or_fail. by apply safe_ret. Qed.

Lemma safe_call uid g {A} (c : HttpE (res A)) k :
  needs uid g _ c -> (forall a, safe uid (grant g _ c (Ok a)) (k a) any) -> safe uid g (or_fail (call c) k) any.
Proof. intros Hn Hk. apply safe_or_fail. apply safe_do; [done|]. intros x. apply safe_ret. intros a ->. apply Hk. Qed.

Lemma safe_then uid g {A B} (p : proc HttpE A) (f : A -> proc HttpE B) Q :
  safe uid g p any -> (forall g' a, safe uid g' (f a) Q) -> safe uid g (bind p f) Q.
Proof. intros Hp Hf. apply safe_bind. eapply safe_mono; [exact Hp|]. auto. Qed.

(** Owning the media file in question, as the goal handlers establish it. *)
Lemma safe_goalTarget uid ctx c :
  safe uid nothing (goalTarget ctx uid c) (fun g r => forall t, r = Ok t -> In (fst (fst t)) (g_ids g)).
Proof.
  unfold goalTarget, pure. destruct (requiredInt64 c "id") as [id|e]; [|by apply safe_ret].
  cbn [bind_ok bind]. destruct (requiredString c "goal") as [raw|e]; [|by apply safe_ret].
  cbn [bind_ok bind call]. apply safe_do; [done|]. intros [mf|e]; [|by apply safe_ret].
  destruct (normalizeText raw "分析目标") as [goal|e]; [|by apply safe_ret].
  cbn [bind_ok bind]. destruct (modeParam c) as [mode|e]; apply safe_ret; [|done].
  intros t [= <-]. cbn. auto.
Qed.

Lemma safe_interactive uid g {A} (c : HttpE (res A)) k :
  needs uid g _ c -> (forall x, grant g _ c x = g) -> (forall a, safe uid g (k a) any) ->
  safe uid g (or_fail (runInteractive (call c)) k) any.
Proof.
  intros Hn Hg Hk. apply safe_or_fail. unfold runInteractive. apply safe_do; [done|]. cbn [grant].
  intros [u|e]; [|by apply safe_ret]. apply safe_do; [done|].
  cbn [grant].
  intros []; [| |by apply safe_ret].
  - apply safe_do; [done|]. intros x. rewrite Hg. apply safe_ret. intros a _. apply Hk.
  - apply safe_bind, safe_do; [done|]. intros x. rewrite Hg. by apply safe_ret, safe_ret.
Qed.

Lemma safe_the uid g {A} (p : option A) k :
  p <> None -> (forall a, p = Some a -> safe uid g (k a) any) -> safe uid g (the p k) any.
Proof. destruct p as [a|]; [|done]. intros _ Hk. by apply Hk. Qed.

(** A rule of the validator that holds after a struct was validated. *)
Lemma route_goal_set req u : validateStruct (routeForm req) = Ok u -> rr_Goal req <> None.
Proof. intros Hv%validateStruct_ok%route_goal E. by rewrite E in Hv. Qed.

Lemma feedback_media_set fb u : validateStruct (feedbackForm fb) = Ok u -> fb_MediaID fb <> None.
Proof. intros Hv%validateStruct_ok. by apply feedback_media. Qed.

Lemma safe_context uid g ctx id k :
  In id (g_ids g) ->
  (forall vc, safe uid (grant g _ (HLoadContext ctx id) (Ok (Some vc))) (k tt) any) ->
  safe uid g (or_fail (requireVideoContext ctx id) k) any.
Proof.
  intros Hid Hk. apply safe_or_fail. unfold requireVideoContext. cbn [bind_ok bind call].
  apply safe_do; [exact Hid|]. intros [[vc|]|e]; apply safe_ret; [|done..]. intros [] _. apply Hk.
Qed.

(** A stream is read from a subscription of the request. *)
Definition subscribed (g : grants) (r : reply + nat) : Prop := match r with inl _ => True | inr s => In s (g_subs g) end.

Lemma safe_stream uid g {A} (p : proc HttpE (res A)) k :
  safe uid g p (fun g' r => forall a, r = Ok a -> safe uid g' (k a) subscribed) -> safe uid g (or_fail_stream p k) subscribed.
Proof.
  intros Hp. apply safe_bind. eapply safe_mono; [exact Hp|]. intros g' [a|e] Hk; [by apply Hk|by apply safe_ret].
Qed.

Lemma safe_stream_call uid g {A} (c : HttpE (res A)) k :
  needs uid g _ c -> (forall a, safe uid (grant g _ c (Ok a)) (k a) subscribed) ->
  safe uid g (or_fail_stream (call c) k) subscribed.
Proof. intros Hn Hk. apply safe_stream. apply safe_do; [done|]. intros x. apply safe_ret. intros a ->. apply Hk. Qed.

Lemma safe_streamEvents uid g fuel sub : In sub (g_subs g) -> safe uid g (streamEvents fuel sub) any.
Proof.
  intros Hs. apply safe_bind. apply (safe_mono _ _ _ (fun g' _ => In sub (g_subs g'))).
  - revert Hs. generalize g. induction fuel as [|fuel IH]; intros g' Hs; [by apply safe_ret|]. cbn [streamLoop].
    apply safe_do; [exact Hs|]. cbn [grant].
    intros [ev| | |]; [|by apply safe_ret..]. destruct (marshalEvent ev) as [b|e]; [|by apply safe_ret].
    apply safe_do; [done|]. intros [u|e]; [|by apply safe_ret]. destruct (Terminal ev); [by apply safe_ret|]. by apply IH.
  - intros g' returned Hs'. destruct returned; cbn [negb]; [|by apply safe_ret]. apply safe_do; [exact Hs'|].
    intros x. by apply safe_ret.
Qed.

(** What a call needs is among the grants at hand. *)
Ltac needed :=
  cbn [needs g_ids g_rows g_contexts g_files g_subs g_admin g_quota g_allowance g_route nothing grant In
       fb_MediaID Normalized];
  repeat match goal with |- _ /\ _ => split end;
  first [exact I | reflexivity | (eexists; split; [left; reflexivity|first [reflexivity|eassumption]]) | by auto].

Ltac safe_step :=
  cbn [grant nothing];
  match goal with
  | |- safe _ _ (Ret _) _ => apply safe_ret; first [exact I | left; reflexivity]
  | |- safe _ _ (or_fail (pure _) _) _ => apply safe_pure; intros ? ?
  | |- safe _ _ (or_fail (call _) _) _ => apply safe_call; [needed|intros ?]
  | |- safe _ _ (or_fail (runInteractive (call _)) _) _ => apply safe_interactive; [needed|reflexivity|intros ?]
  | |- safe _ _ (or_fail (goalTarget _ _ _) _) _ =>
      apply safe_or_fail; eapply safe_mono; [apply safe_goalTarget|];
      intros g' r Hin [[id goal] mode] ->; specialize (Hin _ eq_refl); cbn [fst] in Hin
  | |- safe _ _ (Do _ _) _ => apply safe_do; [needed|intros ?]
  | |- safe _ _ (the (rr_Goal _) _) _ => apply safe_the; [by eapply route_goal_set|intros ? ?]
  | |- safe _ _ (the (fb_MediaID _) _) _ => apply safe_the; [by eapply feedback_media_set|intros ? ?]
  | |- safe _ _ (or_fail (requireVideoContext _ _) _) _ => apply safe_context; [needed|intros ?]
  | |- safe _ _ (bind (feedbackNow ?fb) _) _ => unfold feedbackNow; destruct (fb_CreatedAt fb); cbn [bind call]
  | |- safe _ _ (or_fail_stream (call _) _) _ => apply safe_stream_call; [needed|intros ?]
  | |- safe _ _ (or_fail_stream (pure _) _) _ => apply safe_stream, safe_ret; intros ? ?
  | |- safe _ _ (or_fail_stream (goalTarget _ _ _) _) _ =>
      apply safe_stream; eapply safe_mono; [apply safe_goalTarget|];
      intros g' r Hin [[id goal] mode] ->; specialize (Hin _ eq_refl); cbn [fst] in Hin
  | |- safe _ _ (let _ := _ in _) _ => cbv zeta
  | |- safe _ _ (bind (or_fail _ _) _) _ => apply safe_then; [|intros ? ?]
  | |- safe _ _ (bind (match ?x with _ => _ end) _) _ => destruct x eqn:?; cbn [bind call]
  | |- safe _ _ (match ?x with _ => _ end) _ => destruct x eqn:?
  end.
Ltac safe_go := repeat safe_step.

Lemma handler_authorised (uid : Z) (ctx : Context) (c : request) (e : endpoint) metrics :
  signedIn e = true ->
  safe uid nothing (handler metrics ctx uid c e) subscribed.
Proof.
  intros He. destruct e; try discriminate He; cbn [handler]; try (apply safe_then; [|intros; by apply safe_ret]).
  - unfold logout. safe_go.
  - unfold initUpload. safe_go.
  - unfold uploadStatus. safe_go.
  - unfold uploadChunk. safe_go.
  - unfold completeUpload. safe_go.
  - unfold uploadFile. safe_go.
  - unfold uploadURL. safe_go.
  - unfold instantUploadChallenge. safe_go.
  - unfold instantUpload. safe_go.
  - unfold listMedia. safe_go.
  - unfold playback. safe_go.
  - unfold deleteMedia. safe_go.
  - unfold route, tryRouteQuota. safe_go. cbn [bind]. apply safe_do; [needed|]. intros [[]|e']; safe_go.
  - unfold aiAnalyze. safe_go.
  - unfold followUp. safe_go.
  - unfold evidenceSearch. safe_go.
  - unfold saveFeedback. safe_go.
  - unfold reviseAgentResult. safe_go.
  - unfold loadFeedback. safe_go.
  - unfold agentPlan. safe_go.
  - unfold analysisStatus. safe_go.
  - unfold analysisEvents. safe_go.
  - unfold agentEvaluation. safe_go.
  - unfold agentTrace. safe_go.
  - unfold transcribe. safe_go.
  - unfold transcriptionStatus. safe_go.
  - unfold transcriptionEvents. safe_go.
  - unfold download. safe_go.
  - unfold failedLatest. safe_go.
  - unfold failedReplay. safe_go.
Qed.

(** C7. Nobody reaches another's data. A request to a route behind the login makes no call at all unless it
    passes the CORS gate, and then first of all resolves its bearer token: if that fails, the refusal is the
    answer and nothing else happens; if it names the user [uid], every further call of the handler and of the
    stream it may end in is one that [uid] is entitled to at that point - user-scoped calls carry exactly
    [uid], a media file, its tasks, events, agent documents and temporary files are touched only after that
    file was found to be owned by [uid], the failed-task ledger only after the administrator check, and the
    agent is asked to work only after its quota was charged (and, for a question about a video, after its
    context was found). No handler panics on a nil field. *)
Theorem serve_authorised (metrics : string) (fuel : nat) (c : request) (path : string) (e : endpoint) :
  (rq_Method c, path, e) ∈ routes -> signedIn e = true ->
  wp (serve metrics fuel c (Found e)) (fun tr r =>
    (tr = [] /\ exists status hs b, cors CORSOrigins c = Answer status hs b)
    \/ exists x rest, tr = Ev (HResolveUser RequestContext (rq_Header c "Authorization")) x :: rest
        /\ match x with
           | Err err => rest = [] /\ exists hs, r = Some (addHeaders hs (refusal err))
           | Ok uid => authorised uid nothing rest
           end).
Proof.
  intros Hroute Hin. unfold serve. destruct (cors CORSOrigins c) as [hs|status hs b]; [|left; split; [done|]; by do 3 eexists].
  rewrite Hin. unfold authRequired.
  assert (String.eqb (rq_Method c) "OPTIONS" = false) as ->.
  { apply String.eqb_neq. intros Em. rewrite Em in Hroute. unfold routes in Hroute.
    repeat (apply elem_of_cons in Hroute as [Hroute|Hroute]; [discriminate Hroute|]). by apply elem_of_nil in Hroute. }
  cbn [bind wp]. intros [uid|err]; [|right; do 2 eexists; split; [reflexivity|]; split; [done|by eexists]].
  assert (forall ctx, safe uid nothing (bind (bind (recovery (inl panicked) (handler metrics ctx uid c e))
      (fun r => Ret ([(UserHeader, FormatInt uid)], r)))
      (fun '(user, r) => match r with
        | inl r => Ret (Some (addHeaders (hs ++ user) r))
        | inr sub => bind (streamEvents fuel sub) (fun r => Ret (addHeaders (hs ++ user) <$> r)) end)) any) as Hsafe.
  { intros ctx. apply safe_bind, safe_bind. eapply safe_mono; [by apply recovery_wp, handler_authorised|].
    intros g [r|s] Hs; apply safe_ret; [by apply safe_ret|]. apply safe_bind. eapply safe_mono; [by apply safe_streamEvents|].
    intros g' r _. by apply safe_ret. }
  eapply wp_mono; [apply (Hsafe (WithUser RequestContext uid))|]. intros tr r [Ha _].
  right. do 2 eexists. split; [reflexivity|]. done.
Qed.

End authorisation.

(** ** Streams *)

Section streams.
Context `{JsonEncoder}.

Definition received : trace HttpE -> list TaskEvent :=
  select (fun X (c : HttpE X) => match c with
    | HSelect _ => fun s => match s with Event ev => Some ev | _ => None end | _ => fun _ => None end).

Definition written : trace HttpE -> list string :=
  select (fun X (c : HttpE X) => match c with HWrite f => fun _ => Some f | _ => fun _ => None end).

Definition closed : trace HttpE -> list nat :=
  select (fun X (c : HttpE X) => match c with HClose s => fun _ => Some s | _ => fun _ => None end).

(** The server-sent event for [ev]. *)
Definition frame_of (ev : TaskEvent) (f : string) : Prop :=
  exists b, marshalEvent ev = Ok b
    /\ f = "event:task-status" +:+ char 10 +:+ "data:" +:+ b +:+ char 10 +:+ char 10.

(** [fs] are the frames of [evs], in order; of the last event at most the frame is missing. *)
Definition framed (evs : list TaskEvent) (fs : list string) : Prop :=
  Forall2 frame_of (take (length fs) evs) fs /\ (length fs <= length evs <= S (length fs))%nat.

Definition unfinished (evs : list TaskEvent) : Prop := Forall (fun ev => Terminal ev = false) evs.

Lemma framed_cons ev f evs fs : frame_of ev f -> framed evs fs -> framed (ev :: evs) (f :: fs).
Proof. intros Hf [Hall Hl]. split; [by constructor|]. cbn [length]. lia. Qed.

(** One turn that wrote a frame. *)
Lemma turn_read sub ev f w tr :
  let turn := Ev (HSelect sub) (Event ev) :: Ev (HWrite f) w :: tr in
  received turn = ev :: received tr /\ written turn = f :: written tr /\ closed turn = closed tr.
Proof. done. Qed.

Lemma streamLoop_spec fuel sub :
  wp (streamLoop fuel sub) (fun tr returned =>
    closed tr = [] /\ framed (received tr) (written tr) /\ unfinished (removelast (received tr))
    /\ (returned = false -> unfinished (received tr) /\ length (received tr) = fuel)).
Proof.
  induction fuel as [|fuel IH]; cbn [streamLoop wp]; [repeat split; by constructor|].
  assert (framed [] [] /\ forall ev, framed [ev] []) as [Hnil Hone] by (repeat split; cbn; try lia; constructor).
  intros [ev| | |]; [|cbn [wp]; split; [done|]; split; [exact Hnil|]; split; [constructor|discriminate]..].
  destruct (marshalEvent ev) as [b|e] eqn:Eb; [|cbn [wp]; split; [done|]; split; [apply Hone|]; split; [constructor|discriminate]].
  assert (frame_of ev ("event:task-status" +:+ char 10 +:+ "data:" +:+ b +:+ char 10 +:+ char 10)) as Hf by (exists b; done).
  intros [u|e]; [|cbn [wp]; split; [done|]; split; [by apply framed_cons|]; split; [constructor|discriminate]].
  destruct (Terminal ev) eqn:Et; [cbn [wp]; split; [done|]; split; [by apply framed_cons|]; split; [constructor|discriminate]|].
  eapply wp_mono; [exact IH|]. cbv beta. intros tr returned (Hc & Hfr & Hun & Hret).
  match type of Hf with frame_of _ ?f => destruct (turn_read sub ev f (Ok u) tr) as (-> & -> & ->) end.
  split; [done|]. split; [by apply framed_cons|]. split.
  - cbn [removelast]. destruct (received tr); [constructor|]. by constructor.
  - intros E. destruct (Hret E) as [Hall Hlen]. split; [by constructor|]. cbn [length]. by rewrite Hlen.
Qed.

(** C34. The stream shows the task's progress faithfully and ends with it. What is written are the frames of the
    events received, in order, nothing skipped, doubled or invented (only the frame of the very last event
    may be missing, when it could not be encoded); no event is read after a terminal one; and the
    subscription is closed exactly once, as the last act of the handler, when and only when it returns. *)
Theorem streamEvents_faithful (fuel sub : nat) :
  wp (streamEvents fuel sub) (fun tr r =>
    framed (received tr) (written tr)
    /\ unfinished (removelast (received tr))
    /\ match r with
       | Some reply =>
           closed tr = [sub] /\ (exists pre, tr = pre ++ [Ev (HClose sub) tt] /\ closed pre = [])
           /\ rp_Headers reply = streamHeaders
       | None => closed tr = [] /\ unfinished (received tr) /\ length (received tr) = fuel
       end).
Proof.
  unfold streamEvents. wp_use streamLoop_spec. intros tr returned (Hc & Hfr & Hun & Hret).
  destruct returned; cbn [negb].
  - intros []. cbn [wp].
    assert (received (tr ++ [Ev (HClose sub) tt]) = received tr /\ written (tr ++ [Ev (HClose sub) tt]) = written tr
      /\ closed (tr ++ [Ev (HClose sub) tt]) = closed tr ++ [sub]) as (-> & -> & ->).
    { unfold received, written, closed. by rewrite !select_app, !app_nil_r. }
    rewrite Hc. split; [done|]. split; [done|]. split; [done|]. split; [|done]. exists tr. by split.
  - cbn [wp]. rewrite app_nil_r. split; [done|]. split; [done|]. split; [done|]. by apply Hret.
Qed.

End streams.

(** ** Example *)

Module Example.

#[local] Instance encoder : JsonEncoder := {| encodable := fun _ => true; marshalEvent := fun _ => Ok "{}" |}.
#[local] Instance bodies : JsonBody := {|
  decodeAuth := fun _ => None; decodeRoute := fun _ => None; decodeFeedback := fun _ => None;
  decodeChallenge := fun _ => None; decodeProof := fun _ => None |}.
#[local] Instance config : ApiConfig := {|
  InviteOnly := false; DemoUsername := ""; DemoPassword := ""; demoLimited := false; CORSOrigins := [] |}.
#[local] Instance fold : FoldTable := fun r => r.

(** The rules themselves, for the two structs the handlers rely on. *)
#[local] Instance validator : Validator := fun f =>
  match f with
  | routeForm req => if notblank (rr_Goal req) then [] else [mkFieldError "RouteRequest.goal" "goal" "notblank"]
  | feedbackForm fb =>
      match fb_MediaID fb with
      | Some _ => if notblank (fb_Goal fb) then [] else [mkFieldError "AgentFeedback.goal" "goal" "notblank"]
      | None => [mkFieldError "AgentFeedback.mediaId" "mediaId" "required"]
      end
  | _ => []
  end.
#[local] Instance validator_laws : ValidatorLaws.
Proof.
  split; unfold structErrors, validator.
  - intros req. by destruct (notblank _).
  - intros fb. by destruct (fb_MediaID fb).
  - intros fb. destruct (fb_MediaID fb); [|done]. by destruct (notblank _).
Qed.

Definition row : MediaFile := mkMediaFile 3 7 "talk.mp4" "READY" "http://minio/videos/talk.mp4" None None None None 0.

(** User 7 asks to play the file it owns; every service answers. *)
Definition get : request := mkRequest "GET" false "vparser.test" (fun h => if String.eqb h "Authorization" then "Bearer token" else "")
  (fun p => if String.eqb p "id" then Some "3" else None) (fun _ => None) (fun _ => "") (fun _ => Err false) "".

Definition unavailable (X : Type) (c : HttpE X) : X.
Proof.
  destruct c; first [exact (Err (Internal "unavailable" None)) | exact tt | exact "" | exact NotBegun | exact RequestDone].
Defined.

Definition services : env HttpE := fun _ X c =>
  match c in HttpE X return X with
  | HResolveUser _ _ => Ok 7
  | HRequireOwnedMedia _ _ _ => Ok row
  | HPlaybackURL _ path => Ok path
  | c => unavailable _ c
  end.

Lemma serve_authorised_witness :
  let tr := (run services [] (serve "" 1 get (Found Playback))).1 in
  length tr = 3%nat /\ exists uid rest, tr = Ev (HResolveUser RequestContext "Bearer token") (Ok uid) :: rest
    /\ authorised uid nothing rest.
Proof.
  cbv zeta. split; [reflexivity|].
  destruct (wp_execs _ _ _ _
    (serve_authorised "" 1 get "/media/playback" Playback ltac:(unfold routes; set_solver) eq_refl)
    (run_returns services [] (serve "" 1 get (Found Playback)) _ eq_refl)) as [[E _]|(x & rest & E & Hx)]; [discriminate E|].
  destruct x as [uid|err]; [by exists uid, rest|].
  destruct Hx as [-> _]. apply (f_equal length) in E. discriminate E.
Defined.

End Example.
