(* ===== verification/Observability.v ===== *)
(** * Metrics and tracing (internal/obs: metrics.go, tracing.go; the outer middleware of internal/httpapi)

    The metrics the gateway exports, with the labels each place in the code gives them; the middleware that
    measures a request; the setup of tracing. *)

From S2P Require Import Prelude GoStrings Proc Errors Model GoContext TaskKeys Routing Consumer RedisLock Dispatch Media.
From S2P Require Import AgentClient AgentRpc Store Upload HttpParams HttpApi.

Local Open Scope string_scope.
Local Open Scope list_scope.
Local Open Scope Z_scope.

(** ** The registry (metrics.go) *)

(** Buckets, in milliseconds; a counter has none. *)
Record Metric := mkMetric { me_Name : string; me_Labels : list string; me_Buckets : list Z }.

Definition httpBuckets : list Z := [5; 10; 25; 50; 100; 250; 500; 1000; 2500; 5000; 10000; 30000; 60000].
Definition longBuckets : list Z :=
  [100; 500; 1000; 5000; 10000; 30000; 60000; 120000; 300000; 600000; 1200000; 1800000].

Definition HTTPDuration : Metric := mkMetric "http_request_duration_seconds" ["route"; "method"; "status"] httpBuckets.
Definition AnalysisSubmit : Metric := mkMetric "analysis_submit_total" ["result"] [].
Definition KafkaConsumeDuration : Metric := mkMetric "kafka_consume_duration_seconds" ["topic"; "outcome"] longBuckets.
Definition KafkaRetry : Metric := mkMetric "kafka_retry_total" ["topic"] [].
Definition KafkaDLQ : Metric := mkMetric "kafka_dlq_total" ["reason"] [].
Definition RedisLockAcquire : Metric := mkMetric "redis_lock_acquire_total" ["name"; "result"] [].
Definition VideoContextBuild : Metric := mkMetric "video_context_build_seconds" [] longBuckets.
Definition AgentGRPCDuration : Metric := mkMetric "agent_grpc_client_duration_seconds" ["method"; "code"] longBuckets.

(** What [init] registers beside the collectors of the runtime and the process. *)
Definition Registry : list Metric :=
  [HTTPDuration; AnalysisSubmit; KafkaConsumeDuration; KafkaRetry; KafkaDLQ; RedisLockAcquire; VideoContextBuild; AgentGRPCDuration].

(** ** The places that observe *)

(** The locks of the code, by what their key names. *)
Inductive lockSite :=
| ObjectLock (contentHash : string)   (* media.go, instant.go *)
| MergeLock (uploadID : string)       (* chunk.go *)
| ContextOf (contentHash : string)    (* analyzer.go *)
| TaskOf (contentHash digest : string) (* consumer.go *).

Definition siteKey (s : lockSite) : string :=
  match s with
  | ObjectLock h => ObjectLockKey h
  | MergeLock id => "lock:upload:merge:" +:+ id
  | ContextOf h => ContextLock h
  | TaskOf h digest => LockKey h digest
  end.

(** The deferred function of [TryLock]. *)
Definition lockResult (r : res (option Lock)) : string :=
  match r with Err _ => "error" | Ok None => "contended" | Ok (Some _) => "acquired" end.

Definition outcomeLabel (o : Outcome) : string :=
  match o with
  | OutcomeSuccess => "success" | OutcomeSkipped => "skipped" | OutcomeRetry => "retry" | OutcomeDLQ => "dlq"
  | OutcomeBudget => "budget_exhausted" | OutcomePoison => "poison"
  end.
Definition OutcomeRedeliver : string := "redeliver".

(** [c.FullPath()], given the template of the matched route, and the label made of it. *)
Definition routeLabel (fullPath : string) : string := if String.eqb fullPath "" then "unmatched" else fullPath.

Inductive observation :=
| OfRequest (fullPath method : string) (status : Z)          (* httpMetrics *)
| OfSubmission (r : res SubmissionResult)                    (* Submit *)
| OfLock (s : lockSite) (r : res (option Lock))              (* TryLock *)
| OfRetry (permanent : bool) (attempt : Z)                   (* Handle, forwarding *)
| OfDeadLetter (permanent : bool) (attempt : Z) | OfPoison   (* deadLetter, from Handle and from discardPoison *)
| OfRecord (topic : string) (r : res Outcome)                (* handle *)
| OfBuild                                                    (* buildContext *)
| OfCall {R : Type} (c : rpc R) (code : grpcCode).           (* Interceptor *)

Definition observe (o : observation) : Metric * list string :=
  match o with
  | OfRequest fullPath method status => (HTTPDuration, [routeLabel fullPath; method; Itoa status])
  | OfSubmission r => (AnalysisSubmit, [submitLabel r])
  | OfLock s r => (RedisLockAcquire, [LockName (siteKey s); lockResult r])
  | OfRetry permanent attempt => (KafkaRetry, [rt_Topic (RouteFailure permanent attempt)])
  | OfDeadLetter permanent attempt => (KafkaDLQ, [rt_Reason (RouteFailure permanent attempt)])
  | OfPoison => (KafkaDLQ, [ReasonPoison])
  | OfRecord topic r =>
      (KafkaConsumeDuration, [topic; match r with Ok o => outcomeLabel o | Err _ => OutcomeRedeliver end])
  | OfBuild => (VideoContextBuild, [])
  | OfCall c code => (AgentGRPCDuration, [shortMethod (fullMethod c); codeString code])
  end.

(** When the code makes the observation. *)
Definition observed (o : observation) : Prop :=
  match o with
  | OfRetry permanent attempt => rt_Topic (RouteFailure permanent attempt) <> TopicDLQ
  | OfDeadLetter permanent attempt => rt_Topic (RouteFailure permanent attempt) = TopicDLQ
  | OfRecord topic _ => topic ∈ ConsumedTopics
  | OfRequest fullPath method _ => exists e, (method, fullPath, e) ∈ routes
  | _ => True
  end.

(** The values a label may take; [None] for those that come from a service's answer. *)
Definition domain (m : Metric) (label : string) : option (list string) :=
  if String.eqb label "route" then Some ((fun r => r.1.2) <$> routes)
  else if String.eqb label "method" then
    Some (if String.eqb (me_Name m) (me_Name HTTPDuration) then ["GET"; "POST"; "DELETE"]
          else ["Run"; "GetResult"; "ReuseResult"; "Purge"; "FollowUp"; "SearchEvidence"; "ClassifyMode"; "StageRevision";
                "BeginRevision"; "CompleteRevision"; "CancelRevision"; "SaveFeedback"; "ListFeedback"; "GetPlan";
                "GetTrace"; "GetEvaluation"])
  else if String.eqb label "result" then
    Some (if String.eqb (me_Name m) (me_Name AnalysisSubmit) then ["accepted"; "duplicate"; "rate_limited"; "error"]
          else ["acquired"; "contended"; "error"])
  else if String.eqb label "topic" then Some ConsumedTopics
  else if String.eqb label "outcome" then
    Some ["success"; "skipped"; "retry"; "dlq"; "budget_exhausted"; "poison"; "redeliver"]
  else if String.eqb label "reason" then Some [ReasonPermanent; ReasonExhausted; ReasonPoison]
  else if String.eqb label "name" then Some ["media-object"; "upload"; "analysis-context"; "analysis"]
  else None.

Definition within (m : Metric) (label value : string) : Prop :=
  match domain m label with Some l => value ∈ l | None => True end.

(** The registry is one that Prometheus accepts: names differ, buckets grow. *)
Fixpoint ascending (l : list Z) : bool :=
  match l with a :: (b :: _) as l' => (a <? b) && ascending l' | _ => true end.

Definition registrable (ms : list Metric) : bool :=
  bool_decide (NoDup (me_Name <$> ms)) && forallb (fun m => ascending (me_Buckets m)) ms.

Lemma registered_labels method path e :
  (method, path, e) ∈ routes -> method ∈ ["GET"; "POST"; "DELETE"] /\ path <> "".
Proof.
  intros He. assert (forallb (fun r => bool_decide (r.1.1 ∈ ["GET"; "POST"; "DELETE"]) && negb (String.eqb r.1.2 "")) routes = true)
    as Hall by (vm_compute; reflexivity).
  rewrite forallb_forall in Hall. specialize (Hall _ (proj1 (list_elem_of_In _ _) He)). cbn [fst snd] in Hall.
  apply andb_true_iff in Hall as [Hm%bool_decide_eq_true Hp]. split; [done|]. intros ->. done.
Qed.

(** The metrics stay few. The registry is well formed, and every observation the code makes names one of its
    metrics with a value for each of its labels - Prometheus panics otherwise - and, for a request to a
    registered route, with values out of a fixed list for every label but HTTP statuses and gRPC codes: no
    media id, content hash, upload id, goal, URL or user ever becomes a label. *)
Theorem series_bounded :
  registrable Registry = true
  /\ forall o, observed o ->
       (observe o).1 ∈ Registry /\ Forall2 (within (observe o).1) (me_Labels (observe o).1) (observe o).2.
Proof.
  split; [vm_compute; reflexivity|]. intros o Ho.
  assert (forall m vs, m ∈ Registry -> Forall2 (within m) (me_Labels m) vs -> m ∈ Registry /\ Forall2 (within m) (me_Labels m) vs)
    as Hboth by done.
  destruct o as [fullPath method status|r|s r|permanent attempt|permanent attempt| |topic r| |R c code];
    (apply Hboth; [set_solver|]); cbn [observe fst snd me_Labels].
  - destruct Ho as [e He]. destruct (registered_labels _ _ _ He) as [Hm Hne].
    assert (fullPath ∈ (fun r => r.1.2) <$> routes) as Hp by (apply list_elem_of_fmap; by exists (method, fullPath, e)).
    unfold routeLabel. apply String.eqb_neq in Hne as ->. by do 3 (apply Forall2_cons_2; [done|]).
  - apply Forall2_cons_2; [|done]. destruct r as [[]|e]; vm_compute; set_solver.
  - apply Forall2_cons_2; [destruct s; vm_compute; set_solver|].
    apply Forall2_cons_2; [|done]. destruct r as [[l|]|e]; vm_compute; set_solver.
  - apply Forall2_cons_2; [|done]. cbn in Ho. change (rt_Topic (RouteFailure permanent attempt) ∈ ConsumedTopics).
    unfold RouteFailure in *. repeat case_match; try done; set_solver.
  - apply Forall2_cons_2; [|done]. cbn in Ho. change (rt_Reason (RouteFailure permanent attempt) ∈ [ReasonPermanent; ReasonExhausted; ReasonPoison]).
    unfold RouteFailure in *. repeat case_match; try done; set_solver.
  - apply Forall2_cons_2; [|done]. vm_compute. set_solver.
  - apply Forall2_cons_2; [exact Ho|]. apply Forall2_cons_2; [|done]. destruct r as [[]|e]; vm_compute; set_solver.
  - done.
  - apply Forall2_cons_2; [destruct c; vm_compute; set_solver|]. by apply Forall2_cons_2.
Qed.

(** ** A request and its measurement (api.go, middleware.go) *)

#[export] Instance endpoint_eq_dec : EqDecision endpoint.
Proof. solve_decision. Defined.

(** [c.FullPath()]: the template of the matched route. *)
Definition FullPath (m : matched) : string :=
  match m with
  | Found e => match List.find (fun r => bool_decide (r.2 = e)) routes with Some r => r.1.2 | None => "" end
  | NoRoute | NoMethod => ""
  end.

(** The filter of the tracing middleware. *)
Definition untraced (path : string) : bool := negb (String.eqb path "/health") && negb (String.eqb path "/metrics").

(** The calls of the services, the clock, and the observation of a duration in nanoseconds. *)
Inductive GinE : Type -> Type :=
| GCall {X : Type} (c : HttpE X) : GinE X
| GNow : GinE Z
| GObserve (m : Metric) (labels : list string) (elapsed : Z) : GinE unit.

Fixpoint calling {A} (p : proc HttpE A) : proc GinE A :=
  match p with
  | Ret a => Ret a
  | Do c k => Do (GCall c) (fun x => calling (k x))
  | Panic why => Panic why
  end.

(** [None]: the request is still being served. *)
Definition httpMetrics (c : request) (m : matched) (next : proc GinE (option reply)) : proc GinE (option reply) :=
  Do GNow (fun started =>
  bind next (fun r =>
  match r with
  | None => Ret None
  | Some rp =>
      let '(metric, labels) := observe (OfRequest (FullPath m) (rq_Method c) (rp_Status rp)) in
      Do GNow (fun now => Do (GObserve metric labels (now - started)) (fun _ => Ret (Some rp)))
  end)).

(** [limitBody] on what the client sends, read in pieces: the pieces the handler reads, and whether the reader
    then fails with MaxBytesError. *)
Fixpoint maxBytes (left : Z) (sent : list string) : list string * bool :=
  match sent with
  | [] => ([], false)
  | piece :: rest =>
      if strlen piece <=? left then
        let '(got, tooLarge) := maxBytes (left - strlen piece) rest in (piece :: got, tooLarge)
      else ([str_take (Z.to_nat left) piece], true)
  end.

Definition limitBody (max : Z) (method : string) (sent : list string) : list string * bool :=
  if String.eqb method "POST" then maxBytes max sent else (sent, false).

Definition maxMultipartBytes : Z := 2048 * 2 ^ 20.

Lemma maxBytes_reads max sent :
  0 <= max -> let '(got, tooLarge) := maxBytes max sent in
  String.concat "" got = str_take (Z.to_nat max) (String.concat "" sent)
  /\ (tooLarge = false <-> strlen (String.concat "" sent) <= max).
Proof.
  revert max. induction sent as [|piece sent IH]; intros max Hmax; cbn [maxBytes].
  { change (String.concat "" []) with "". change (strlen "") with 0. rewrite str_take_all by (cbn; lia). split; [done|]. lia. }
  rewrite concat_cons, strlen_app, str_take_app. pose proof (strlen_nonneg piece). pose proof (strlen_nonneg (String.concat "" sent)).
  destruct (Z.leb_spec (strlen piece) max) as [Hle|Hgt].
  - specialize (IH (max - strlen piece) ltac:(lia)). destruct (maxBytes _ sent) as [got tooLarge]. destruct IH as [Hg Ht].
    rewrite concat_cons, Hg, (str_take_all (Z.to_nat max) piece) by (unfold strlen in Hle; lia). split; [|rewrite Ht; lia].
    f_equal. f_equal. unfold strlen. lia.
  - rewrite concat_cons. change (String.concat "" []) with "". rewrite str_app_nil_r.
    replace (Z.to_nat max - String.length piece)%nat with 0%nat by (unfold strlen in Hgt; lia). cbn [str_take].
    rewrite str_app_nil_r. split; [done|]. split; [done|]. intros Hfit. exfalso. lia.
Qed.

(** A body of a POST to /media reaches its handler whole if it is within the limit, and otherwise as its first
    2 GB followed by an error, so that no more than that is read or stored; other requests have no limit. *)
Theorem limitBody_reads (method : string) (sent : list string) :
  let '(got, tooLarge) := limitBody maxMultipartBytes method sent in
  if String.eqb method "POST" then
    String.concat "" got = str_take (Z.to_nat maxMultipartBytes) (String.concat "" sent)
    /\ (tooLarge = false <-> strlen (String.concat "" sent) <= maxMultipartBytes)
  else got = sent /\ tooLarge = false.
Proof.
  unfold limitBody. destruct (String.eqb method "POST"); [|done].
  apply maxBytes_reads. by vm_compute.
Qed.

Section router.
Context `{JsonEncoder, JsonBody, Validator, ApiConfig, FoldTable}.
Context (metrics : string).

(** The chain of [Router]: measurement outside of everything that can answer. *)
Definition Router (fuel : nat) (c : request) (m : matched) : proc GinE (option reply) :=
  httpMetrics c m (calling (serve metrics fuel c m)).

Lemma calling_wp {A} (p : proc HttpE A) : wp p (fun _ _ => True) ->
  wp (calling p) (fun tr _ => Forall (fun e => match e with Ev (GCall _) _ => True | _ => False end) tr).
Proof.
  induction p as [a|X c k IH|why]; cbn; [by constructor| |done]. intros Hp x.
  eapply wp_mono; [apply IH, wp_mono with (1 := Hp x); done|]. intros tr r Htr. by constructor.
Qed.

Lemma streamEvents_total fuel sub : wp (streamEvents fuel sub) (fun _ _ => True).
Proof.
  unfold streamEvents. apply wp_bind. eapply wp_mono with (Q := fun _ _ => True).
  - induction fuel as [|fuel IH]; cbn [streamLoop wp]; [done|]. intros [ev| | |]; [|done..].
    destruct (marshalEvent ev); [|done]. intros [u|e]; [|done]. destruct (Terminal ev); [done|exact IH].
  - intros tr [|] _; cbn [negb]; [|done]. intros []. done.
Qed.

Lemma serve_total fuel c m : wp (serve metrics fuel c m) (fun _ _ => True).
Proof.
  unfold serve. destruct (cors CORSOrigins c) as [hs|status hs b]; [|done]. apply wp_bind.
  eapply wp_mono with (Q := fun _ _ => True).
  - destruct m as [| |e]; [done..|]. cbv zeta. assert (forall ctx uid, wp (recovery (inl panicked) (handler metrics ctx uid c e)) (fun _ _ => True))
      as Hrun by (intros; apply recovery_total).
    unfold authRequired. destruct (signedIn e); [destruct (String.eqb _ _)|];
      try (apply wp_bind; eapply wp_mono; [apply Hrun|]; done).
    intros [id|err]; [|done]. apply wp_bind. eapply wp_mono; [apply Hrun|]. done.
  - intros tr [user [rp|sub]] _; [done|]. apply wp_bind. eapply wp_mono; [apply streamEvents_total|]. done.
Qed.

Definition observations : trace GinE -> list (Metric * list string * Z) :=
  select (fun X (c : GinE X) => match c in GinE X return X -> option (Metric * list string * Z) with
    | GObserve m labels d => fun _ => Some (m, labels, d) | _ => fun _ => None end).

(** Every request is answered and measured once. Whatever a request is and whatever its handler does, panics
    included, [Router] returns; when it has answered, the last thing it did is the one observation of the
    request, with the template of the matched route, or "unmatched", its method, the status of the answer, and
    the time since the request was taken up. *)
Theorem Router_measures (fuel : nat) (c : request) (m : matched) :
  wp (Router fuel c m) (fun tr r =>
    match r with
    | None => observations tr = []
    | Some rp => exists t0 t1 inner,
        tr = Ev GNow t0 :: inner ++ [Ev GNow t1;
          Ev (GObserve HTTPDuration [routeLabel (FullPath m); rq_Method c; Itoa (rp_Status rp)] (t1 - t0)) tt]
        /\ observations tr = [(HTTPDuration, [routeLabel (FullPath m); rq_Method c; Itoa (rp_Status rp)], t1 - t0)]
    end).
Proof.
  unfold Router, httpMetrics. intros t0. apply wp_bind. eapply wp_mono; [apply calling_wp, serve_total|].
  intros inner [rp|] Hin; cbn [wp observe].
  - assert (observations inner = []) as Hno.
    { induction Hin as [|[X gc x] tr Hc Hin IH]; [done|]. unfold observations in *. rewrite select_cons. by destruct gc. }
    intros t1 []. exists t0, t1, inner. split; [done|]. unfold observations in *. rewrite select_cons, select_app, Hno. done.
  - rewrite app_nil_r. unfold observations. rewrite select_cons. induction Hin as [|[X gc x] tr Hc Hin IH]; [done|].
    rewrite select_cons. by destruct gc.
Qed.

(** The method of an unmatched request is the client's: requests with different made-up methods are measured under
    different labels, although the comment on [httpMetrics] says that unmatched requests share one. *)
Theorem unmatched_by_method (fuel : nat) (c c' : request) (tr tr' : trace GinE) (rp rp' : reply) :
  rq_Method c <> rq_Method c' ->
  execs (Router fuel c NoRoute) tr (Some rp) -> execs (Router fuel c' NoRoute) tr' (Some rp') ->
  exists l l', observations tr = [l] /\ observations tr' = [l'] /\ l.1 <> l'.1.
Proof.
  intros Hne Hr Hr'. pose proof (wp_execs _ _ _ _ (Router_measures fuel c NoRoute) Hr) as (t0 & t1 & inner & _ & Ho).
  pose proof (wp_execs _ _ _ _ (Router_measures fuel c' NoRoute) Hr') as (t0' & t1' & inner' & _ & Ho').
  do 2 eexists. split; [exact Ho|]. split; [exact Ho'|]. cbn [fst]. congruence.
Qed.

End router.

(** ** Tracing (tracing.go) *)

Definition TracerName : string := "dovideo/server".

Inductive exporterOption := WithTimeout (ns : Z) | WithEndpointURL (url : string) | WithEndpoint (addr : string) | WithInsecure.

Inductive TracingE : Type -> Type :=
| SetPropagator (propagators : list string) : TracingE unit
| NewExporter (ctx : Context) (opts : list exporterOption) : TracingE (res nat)
| MergeResource (serviceName : string) : TracingE (res string) (* with the default resource, schemaless *)
| SetProvider (exporter : nat) (resource : string) : TracingE unit.

(** What the returned shutdown function does: nothing, or flush the provider of an exporter. *)
Inductive shutdown := NoProvider | ShutProvider (exporter : nat).

Definition SetupTracing (ctx : Context) (endpoint serviceName : string) : proc TracingE (res shutdown) :=
  Do (SetPropagator ["tracecontext"; "baggage"]) (fun _ =>
  if String.eqb (TrimSpace endpoint) "" then Ret (Ok NoProvider)
  else
    let opts := [WithTimeout (5 * second)] in
    let opts := if Contains endpoint "://" then opts ++ [WithEndpointURL endpoint]
                else opts ++ [WithEndpoint endpoint; WithInsecure] in
    exp ←? call (NewExporter ctx opts);
    resource ←? call (MergeResource serviceName);
    Do (SetProvider exp resource) (fun _ => Ret (Ok (ShutProvider exp)))).

Definition providers : trace TracingE -> list nat :=
  select (fun X (c : TracingE X) => match c with SetProvider exp _ => fun _ => Some exp | _ => fun _ => None end).

(** The gateway passes the caller's trace on in any case: the propagator is installed first, whatever follows. A
    provider is installed exactly when a shutdown function that flushes it is returned; without an endpoint
    nothing else happens; and the connection is in plain text exactly when the endpoint is not a URL. *)
Theorem SetupTracing_installs (ctx : Context) (endpoint serviceName : string) :
  wp (SetupTracing ctx endpoint serviceName) (fun tr r => exists rest,
    tr = Ev (SetPropagator ["tracecontext"; "baggage"]) tt :: rest
    /\ match r with
       | Ok NoProvider => TrimSpace endpoint = "" /\ rest = []
       | Ok (ShutProvider exp) => TrimSpace endpoint <> "" /\ exists opts res,
           rest = [Ev (NewExporter ctx opts) (Ok exp); Ev (MergeResource serviceName) (Ok res); Ev (SetProvider exp res) tt]
           /\ (WithInsecure ∈ opts <-> Contains endpoint "://" = false)
       | Err _ => TrimSpace endpoint <> "" /\ providers rest = []
       end).
Proof.
  intros []. destruct (String.eqb_spec (TrimSpace endpoint) "") as [He|He]; [by exists []|]. cbv zeta.
  set (opts := if Contains endpoint "://" then _ else _).
  assert (WithInsecure ∈ opts <-> Contains endpoint "://" = false) as Hopts.
  { subst opts. destruct (Contains endpoint "://"); split; try done; set_solver. }
  clearbody opts. cbn. intros [exp|e]; cbn.
  2: { by eexists. }
  intros [res|e]; cbn; [|by eexists]. intros []. eexists. split; [done|]. split; [done|]. eauto.
Qed.
