(* ===== verification/Requests.v ===== *)
(** * A submission from the request to the end of its task

    The handlers of HttpApi.v call the dispatcher as one operation; here its answers are the results of runs of
    [Submit] (Dispatch.v), whose message goes through the pipeline (Pipeline.v, Delivery.v). *)

From S2P Require Import Prelude GoStrings Proc Errors Model GoContext TaskKeys Routing Consumer Runner Dispatch Pipeline.
From S2P Require Import Billing Delivery AgentClient AgentRpc Store Upload HttpParams HttpApi HttpAccess.

Local Open Scope string_scope.
Local Open Scope list_scope.
Local Open Scope Z_scope.

(** An answer that reports acceptance: status 202 without a business code. *)
Definition reportsAccepted (rp : reply) : Prop :=
  rp_Status rp = 202 /\ Forall (fun h => h.1 <> CodeHeader) (rp_Headers rp).

Section requests.
Context `{JsonEncoder, JsonBody, Validator, ApiConfig, FoldTable}.

Lemma reports_inner hs rp : reportsAccepted (addHeaders hs rp) -> reportsAccepted rp.
Proof. intros [Hs Hh]. cbn in Hh. apply Forall_app in Hh as [_ Hh]. done. Qed.

Lemma writeJSON_status status r : rp_Status (writeJSON status r) = status \/ rp_Status (writeJSON status r) = 500.
Proof. unfold writeJSON. destruct (encodable r); auto. Qed.

Lemma fail_reports e : ~ reportsAccepted (fail e).
Proof.
  unfold fail. destruct (ToHTTP e) as [status r]. intros [_ Hh]. cbn in Hh. by apply Forall_cons in Hh as [Hh _].
Qed.

Lemma ok_reports data : ~ reportsAccepted (ok data).
Proof. intros [Hs _]. unfold ok in Hs. by destruct (writeJSON_status 200 (OkResult data)) as [E|E]; rewrite E in Hs. Qed.

Lemma refusal_reports e : ~ reportsAccepted (refusal e).
Proof.
  unfold refusal. destruct (HasErr e KindForbidden); [|apply fail_reports]. intros [Hs _].
  by destruct (writeJSON_status 401 (FailResult CodeUnauthorized (ErrorString e))) as [E|E]; rewrite E in Hs.
Qed.

(** The request [c] of user [uid] led to a submission that was accepted: of a media file found to be the user's,
    with the goal and the mode of the request. *)
Definition submittedFor (uid : Z) (c : request) (tr : trace HttpE) : Prop :=
  exists ctx id mf goal mode,
    Ev (HRequireOwnedMedia ctx id uid) (Ok mf) ∈ tr /\ requiredInt64 c "id" = Ok id
    /\ normalizeText (stringWithDefault c "goal" defaultGoal) "分析目标" = Ok goal /\ modeParam c = Ok mode
    /\ Ev (HSubmit ctx mf goal None mode) (Ok Accepted) ∈ tr.

Lemma aiAnalyze_reports ctx uid c :
  wp (aiAnalyze ctx uid c) (fun tr rp => reportsAccepted rp -> submittedFor uid c tr).
Proof.
  unfold aiAnalyze, or_fail, pure. cbn [bind].
  destruct (requiredInt64 c "id") as [id|e] eqn:Eid; [|by intros ?%fail_reports]. cbn [bind].
  destruct (normalizeText _ _) as [goal|e] eqn:Eg; [|by intros ?%fail_reports]. cbn [bind].
  destruct (modeParam c) as [mode|e] eqn:Em; [|by intros ?%fail_reports]. cbn [bind call wp].
  intros [mf|e]; [|by intros ?%fail_reports]. cbn [bind call wp].
  intros [[rr|]|e]; [by intros ?%ok_reports| |by intros ?%fail_reports]. cbn [bind call wp].
  intros [[]|e]; cbn [wp submissionResponse]; intros Hr; [|by apply fail_reports in Hr..].
  exists ctx, id, mf, goal, mode. split_and!; try done; ev_in.
Qed.

Lemma handler_reports metrics ctx uid c :
  wp (handler metrics ctx uid c AiAnalyze) (fun tr r =>
    match r with inl rp => reportsAccepted rp -> submittedFor uid c tr | inr _ => False end).
Proof.
  cbn [handler]. apply wp_bind. eapply wp_mono; [apply aiAnalyze_reports|]. intros tr rp Hrp. cbn [wp]. by rewrite app_nil_r.
Qed.

Lemma submittedFor_cons uid c e tr : submittedFor uid c tr -> submittedFor uid c (e :: tr).
Proof.
  intros (ctx & id & mf & goal & mode & Ho & Hid & Hg & Hm & Hs). exists ctx, id, mf, goal, mode.
  split_and!; try done; by apply elem_of_cons; right.
Qed.

(** A 202 is true: the request carried a session of some user, and the submission it asked for was accepted. *)
Lemma serve_reports metrics fuel c :
  rq_Method c <> "OPTIONS" ->
  wp (serve metrics fuel c (Found AiAnalyze)) (fun tr r => forall rp, r = Some rp -> reportsAccepted rp ->
    exists uid, Ev (HResolveUser RequestContext (rq_Header c "Authorization")) (Ok uid) ∈ tr /\ submittedFor uid c tr).
Proof.
  intros Hm. unfold serve. destruct (cors CORSOrigins c) as [hs|status hs b] eqn:Ec.
  2: { intros rp [= <-] [Hs _]. cbn in Hs. pose proof (cors_gate CORSOrigins c) as Hg. cbv zeta in Hg. rewrite Ec in Hg. lia. }
  cbv zeta. cbn [signedIn]. unfold authRequired. apply String.eqb_neq in Hm as ->. cbn [bind wp].
  intros [uid|e]; cbn [bind wp].
  2: { intros rp [= <-] Hr%reports_inner. by apply refusal_reports in Hr. }
  apply wp_bind, wp_bind. eapply wp_mono; [apply recovery_wp, handler_reports|].
  intros tr [rp|sub] Hrp; [|done]. cbn [wp bind]. intros rp' [= <-] Hr%reports_inner. exists uid. split; [by left|].
  apply submittedFor_cons. rewrite ?app_nil_r. by apply Hrp.
Qed.

(** The submissions made while a request was served, with their answers. *)
Definition submission : Type := Context * MediaFile * string * option AgentFeedback * AnalysisMode * res SubmissionResult.

Definition submissions : trace HttpE -> list submission :=
  select (fun X c =>
    match c in HttpE X return X -> option submission with
    | HSubmit ctx mf goal revision mode => fun x => Some (ctx, mf, goal, revision, mode, x)
    | _ => fun _ => None
    end).

(** They are the runs [subs] of [Submit]. *)
Definition dispatched `{Sha256} (tr : trace HttpE) (subs : list (trace AnalysisE)) : Prop :=
  Forall2 (fun '(ctx, mf, goal, revision, mode, x) sub => execs (Submit ctx mf goal revision mode) sub x) (submissions tr) subs.

Lemma dispatched_run `{Sha256} tr subs ctx mf goal revision mode x :
  dispatched tr subs -> Ev (HSubmit ctx mf goal revision mode) x ∈ tr ->
  exists sub, sub ∈ subs /\ execs (Submit ctx mf goal revision mode) sub x.
Proof.
  intros Hd He. assert ((ctx, mf, goal, revision, mode, x) ∈ submissions tr) as Hin.
  { unfold submissions, select. apply list_elem_of_omap. by eexists. }
  apply list_elem_of_lookup_1 in Hin as [i Hi]. destruct (Forall2_lookup_l _ _ _ _ _ Hd Hi) as (sub & Hs & Hr).
  exists sub. split; [by eapply list_elem_of_lookup_2|done].
Qed.

Lemma modeParam_known c mode : modeParam c = Ok mode -> mode ∈ "" :: all_modes.
Proof.
  unfold modeParam. intros Hm. right. destruct (mode_parsers_agree (match optionalString c "mode" with Some v => v | None => "" end)) as [Hin Ha].
  rewrite Hm in Ha. by subst mode.
Qed.

(** C2. The answer 202 is kept. When POST /analysis/ai is answered with 202 (and no business code), the request
    carried a session of a user who owns the media file it names, and its submission won the idempotency key
    and queued exactly one message. If the goal is valid UTF-8 (of one that is not, [altered_task] shows that
    the task is lost sight of), then from there on, in every reachable state of the pipeline - whatever
    processes joined, crashed, rebalanced, failed or shut down - the record of that message leads through at
    most two retries to one that is pending or concluded, from which the consumer derives the very task asked
    for: that media file, the request's goal and mode, and the key that was won. *)
Theorem answered_task_followed `{Sha256, JsonMsg} (RedeliverBackoff : Z) (metrics : string) (fuel : nat) (c : request)
    (tr : trace HttpE) (subs : list (trace AnalysisE)) (rp : reply) :
  0 < RedeliverBackoff -> rq_Method c = "POST" ->
  execs (serve metrics fuel c (Found AiAnalyze)) tr (Some rp) -> reportsAccepted rp -> dispatched tr subs ->
  exists uid ctx id mf goal mode sub key,
    Ev (HResolveUser RequestContext (rq_Header c "Authorization")) (Ok uid) ∈ tr
    /\ requiredInt64 c "id" = Ok id /\ Ev (HRequireOwnedMedia ctx id uid) (Ok mf) ∈ tr
    /\ normalizeText (stringWithDefault c "goal" defaultGoal) "分析目标" = Ok goal /\ modeParam c = Ok mode
    /\ sub ∈ subs /\ execs (Submit ctx mf goal None mode) sub (Ok Accepted)
    /\ exists msg, effects sub = [KeyTaken key (FormatInt (mf_ID mf)) activeTTL; QuotaTaken (mf_UserID mf); TaskQueued msg]
    /\ (ValidString goal = true ->
         forall p rec tp o, published msg rec -> rtc (pstep RedeliverBackoff) start p -> logOf p tp !! o = Some (placed rec tp o) ->
         exists n rec' t, (n <= 2)%nat /\ nsteps (forwardedTo p) n (placed rec tp o) rec'
           /\ taskOf (DecodeRecord rec') = Ok t /\ t_ActiveKey t = key
           /\ t_MediaID t = mf_ID mf /\ t_Goal t = goal /\ t_Mode t = Resolve mode
           /\ (pendingIn p rec' \/ concluded p rec')).
Proof.
  intros Hb Hm Hex Hr Hsub. assert (rq_Method c <> "OPTIONS") as Hopt by (by rewrite Hm).
  destruct (wp_execs _ _ _ _ (serve_reports metrics fuel c Hopt) Hex rp eq_refl Hr)
    as (uid & Huid & ctx & id & mf & goal & mode & Hown & Hid & Hgoal & Hmode & Hs).
  destruct (dispatched_run _ _ _ _ _ _ _ _ Hsub Hs) as (sub & Hin & Hrun).
  pose proof (wp_execs _ _ _ _ (Submit_post ctx mf goal None mode) Hrun) as (h & digest & eff & _ & Hd & He & Hsb).
  destruct Hsb as (staged & Hst & ->). destruct staged as [fb|]; [done|]. cbn [stagedSteps app] in He.
  exists uid, ctx, id, mf, goal, mode, sub. eexists. split_and!; [done..|]. eexists. split; [exact He|].
  intros Hv p rec tp o Hpub Hreach Hlog.
  eapply (accepted_task_followed RedeliverBackoff ctx mf goal None mode sub); try done;
    [by eapply modeParam_known|rewrite He; by left|rewrite He; ev_in].
Qed.

End requests.

(** ** One request *)

Module Example.

#[local] Existing Instance plain_digest.
#[local] Existing Instance twoMessages.
#[local] Existing Instance twoMessages_json.
#[local] Existing Instance HttpAccess.Example.encoder.
#[local] Existing Instance HttpAccess.Example.bodies.
#[local] Existing Instance HttpAccess.Example.config.
#[local] Existing Instance HttpAccess.Example.fold.
#[local] Existing Instance HttpAccess.Example.validator.

(** User 3 asks for notes on its file 7. *)
Definition post : request :=
  mkRequest "POST" false "vparser.test" (fun h => if String.eqb h "Authorization" then "Bearer token" else "")
    (fun p => if String.eqb p "id" then Some "7" else if String.eqb p "goal" then Some "notes"
              else if String.eqb p "mode" then Some "learning" else None)
    (fun _ => None) (fun _ => "") (fun _ => Err false) "".

Definition services : env HttpE := fun _ X c =>
  match c in HttpE X return X with
  | HResolveUser _ _ => Ok 3
  | HRequireOwnedMedia _ _ _ => Ok sampleMedia
  | HLoadResult _ _ _ _ => Ok None
  | HSubmit _ _ _ _ _ => Ok Accepted
  | c => HttpAccess.Example.unavailable _ c
  end.

Definition served : trace HttpE := fst (run services [] (serve "" 1 post (Found AiAnalyze))).
Definition answer : reply := addHeaders [(UserHeader, "3")] accepted.

Lemma served_answers : execs (serve "" 1 post (Found AiAnalyze)) served (Some answer).
Proof. apply (run_execs services []). vm_compute. reflexivity. Qed.

Definition submittedRun : trace AnalysisE :=
  fst (run accepting [] (Submit (WithUser RequestContext 3) sampleMedia "notes" None ModeLearning)).

Lemma served_dispatched : dispatched served [submittedRun].
Proof.
  assert (submissions served = [(WithUser RequestContext 3, sampleMedia, "notes", None, ModeLearning, Ok Accepted)]) as E
    by (vm_compute; reflexivity).
  unfold dispatched. rewrite E. constructor; [|constructor]. apply (run_execs accepting []). vm_compute. reflexivity.
Qed.

Lemma answered_task_followed_witness :
  reportsAccepted answer /\ published sampleMsg sampleRecord /\ rtc (pstep second) start onePublished
  /\ exists uid ctx id mf goal mode key,
    Ev (HResolveUser RequestContext "Bearer token") (Ok uid) ∈ served
    /\ requiredInt64 post "id" = Ok id /\ Ev (HRequireOwnedMedia ctx id uid) (Ok mf) ∈ served
    /\ normalizeText (stringWithDefault post "goal" defaultGoal) "分析目标" = Ok goal /\ modeParam post = Ok mode
    /\ effects submittedRun = [KeyTaken key (FormatInt (mf_ID mf)) activeTTL; QuotaTaken (mf_UserID mf); TaskQueued sampleMsg]
    /\ exists n rec' t, (n <= 2)%nat /\ nsteps (forwardedTo onePublished) n (placed sampleRecord examplePartition 0) rec'
         /\ taskOf (DecodeRecord rec') = Ok t /\ t_ActiveKey t = key
         /\ t_MediaID t = mf_ID mf /\ t_Goal t = goal /\ t_Mode t = Resolve mode
         /\ (pendingIn onePublished rec' \/ concluded onePublished rec').
Proof.
  assert (reportsAccepted answer) as Ha by (split; [reflexivity|by repeat constructor]).
  assert (rtc (pstep second) start onePublished) as Hr by (apply rtc_once, p_publish).
  split; [exact Ha|]. split; [exact sample_published|]. split; [exact Hr|].
  destruct (answered_task_followed second "" 1 post served [submittedRun] answer)
    as (uid & ctx & id & mf & goal & mode & sub & key & Huid & Hid & Hown & Hgoal & Hmode & Hin & _ & msg & He & Hpipe);
    [vm_compute; reflexivity|reflexivity|exact served_answers|exact Ha|exact served_dispatched|].
  apply list_elem_of_singleton in Hin as ->.
  assert (goal = "notes") as Eg by (vm_compute in Hgoal; by injection Hgoal as <-).
  assert (msg = sampleMsg) as ->.
  { assert (TaskQueued msg ∈ effects submittedRun) as Hm by (rewrite He; ev_in).
    vm_compute in Hm. repeat (apply elem_of_cons in Hm as [E|Hm]; [try discriminate E; by injection E as ->|]). by apply elem_of_nil in Hm. }
  exists uid, ctx, id, mf, goal, mode, key. split_and!; try done.
  apply (Hpipe ltac:(by subst goal) onePublished sampleRecord examplePartition 0%nat sample_published Hr). vm_compute. reflexivity.
Defined.

End Example.
