(* ===== verification/Links.v ===== *)
(** * Link imports (internal/ytdlp/ytdlp.go)

    The guard on user-supplied links, the yt-dlp run and the classification of its failures, over the
    interface [LinkE] of the resolver, the process, the HTTP client and the file being written, which
    Bilibili.v shares.  URL parsing is the class [GoURL]. *)

From S2P Require Import Prelude GoStrings Proc Errors GoContext HttpParams.

Local Open Scope string_scope.
Local Open Scope list_scope.
Local Open Scope Z_scope.

(** ** Addresses (package net) *)

(** A [net.IP]: 4 or 16 bytes. *)
Definition IP : Type := list Z.

Definition v4Prefix : list Z := [0; 0; 0; 0; 0; 0; 0; 0; 0; 0; 0xff; 0xff].
Definition IPv6unspecified : IP := replicate 16 0.
Definition IPv6loopback : IP := replicate 15 0 ++ [1].

Definition To4 (ip : IP) : option (Z * Z * Z * Z) :=
  match ip with
  | [a; b; c; d] => Some (a, b, c, d)
  | _ =>
      if bool_decide (take 12 ip = v4Prefix) then
        match drop 12 ip with [a; b; c; d] => Some (a, b, c, d) | _ => None end
      else None
  end.

Definition byte_at (ip : IP) (i : nat) : Z := nth i ip 0.
Definition is16 (ip : IP) : bool := Nat.eqb (length ip) 16.

Definition IsUnspecified (ip : IP) : bool :=
  match To4 ip with Some q => bool_decide (q = (0, 0, 0, 0)) | None => bool_decide (ip = IPv6unspecified) end.

Definition IsLoopback (ip : IP) : bool :=
  match To4 ip with Some (a, _, _, _) => a =? 127 | None => bool_decide (ip = IPv6loopback) end.

Definition IsPrivate (ip : IP) : bool :=
  match To4 ip with
  | Some (a, b, _, _) => (a =? 10) || ((a =? 172) && (Z.land b 0xf0 =? 16)) || ((a =? 192) && (b =? 168))
  | None => is16 ip && (Z.land (byte_at ip 0) 0xfe =? 0xfc)
  end.

Definition IsMulticast (ip : IP) : bool :=
  match To4 ip with Some (a, _, _, _) => Z.land a 0xf0 =? 0xe0 | None => is16 ip && (byte_at ip 0 =? 0xff) end.

Definition IsLinkLocalMulticast (ip : IP) : bool :=
  match To4 ip with
  | Some (a, b, c, _) => (a =? 224) && (b =? 0) && (c =? 0)
  | None => is16 ip && (byte_at ip 0 =? 0xff) && (Z.land (byte_at ip 1) 0x0f =? 2)
  end.

Definition IsLinkLocalUnicast (ip : IP) : bool :=
  match To4 ip with
  | Some (a, b, _, _) => (a =? 169) && (b =? 254)
  | None => is16 ip && (byte_at ip 0 =? 0xfe) && (Z.land (byte_at ip 1) 0xc0 =? 0x80)
  end.

Definition IsDisallowedAddress (ip : IP) : bool :=
  if IsUnspecified ip || IsLoopback ip || IsLinkLocalUnicast ip || IsLinkLocalMulticast ip || IsPrivate ip || IsMulticast ip
  then true
  else
    match To4 ip with
    | Some (first, second, _, _) =>
        if first =? 0 then true
        else if (first =? 100) && (64 <=? second) && (second <=? 127) then true
        else if (first =? 169) && (second =? 254) then true
        else 240 <=? first
    | None =>
        if is16 ip then (Z.land (byte_at ip 0) 0xFE =? 0xFC) || ((byte_at ip 0 =? 0xFE) && (Z.land (byte_at ip 1) 0xC0 =? 0xC0))
        else false
    end.

(** ** The interface *)

(** A response: its status, its Location header, what the successive reads of its body deliver, and the
    error they end with ([None] is io.EOF). *)
Record httpResponse := mkResponse {
  rs_Status : Z; rs_Location : string; rs_Body : list string; rs_End : option gerror }.

Inductive LinkE : Type -> Type :=
| LResolve (ctx : Context) (host : string) : LinkE (res (list IP))
| LTempDir : LinkE string
| LNewUUID : LinkE string
| LCreateTemp (pattern : string) : LinkE (res string)
| LRunYtDlp (ctx : Context) (timeout : Z) (args : list string) (log : string) : LinkE (bool * option gerror)
| LIsRegular (path : string) : LinkE bool
| LReadFile (path : string) : LinkE string
| LRemove (path : string) : LinkE unit
| LGet (ctx : Context) (url : string) (headers : list (string * string)) : LinkE (res httpResponse)
| LCreate (path : string) : LinkE (res unit)
| LTruncate (size : Z) : LinkE (res unit)
| LWriteAt (off : Z) (data : string) : LinkE (res unit)
| LAppend (data : string) : LinkE (Z * option gerror) (* the bytes written, and the error *)
| LCloseFile : LinkE (res unit)
| LFetchRanges (ctx : Context) (mirrors : list string) (size : Z) : LinkE (option gerror) (* the workers of fetchChunks *)
| LCtxErr (ctx : Context) : LinkE (option gerror)
| LSleepOrDone (ctx : Context) (d : Z) : LinkE (option gerror).

(** [net/url]: a parsed URL by the parts the code reads or replaces; [u_Rest] is all that follows the path. *)
Record URL := mkURL { u_Scheme : string; u_Host : string; u_Path : string; u_Rest : string }.

Class GoURL := {
  parseURL : string -> res URL;
  URLString : URL -> string;
  Hostname : URL -> string;
  resolveReference : URL -> string -> res URL; (* u.Parse(ref) *)
  queryParam : URL -> string -> string;        (* u.Query().Get(name) *)
  encodeQuery : list (string * string) -> string }.

(** A [Downloader] as the server makes it: the two paths, and the fields that tests override. *)
Class DownloaderConfig := {
  dl_Path : string; dl_FfmpegDir : string; dl_BiliAPI : string; dl_CDNAllowed : option (string -> bool) }.

Definition downloadTimeout : Z := 30 * minute.

Section downloader.
Context `{FoldTable, GoURL, DownloaderConfig}.

Definition badLink : string := "仅支持合法的公网 HTTP/HTTPS 视频链接".

Definition ValidatePublicHTTPURL (ctx : Context) (value : string) : proc LinkE (res unit) :=
  match parseURL value with
  | Err _ => Ret (Err (InvalidArgument badLink))
  | Ok u =>
      let host := Hostname u in
      if String.eqb host "" || negb (EqualFold (u_Scheme u) "http" || EqualFold (u_Scheme u) "https")
      then Ret (Err (InvalidArgument badLink))
      else
        ips ←? call (LResolve ctx host);
        if Nat.eqb (length ips) 0 then Ret (Err (InvalidArgument "无法解析视频链接的主机地址"))
        else if existsb IsDisallowedAddress ips then Ret (Err (InvalidArgument "不允许访问本机、内网或保留网段地址"))
        else Ret (Ok tt)
  end.

Definition formatSelector : string :=
  "bv*[vcodec^=avc1][ext=mp4]+ba[acodec^=mp4a][ext=m4a]/b[vcodec^=avc1][ext=mp4]/bv*[vcodec^=avc1]+ba[acodec^=mp4a]/b[ext=mp4]/bv*+ba/b".

Definition BuildArgs (output rawURL : string) : list string :=
  ["--no-playlist"; "--socket-timeout"; "30"; "--retries"; "3"; "--max-filesize"; "2048M";
   "-f"; formatSelector; "--merge-output-format"; "mp4"; "--recode-video"; "mp4"]
  ++ (if negb (is_blank dl_FfmpegDir) then ["--ffmpeg-location"; dl_FfmpegDir] else [])
  ++ ["-o"; output; rawURL].

(** ** Failures of yt-dlp *)

Definition Classify (logs : string) : option gerror :=
  let l := ToLower logs in
  let has parts := existsb (Contains l) parts in
  if has ["larger than max-filesize"; "file is larger than"] then
    Some (Business CodeSourceTooLarge "视频超过 2 GB，无法通过链接导入")
  else if has ["sign in to confirm"; "cookies"; "logged-in"; "login required"; "log in"; "http error 412"; "http error 403";
               "private video"; "not available in your country"; "geo restricted"; "geo-restricted"] then
    Some (Business CodeSourceBlocked "该网站拒绝了服务器的下载请求，请先把视频保存到本地，再用上传功能导入")
  else if has ["unsupported url"; "no video formats found"; "requested format is not available"; "unable to extract";
               "http error 404"; "is not a valid url"] then
    Some (Business CodeSourceUnsupported "这个链接里没有找到可下载的视频，请换成视频文件的直链（如 .mp4）")
  else if has ["timed out"; "timeout"] then
    Some (Business CodeSourceTimeout "连接视频网站超时，请稍后重试或改为上传文件")
  else None.

Definition tail (v : string) (max : nat) : string :=
  if Nat.leb (String.length v) max then v else str_drop (String.length v - max) v.

Definition tempMP4 : proc LinkE string :=
  Do LTempDir (fun dir => Do LNewUUID (fun u => Ret (dir +:+ "/" +:+ u +:+ ".mp4"))).

(** [runYtDlp] once the log file exists. *)
Definition runLogged (ctx : Context) (rawURL output log : string) : proc LinkE (res string) :=
  Do (LRunYtDlp ctx downloadTimeout (dl_Path :: BuildArgs output rawURL) log) (fun '(late, runErr) =>
  if late : bool then Do (LRemove output) (fun _ => Ret (Err (Internal "视频链接下载超时" None)))
  else
    Do (LIsRegular output) (fun there =>
    if match runErr with Some _ => true | None => negb there end then
      Do (LReadFile log) (fun logs =>
      Do (LRemove output) (fun _ =>
      Ret (Err match Classify logs with
               | Some known => known
               | None => Internal ("yt-dlp 下载失败: " +:+ tail logs 2000) None
               end)))
    else Ret (Ok output))).

Definition runYtDlp (ctx : Context) (rawURL : string) : proc LinkE (res string) :=
  bind tempMP4 (fun output =>
  log ←? call (LCreateTemp "yt-dlp-*.log");
  bind (runLogged ctx rawURL output log) (fun r =>
  Do (LRemove log) (fun _ => Ret r))). (* deferred *)

End downloader.

(** ** The address filter against the address registries *)

(** [net.IPNet.Contains]: the address under the mask of [bits] ones is the network's, byte by byte. *)
Definition mask_byte (bits : Z) : Z := if 8 <=? bits then 255 else if bits <=? 0 then 0 else 256 - 2 ^ (8 - bits).

Fixpoint in_net (net ip : list Z) (bits : Z) : bool :=
  match net, ip with
  | n :: net, b :: ip => (Z.land b (mask_byte bits) =? Z.land n (mask_byte bits)) && in_net net ip (bits - 8)
  | [], [] => true
  | _, _ => false
  end.

(** The networks that are refused, IPv4 and IPv6. *)
Definition refusedV4 : list (list Z * Z) :=
  [([0; 0; 0; 0], 8);       (* this network *)
   ([10; 0; 0; 0], 8); ([172; 16; 0; 0], 12); ([192; 168; 0; 0], 16); (* private *)
   ([100; 64; 0; 0], 10);   (* shared address space *)
   ([127; 0; 0; 0], 8);     (* loopback *)
   ([169; 254; 0; 0], 16);  (* link local *)
   ([224; 0; 0; 0], 4);     (* multicast *)
   ([240; 0; 0; 0], 4)].    (* reserved *)

Definition v6net (a b : Z) : list Z := a :: b :: replicate 14 0.
Definition refusedV6 : list (list Z * Z) :=
  [(IPv6unspecified, 128); (IPv6loopback, 128);
   (v6net 0xfc 0, 7);       (* unique local *)
   (v6net 0xfe 0x80, 10);   (* link local *)
   (v6net 0xfe 0xc0, 10);   (* site local *)
   (v6net 0xff 0, 8)].      (* multicast *)

Definition refused (ip : IP) : bool :=
  match To4 ip with
  | Some (a, b, c, d) => existsb (fun '(net, bits) => in_net net [a; b; c; d] bits) refusedV4
  | None => existsb (fun '(net, bits) => in_net net ip bits) refusedV6
  end.

Definition ip_ok (ip : IP) : Prop := (length ip = 4%nat \/ length ip = 16%nat) /\ Forall (fun b => 0 <= b < 256) ip.

(** A statement about one byte is decided by its 256 cases. *)
Lemma byte_cases (p : Z -> bool) b : forallb p (seqZ 0 256) = true -> 0 <= b < 256 -> p b = true.
Proof. intros Hall Hb. rewrite forallb_forall in Hall. apply Hall, list_elem_of_In, elem_of_seqZ. lia. Qed.

Lemma land_255 b : 0 <= b < 256 -> Z.land b 255 = b.
Proof. intros Hb. change 255 with (Z.ones 8). rewrite Z.land_ones by lia. apply Z.mod_small. lia. Qed.

(** Decide an equation of booleans about the byte [b] by its cases. *)
Ltac by_byte b H :=
  apply eqb_prop;
  match goal with |- ?g = true =>
    let p := eval pattern b in g in match p with ?f _ => apply (byte_cases f b); [vm_compute; reflexivity|exact H] end end.

Lemma first_byte b : 0 <= b < 256 -> (Z.land b 240 =? 224) || (240 <=? b) = (Z.land b 240 =? 224) || (Z.land b 240 =? 240).
Proof. intros Hb. by_byte b Hb. Qed.

Lemma second_byte b : 0 <= b < 256 -> (64 <=? b) && (b <=? 127) = (Z.land b 192 =? 64).
Proof. intros Hb. by_byte b Hb. Qed.

Lemma if_orb (x y : bool) : (if x then true else y) = x || y.
Proof. by destruct x. Qed.

(** Booleans as propositions. *)
Ltac to_props :=
  rewrite ?if_orb, ?orb_true_iff, ?andb_true_iff, ?Z.eqb_eq, ?Z.leb_le, ?bool_decide_eq_true.

(** Compute the masks of a concrete network. *)
Ltac closed_z t := lazymatch t with Z0 => idtac | Zpos _ => idtac | Zneg _ => idtac end.
Ltac masks :=
  repeat match goal with
  | |- context [mask_byte ?z] => let v := eval vm_compute in (mask_byte z) in closed_z v; change (mask_byte z) with v
  | |- context [Z.land ?x ?y] => closed_z x; closed_z y; let v := eval vm_compute in (Z.land x y) in change (Z.land x y) with v
  end; rewrite ?Z.land_0_r.

Lemma refused_v4 a b c d ip :
  To4 ip = Some (a, b, c, d) -> 0 <= a < 256 -> 0 <= b < 256 -> IsDisallowedAddress ip = refused ip.
Proof.
  intros E Ha Hb. pose proof (first_byte a Ha) as Fa. pose proof (second_byte b Hb) as Fb.
  unfold IsDisallowedAddress, refused, IsUnspecified, IsLoopback, IsLinkLocalUnicast, IsLinkLocalMulticast, IsPrivate, IsMulticast.
  rewrite E. cbn [existsb refusedV4 in_net]. masks. rewrite (land_255 a Ha), (land_255 b Hb), Z.eqb_refl, !andb_true_r, !orb_false_r.
  apply eq_true_iff_eq. apply eq_iff_eq_true in Fa, Fb. revert Fa Fb. to_props.
  assert (a = 224 -> Z.land a 240 = 224) as F1 by by intros ->.
  assert ((a, b, c, d) = (0, 0, 0, 0) -> a = 0) as F2 by congruence.
  intros Fa Fb. clear -F1 F2 Fa Fb. tauto.
Qed.

Lemma sixteen (ip : IP) : length ip = 16%nat ->
  exists b0 b1 b2 b3 b4 b5 b6 b7 b8 b9 b10 b11 b12 b13 b14 b15,
    ip = [b0; b1; b2; b3; b4; b5; b6; b7; b8; b9; b10; b11; b12; b13; b14; b15].
Proof. intros Hl. do 16 (destruct ip as [|? ip]; [discriminate|]). destruct ip; [|discriminate]. by do 16 eexists. Qed.

Lemma refused_v6 ip : To4 ip = None -> length ip = 16%nat -> Forall (fun b => 0 <= b < 256) ip ->
  IsDisallowedAddress ip = refused ip.
Proof.
  intros E Hl Hb. unfold IsDisallowedAddress, refused, IsUnspecified, IsLoopback, IsLinkLocalUnicast, IsLinkLocalMulticast,
    IsPrivate, IsMulticast, is16. rewrite E, Hl. clear E.
  destruct (sixteen ip Hl) as (b0 & b1 & b2 & b3 & b4 & b5 & b6 & b7 & b8 & b9 & b10 & b11 & b12 & b13 & b14 & b15 & ->).
  rewrite !Forall_cons in Hb. destruct Hb as (H0 & H1 & H2 & H3 & H4 & H5 & H6 & H7 & H8 & H9 & H10 & H11 & H12 & H13 & H14 & H15 & _).
  cbn [Nat.eqb andb byte_at nth existsb refusedV6 in_net v6net IPv6unspecified IPv6loopback replicate app]. masks.
  rewrite !land_255 by assumption. rewrite Z.eqb_refl, !andb_true_r, !orb_false_r.
  apply eq_true_iff_eq. to_props.
  assert (forall l : list Z, [b0; b1; b2; b3; b4; b5; b6; b7; b8; b9; b10; b11; b12; b13; b14; b15] = l <->
    match l with [c0; c1; c2; c3; c4; c5; c6; c7; c8; c9; c10; c11; c12; c13; c14; c15] =>
      b0 = c0 /\ b1 = c1 /\ b2 = c2 /\ b3 = c3 /\ b4 = c4 /\ b5 = c5 /\ b6 = c6 /\ b7 = c7 /\ b8 = c8 /\ b9 = c9
      /\ b10 = c10 /\ b11 = c11 /\ b12 = c12 /\ b13 = c13 /\ b14 = c14 /\ b15 = c15 | _ => False end) as Hlist.
  { intros l. split; [by intros <-|].
    do 16 (destruct l as [|? l]; [done|]). destruct l; [|done]. intros H'. decompose [and] H'. congruence. }
  rewrite !Hlist. cbn [IPv6unspecified IPv6loopback replicate app]. clear.
  match goal with |- (((((?P \/ ?Q) \/ _) \/ _) \/ _) \/ _) \/ _ <-> _ => generalize P, Q end. tauto.
Qed.

(** C36. The SSRF filter refuses exactly the intended networks. On every IPv4 and IPv6 address (IPv4-mapped ones
    included) [IsDisallowedAddress] agrees with membership in the registry of refused networks, computed with
    prefix masks: this network, private, shared, loopback, link-local, multicast and reserved IPv4 space,
    and the unspecified, loopback, unique-local, link-local, site-local and multicast IPv6 addresses. *)
Theorem IsDisallowedAddress_registry (ip : IP) : ip_ok ip -> IsDisallowedAddress ip = refused ip.
Proof.
  intros [Hl Hb]. destruct (To4 ip) as [[[[a b] c] d]|] eqn:E.
  - assert (0 <= a < 256 /\ 0 <= b < 256) as [Ha Hb']; [|by eapply refused_v4].
    assert (Forall (fun b => 0 <= b < 256) [a; b; c; d]) as Hq.
    { assert (ip = [a; b; c; d] \/ drop 12 ip = [a; b; c; d]) as [<-|Hd].
      { unfold To4 in E. destruct ip as [|? [|? [|? [|? [|]]]]]; try (left; congruence);
          right; destruct (bool_decide _); try discriminate; destruct (drop 12 _) as [|? [|? [|? [|? [|]]]]]; try discriminate; congruence. }
      { done. }
      rewrite <- Hd. by apply Forall_drop. }
    rewrite !Forall_cons in Hq. tauto.
  - destruct Hl as [Hl|Hl]; [|by apply refused_v6].
    do 4 (destruct ip as [|? ip]; [discriminate|]). destruct ip; discriminate.
Qed.

Lemma IsDisallowedAddress_registry_witness :
  IsDisallowedAddress [0; 0; 0; 0; 0; 0; 0; 0; 0; 0; 0xff; 0xff; 10; 1; 2; 3] = true
  /\ refused [0; 0; 0; 0; 0; 0; 0; 0; 0; 0; 0xff; 0xff; 10; 1; 2; 3] = true.
Proof.
  split; [reflexivity|]. rewrite <- IsDisallowedAddress_registry; [reflexivity|].
  split; [right; reflexivity|]. repeat constructor; discriminate.
Defined.

(** Networks that are not public but pass: benchmarking and documentation IPv4 space, and the translation
    prefixes of IPv6 that embed an IPv4 address (here NAT64 of 127.0.0.1 and 6to4 of 10.0.0.1). *)
Theorem nonpublic_allowed :
  IsDisallowedAddress [198; 18; 0; 1] = false /\ IsDisallowedAddress [192; 0; 2; 1] = false
  /\ IsDisallowedAddress ([0; 0x64; 0xff; 0x9b; 0; 0; 0; 0; 0; 0; 0; 0] ++ [127; 0; 0; 1]) = false
  /\ IsDisallowedAddress ([0x20; 0x02; 10; 0; 0; 1] ++ replicate 10 0) = false.
Proof. by vm_compute. Qed.
