(* ===== verification/Bilibili.v ===== *)
(** * Bilibili downloads (internal/ytdlp/bilibili.go)

    The API calls, the mirrors and the three ways of fetching a file: [fetchFile] streams and resumes,
    [fetchRange] fills one range of a file, and [fetchChunks] runs ranges side by side. The JSON documents
    of the API are the class [BiliCodec].  A file being written is a [content]: the bytes at each offset. *)

From S2P Require Import Prelude GoStrings Proc Errors GoContext HttpParams Links.

Local Open Scope string_scope.
Local Open Scope list_scope.
Local Open Scope Z_scope.

Definition biliAPI : string := "https://api.bilibili.com".
Definition biliBrowser : string :=
  "Mozilla/5.0 (Windows NT 10.0; Win64; x64) AppleWebKit/537.36 (KHTML, like Gecko) Chrome/126.0 Safari/537.36".
Definition biliAPIAgent : string := "Vparser/1.0 (+https://vparser.yunfanteo.world)".
Definition maxDownload : Z := 2 * 2 ^ 30.
Definition chunkSize : Z := 4 * 2 ^ 20.

(** ** Hosts and targets *)

Definition IsBilibili (host : string) : bool :=
  let h := ToLower (TrimSuffix host ".") in
  String.eqb h "b23.tv" || String.eqb h "bilibili.com" || HasSuffix h ".bilibili.com".

Definition bilibiliCDN (host : string) : bool :=
  existsb (HasSuffix (ToLower host)) [".bilivideo.com"; ".bilivideo.cn"; ".akamaized.net"; ".hdslb.com"].

Definition alnum (a : ascii) : bool :=
  in_range 48 57 (byte a) || in_range 65 90 (byte a) || in_range 97 122 (byte a).

(** [bvRe.FindString] for [BV[0-9A-Za-z]{10}]: the leftmost match. *)
Fixpoint findBV (s : string) : string :=
  match s with
  | EmptyString => ""
  | String _ r =>
      let m := str_take 12 s in
      if Nat.eqb (String.length m) 12 && HasPrefix m "BV" && str_forall alnum (str_drop 2 m) then m else findBV r
  end.

(** A page of a video, and an entry of the play list. *)
Record biliPage := mkPage { pg_CID : Z; pg_Page : Z; pg_Part : string }.
Record biliFile := mkFile { df_URL : string; df_Size : Z }.

(** The decoder of the envelope of an API answer (code, message, data) and of the three kinds of data. *)
Class BiliCodec := {
  decodeEnvelope : string -> option (Z * string * string);
  decodePages : string -> res (list biliPage);
  decodeTitle : string -> res string;
  decodePlay : string -> res (list biliFile) }.

Section client.
Context `{FoldTable, GoURL, DownloaderConfig, BiliCodec}.

Definition BilibiliTarget (u : URL) : option (string * Z) :=
  let bv := findBV (u_Path u) in
  if String.eqb bv "" then None
  else
    let p := match Atoi (queryParam u "p") with Some p => if p <? 1 then 1 else p | None => 1 end in
    Some (bv, p).

Definition biliAPIBase : string := if negb (String.eqb dl_BiliAPI "") then dl_BiliAPI else biliAPI.

Definition biliTimeout : gerror := Business CodeSourceTimeout "连接 B 站超时，请稍后重试或改为上传文件".

Definition resolveShortLink (ctx : Context) (u : URL) : proc LinkE (res URL) :=
  Do (LGet ctx (URLString u) [("User-Agent", biliBrowser)]) (fun r =>
  match r with
  | Err _ => Ret (Err biliTimeout)
  | Ok resp =>
      match resolveReference u (rs_Location resp) with
      | Ok next =>
          if negb (IsBilibili (Hostname next)) || EqualFold (Hostname next) "b23.tv"
          then Ret (Err (Business CodeSourceUnsupported "这个 B 站短链没有指向视频页，请复制视频页的链接"))
          else Ret (Ok next)
      | Err _ => Ret (Err (Business CodeSourceUnsupported "这个 B 站短链没有指向视频页，请复制视频页的链接"))
      end
  end).

Definition refusedMsg (status : Z) : string :=
  "B 站拒绝了服务器的请求（HTTP " +:+ Itoa status +:+ "），请先把视频保存到本地再上传".

(** [biliGet] with the decoder of its [out]. *)
Definition biliGet {A} (ctx : Context) (path : string) (q : list (string * string)) (decode : string -> res A)
  : proc LinkE (res A) :=
  Do (LGet ctx (biliAPIBase +:+ path +:+ "?" +:+ encodeQuery q) [("User-Agent", biliAPIAgent)]) (fun r =>
  match r with
  | Err _ => Ret (Err biliTimeout)
  | Ok resp =>
      match (if rs_Status resp =? 200 then decodeEnvelope (str_take (Z.to_nat (4 * 2 ^ 20)) (String.concat "" (rs_Body resp))) else None) with
      | None => Ret (Err (Business CodeSourceBlocked (refusedMsg (rs_Status resp))))
      | Some (code, message, data) =>
          if negb (code =? 0)
          then Ret (Err (Business CodeSourceBlocked ("B 站没有返回这个视频（可能已删除、仅会员可看或有地区限制）：" +:+ TrimSpace message)))
          else Ret (decode data)
      end
  end).

(** ** Mirrors *)

Definition biliMirrorHosts : list string :=
  ["upos-sz-mirrorcosov.bilivideo.com"; ""; "upos-sz-mirrorcos.bilivideo.com"; "upos-sz-mirrorali.bilivideo.com"].

(** The copy [v] of the URL with the mirror's host. *)
Definition rehost (u : URL) (h : string) : URL :=
  if negb (String.eqb h "") then mkURL (u_Scheme u) h (u_Path u) (u_Rest u) else u.

Definition BilibiliMirrors (src : string) : list string :=
  match parseURL src with
  | Ok u =>
      if negb (HasPrefix (u_Path u) "/upgcxcode/") || negb (bilibiliCDN (Hostname u)) then [src]
      else
        fold_left (fun out h =>
          let s := URLString (rehost u h) in
          if bool_decide (s ∈ out) then out else out ++ [s]) biliMirrorHosts []
  | Err _ => [src]
  end.

Definition browserHeaders : list (string * string) :=
  [("User-Agent", biliBrowser); ("Referer", "https://www.bilibili.com/")].

Definition mirrorAt (mirrors : list string) (i : nat) : string := nth i mirrors "".

(** ** One range (fetchRange) *)

(** The read loop over a body, into a buffer of 64 KiB: the position reached, or the error of a write. *)
Fixpoint readInto (body : list string) (pos end_ : Z) : proc LinkE (res Z) :=
  match body with
  | [] => Ret (Ok pos)
  | piece :: body =>
      if end_ <? pos then Ret (Ok pos)
      else
        let data := str_take (Z.to_nat (Z.min 65536 (end_ - pos + 1))) piece in
        if 0 <? strlen data then
          Do (LWriteAt pos data) (fun w =>
          match w with Err e => Ret (Err e) | Ok _ => readInto body (pos + strlen data) end_ end)
        else readInto body pos end_
  end.

Definition resumeMsg : string := "从 B 站下载视频时连接反复中断，请稍后重试或改为上传文件".

(** The loop of [fetchRange], at most [fuel] requests; [None] when that was not enough. *)
Fixpoint rangeLoop (fuel : nat) (ctx : Context) (mirrors : list string) (pos end_ : Z) (mirror : nat) (stalls : Z)
  : proc LinkE (option (res unit)) :=
  if end_ <? pos then Ret (Some (Ok tt))
  else
    match fuel with
    | O => Ret None
    | S fuel =>
        Do (LGet ctx (mirrorAt mirrors mirror)
              (browserHeaders ++ [("Range", "bytes=" +:+ FormatInt pos +:+ "-" +:+ FormatInt end_)])) (fun r =>
        bind (match r with
              | Ok resp => if rs_Status resp =? 206 then readInto (rs_Body resp) pos end_ else Ret (Ok pos)
              | Err _ => Ret (Ok pos)
              end) (fun read =>
        match read with
        | Err werr => Ret (Some (Err werr))
        | Ok after =>
            if end_ <? after then Ret (Some (Ok tt))
            else
              Do (LCtxErr ctx) (fun c =>
              match c with
              | Some e => Ret (Some (Err e))
              | None =>
                  if pos <? after then rangeLoop fuel ctx mirrors after end_ mirror 0
                  else
                    let stalls := stalls + 1 in
                    if (3 <=? stalls) && Nat.leb (length mirrors) (mirror + 1)
                    then Ret (Some (Err (Business CodeSourceTimeout resumeMsg)))
                    else
                      let '(mirror, stalls) := if 3 <=? stalls then ((mirror + 1)%nat, 0) else (mirror, stalls) in
                      Do (LSleepOrDone ctx (stalls * second)) (fun d =>
                      match d with
                      | Some e => Ret (Some (Err e))
                      | None => rangeLoop fuel ctx mirrors after end_ mirror stalls
                      end)
              end)
        end))
    end.

Definition fetchRange (fuel : nat) (ctx : Context) (mirrors : list string) (start end_ : Z) : proc LinkE (option (res unit)) :=
  rangeLoop fuel ctx mirrors start end_ 0 0.

(** ** A file in ranges (fetchChunks) *)

(** The first and last byte of the ranges, in the order they are fed to the workers. *)
Fixpoint rangesFrom (n : nat) (start size : Z) : list (Z * Z) :=
  match n with
  | O => []
  | S n => if start <? size then (start, Z.min (start + chunkSize) size - 1) :: rangesFrom n (start + chunkSize) size else []
  end.

Definition ranges (size : Z) : list (Z * Z) := rangesFrom (Z.to_nat (size / chunkSize + 1)) 0 size.

Definition tooLarge : gerror := Business CodeSourceTooLarge "视频超过 2 GB，无法通过链接导入".

(** The closure [fail] of [fetchChunks] and [fetchFile]. *)
Definition failFetch (out : string) (e : gerror) : proc LinkE (res string) :=
  Do LCloseFile (fun _ => Do (LRemove out) (fun _ => Ret (Err e))).

Definition closeFetch (out : string) (k : proc LinkE (res string)) : proc LinkE (res string) :=
  Do LCloseFile (fun c =>
  match c with Err e => Do (LRemove out) (fun _ => Ret (Err e)) | Ok _ => k end).

Definition fetchChunks (ctx : Context) (src : string) (size : Z) : proc LinkE (res string) :=
  if maxDownload <? size then Ret (Err tooLarge)
  else
    let cctx := WithSource BranchCancel (WithSource (TimedOut downloadTimeout) ctx) in
    bind tempMP4 (fun out =>
    _ ←? call (LCreate out);
    Do (LTruncate size) (fun t =>
    match t with
    | Err e => failFetch out e
    | Ok _ =>
        Do (LFetchRanges cctx (BilibiliMirrors src) size) (fun err =>
        match err with
        | Some e => failFetch out e
        | None =>
            Do (LCtxErr ctx) (fun c =>
            match c with
            | Some e => failFetch out e
            | None =>
                Do (LCtxErr cctx) (fun c =>
                match c with
                | Some e => failFetch out (Internal "视频链接下载超时" (Some e))
                | None => closeFetch out (Ret (Ok out))
                end)
            end)
        end)
    end)).

(** ** A file as a stream (fetchFile) *)

Definition shortWrite : gerror := OtherErr "short write" None None.
Definition invalidWrite : gerror := OtherErr "invalid write result" None None.
Definition unexpectedEOF : gerror := OtherErr "unexpected EOF" None None.
Definition cdnAnswered (status : Z) : gerror := OtherErr ("cdn answered HTTP " +:+ Itoa status) None None.

(** [io.Copy(f, io.LimitReader(body, limit))]: the bytes copied and the error. *)
Fixpoint copyBody (body : list string) (end_ : option gerror) (limit copied : Z) : proc LinkE (Z * option gerror) :=
  match body with
  | [] => Ret (copied, if limit <=? 0 then None else end_)
  | piece :: body =>
      if limit <=? 0 then Ret (copied, None)
      else
        let data := str_take (Z.to_nat limit) piece in
        if 0 <? strlen data then
          Do (LAppend data) (fun '(nw, werr) =>
          let '(nw, werr) :=
            if (nw <? 0) || (strlen data <? nw)
            then (0, match werr with Some e => Some e | None => Some invalidWrite end) else (nw, werr) in
          match werr with
          | Some e => Ret (copied + nw, Some e)
          | None =>
              if negb (nw =? strlen data) then Ret (copied + nw, Some shortWrite)
              else copyBody body end_ (limit - nw) (copied + nw)
          end)
        else copyBody body end_ limit copied
  end.

Definition interruptedMsg : string := "从 B 站下载视频时连接中断，请稍后重试".
Definition rejectedMsg (status : Z) : string :=
  "B 站视频服务器拒绝了下载（HTTP " +:+ Itoa status +:+ "），请先把视频保存到本地再上传".

(** The end of the loop's body, the transfer interrupted with [err] at [n'] bytes after [n]: give up, or go on
    as [again], from a number of bytes, a mirror and a number of stalls. *)
Definition interrupted (ctx cctx : Context) (mirrors : list string) (n n' : Z) (mirror : nat) (stalls : Z)
  (again : Z -> nat -> Z -> proc LinkE (option (res Z))) (err : gerror) : proc LinkE (option (res Z)) :=
  Do (LCtxErr ctx) (fun c =>
  match c with
  | Some e => Ret (Some (Err e))
  | None =>
      Do (LCtxErr cctx) (fun c =>
      match c with
      | Some _ => Ret (Some (Err (Internal "视频链接下载超时" (Some err))))
      | None =>
          let stalls := if n <? n' then 0 else stalls + 1 in
          if (4 <=? stalls) && negb (Nat.leb (length mirrors) (mirror + 1)) then again n' (mirror + 1)%nat 0
          else if 5 <=? stalls then Ret (Some (Err (Business CodeSourceTimeout resumeMsg)))
          else
            Do (LSleepOrDone cctx ((stalls + 1) * second)) (fun d =>
            match d with
            | Some e => Ret (Some (Err (Internal "视频链接下载超时" (Some e))))
            | None => again n' mirror stalls
            end)
      end)
  end).

(** The loop of [fetchFile], at most [fuel] requests: the number of bytes of the complete file. *)
Fixpoint fileLoop (fuel : nat) (ctx cctx : Context) (mirrors : list string) (size n : Z) (mirror : nat) (stalls : Z)
  : proc LinkE (option (res Z)) :=
  match fuel with
  | O => Ret None
  | S fuel =>
      let again := fileLoop fuel ctx cctx mirrors size in
      let next_or fail :=
        if Nat.leb (length mirrors) (mirror + 1) then Ret (Some (Err fail)) else again n (mirror + 1)%nat 0 in
      let interrupted n' := interrupted ctx cctx mirrors n n' mirror stalls again in
      Do (LGet cctx (mirrorAt mirrors mirror)
            (browserHeaders ++ if 0 <? n then [("Range", "bytes=" +:+ FormatInt n +:+ "-")] else [])) (fun r =>
      match r with
      | Err e => interrupted n e
      | Ok resp =>
          let status := rs_Status resp in
          if (500 <=? status) || (status =? 429) then interrupted n (cdnAnswered status)
          else if negb (status =? 200) && negb (status =? 206) then
            next_or (Business CodeSourceBlocked (rejectedMsg status))
          else if (0 <? n) && negb (status =? 206) then next_or (Business CodeSourceTimeout interruptedMsg)
          else
            bind (copyBody (rs_Body resp) (rs_End resp) (maxDownload + 1 - n) 0) (fun '(m, err) =>
            let n' := n + m in
            if maxDownload <? n' then Ret (Some (Err tooLarge))
            else
              match (match err with
                     | Some e => Some e
                     | None => if (0 <? size) && (n' <? size) then Some unexpectedEOF else None
                     end) with
              | None => Ret (Some (Ok n'))
              | Some e => interrupted n' e
              end)
      end)
  end.

Definition fetchFile (fuel : nat) (ctx : Context) (src : string) (size : Z) : proc LinkE (option (res string)) :=
  let cctx := WithSource (TimedOut downloadTimeout) ctx in
  bind tempMP4 (fun out =>
  Do (LCreate out) (fun f =>
  match f with
  | Err e => Ret (Some (Err e))
  | Ok _ =>
      bind (fileLoop fuel ctx cctx (BilibiliMirrors src) size 0 0 0) (fun r =>
      match r with
      | None => Ret None
      | Some (Err e) => bind (failFetch out e) (fun r => Ret (Some r))
      | Some (Ok n) =>
          bind (closeFetch out
            (if n =? 0 then Do (LRemove out) (fun _ => Ret (Err (Business CodeSourceUnsupported "B 站返回了空文件，请先保存到本地再上传")))
             else Ret (Ok out))) (fun r => Ret (Some r))
      end)
  end)).

(** ** The download (downloadBilibili, Download) *)

Definition notVideoPage : gerror := Business CodeSourceUnsupported "只支持 B 站视频页的链接（地址里带 BV 号）".

(** [downloadBilibili] once the file to fetch is known: [media] on the CDN, [size] bytes if announced. *)
Definition fetchMedia (fuel : nat) (ctx : Context) (file : biliFile) (name : string)
  : proc LinkE (option (res (string * string))) :=
  if maxDownload <? df_Size file then Ret (Some (Err tooLarge))
  else
    let refuse := Ret (Some (Err (Business CodeSourceUnsupported "B 站返回的下载地址不在其视频 CDN 上，已拒绝"))) in
    match parseURL (df_URL file) with
    | Err _ => refuse
    | Ok media =>
        let allowed := match dl_CDNAllowed with Some f => f | None => bilibiliCDN end in
        if negb (allowed (Hostname media)) then refuse
        else
          bind (if chunkSize <? df_Size file
                then bind (fetchChunks ctx (URLString media) (df_Size file)) (fun r => Ret (Some r))
                else fetchFile fuel ctx (URLString media) (df_Size file)) (fun r =>
          Ret match r with
              | None => None
              | Some (Err e) => Some (Err e)
              | Some (Ok path) => Some (Ok (path, name))
              end)
    end.

(** [downloadBilibili] from the video page on. *)
Definition downloadPage (fuel : nat) (ctx : Context) (u : URL) : proc LinkE (option (res (string * string))) :=
  match BilibiliTarget u with
  | None => Ret (Some (Err notVideoPage))
  | Some (bv, part) =>
      bind (biliGet ctx "/x/player/pagelist" [("bvid", bv)] decodePages) (fun pages =>
      match pages with
      | Err e => Ret (Some (Err e))
      | Ok pages =>
          let part := if Z.of_nat (length pages) <? part then 1 else part in
          match pages !! Z.to_nat (part - 1) with
          | None => Ret (Some (Err (Business CodeSourceUnsupported "这个 B 站视频没有可播放的分 P"))) (* no pages *)
          | Some pg =>
              bind (biliGet ctx "/x/web-interface/view" [("bvid", bv)] decodeTitle) (fun view =>
              let name := match view with Ok title => if negb (is_blank title) then title else bv | Err _ => bv end in
              let name := if Nat.ltb 1 (length pages) then name +:+ " P" +:+ Itoa (pg_Page pg) +:+ " " +:+ pg_Part pg else name in
              bind (biliGet ctx "/x/player/playurl"
                      [("bvid", bv); ("cid", FormatInt (pg_CID pg)); ("qn", "64"); ("fnval", "1");
                       ("platform", "html5"); ("high_quality", "1")] decodePlay) (fun play =>
              match play with
              | Err e => Ret (Some (Err e))
              | Ok [file] => fetchMedia fuel ctx file name
              | Ok _ => Ret (Some (Err (Business CodeSourceUnsupported "B 站没有给出可直接下载的视频文件，请先保存到本地再上传")))
              end))
          end
      end)
  end.

Definition downloadBilibili (fuel : nat) (ctx : Context) (u : URL) : proc LinkE (option (res (string * string))) :=
  if EqualFold (Hostname u) "b23.tv" then
    bind (resolveShortLink ctx u) (fun next =>
    match next with Err e => Ret (Some (Err e)) | Ok u => downloadPage fuel ctx u end)
  else downloadPage fuel ctx u.

Definition Download (fuel : nat) (ctx : Context) (rawURL : string) : proc LinkE (option (res (string * string))) :=
  bind (ValidatePublicHTTPURL ctx rawURL) (fun v =>
  match v with
  | Err e => Ret (Some (Err e))
  | Ok _ =>
      let viaYtDlp := bind (runYtDlp ctx rawURL) (fun r =>
        Ret (Some match r with Ok path => Ok (path, "") | Err e => Err e end)) in
      match parseURL rawURL with
      | Ok u => if IsBilibili (Hostname u) then downloadBilibili fuel ctx u else viaYtDlp
      | Err _ => viaYtDlp
      end
  end).

End client.

(** ** The file being written *)

(** The bytes of a file by offset. *)
Definition content : Type := Z -> option ascii.

Definition put (f : content) (off : Z) (data : string) : content := fun p =>
  if (off <=? p) && (p <? off + strlen data) then String.get (Z.to_nat (p - off)) data else f p.

Definition byteAt (s : string) (p : Z) : option ascii := if p <? 0 then None else String.get (Z.to_nat p) s.

(** The file holds the bytes of [src] from [lo] up to, not including, [hi]. *)
Definition holds (f : content) (src : string) (lo hi : Z) : Prop := forall p, lo <= p < hi -> f p = byteAt src p.

(** What the reads of a body deliver are the bytes of [src] from [pos] on, at most 64 KiB at a time. *)
Fixpoint delivers (src : string) (pos : Z) (body : list string) : Prop :=
  match body with
  | [] => True
  | piece :: body =>
      strlen piece <= 65536
      /\ (forall i, 0 <= i < strlen piece -> byteAt piece i = byteAt src (pos + i))
      /\ delivers src (pos + strlen piece) body
  end.

Definition rangeHeader (pos end_ : Z) : string * string :=
  ("Range", "bytes=" +:+ FormatInt pos +:+ "-" +:+ FormatInt end_).

(** The service a range is fetched from: every mirror serves the bytes of [src], so a 206 answer to a range
    request delivers that range; the file takes what is written to it, or reports an error. *)
Definition mirrorsOf (src : string) (X : Type) (c : LinkE X) (f : content) : X -> content -> Prop :=
  match c in LinkE X return X -> content -> Prop with
  | LGet _ _ headers => fun x f' => f' = f /\ forall resp pos end_, x = Ok resp -> rs_Status resp = 206 ->
      rangeHeader pos end_ ∈ headers -> delivers src pos (rs_Body resp)
  | LWriteAt off data => fun x f' =>
      match x with Ok _ => f' = put f off data | Err _ => exists k, f' = put f off (str_take k data) end
  | _ => fun _ f' => f' = f
  end.

(** *** Lemmas *)

Lemma get_take n s i : (i < n)%nat -> String.get i (str_take n s) = String.get i s.
Proof.
  revert s i. induction n as [|n IH]; intros [|a s] i Hi; [lia..|done|]. destruct i as [|i]; [done|].
  cbn [str_take String.get]. apply IH. lia.
Qed.

Lemma byteAt_take n s i : i < Z.of_nat n -> byteAt (str_take n s) i = byteAt s i.
Proof. intros Hi. unfold byteAt. destruct (Z.ltb_spec i 0); [done|]. apply get_take. lia. Qed.

Lemma put_inside f off data p : off <= p < off + strlen data -> put f off data p = byteAt data (p - off).
Proof.
  intros Hp. unfold put, byteAt. rewrite (proj2 (Z.leb_le _ _)), (proj2 (Z.ltb_lt _ _)) by lia.
  rewrite (proj2 (Z.ltb_ge (p - off) 0)) by lia. done.
Qed.

Lemma put_outside f off data p : p < off \/ off + strlen data <= p -> put f off data p = f p.
Proof.
  intros Hp. unfold put. destruct (Z.leb_spec off p), (Z.ltb_spec p (off + strlen data)); cbn [andb]; try done. lia.
Qed.

Lemma take_writes n s : strlen (str_take n s) <= strlen s.
Proof. rewrite strlen_take. lia. Qed.

(** Two files agree from [lo] up to, not including, [hi]. *)
Definition same (f f' : content) (lo hi : Z) : Prop := forall p, lo <= p < hi -> f' p = f p.

Definition writesIn (lo hi : Z) (X : Type) (c : LinkE X) : Prop :=
  match c with LWriteAt off data => lo <= off /\ off + strlen data <= hi | LAppend _ | LTruncate _ => False | _ => True end.

Section ranges.
Context (src : string).

(** [filling lo hi p f Q]: run from the file [f] beside writers of other parts of the file, [p] writes inside
    [lo, hi) only and ends in a result and a file satisfying [Q]. *)
Fixpoint filling (lo hi : Z) {A} (p : proc LinkE A) (f : content) (Q : A -> content -> Prop) : Prop :=
  match p with
  | Ret a => Q a f
  | Do c k => writesIn lo hi _ c /\
      forall f0 x f', same f f0 lo hi -> mirrorsOf src _ c f0 x f' -> filling lo hi (k x) f' Q
  | Panic _ => False
  end.

Lemma filling_mono lo hi {A} (p : proc LinkE A) f (Q R : A -> content -> Prop) :
  filling lo hi p f Q -> (forall a f', Q a f' -> R a f') -> filling lo hi p f R.
Proof.
  revert f. induction p as [a|X c k IH|why]; cbn [filling]; intros f HQ HR; [auto| |done].
  destruct HQ as [Hw HQ]. split; [done|]. intros f0 x f' Hs Hc. eapply IH; [by eapply HQ|done].
Qed.

Lemma filling_bind lo hi {A B} (p : proc LinkE A) (g : A -> proc LinkE B) f Q :
  filling lo hi p f (fun a f' => filling lo hi (g a) f' Q) -> filling lo hi (bind p g) f Q.
Proof.
  revert f. induction p as [a|X c k IH|why]; cbn [filling bind]; intros f HQ; [done| |done].
  destruct HQ as [Hw HQ]. split; [done|]. intros f0 x f' Hs Hc. apply IH. by eapply HQ.
Qed.

(** Other writers do not disturb a run. *)
Lemma filling_same lo hi {A} (p : proc LinkE A) f f' (Q : A -> content -> Prop) :
  (forall a f f', same f f' lo hi -> Q a f -> Q a f') -> same f f' lo hi -> filling lo hi p f Q -> filling lo hi p f' Q.
Proof.
  intros HQ Hs. destruct p as [a|X c k|why]; cbn [filling]; [by apply HQ| |done].
  intros [Hw Hrun]. split; [done|]. intros f0 x f1 Hs' Hc. eapply Hrun; [|exact Hc].
  intros p Hp. by rewrite Hs', Hs.
Qed.

Lemma holds_same f f' lo hi a b : same f f' lo hi -> lo <= a -> b <= hi -> holds f src a b -> holds f' src a b.
Proof. intros Hs Ha Hb Hf p Hp. rewrite Hs by lia. by apply Hf. Qed.

(** The read loop extends what the file holds and stays inside its range. *)
Lemma readInto_fills body pos end_ start f :
  start <= pos <= end_ + 1 -> holds f src start pos -> delivers src pos body ->
  filling start (end_ + 1) (readInto body pos end_) f (fun r f' =>
    forall after, r = Ok after -> pos <= after <= end_ + 1 /\ holds f' src start after).
Proof.
  revert pos f. induction body as [|piece body IH]; intros pos f Hpos Hf Hd; cbn [readInto].
  { intros after [= <-]. split; [lia|done]. }
  destruct Hd as (Hlen & Hpiece & Hd). destruct (Z.ltb_spec end_ pos).
  { intros after [= <-]. split; [lia|done]. }
  pose proof (strlen_nonneg piece) as Hnn.
  set (k := Z.to_nat (Z.min 65536 (end_ - pos + 1))).
  pose proof (strlen_take k piece) as Htake.
  destruct (Z.ltb_spec 0 (strlen (str_take k piece))) as [Hpos'|Hzero].
  - cbn [filling]. split; [cbn; lia|]. intros f0 [u|e] f' Hs Hw; [|by intros]. cbn [mirrorsOf] in Hw. subst f'.
    assert (holds (put f0 pos (str_take k piece)) src start (pos + strlen (str_take k piece))) as Hf'.
    { intros p Hp. destruct (Z.lt_ge_cases p pos).
      - rewrite put_outside, Hs by lia. apply Hf. lia.
      - rewrite put_inside, byteAt_take by lia. rewrite Hpiece by lia. f_equal. lia. }
    destruct (Z.le_gt_cases (strlen piece) (Z.of_nat k)).
    + assert (strlen (str_take k piece) = strlen piece) as El by lia. rewrite El in *.
      eapply filling_mono; [apply IH; [lia|done|done]|]. intros r f' Hr after ->. destruct (Hr after eq_refl). split; [lia|done].
    + assert (strlen (str_take k piece) = end_ - pos + 1) as El by lia. rewrite El in *.
      destruct body as [|piece' body']; cbn [readInto]; [|rewrite (proj2 (Z.ltb_lt _ _)) by lia];
        intros after [= <-]; (split; [lia|done]).
  - assert (strlen piece = 0) as El by lia. rewrite El, Z.add_0_r in Hd. by apply IH.
Qed.

Lemma rangeLoop_fills fuel ctx mirrors pos end_ mirror stalls start f :
  start <= pos <= end_ + 1 -> holds f src start pos ->
  filling start (end_ + 1) (rangeLoop fuel ctx mirrors pos end_ mirror stalls) f (fun r f' =>
    r = Some (Ok tt) -> holds f' src start (end_ + 1)).
Proof.
  revert pos mirror stalls f. induction fuel as [|fuel IH]; intros pos mirror stalls f Hpos Hf; cbn [rangeLoop];
    (destruct (Z.ltb_spec end_ pos); [intros _; replace (end_ + 1) with pos by lia; done|]); [done|].
  cbn [filling]. split; [done|]. intros f0 r f1 Hs [-> Hget]. apply filling_bind.
  assert (holds f0 src start pos) as Hf0 by (eapply holds_same; [exact Hs|lia|lia|done]). clear f Hf Hs.
  assert (filling start (end_ + 1) (match r with
      | Ok resp => if rs_Status resp =? 206 then readInto (rs_Body resp) pos end_ else Ret (Ok pos)
      | Err _ => Ret (Ok pos) end) f0
      (fun r f' => forall after, r = Ok after -> pos <= after <= end_ + 1 /\ holds f' src start after)) as Hread.
  { destruct r as [resp|e]; [|intros after [= <-]; split; [lia|done]].
    destruct (Z.eqb_spec (rs_Status resp) 206) as [H206|]; [|intros after [= <-]; split; [lia|done]].
    apply readInto_fills; [done|done|]. apply (Hget resp pos end_); [done|done|]. apply elem_of_app. right. by left. }
  eapply filling_mono; [exact Hread|]. intros [after|e] f2 Hafter; [|done]. destruct (Hafter after eq_refl) as [Ha Hf2].
  destruct (Z.ltb_spec end_ after); [intros _; replace (end_ + 1) with after by lia; done|].
  cbn [filling]. split; [done|]. intros f3 [e|] f4 Hs ->; [done|].
  assert (holds f3 src start after) as Hf3 by (eapply holds_same; [exact Hs|lia|lia|done]).
  destruct (Z.ltb_spec pos after); [apply IH; [lia|done]|].
  destruct (_ && _); [done|]. destruct (3 <=? stalls + 1); cbn [filling]; (split; [done|]); intros f4 [e|] f5 Hs4 ->;
    try done; (apply IH; [lia|]); (eapply holds_same; [exact Hs4|lia|lia|done]).
Qed.

(** A range that reports success is complete: whatever the connection drops, stalls and mirror changes in
    between, the file then holds exactly the source's bytes from [start] to [end_]. *)
Lemma fetchRange_fills fuel ctx mirrors start end_ f :
  start <= end_ + 1 ->
  filling start (end_ + 1) (fetchRange fuel ctx mirrors start end_) f (fun r f' =>
    r = Some (Ok tt) -> holds f' src start (end_ + 1)).
Proof. intros Hr. apply rangeLoop_fills; [lia|]. intros p Hp. lia. Qed.

End ranges.

(** ** Termination of a range *)

Definition requested : trace LinkE -> list string :=
  select (fun X (c : LinkE X) => match c with LGet _ url _ => fun _ => Some url | _ => fun _ => None end).

(** Requests that are enough to fetch a range: three per byte and three per mirror. *)
Definition rangeFuel (mirrors : list string) (start end_ : Z) : nat :=
  Z.to_nat (3 * (end_ - start + 1) + 3 * Z.of_nat (length mirrors)).

Lemma readInto_advances body pos end_ : pos <= end_ + 1 ->
  wp (readInto body pos end_) (fun tr r => requested tr = [] /\ forall after, r = Ok after -> pos <= after <= end_ + 1).
Proof.
  revert pos. induction body as [|piece body IH]; intros pos Hpos; cbn [readInto].
  { split; [done|]. intros after [= <-]. lia. }
  destruct (Z.ltb_spec end_ pos); [split; [done|]; intros after [= <-]; lia|].
  set (k := Z.to_nat (Z.min 65536 (end_ - pos + 1))). pose proof (strlen_take k piece) as Htake.
  destruct (Z.ltb_spec 0 (strlen (str_take k piece))); [|by apply IH].
  intros [u|e]; [|by split]. eapply wp_mono; [apply IH; lia|]. intros tr r [Hreq Hr].
  split; [exact Hreq|]. intros after ->. specialize (Hr after eq_refl). lia.
Qed.

Lemma mirrorAt_in mirrors i : (i < length mirrors)%nat -> mirrorAt mirrors i ∈ mirrors.
Proof. intros Hi. apply list_elem_of_In. by apply nth_In. Qed.

Lemma rangeLoop_terminates fuel ctx mirrors pos end_ mirror stalls :
  (mirror < length mirrors)%nat -> 0 <= stalls <= 2 -> pos <= end_ + 1 ->
  3 * (end_ - pos + 1) + 3 * (Z.of_nat (length mirrors) - Z.of_nat mirror) - stalls <= Z.of_nat fuel ->
  wp (rangeLoop fuel ctx mirrors pos end_ mirror stalls) (fun tr r => r <> None /\ Forall (.∈ mirrors) (requested tr)).
Proof.
  revert pos mirror stalls. induction fuel as [|fuel IH]; intros pos mirror stalls Hm Hs Hpos Hfuel; cbn [rangeLoop];
    (destruct (Z.ltb_spec end_ pos); [by split|]); [lia|].
  intros r. apply wp_bind.
  assert (wp (match r with
      | Ok resp => if rs_Status resp =? 206 then readInto (rs_Body resp) pos end_ else Ret (Ok pos)
      | Err _ => Ret (Ok pos) end)
      (fun tr r => requested tr = [] /\ forall after, r = Ok after -> pos <= after <= end_ + 1)) as Hread.
  { destruct r as [resp|e]; [|split; [done|]; intros after [= <-]; lia].
    destruct (rs_Status resp =? 206); [by apply readInto_advances|split; [done|]; intros after [= <-]; lia]. }
  eapply wp_mono; [exact Hread|]. clear Hread. intros tr [after|e] [Hreq Hafter].
  2: { cbn [wp]. split; [done|]. unfold requested in *. rewrite select_cons, select_app, Hreq.
       repeat constructor. by apply mirrorAt_in. }
  specialize (Hafter after eq_refl).
  assert (forall tr' (q : option (res unit)), q <> None /\ Forall (.∈ mirrors) (requested tr') ->
    q <> None /\ Forall (.∈ mirrors) (requested (Ev (LGet ctx (mirrorAt mirrors mirror)
      (browserHeaders ++ [("Range", "bytes=" +:+ FormatInt pos +:+ "-" +:+ FormatInt end_)])) r :: tr ++ tr'))) as Hstep.
  { intros tr' q [Hq Hall]. split; [done|]. unfold requested in *. rewrite select_cons, select_app, Hreq.
    constructor; [by apply mirrorAt_in|done]. }
  destruct (Z.ltb_spec end_ after); [apply Hstep; by split|].
  intros [e|]; [apply Hstep; by split|]. destruct (Z.ltb_spec pos after).
  - eapply wp_mono; [apply IH; lia|]. intros tr' q Hq. by apply Hstep.
  - destruct (Z.leb_spec 3 (stalls + 1)); cbn [andb].
    + destruct (Nat.leb_spec (length mirrors) (mirror + 1)); [apply Hstep; by split|].
      intros [e|]; [apply Hstep; by split|]. eapply wp_mono; [apply IH; lia|]. intros tr' q Hq. by apply Hstep.
    + intros [e|]; [apply Hstep; by split|]. eapply wp_mono; [apply IH; lia|]. intros tr' q Hq. by apply Hstep.
Qed.

(** C32. Fetching a range always ends, however the servers and connections behave: every request brings new bytes,
    or brings the range closer to giving up on a mirror, so three requests per byte and three per mirror are
    enough; only the given mirrors are asked. *)
Theorem fetchRange_terminates (ctx : Context) (mirrors : list string) (start end_ : Z) :
  mirrors <> [] -> start <= end_ + 1 ->
  wp (fetchRange (rangeFuel mirrors start end_) ctx mirrors start end_) (fun tr r =>
    r <> None /\ Forall (.∈ mirrors) (requested tr)).
Proof.
  intros Hm Hr. apply rangeLoop_terminates; [|lia|lia|unfold rangeFuel; lia]. destruct mirrors; [done|cbn; lia].
Qed.

(** ** The ranges of a file *)

Lemma rangesFrom_lookup n start size i lo hi :
  rangesFrom n start size !! i = Some (lo, hi) ->
  lo = start + Z.of_nat i * chunkSize /\ hi = Z.min (lo + chunkSize) size - 1 /\ lo < size.
Proof.
  revert start i. induction n as [|n IH]; intros start i; cbn [rangesFrom]; [done|].
  destruct (Z.ltb_spec start size); [|done]. destruct i as [|i]; cbn [lookup list_lookup].
  - intros [= <- <-]. lia.
  - intros (-> & -> & Hlt)%IH. lia.
Qed.

Lemma rangesFrom_some n start size i :
  (i < n)%nat -> start + Z.of_nat i * chunkSize < size -> is_Some (rangesFrom n start size !! i).
Proof.
  assert (0 < chunkSize) as Hc by (unfold chunkSize; lia).
  revert start i. induction n as [|n IH]; intros start i Hi Hlt; [lia|]. cbn [rangesFrom].
  destruct (Z.ltb_spec start size); [|nia]. destruct i as [|i]; [by eexists|]. cbn [lookup list_lookup]. apply IH; lia.
Qed.

(** The ranges partition the file. *)
Lemma ranges_cover size p : 0 <= p < size -> exists i lo hi, ranges size !! i = Some (lo, hi) /\ lo <= p <= hi.
Proof.
  intros Hp. assert (0 < chunkSize) as Hc by (unfold chunkSize; lia).
  set (i := Z.to_nat (p / chunkSize)).
  pose proof (Z.div_mod p chunkSize ltac:(lia)) as Hdm. pose proof (Z.mod_pos_bound p chunkSize Hc) as Hmod.
  pose proof (Z.div_le_mono p size chunkSize Hc ltac:(lia)) as Hle. pose proof (Z.div_pos p chunkSize ltac:(lia) Hc) as Hnn.
  destruct (rangesFrom_some (Z.to_nat (size / chunkSize + 1)) 0 size i) as [[lo hi] E]; [lia|lia|].
  exists i, lo, hi. split; [exact E|]. apply rangesFrom_lookup in E as (-> & -> & Hlt). lia.
Qed.

Lemma ranges_disjoint size i j lo hi lo' hi' :
  ranges size !! i = Some (lo, hi) -> ranges size !! j = Some (lo', hi') -> i <> j -> hi + 1 <= lo' \/ hi' + 1 <= lo.
Proof.
  assert (0 < chunkSize) as Hc by (unfold chunkSize; lia).
  intros (-> & -> & ?)%rangesFrom_lookup (-> & -> & ?)%rangesFrom_lookup Hij.
  destruct (Nat.lt_gt_cases i j) as [[Hlt|Hlt] _]; [done|left|right]; nia.
Qed.

(** ** The workers of [fetchChunks] *)

(** A range: not fed to a worker yet, being fetched by the rest of its program, in the file, or given up. *)
Inductive part := Waiting | Filling (p : proc LinkE (option (res unit))) | Filled | Failed.

Record download := mkDownload {
  dn_parts : list part; dn_file : content; dn_errs : list gerror; dn_cancelled : bool }.

Definition chunkWorkers : Z := 8.

Definition fetching (t : part) : bool := match t with Filling _ => true | _ => false end.
Definition busy (d : download) : Z := Z.of_nat (length (List.filter fetching (dn_parts d))).

Definition set_part (d : download) (i : nat) (t : part) : download :=
  mkDownload (<[i := t]> (dn_parts d)) (dn_file d) (dn_errs d) (dn_cancelled d).

Section fetch.
Context (src : string) (ctx : Context) (mirrors : list string) (size : Z).

(** A free worker takes the next range, a worker makes one call, a range ends, and the context is cancelled.
    A worker whose range failed does not come back. *)
Inductive fetch_step : download -> download -> Prop :=
| fetch_take d i lo hi :
    ranges size !! i = Some (lo, hi) -> dn_parts d !! i = Some Waiting ->
    (forall j, (j < i)%nat -> dn_parts d !! j <> Some Waiting) ->
    busy d + Z.of_nat (length (dn_errs d)) < chunkWorkers ->
    fetch_step d (set_part d i (Filling (fetchRange (rangeFuel mirrors lo hi) ctx mirrors lo hi)))
| fetch_call d i X (c : LinkE X) k x f' :
    dn_parts d !! i = Some (Filling (Do c k)) -> mirrorsOf src X c (dn_file d) x f' ->
    fetch_step d (mkDownload (<[i := Filling (k x)]> (dn_parts d)) f' (dn_errs d) (dn_cancelled d))
| fetch_filled d i :
    dn_parts d !! i = Some (Filling (Ret (Some (Ok tt)))) -> fetch_step d (set_part d i Filled)
| fetch_failed d i e :
    dn_parts d !! i = Some (Filling (Ret (Some (Err e)))) ->
    fetch_step d (mkDownload (<[i := Failed]> (dn_parts d)) (dn_file d) (dn_errs d ++ [e]) true)
| fetch_cancel d : fetch_step d (mkDownload (dn_parts d) (dn_file d) (dn_errs d) true).

Definition fetch_start (f : content) : download := mkDownload (replicate (length (ranges size)) Waiting) f [] false.

(** [wg.Wait()] returns: nobody is fetching, and nothing is left to feed unless the context is done. *)
Definition fetch_done (d : download) : Prop :=
  (forall t, t ∈ dn_parts d -> fetching t = false) /\ (Waiting ∈ dn_parts d -> dn_cancelled d = true).

(** What each range is up to. *)
Definition part_ok (d : download) (lo hi : Z) (t : part) : Prop :=
  match t with
  | Waiting => True
  | Filling p => filling src lo (hi + 1) p (dn_file d) (fun r f => r = Some (Ok tt) -> holds f src lo (hi + 1))
  | Filled => holds (dn_file d) src lo (hi + 1)
  | Failed => dn_errs d <> []
  end.

Record fetch_inv (d : download) : Prop := {
  fi_len : length (dn_parts d) = length (ranges size);
  fi_parts : forall i lo hi t, ranges size !! i = Some (lo, hi) -> dn_parts d !! i = Some t -> part_ok d lo hi t }.

Lemma mirrorsOf_same lo hi X (c : LinkE X) f x f' lo' hi' :
  writesIn lo hi X c -> mirrorsOf src X c f x f' -> hi <= lo' \/ hi' <= lo -> same f f' lo' hi'.
Proof.
  intros Hw Hc Hd p Hp. destruct c; cbn in Hw, Hc; try (by subst f'); try done; [by destruct Hc as [-> _]|].
  pose proof take_writes as Ht. destruct x as [u|e].
  - subst f'. apply put_outside. lia.
  - destruct Hc as [k ->]. specialize (Ht k data). apply put_outside. lia.
Qed.

(** Writing elsewhere keeps a range's state. *)
Lemma part_ok_same d f' lo hi t errs canc :
  same (dn_file d) f' lo (hi + 1) -> (dn_errs d <> [] -> errs <> []) -> part_ok d lo hi t ->
  part_ok (mkDownload (dn_parts d) f' errs canc) lo hi t.
Proof.
  intros Hs He. destruct t as [|p| |]; cbn; [done| | |done].
  - apply filling_same; [|done]. intros r f f1 Hs1 HQ Hr. eapply holds_same; [exact Hs1|lia|lia|]. by apply HQ.
  - intros Hf. eapply holds_same; [exact Hs|lia|lia|done].
Qed.

(** One range's step preserves the invariant when it keeps that range's state right and leaves the rest of
    the file alone. *)
Lemma fetch_inv_update d i lo hi t' f' errs canc :
  fetch_inv d -> ranges size !! i = Some (lo, hi) ->
  part_ok (mkDownload (dn_parts d) f' errs canc) lo hi t' ->
  (forall lo' hi', hi + 1 <= lo' \/ hi' <= lo -> same (dn_file d) f' lo' hi') -> (dn_errs d <> [] -> errs <> []) ->
  fetch_inv (mkDownload (<[i := t']> (dn_parts d)) f' errs canc).
Proof.
  intros [Hlen Hparts] Hi Ht Hs He. split; [cbn; by rewrite length_insert|]. cbn [dn_parts].
  intros j lo' hi' t Hj Hlook. destruct (decide (i = j)) as [<-|Hij].
  - rewrite list_lookup_insert_eq in Hlook by (apply lookup_lt_Some in Hi; lia).
    simplify_eq. revert Ht. by destruct t.
  - rewrite list_lookup_insert_ne in Hlook by done. specialize (Hparts _ _ _ _ Hj Hlook).
    assert (same (dn_file d) f' lo' (hi' + 1)) as Hs'.
    { apply Hs. destruct (ranges_disjoint size i j lo hi lo' hi'); [done..|lia|lia]. }
    pose proof (part_ok_same d f' lo' hi' t errs canc Hs' He Hparts) as Hok. by destruct t.
Qed.

Lemma same_refl f lo hi : same f f lo hi.
Proof. done. Qed.

Lemma fetch_inv_step d d' : fetch_step d d' -> fetch_inv d -> fetch_inv d'.
Proof.
  assert (forall i t, dn_parts d !! i = Some t -> fetch_inv d -> exists lo hi, ranges size !! i = Some (lo, hi)) as Hat.
  { intros i t Hi [Hlen _]. destruct (ranges size !! i) as [[lo hi]|] eqn:E; [by eexists _, _|].
    apply lookup_lt_Some in Hi. apply lookup_ge_None in E. lia. }
  intros Hs Hinv. destruct Hs as [d i lo hi Hr Hi _ _|d i X c k x f' Hi Hc|d i Hi|d i e Hi|d].
  - apply (fetch_inv_update d i lo hi); [done|done| |done|done]. apply fetchRange_fills.
    apply rangesFrom_lookup in Hr as (-> & -> & Hlt). assert (0 < chunkSize) by done. lia.
  - destruct (Hat i _ Hi Hinv) as (lo & hi & Hr). pose proof (fi_parts d Hinv _ _ _ _ Hr Hi) as [Hw Hrun].
    apply (fetch_inv_update d i lo hi); [done|done|apply (Hrun (dn_file d)); [apply same_refl|done]| |done].
    intros lo' hi' Hd. by eapply mirrorsOf_same.
  - destruct (Hat i _ Hi Hinv) as (lo & hi & Hr). pose proof (fi_parts d Hinv _ _ _ _ Hr Hi) as Hrun.
    apply (fetch_inv_update d i lo hi); [done|done|by apply Hrun|done|done].
  - destruct (Hat i _ Hi Hinv) as (lo & hi & Hr).
    apply (fetch_inv_update d i lo hi); [done|done|by destruct (dn_errs d)|done|by destruct (dn_errs d)].
  - destruct Hinv as [Hlen Hparts]. split; [done|]. intros i lo hi t Hr Hi. specialize (Hparts _ _ _ _ Hr Hi).
    by destruct t.
Qed.

Lemma fetch_inv_reachable f d : rtc fetch_step (fetch_start f) d -> fetch_inv d.
Proof.
  apply rtc_invariant; [intros x y; apply fetch_inv_step|].
  split; [apply length_replicate|]. intros i lo hi t _ Hi. cbn in Hi. by apply lookup_replicate_1 in Hi as [-> _].
Qed.

(** C8. Eight connections, one file. Let the workers of [fetchChunks] run in any interleaving, with drops, stalls,
    partial writes and mirror changes anywhere: when all of them are done, none has reported an error and
    the context was not cancelled, the file holds exactly the bytes of the source, all [size] of them. *)
Theorem fetchChunks_assembles (f : content) (d : download) :
  rtc fetch_step (fetch_start f) d -> fetch_done d -> dn_errs d = [] -> dn_cancelled d = false ->
  holds (dn_file d) src 0 size.
Proof.
  intros Hr [Hidle Hfed] He Hc p Hp. destruct (fetch_inv_reachable f d Hr) as [Hlen Hparts].
  destruct (ranges_cover size p Hp) as (i & lo & hi & Hi & Hin).
  destruct (lookup_lt_is_Some_2 (dn_parts d) i) as [t Ht]; [apply lookup_lt_Some in Hi; lia|].
  specialize (Hparts _ _ _ _ Hi Ht). apply list_elem_of_lookup_2 in Ht. destruct t as [|q| |]; cbn in Hparts.
  - apply Hfed in Ht. congruence.
  - by specialize (Hidle _ Ht).
  - apply Hparts. lia.
  - congruence.
Qed.

End fetch.


(** ** What a download may reach *)

Section guard.
Context `{FoldTable, GoURL, DownloaderConfig, BiliCodec}.

(** A URL of the video [media] on the CDN: its own, or the same file on one of the known mirrors. *)
Definition on_cdn (media : URL) (url : string) : Prop :=
  url = URLString media
  \/ exists u h, parseURL (URLString media) = Ok u /\ h ∈ biliMirrorHosts
     /\ url = URLString (rehost u h).

Definition cdn_allowed (media : URL) : Prop :=
  (match dl_CDNAllowed with Some f => f | None => bilibiliCDN end) (Hostname media) = true.

(** The calls that a download of the link [raw], parsed as [u], may make once its host is accepted: a request
    to the short-link service, to the API, or to the CDN; a run of yt-dlp on exactly this link, placed last
    among its arguments; and work on files. *)
Definition permitted (raw : string) (u : URL) (X : Type) (c : LinkE X) : Prop :=
  match c with
  | LResolve _ _ => False
  | LGet _ url _ =>
      (EqualFold (Hostname u) "b23.tv" = true /\ url = URLString u)
      \/ HasPrefix url (biliAPIBase +:+ "/x/") = true
      \/ exists media, cdn_allowed media /\ on_cdn media url
  | LFetchRanges _ mirrors size => size <= maxDownload /\ exists media, cdn_allowed media /\ Forall (on_cdn media) mirrors
  | LRunYtDlp _ _ args _ => exists output, args = dl_Path :: BuildArgs output raw
  | _ => True
  end.

(** The list of mirrors: what holds of each host's URL holds of all of them, and there is at least one. *)
Lemma mirrors_from (f : string -> string) (P : string -> Prop) hosts out :
  Forall P out -> (forall h, h ∈ hosts -> P (f h)) ->
  Forall P (fold_left (fun out h => let s := f h in if bool_decide (s ∈ out) then out else out ++ [s]) hosts out).
Proof.
  revert out. induction hosts as [|h hosts IH]; intros out Hout Hh; cbn [fold_left]; [done|]. apply IH.
  - cbv zeta. case_bool_decide; [done|]. apply Forall_app. split; [done|]. constructor; [|done]. apply Hh. by left.
  - intros h' Hh'. apply Hh. by right.
Qed.

Lemma mirrors_grow (f : string -> string) hosts out :
  out <> [] -> fold_left (fun out h => let s := f h in if bool_decide (s ∈ out) then out else out ++ [s]) hosts out <> [].
Proof.
  revert out. induction hosts as [|h hosts IH]; intros out Hout; cbn [fold_left]; [done|]. cbv zeta.
  case_bool_decide; apply IH; [done|]. by destruct out.
Qed.

Lemma BilibiliMirrors_cdn media : Forall (on_cdn media) (BilibiliMirrors (URLString media)).
Proof.
  unfold BilibiliMirrors. assert (Forall (on_cdn media) [URLString media]) as Hself by (repeat constructor).
  destruct (parseURL (URLString media)) as [u|e] eqn:E; [|done]. destruct (_ || _); [done|].
  apply (mirrors_from (fun h => URLString (rehost u h))); [done|]. intros h Hh. right. by exists u, h.
Qed.

Lemma BilibiliMirrors_some src : BilibiliMirrors src <> [].
Proof.
  unfold BilibiliMirrors. destruct (parseURL src) as [u|e]; [|done]. destruct (_ || _); [done|].
  apply (mirrors_grow (fun h => URLString (rehost u h)) (drop 1 biliMirrorHosts) [_]). done.
Qed.

Lemma copyBody_permitted raw u body end_ limit copied : sound (permitted raw u) (copyBody body end_ limit copied).
Proof. revert limit copied. induction body as [|piece body IH]; intros limit copied; cbn [copyBody]; sound_go; apply IH. Qed.

(** An interrupted transfer goes on with one of the mirrors. *)
Lemma interrupted_sound (P : forall X, LinkE X -> Prop) ctx cctx mirrors n n' mirror stalls again err :
  (forall c, P _ (LCtxErr c)) -> (forall c d, P _ (LSleepOrDone c d)) ->
  (forall n m s, (m < length mirrors)%nat -> sound P (again n m s)) -> (mirror < length mirrors)%nat ->
  sound P (interrupted ctx cctx mirrors n n' mirror stalls again err).
Proof.
  intros Hc Hd Hagain Hm. unfold interrupted. split; [done|]. intros [e|]; [done|]. split; [done|]. intros [e|]; [done|].
  destruct (Nat.leb_spec (length mirrors) (mirror + 1)); [rewrite andb_false_r|rewrite andb_true_r];
    repeat (case_match; try done); try (by apply Hagain); (split; [done|]); intros [e|]; try done; by apply Hagain.
Qed.

Lemma fileLoop_permitted raw u media fuel ctx cctx mirrors size n mirror stalls :
  cdn_allowed media -> Forall (on_cdn media) mirrors -> (mirror < length mirrors)%nat ->
  sound (permitted raw u) (fileLoop fuel ctx cctx mirrors size n mirror stalls).
Proof.
  intros Ha Hm. revert n mirror stalls. induction fuel as [|fuel IH]; intros n mirror stalls Hl; cbn [fileLoop]; [done|].
  split.
  { right. right. exists media. split; [done|]. rewrite Forall_forall in Hm. by apply Hm, mirrorAt_in. }
  assert (forall n' err, sound (permitted raw u) (interrupted ctx cctx mirrors n n' mirror stalls
    (fileLoop fuel ctx cctx mirrors size) err)) as Hint.
  { intros n' err. by apply interrupted_sound. }
  assert (forall fail, sound (permitted raw u) (if Nat.leb (length mirrors) (mirror + 1) then Ret (Some (Err fail))
    else fileLoop fuel ctx cctx mirrors size n (mirror + 1)%nat 0)) as Hor.
  { intros fail. destruct (Nat.leb _ _) eqn:E; [done|]. apply Nat.leb_gt in E. by apply IH. }
  intros [resp|e]; [|apply Hint]. cbv zeta. destruct (_ || _); [apply Hint|].
  destruct (negb (_ =? 200) && _); [apply Hor|]. destruct ((0 <? n) && negb _); [apply Hor|].
  apply sound_bind; [apply copyBody_permitted|]. intros [m err].
  destruct (maxDownload <? n + m); [done|]. match goal with |- sound _ (match ?x with _ => _ end) => destruct x end; [apply Hint|done].
Qed.

Lemma fetchMedia_permitted raw u fuel ctx file name : sound (permitted raw u) (fetchMedia fuel ctx file name).
Proof.
  unfold fetchMedia. destruct (maxDownload <? df_Size file) eqn:Esize; [done|]. cbv zeta.
  destruct (parseURL (df_URL file)) as [media|e]; [|done].
  destruct ((match dl_CDNAllowed with Some f => f | None => bilibiliCDN end) (Hostname media)) eqn:Ea; cbn [negb]; [|done].
  apply sound_bind; [|done]. destruct (chunkSize <? df_Size file).
  - apply sound_bind; [|done]. unfold fetchChunks, tempMP4, failFetch, closeFetch. rewrite Esize. sound_go.
    cbn [permitted]. split; [lia|]. exists media. split; [done|apply BilibiliMirrors_cdn].
  - unfold fetchFile, tempMP4, failFetch, closeFetch. sound_go. apply (fileLoop_permitted raw u media); [done|apply BilibiliMirrors_cdn|].
    pose proof (BilibiliMirrors_some (URLString media)). destruct (BilibiliMirrors (URLString media)); [done|cbn; lia].
Qed.

Lemma biliGet_permitted {A} raw u ctx path q (decode : string -> res A) :
  HasPrefix path "/x/" = true -> sound (permitted raw u) (biliGet ctx path q decode).
Proof.
  intros Hp. unfold biliGet. split; [|sound_go]. right. left. apply HasPrefix_inv in Hp as [rest ->].
  rewrite !str_app_assoc, <- (str_app_assoc biliAPIBase "/x/"). apply HasPrefix_app.
Qed.

Lemma downloadPage_permitted raw u fuel ctx page : sound (permitted raw u) (downloadPage fuel ctx page).
Proof.
  unfold downloadPage. destruct (BilibiliTarget page) as [[bv part]|]; [|done].
  apply sound_bind; [by apply biliGet_permitted|]. intros [pages|e]; [|done]. cbv zeta.
  destruct (pages !! _) as [pg|]; [|done]. apply sound_bind; [by apply biliGet_permitted|]. intros view.
  apply sound_bind; [by apply biliGet_permitted|]. intros [files|e]; [|done].
  destruct files as [|file [|? ?]]; [done| |done]. apply fetchMedia_permitted.
Qed.

Lemma downloadBilibili_permitted raw u fuel ctx : sound (permitted raw u) (downloadBilibili fuel ctx u).
Proof.
  unfold downloadBilibili. destruct (EqualFold (Hostname u) "b23.tv") eqn:E; [|apply downloadPage_permitted].
  apply sound_bind; [|intros [next|e]; [apply downloadPage_permitted|done]].
  unfold resolveShortLink. split; [by left|]. sound_go.
Qed.

Lemma runYtDlp_permitted raw u ctx : sound (permitted raw u) (runYtDlp ctx raw).
Proof. unfold runYtDlp, runLogged, tempMP4. sound_go. cbn [permitted]. by eexists. Qed.

(** The addresses of a host that may be contacted. *)
Definition public (answer : res (list IP)) : Prop :=
  exists ips, answer = Ok ips /\ ips <> [] /\ Forall (fun ip => IsDisallowedAddress ip = false) ips.

(** C17. A link import cannot be turned against the server. Every run of [Download] ends without a panic, and a
    link that is not an http(s) URL with a host is refused before anything happens. Otherwise the host is
    resolved first, and unless it has addresses, all of them allowed, nothing else happens: no request, no
    process, no file. After that, only the short-link service, the Bilibili API and files on the allowed CDN
    (or its known mirrors) are asked, and yt-dlp runs only on exactly this link, as its last argument. *)
Theorem Download_guarded (fuel : nat) (ctx : Context) (raw : string) :
  wp (Download fuel ctx raw) (fun tr r =>
    (tr = [] /\ r = Some (Err (InvalidArgument badLink)))
    \/ exists u answer tr', parseURL raw = Ok u /\ Hostname u <> ""
       /\ (EqualFold (u_Scheme u) "http" || EqualFold (u_Scheme u) "https") = true
       /\ tr = Ev (LResolve ctx (Hostname u)) answer :: tr'
       /\ ((tr' = [] /\ exists e, r = Some (Err e)) \/ (public answer /\ called (permitted raw u) tr'))).
Proof.
  unfold Download, ValidatePublicHTTPURL. destruct (parseURL raw) as [u|e]; [|by left].
  destruct (String.eqb_spec (Hostname u) ""); cbn [orb]; [by left|].
  destruct (_ || _) eqn:Es; cbn [negb]; [|by left]. cbn [bind_ok call bind wp]. intros answer.
  assert (forall tr' (r : option (res (string * string))), (tr' = [] /\ exists e, r = Some (Err e)) \/ (public answer /\ called (permitted raw u) tr') ->
    (Ev (LResolve ctx (Hostname u)) answer :: tr' = [] /\ r = Some (Err (InvalidArgument badLink)))
    \/ exists u' answer' tr'', (Ok u : res URL) = Ok u' /\ Hostname u' <> ""
       /\ (EqualFold (u_Scheme u') "http" || EqualFold (u_Scheme u') "https") = true
       /\ Ev (LResolve ctx (Hostname u)) answer :: tr' = Ev (LResolve ctx (Hostname u')) answer' :: tr''
       /\ ((tr'' = [] /\ exists e, r = Some (Err e)) \/ (public answer' /\ called (permitted raw u') tr''))) as Hdone.
  { intros tr' r Hr. right. by exists u, answer, tr'. }
  destruct answer as [ips|e]; cbn [bind]; [|apply Hdone; left; by eauto].
  destruct (Nat.eqb_spec (length ips) 0); [apply Hdone; left; by eauto|].
  destruct (existsb IsDisallowedAddress ips) eqn:Eip; [apply Hdone; left; by eauto|]. cbn [bind].
  assert (public (Ok ips)) as Hpub.
  { exists ips. repeat split; [by destruct ips|]. apply Forall_forall. intros ip Hip.
    destruct (IsDisallowedAddress ip) eqn:E; [|done]. rewrite <- Eip. symmetry. apply existsb_exists.
    exists ip. split; [by apply list_elem_of_In|done]. }
  destruct (IsBilibili (Hostname u)).
  - eapply wp_mono; [apply sound_wp, (downloadBilibili_permitted raw)|]. intros tr r Htr. apply Hdone. by right.
  - apply wp_bind. eapply wp_mono; [apply sound_wp, (runYtDlp_permitted raw u)|]. intros tr r Htr. cbn [wp]. rewrite app_nil_r. apply Hdone. by right.
Qed.

End guard.

(** ** Concrete downloads *)

Module Example.

Lemma fetchRange_terminates_witness :
  ["https://a.bilivideo.com/v"] <> [] /\ 0 <= 2 + 1
  /\ wp (fetchRange (rangeFuel ["https://a.bilivideo.com/v"] 0 2) Background ["https://a.bilivideo.com/v"] 0 2) (fun tr r =>
       r <> None /\ Forall (.∈ ["https://a.bilivideo.com/v"]) (requested tr)).
Proof. split; [done|]. split; [lia|]. by apply fetchRange_terminates. Defined.

(** The first number of a range header is read back. *)
Lemma digits_dash a b x y :
  str_forall is_digit a = true -> str_forall is_digit b = true -> a +:+ "-" +:+ x = b +:+ "-" +:+ y -> a = b.
Proof.
  revert b. induction a as [|c a IH]; intros [|d b]; cbn; intros Ha Hb [=]; subst; try done.
  apply andb_true_iff in Ha as [_ Ha], Hb as [_ Hb]. f_equal. by apply IH.
Qed.

Lemma rangeHeader_inj p e p' e' : 0 <= p -> rangeHeader p e = rangeHeader p' e' -> p = p'.
Proof.
  unfold rangeHeader. intros Hp [= Heq]. pose proof (FormatInt_digits p Hp) as Hd. apply FormatInt_inj.
  destruct (Z.le_gt_cases 0 p').
  - eapply digits_dash; [done|by apply FormatInt_digits|exact Heq].
  - exfalso. pose proof (FormatInt_nonempty p) as Hne. unfold FormatInt in Heq at 3. rewrite (proj2 (Z.ltb_lt p' 0)) in Heq by lia.
    destruct (FormatInt p); [done|]. cbn in Heq, Hd. injection Heq as -> _. done.
Qed.

(** A file of three bytes, its only range fetched in one response of two reads. *)
Definition empty : content := fun _ => None.
Definition mirror : list string := ["https://a.bilivideo.com/v"].

Definition arrived : download :=
  mkDownload [Filled] (put (put empty 0 "ab") 2 "c") [] false.

Lemma arrived_reachable : rtc (fetch_step "abc" Background mirror 3) (fetch_start 3 empty) arrived.
Proof.
  eapply rtc_l. { apply (fetch_take _ _ _ _ _ 0 0 2); [done|done|lia|done]. }
  eapply rtc_l. { eapply (fetch_call _ _ _ _ _ 0 _ _ _ (Ok (mkResponse 206 "" ["ab"; "c"] None))); [done|].
    split; [done|]. intros resp pos end_ [= <-] _ Hin. apply elem_of_app in Hin as [Hin|Hin]; [unfold browserHeaders, rangeHeader in Hin; by in_cases Hin|].
    apply list_elem_of_singleton in Hin. apply eq_sym, rangeHeader_inj in Hin as <-; [|lia].
    repeat split; try done; cbn [strlen String.length] in *; intros i Hi;
      (assert (i = 0 \/ i = 1) as [-> | ->] by (unfold strlen in Hi; cbn in Hi; lia)); try done; unfold strlen in Hi; cbn in Hi; lia. }
  eapply rtc_l. { eapply (fetch_call _ _ _ _ _ 0 _ _ _ (Ok tt)); done. }
  eapply rtc_l. { eapply (fetch_call _ _ _ _ _ 0 _ _ _ (Ok tt)); done. }
  apply rtc_once. match goal with |- fetch_step _ _ _ _ ?d _ => exact (fetch_filled "abc" Background mirror 3 d 0 eq_refl) end.
Qed.

Lemma fetchChunks_assembles_witness :
  rtc (fetch_step "abc" Background mirror 3) (fetch_start 3 empty) arrived /\ holds (dn_file arrived) "abc" 0 3.
Proof.
  split; [apply arrived_reachable|]. apply (fetchChunks_assembles "abc" Background mirror 3 empty arrived).
  - apply arrived_reachable.
  - split; [intros t|]; intros Ht%list_elem_of_singleton; by simplify_eq.
  - done.
  - done.
Defined.

End Example.
