(* ===== verification/Resume.v ===== *)
(** * The streamed download (fetchFile of internal/ytdlp/bilibili.go)

    A proof about the definitions of Bilibili.v: the loop that streams a file, resumes it after interruptions and
    moves through the mirrors always ends, and the file it reports is complete; and every link import as a whole
    ends ([Download_returns]). *)

From S2P Require Import Prelude GoStrings Proc Errors GoContext HttpParams Links Bilibili.

Local Open Scope string_scope.
Local Open Scope list_scope.
Local Open Scope Z_scope.

(** ** What a run wrote *)

(** The bytes appended to the file. *)
Definition written : trace LinkE -> list string :=
  select (fun X (c : LinkE X) => match c in LinkE X return X -> option string with
    | LAppend data => fun '(nw, _) => Some (if (nw <? 0) || (strlen data <? nw) then "" else str_take (Z.to_nat nw) data)
    | _ => fun _ => None end).

Definition appended (tr : trace LinkE) : string := String.concat "" (written tr).

(** The headers of a request that asks for the file from byte [n] on. *)
Definition fileHeaders (n : Z) : list (string * string) :=
  browserHeaders ++ if 0 <? n then [("Range", "bytes=" +:+ FormatInt n +:+ "-")] else [].

(** The answers to the requests: headers and response. *)
Definition responses : trace LinkE -> list (list (string * string) * httpResponse) :=
  select (fun X (c : LinkE X) => match c in LinkE X return X -> option (list (string * string) * httpResponse) with
    | LGet _ _ headers => fun r => match r with Ok resp => Some (headers, resp) | Err _ => None end
    | _ => fun _ => None end).

(** Every mirror serves the bytes of [src]: a partial answer to a request from byte [n] on delivers bytes from
    there, an answer to a request for the whole file its first bytes; how much of it arrives is open. *)
Definition served (src : string) (tr : trace LinkE) : Prop :=
  Forall (fun '(headers, resp) => forall n, 0 <= n -> headers = fileHeaders n -> rs_Status resp = 206 \/ n = 0 ->
    is_prefix (String.concat "" (rs_Body resp)) (str_drop (Z.to_nat n) src)) (responses tr).

Lemma written_app tr tr' : written (tr ++ tr') = written tr ++ written tr'.
Proof. apply select_app. Qed.

Lemma responses_app tr tr' : responses (tr ++ tr') = responses tr ++ responses tr'.
Proof. apply select_app. Qed.

Lemma appended_app tr tr' : appended (tr ++ tr') = appended tr +:+ appended tr'.
Proof. unfold appended. by rewrite written_app, concat_app. Qed.

(** Copying a body: what is written is the first part of what the body delivers, and no more than the limit. *)
Lemma copyBody_copies body end_ limit copied :
  wp (copyBody body end_ limit copied) (fun tr '(m, err) =>
    m = copied + strlen (appended tr) /\ strlen (appended tr) <= Z.max 0 limit
    /\ is_prefix (appended tr) (String.concat "" body) /\ responses tr = []).
Proof.
  revert limit copied. induction body as [|piece body IH]; intros limit copied; cbn [copyBody].
  { cbn [wp]. change (appended []) with "". change (strlen "") with 0. split_and!; [lia|lia|by exists ""|done]. }
  destruct (Z.leb_spec limit 0) as [Hl|Hl].
  { cbn [wp]. change (appended []) with "". change (strlen "") with 0. split_and!; [lia|lia|by eexists|done]. }
  rewrite concat_cons. pose proof (strlen_take (Z.to_nat limit) piece) as Ht. pose proof (strlen_nonneg piece) as Hnn.
  destruct (Z.ltb_spec 0 (strlen (str_take (Z.to_nat limit) piece))) as [Hd|Hd].
  2: { eapply wp_mono; [apply IH|]. intros tr [m err] (Hm & Hlim & Hp & Hr). split_and!; try done.
       assert (piece = "") as -> by (destruct piece; [done|]; unfold strlen in *; cbn in *; lia). done. }
  set (data := str_take (Z.to_nat limit) piece) in *. intros [nw werr].
  assert (forall tr, appended (Ev (LAppend data) (nw, werr) :: tr) =
    (if (nw <? 0) || (strlen data <? nw) then "" else str_take (Z.to_nat nw) data) +:+ appended tr) as Happ.
  { intros tr. unfold appended, written. rewrite select_cons. apply concat_cons. }
  destruct (_ || _) eqn:Ebad.
  { destruct werr; cbn [wp]; rewrite Happ; change (strlen ("" +:+ appended [])) with 0; (split_and!; [lia|lia|by eexists|done]). }
  apply orb_false_iff in Ebad as [Hnw%Z.ltb_ge Hle%Z.ltb_ge].
  assert (strlen (str_take (Z.to_nat nw) data) = nw) as Hw by (rewrite strlen_take; lia).
  destruct werr as [e|]; [|destruct (Z.eqb_spec nw (strlen data)) as [->|Hne]; cbn [negb]].
  - cbn [wp]. rewrite Happ, str_app_nil_r, Hw. split_and!; [lia|lia| |done].
    apply is_prefix_app_l. eapply is_prefix_trans; apply is_prefix_take.
  - eapply wp_mono; [apply IH|]. cbv beta. intros tr [m err] (Hm & Hlim & Hp & Hr). rewrite Happ, strlen_app, Hw.
    split_and!; [lia|lia| |done]. rewrite str_take_all by (unfold strlen; lia).
    destruct (Z.le_gt_cases (strlen piece) limit).
    + unfold data at 1. rewrite str_take_all by (unfold strlen in *; lia). by apply is_prefix_app_same.
    + assert (appended tr = "") as -> by (apply strlen_zero; pose proof (strlen_nonneg (appended tr)); lia).
      rewrite str_app_nil_r. apply is_prefix_app_l, is_prefix_take.
  - cbn [wp]. rewrite Happ, str_app_nil_r, Hw. split_and!; [lia|lia| |done].
    apply is_prefix_app_l. eapply is_prefix_trans; apply is_prefix_take.
Qed.

(** ** The loop *)

Section loop.
Context (ctx cctx : Context) (mirrors : list string) (size : Z).

(** How far the loop is from giving up or being done: bytes to come, mirrors left, stalls left. *)
Definition room (n : Z) (mirror : nat) (stalls : Z) : Z :=
  5 * (maxDownload + 1 - n) + 5 * (Z.of_nat (length mirrors) - Z.of_nat mirror) - stalls.

(** What the loop promises from [n] bytes on. *)
Definition streamed (n : Z) (tr : trace LinkE) (r : option (res Z)) : Prop :=
  r <> None /\ forall n', r = Some (Ok n') ->
    n' = n + strlen (appended tr) /\ n' <= maxDownload /\ (0 < size -> size <= n')
    /\ forall src pre, strlen pre = n -> served src tr -> is_prefix pre src -> is_prefix (pre +:+ appended tr) src.

Lemma streamed_err n tr e : streamed n tr (Some (Err e)).
Proof. split; [done|]. by intros. Qed.

(** Calls that neither write nor fetch. *)
Lemma streamed_quiet n X (c : LinkE X) x tr r :
  written [Ev c x] = [] -> responses [Ev c x] = [] -> streamed n tr r -> streamed n (Ev c x :: tr) r.
Proof.
  intros Hw Hr [Hr0 Hs]. split; [done|]. intros n' E. specialize (Hs n' E).
  change (Ev c x :: tr) with ([Ev c x] ++ tr). unfold served in *. setoid_rewrite responses_app. setoid_rewrite appended_app.
  unfold appended at 1 3. by rewrite Hw, Hr.
Qed.

(** An answer that is dropped: an error, or a status that the loop does not read. *)
Lemma streamed_dropped n url headers answer tr r :
  streamed n tr r -> streamed n (Ev (LGet cctx url headers) answer :: tr) r.
Proof.
  intros [Hr0 Hs]. split; [done|]. intros n' E. destruct (Hs n' E) as (Hn & Hmax & Hsize & Hsrc).
  split_and!; [done..|]. intros src pre Hpre Hserved. apply Hsrc; [done|].
  unfold served, responses in *. rewrite select_cons in Hserved.
  destruct answer; [|done]. by apply Forall_cons in Hserved as [_ Hserved].
Qed.

(** A part of the body that was written. *)
Lemma streamed_body n url resp tr1 tr r :
  0 <= n -> rs_Status resp = 206 \/ n = 0 -> responses tr1 = [] ->
  is_prefix (appended tr1) (String.concat "" (rs_Body resp)) ->
  streamed (n + strlen (appended tr1)) tr r ->
  streamed n (Ev (LGet cctx url (fileHeaders n)) (Ok resp) :: tr1 ++ tr) r.
Proof.
  intros Hn Hst Hr1 Hp [Hr0 Hs]. split; [done|]. intros n' E. destruct (Hs n' E) as (-> & Hmax & Hsize & Hsrc).
  assert (appended (Ev (LGet cctx url (fileHeaders n)) (Ok resp) :: tr1 ++ tr) = appended tr1 +:+ appended tr) as ->.
  { rewrite <- appended_app. done. }
  split_and!; [rewrite strlen_app; lia|done|done|]. intros src pre Hpre Hserved Hpref.
  unfold served, responses in Hserved. rewrite select_cons, select_app in Hserved.
  apply Forall_cons in Hserved as [Hget Hrest]. apply Forall_app in Hrest as [_ Hrest].
  rewrite <- str_app_assoc. apply Hsrc; [rewrite strlen_app; lia|exact Hrest|].
  apply is_prefix_app; [|done]. specialize (Hget n Hn eq_refl Hst).
  replace (String.length pre) with (Z.to_nat n) by (unfold strlen in Hpre; lia).
  by eapply is_prefix_trans.
Qed.

Lemma interrupted_streams n n' mirror stalls again err :
  (forall m s, (m < length mirrors)%nat -> 0 <= s <= 4 -> room n' m s < room n mirror stalls -> wp (again n' m s) (streamed n')) ->
  (mirror < length mirrors)%nat -> 0 <= stalls <= 4 -> n <= n' ->
  wp (interrupted ctx cctx mirrors n n' mirror stalls again err) (streamed n').
Proof.
  intros Hagain Hm Hs Hn. unfold interrupted, room in *.
  intros [e|]; [apply streamed_quiet; [done|done|apply streamed_err]|].
  intros [e|]; [do 2 (apply streamed_quiet; [done|done|]); apply streamed_err|]. cbv zeta.
  set (stalls' := if n <? n' then 0 else stalls + 1).
  assert (0 <= stalls' <= 5 /\ (n < n' /\ stalls' = 0 \/ n' = n /\ stalls' = stalls + 1)) as [Hs' Hcase].
  { unfold stalls'. destruct (Z.ltb_spec n n'); lia. }
  clearbody stalls'.
  destruct ((4 <=? stalls') && negb (Nat.leb (length mirrors) (mirror + 1))) eqn:Enext.
  - apply andb_true_iff in Enext as [Hst%Z.leb_le Hlen%negb_true_iff%Nat.leb_gt].
    eapply wp_mono; [apply Hagain; lia|]. intros tr r Hr. by do 2 (apply streamed_quiet; [done|done|]).
  - destruct (Z.leb_spec 5 stalls'); [do 2 (apply streamed_quiet; [done|done|]); apply streamed_err|].
    intros [e|]; [do 3 (apply streamed_quiet; [done|done|]); apply streamed_err|].
    eapply wp_mono; [apply Hagain; lia|]. intros tr r Hr. by do 3 (apply streamed_quiet; [done|done|]).
Qed.

Lemma fileLoop_streams fuel n mirror stalls :
  0 <= n <= maxDownload -> (mirror < length mirrors)%nat -> 0 <= stalls <= 4 -> room n mirror stalls <= Z.of_nat fuel ->
  wp (fileLoop fuel ctx cctx mirrors size n mirror stalls) (streamed n).
Proof.
  revert n mirror stalls. induction fuel as [|fuel IH]; intros n mirror stalls Hn Hm Hs Hroom; cbn [fileLoop].
  { unfold room in Hroom. lia. }
  assert (forall n' m s, n <= n' <= maxDownload -> (m < length mirrors)%nat -> 0 <= s <= 4 -> room n' m s < room n mirror stalls ->
    wp (fileLoop fuel ctx cctx mirrors size n' m s) (streamed n')) as Hagain.
  { intros n' m s Hn' Hm' Hs' Hlt. apply IH; [lia..|lia]. }
  assert (forall n' err, n <= n' <= maxDownload ->
    wp (interrupted ctx cctx mirrors n n' mirror stalls (fileLoop fuel ctx cctx mirrors size) err) (streamed n')) as Hint.
  { intros n' err Hn'. apply interrupted_streams; [|done|done|lia]. intros m s Hm' Hs' Hlt. by apply Hagain. }
  assert (forall fail, wp (if Nat.leb (length mirrors) (mirror + 1) then Ret (Some (Err fail))
    else fileLoop fuel ctx cctx mirrors size n (mirror + 1)%nat 0) (streamed n)) as Hor.
  { intros fail. destruct (Nat.leb_spec (length mirrors) (mirror + 1)); [apply streamed_err|].
    apply Hagain; [lia|lia|lia|unfold room; lia]. }
  change (browserHeaders ++ _) with (fileHeaders n). cbv zeta. intros [resp|e].
  2: { eapply wp_mono; [apply Hint; lia|]. intros tr r. apply streamed_dropped. }
  destruct (_ || _).
  { eapply wp_mono; [apply Hint; lia|]. intros tr r. apply streamed_dropped. }
  destruct (negb (_ =? 200) && _) eqn:Eok.
  { eapply wp_mono; [apply Hor|]. intros tr r. apply streamed_dropped. }
  destruct ((0 <? n) && negb _) eqn:Erange.
  { eapply wp_mono; [apply Hor|]. intros tr r. apply streamed_dropped. }
  assert (rs_Status resp = 206 \/ n = 0) as Hst.
  { destruct (Z.ltb_spec 0 n); [left|right; lia]. cbn [andb] in Erange. apply negb_false_iff in Erange. lia. }
  apply wp_bind. eapply wp_mono; [apply copyBody_copies|]. cbv beta.
  intros tr1 [m err] (-> & Hlim & Hp & Hr1). rewrite Z.add_0_l.
  pose proof (strlen_nonneg (appended tr1)) as Hnn.
  destruct (Z.ltb_spec maxDownload (n + strlen (appended tr1))); [apply streamed_err|].
  match goal with |- wp (match ?x with _ => _ end) _ => destruct x as [e|] eqn:Eend end.
  - eapply wp_mono; [apply Hint; lia|]. intros tr r Hr. apply streamed_body; [lia|done..].
  - cbn [wp]. apply streamed_body; [lia|done|done|done|]. split; [done|]. intros n' [= <-].
    change (appended []) with "". change (strlen "") with 0.
    split_and!; [lia|done| |by intros src pre; rewrite str_app_nil_r].
    intros Hsize. destruct err; [done|]. destruct (Z.ltb_spec 0 size); [|lia]. cbn [andb] in Eend.
    destruct (Z.ltb_spec (n + strlen (appended tr1)) size); [done|lia].
Qed.

End loop.

(** Requests that are enough to stream a file: five per byte and five per mirror. *)
Definition fileFuel `{GoURL} (src : string) : nat := Z.to_nat (5 * (maxDownload + 1 + Z.of_nat (length (BilibiliMirrors src)))).

(** C20. A streamed download ends, and what it reports is a complete file. However the servers behave, [fetchFile]
    returns; when it returns a path, the bytes appended to that file are between one byte and 2 GB, at least as
    many as the API announced, and if every mirror serves one and the same video, they are the video's first
    bytes: no interruption, resumption or change of mirror repeats, skips or mixes anything. *)
Theorem fetchFile_complete `{GoURL} (ctx : Context) (src : string) (size : Z) :
  wp (fetchFile (fileFuel src) ctx src size) (fun tr r =>
    r <> None /\ forall path, r = Some (Ok path) ->
      1 <= strlen (appended tr) <= maxDownload /\ size <= strlen (appended tr)
      /\ forall video, served video tr -> is_prefix (appended tr) video).
Proof.
  unfold fetchFile, tempMP4. cbn [bind wp]. intros dir u [[]|e]; [|split; [done|]; by intros].
  apply wp_bind. pose proof (BilibiliMirrors_some src) as Hsome.
  eapply wp_mono; [apply (fileLoop_streams ctx _ (BilibiliMirrors src) size)|];
    [unfold maxDownload; lia|destruct (BilibiliMirrors src); [done|cbn; lia]|lia|unfold room, fileFuel; lia|].
  intros tr r [Hr Hs]. destruct r as [[n|e]|]; [| |done].
  2: { unfold failFetch. cbn [bind wp]. intros c []. split; [done|]. by intros. }
  destruct (Hs n eq_refl) as (-> & Hmax & Hsize & Hsrc). rewrite Z.add_0_l in *.
  unfold closeFetch. cbn [bind wp]. intros [[]|e]; [|intros []; split; [done|]; by intros].
  destruct (Z.eqb_spec (strlen (appended tr)) 0); cbn [bind wp]; [intros []; split; [done|]; by intros|].
  assert (forall e1 e2 e3 tr0, written [e1; e2; e3] = [] -> responses [e1; e2; e3] = [] -> written tr0 = [] -> responses tr0 = [] ->
    appended (e1 :: e2 :: e3 :: tr ++ tr0) = appended tr /\ responses (e1 :: e2 :: e3 :: tr ++ tr0) = responses tr) as Hq.
  { intros e1 e2 e3 tr0 Hw1 Hr1 Hw0 Hr0. change (e1 :: e2 :: e3 :: tr ++ tr0) with ([e1; e2; e3] ++ tr ++ tr0).
    unfold appended. by rewrite !written_app, !responses_app, Hw1, Hw0, Hr1, Hr0, !app_nil_r. }
  match goal with |- context [appended (?e1 :: ?e2 :: ?e3 :: _ ++ ?t0)] =>
    destruct (Hq e1 e2 e3 t0) as [Ha Hresp]; [done..|] end.
  rewrite Ha. split; [done|]. intros path _.
  pose proof (strlen_nonneg (appended tr)). split_and!; [lia|done|destruct (Z.le_gt_cases size 0); [lia|by apply Hsize]|].
  intros video Hserved. apply (Hsrc video ""); [done| |by exists video]. unfold served in *. by rewrite Hresp in Hserved.
Qed.

(** ** The download as a whole *)

Section returns.
Context `{FoldTable, GoURL, DownloaderConfig, BiliCodec}.

Lemma mirrors_bound (f : string -> string) hosts out :
  (length (fold_left (fun out h => let s := f h in if bool_decide (s ∈ out) then out else out ++ [s]) hosts out)
   <= length out + length hosts)%nat.
Proof.
  revert out. induction hosts as [|h hosts IH]; intros out; cbn [fold_left length]; [lia|].
  cbv zeta. case_bool_decide; (etrans; [apply IH|]); rewrite ?length_app; cbn [length]; lia.
Qed.

Lemma BilibiliMirrors_four src : (length (BilibiliMirrors src) <= 4)%nat.
Proof.
  unfold BilibiliMirrors. destruct (parseURL src) as [u|e]; [|cbn; lia]. destruct (_ || _); [cbn; lia|].
  apply (mirrors_bound (fun h => URLString (rehost u h)) biliMirrorHosts []).
Qed.

(** The requests that are enough for any download. *)
Definition downloadFuel : Z := 5 * (maxDownload + 1 + 4).

(** A run that calls nothing unsafe ends; what it ends with satisfies what every end of it satisfies. *)
Lemma sound_then (P : forall X, LinkE X -> Prop) {A B} (p : proc LinkE A) (g : A -> proc LinkE B) (Q : B -> Prop) :
  sound P p -> (forall a, wp (g a) (fun _ => Q)) -> wp (bind p g) (fun _ => Q).
Proof.
  intros Hp Hg. apply wp_bind. eapply wp_mono; [by apply sound_wp|]. cbv beta. intros tr a _.
  eapply wp_mono; [apply Hg|]. done.
Qed.

Lemma fetchFile_returns fuel ctx src size :
  downloadFuel <= Z.of_nat fuel -> wp (fetchFile fuel ctx src size) (fun _ r => r <> None).
Proof.
  intros Hfuel. pose proof (BilibiliMirrors_some src). pose proof (BilibiliMirrors_four src).
  unfold fetchFile, tempMP4. cbn [bind wp]. intros dir u [[]|e]; [|done]. apply wp_bind. eapply wp_mono.
  { apply fileLoop_streams; [unfold maxDownload; lia|destruct (BilibiliMirrors src); [done|cbn; lia]|lia|].
    unfold room, downloadFuel in *. lia. }
  intros tr [[n|e]|] [Hr _]; [|by unfold failFetch; cbn [bind wp]|done].
  unfold closeFetch. cbn [bind wp]. intros [[]|e]; [|done]. by destruct (n =? 0); cbn [bind wp].
Qed.

Lemma fetchMedia_returns fuel ctx file name :
  downloadFuel <= Z.of_nat fuel -> wp (fetchMedia fuel ctx file name) (fun _ r => r <> None).
Proof.
  intros Hfuel. unfold fetchMedia. destruct (maxDownload <? df_Size file) eqn:Esize; [done|]. cbv zeta.
  destruct (parseURL (df_URL file)) as [media|e]; [|done]. destruct (negb _); [done|]. apply wp_bind.
  destruct (chunkSize <? df_Size file).
  - eapply wp_mono with (Q := fun _ r => r <> None); [|by intros tr [[]|] Hr].
    apply (sound_then (fun _ _ => True)); [|done].
    unfold fetchChunks, tempMP4, failFetch, closeFetch. rewrite Esize. sound_go.
  - eapply wp_mono; [by apply fetchFile_returns|]. by intros tr [[]|] Hr.
Qed.

Lemma downloadPage_returns fuel ctx page :
  downloadFuel <= Z.of_nat fuel -> wp (downloadPage fuel ctx page) (fun _ r => r <> None).
Proof.
  intros Hfuel. unfold downloadPage. destruct (BilibiliTarget page) as [[bv part]|]; [|done].
  eapply sound_then; [by apply (biliGet_permitted "" page)|]. intros [pages|e]; [|done]. cbv zeta.
  destruct (pages !! _) as [pg|]; [|done]. eapply sound_then; [by apply (biliGet_permitted "" page)|]. intros view.
  eapply sound_then; [by apply (biliGet_permitted "" page)|]. intros [files|e]; [|done].
  destruct files as [|file [|? ?]]; [done| |done]. by apply fetchMedia_returns.
Qed.

(** Every link import ends, with a file or an error: whatever the resolver, the servers, yt-dlp and the disk
    answer, [Download] returns after at most [downloadFuel] requests of the streaming loop, without a panic. *)
Theorem Download_returns (fuel : nat) (ctx : Context) (raw : string) :
  downloadFuel <= Z.of_nat fuel -> wp (Download fuel ctx raw) (fun _ r => r <> None).
Proof.
  intros Hfuel. unfold Download, ValidatePublicHTTPURL. apply (sound_then (fun _ _ => True)); [sound_go|].
  intros [v|e]; [|done]. cbv zeta.
  assert (wp (bind (runYtDlp ctx raw) (fun r => Ret (Some match r with Ok path => Ok (path, "") | Err e => Err e end)))
    (fun _ (r : option (res (string * string))) => r <> None)) as Hyt.
  { apply (sound_then (fun _ _ => True)); [unfold runYtDlp, runLogged, tempMP4; sound_go|done]. }
  destruct (parseURL raw) as [u|e]; [|done]. destruct (IsBilibili _); [|done].
  unfold downloadBilibili. destruct (EqualFold _ _); [|by apply downloadPage_returns].
  apply (sound_then (fun _ _ => True)); [unfold resolveShortLink; sound_go|].
  intros [next|e]; [by apply downloadPage_returns|done].
Qed.

End returns.
