(* ===== verification/Config.v ===== *)
(** * Configuration (internal/config/config.go)

    [Load] as a function of the environment: [env name] is [os.LookupEnv(name)].  [strconv.ParseFloat] and
    [time.LoadLocation] are the class [ConfigLib]; a float64 is a [spec_float] as in Billing.v. *)

From Stdlib Require Import SpecFloat.
From S2P Require Import Prelude GoStrings Errors GoContext HttpParams Auth Billing.

Local Open Scope string_scope.
Local Open Scope list_scope.
Local Open Scope Z_scope.

Class ConfigLib := { ParseFloat : string -> option float64; LoadLocation : string -> option gerror }.

Record Config := mkConfig {
  cfg_ServerPort : string; cfg_ServerAddress : string; cfg_CORSOrigins : list string;
  cfg_DBHost : string; cfg_DBPort : string; cfg_DBName : string; cfg_DBUser : string; cfg_DBPassword : string;
  cfg_DBTimezone : string; cfg_DBPoolMax : Z; cfg_DBPoolMinIdle : Z;
  cfg_InteractiveTimeout : Z; cfg_AgentRunTimeout : Z;
  cfg_APIKey : string; cfg_ASRURL : string; cfg_ASRModel : string;
  cfg_RedisHost : string; cfg_RedisPort : string; cfg_RedisDatabase : Z; cfg_RedisPassword : string;
  cfg_MinioEndpoint : string; cfg_MinioPublicEndpoint : string; cfg_MinioAccessKey : string; cfg_MinioSecretKey : string;
  cfg_MinioBucket : string; cfg_MinioPublicRead : bool;
  cfg_YtDlpPath : string; cfg_FfmpegDir : string; cfg_OCRCommand : string;
  cfg_KafkaBrokers : list string; cfg_AgentGRPCAddr : string; cfg_InternalToken : string;
  cfg_OTLPEndpoint : string; cfg_ServiceName : string;
  cfg_BillingDailyLimit : float64; cfg_BillingUnlimited : list Z; cfg_InviteCode : string;
  cfg_DemoUsername : string; cfg_DemoPassword : string }.

(** [SplitList]: the entries between commas, trimmed, blank ones dropped. *)
Definition SplitList (v : string) : list string :=
  omap (fun p => let p := TrimSpace p in if negb (String.eqb p "") then Some p else None) (split_on "," v).

Definition RedisAddr (c : Config) : string := cfg_RedisHost c +:+ ":" +:+ cfg_RedisPort c.

Section load.
Context `{ConfigLib, FoldTable, PrintTable}.
Context (env : string -> option string).

Definition get (name def : string) : string :=
  match env name with Some v => if negb (String.eqb v "") then v else def | None => def end.

Definition required (name : string) : res string :=
  match env name with
  | None => Err (OtherErr ("missing required environment variable " +:+ name) None None)
  | Some v => Ok v
  end.

Definition atoi (name : string) (def : Z) : Z := match Atoi (get name "") with Some n => n | None => def end.

Definition defaultAgentMaxDurationMs : Z := 120000.

(** [time.Duration(n) * time.Millisecond], an int64. *)
Definition millis (n : Z) : Z := int64 (n * millisecond).

(** The daily limit, from BILLING_DAILY_LIMIT_CNY. *)
Definition parseLimit : res float64 :=
  let v := get "BILLING_DAILY_LIMIT_CNY" "" in
  if negb (String.eqb v "") then
    match ParseFloat v with
    | Some limit =>
        if SFltb limit (S754_zero false)
        then Err (OtherErr ("BILLING_DAILY_LIMIT_CNY must be a non-negative number, got " +:+ Quote printable v) None None)
        else Ok limit
    | None => Err (OtherErr ("BILLING_DAILY_LIMIT_CNY must be a non-negative number, got " +:+ Quote printable v) None None)
    end
  else Ok (S754_zero false).

(** The loop over BILLING_UNLIMITED_USER_IDS. *)
Fixpoint parseUnlimited (l : list string) : res (list Z) :=
  match l with
  | [] => Ok []
  | s :: l =>
      match ParseInt 64 s with
      | None => Err (OtherErr ("BILLING_UNLIMITED_USER_IDS: " +:+ Quote printable s +:+ " is not a user id") None None)
      | Some id => match parseUnlimited l with Ok ids => Ok (id :: ids) | Err e => Err e end
      end
  end.

Definition secrets : list string :=
  ["DB_USERNAME"; "DB_PASSWORD"; "MINIO_ACCESS_KEY"; "MINIO_SECRET_KEY"; "SILICONFLOW_API_KEY"; "INTERNAL_TOKEN"].

(** The loop over the secrets: their values, or the first one that is absent. *)
Fixpoint readSecrets (l : list string) : res (list string) :=
  match l with
  | [] => Ok []
  | s :: l =>
      match required s with
      | Err e => Err e
      | Ok v => match readSecrets l with Ok vs => Ok (v :: vs) | Err e => Err e end
      end
  end.

Definition noBrokers : gerror := OtherErr "KAFKA_BROKERS must list at least one broker" None None.

Definition Load : res Config :=
  let agentBudgetMs := atoi "AGENT_MAX_DURATION_MS" defaultAgentMaxDurationMs in
  let brokers := SplitList (get "KAFKA_BROKERS" "localhost:9094") in
  let zone := get "DB_TIMEZONE" "Asia/Shanghai" in
  match parseLimit with
  | Err e => Err e
  | Ok limit =>
  match parseUnlimited (SplitList (get "BILLING_UNLIMITED_USER_IDS" "")) with
  | Err e => Err e
  | Ok unlimited =>
  match readSecrets secrets with
  | Err e => Err e
  | Ok vs =>
  let secret i := nth i vs "" in
  if Nat.eqb (length brokers) 0 then Err noBrokers
  else
    match LoadLocation zone with
    | Some e => Err (wrapf ("invalid DB_TIMEZONE " +:+ Quote printable zone) e)
    | None =>
        Ok (mkConfig
          (get "SERVER_PORT" "9090") (get "SERVER_ADDRESS" "127.0.0.1")
          (SplitList (get "CORS_ALLOWED_ORIGINS" "http://localhost:5173,http://127.0.0.1:5173"))
          (get "DB_HOST" "localhost") (get "DB_PORT" "3307") (get "DB_NAME" "media_db") (secret 0%nat) (secret 1%nat)
          zone (atoi "DB_POOL_MAX_SIZE" 10) (atoi "DB_POOL_MIN_IDLE" 2)
          (millis (atoi "AI_INTERACTIVE_TIMEOUT_MS" 180000))
          (millis (atoi "AGENT_RUN_TIMEOUT_MS" (int64 (agentBudgetMs + 60000))))
          (secret 4%nat) (get "ASR_URL" "https://api.siliconflow.cn/v1/audio/transcriptions") (get "ASR_MODEL" "TeleAI/TeleSpeechASR")
          (get "REDIS_HOST" "localhost") (get "REDIS_PORT" "6379") (atoi "REDIS_DATABASE" 0) (get "REDIS_PASSWORD" "")
          (get "MINIO_ENDPOINT" "http://localhost:9000") (get "MINIO_PUBLIC_ENDPOINT" "") (secret 2%nat) (secret 3%nat)
          (get "MINIO_BUCKET" "media") (EqualFold (get "MINIO_PUBLIC_READ" "false") "true")
          (get "YTDLP_PATH" "yt-dlp") (get "FFMPEG_DIR" "") (get "OCR_COMMAND" "tesseract")
          brokers (get "AGENT_GRPC_ADDR" "127.0.0.1:9091") (secret 5%nat)
          (get "OTEL_EXPORTER_OTLP_ENDPOINT" "") (get "OTEL_SERVICE_NAME" "server-go")
          limit unlimited (get "REGISTRATION_INVITE_CODE" "") (get "DEMO_USERNAME" "") (get "DEMO_PASSWORD" ""))
    end
  end end end.

End load.

(** ** Lists of the environment *)

(** An entry as [SplitList] returns it. *)
Definition entry (s : string) : Prop := s <> "" /\ TrimSpace s = s.

Lemma SplitList_entries v : Forall entry (SplitList v).
Proof.
  apply Forall_forall. intros s. unfold SplitList. rewrite list_elem_of_omap. intros (p & _ & Hp).
  cbv zeta in Hp. destruct (String.eqb_spec (TrimSpace p) ""); [done|]. simplify_eq/=.
  split; [done|apply TrimSpace_idem].
Qed.

#[export] Hint Resolve SplitList_entries : gateway.

(** What is written with commas is read back. *)
Lemma SplitList_Join l : Forall entry l -> forallb (no_sep ",") l = true -> SplitList (Join l ",") = l.
Proof.
  intros He Hs. destruct l as [|s l]; [done|]. unfold SplitList. rewrite split_join by done.
  clear Hs. induction He as [|s' l' [Hne Htrim] _ IH]; [done|]. cbn. rewrite Htrim.
  destruct (String.eqb_spec s' ""); [done|]. cbn. by rewrite IH.
Qed.

(** ** What is accepted *)

Section contract.
Context `{ConfigLib, FoldTable, PrintTable}.
Context (env : string -> option string).

Lemma readSecrets_ok l vs : readSecrets env l = Ok vs <-> env <$> l = Some <$> vs.
Proof.
  revert vs. induction l as [|s l IH]; intros vs; cbn [readSecrets].
  { split; [intros [= <-]; done|]. by destruct vs. }
  unfold required. destruct (env s) as [v|] eqn:E; [|split; [done|]; cbn; rewrite E; by destruct vs].
  cbn. rewrite E. destruct (readSecrets env l) as [vs'|e].
  - split; [intros [= <-]; cbn; f_equal; by apply IH|]. destruct vs as [|v' vs]; [done|]. cbn. intros [= -> Hvs%IH]. by simplify_eq.
  - split; [done|]. destruct vs as [|v' vs]; [done|]. cbn. intros [= _ Hvs%IH]. done.
Qed.

Lemma readSecrets_err l e :
  readSecrets env l = Err e <->
  exists before s after, l = before ++ s :: after /\ Forall (fun t => is_Some (env t)) before /\ env s = None
    /\ e = OtherErr ("missing required environment variable " +:+ s) None None.
Proof.
  revert e. induction l as [|s l IH]; intros e; cbn [readSecrets].
  { split; [done|]. intros ([|] & ? & ? & [=] & _). }
  unfold required. destruct (env s) as [v|] eqn:E.
  - assert (match readSecrets env l with Ok vs => Ok (v :: vs) | Err e0 => Err e0 end = Err e <-> readSecrets env l = Err e) as ->
      by (by destruct (readSecrets env l)).
    rewrite IH. split.
    + intros (b & t & a & -> & Hb & Ht & ->). exists (s :: b), t, a. split_and!; [done| |done|done]. constructor; [by eexists|done].
    + intros ([|s' b] & t & a & [= -> Hl] & Hb & Ht & ->); [congruence|]. exists b, t, a. apply Forall_cons in Hb as [_ Hb]. by subst.
  - split.
    + intros [= <-]. by exists [], s, l.
    + intros ([|s' b] & t & a & [= -> Hl] & Hb & Ht & ->); [done|]. apply Forall_cons in Hb as [[? ?] _]. congruence.
Qed.

Lemma parseUnlimited_ok l ids : parseUnlimited l = Ok ids <-> ParseInt 64 <$> l = Some <$> ids.
Proof.
  revert ids. induction l as [|s l IH]; intros ids; cbn [parseUnlimited].
  { split; [intros [= <-]; done|]. by destruct ids. }
  cbn. destruct (ParseInt 64 s) as [id|]; [|split; [done|]; by destruct ids].
  destruct (parseUnlimited l) as [ids'|e].
  - split; [intros [= <-]; cbn; f_equal; by apply IH|]. destruct ids as [|i ids]; [done|]. cbn. intros [= -> Hids%IH]. by simplify_eq.
  - split; [done|]. destruct ids as [|i ids]; [done|]. cbn. intros [= _ Hids%IH]. done.
Qed.

Lemma parseLimit_nonneg limit : parseLimit env = Ok limit -> SFltb limit (S754_zero false) = false.
Proof.
  unfold parseLimit. destruct (String.eqb _ ""); [by intros [= <-]|]. cbn [negb].
  destruct (ParseFloat _) as [x|]; [|done]. destruct (SFltb x _) eqn:E; [done|]. by intros [= <-].
Qed.

(** A configuration error. *)
Definition invalid (e : gerror) : Prop :=
  parseLimit env = Err e
  \/ parseUnlimited (SplitList (get env "BILLING_UNLIMITED_USER_IDS" "")) = Err e
  \/ (exists s, s ∈ secrets /\ env s = None /\ e = OtherErr ("missing required environment variable " +:+ s) None None)
  \/ (SplitList (get env "KAFKA_BROKERS" "localhost:9094") = [] /\ e = noBrokers)
  \/ (exists cause, LoadLocation (get env "DB_TIMEZONE" "Asia/Shanghai") = Some cause
       /\ e = wrapf ("invalid DB_TIMEZONE " +:+ Quote printable (get env "DB_TIMEZONE" "Asia/Shanghai")) cause).

(** A deployment fails at startup or not at all. [Load] accepts an environment exactly when every secret is
    present (an empty one counts), the spending limit is not negative, the user ids are numbers, at least one
    broker is listed and the time zone exists; the secrets are then the values of their own variables, lists
    hold trimmed non-empty entries, and both deadlines fit a Duration. Otherwise the error names a reason
    that really holds. *)
Theorem Load_contract :
  match Load env with
  | Ok c =>
      env <$> secrets = Some <$> [cfg_DBUser c; cfg_DBPassword c; cfg_MinioAccessKey c; cfg_MinioSecretKey c; cfg_APIKey c; cfg_InternalToken c]
      /\ SFltb (cfg_BillingDailyLimit c) (S754_zero false) = false
      /\ ParseInt 64 <$> SplitList (get env "BILLING_UNLIMITED_USER_IDS" "") = Some <$> cfg_BillingUnlimited c
      /\ cfg_KafkaBrokers c <> [] /\ Forall entry (cfg_KafkaBrokers c) /\ Forall entry (cfg_CORSOrigins c)
      /\ LoadLocation (cfg_DBTimezone c) = None
      /\ - 2 ^ 63 <= cfg_InteractiveTimeout c < 2 ^ 63 /\ - 2 ^ 63 <= cfg_AgentRunTimeout c < 2 ^ 63
      /\ forall e, ~ invalid e
  | Err e => invalid e
  end.
Proof.
  unfold Load. destruct (parseLimit env) as [limit|e] eqn:Elimit; [|by left].
  destruct (parseUnlimited _) as [ids|e] eqn:Eids; [|by right; left].
  destruct (readSecrets env secrets) as [vs|e] eqn:Es; cycle 1.
  { right. right. left. apply readSecrets_err in Es as (b & s & a & Hl & _ & Hs & ->). exists s. split; [|done].
    rewrite Hl, elem_of_app. right. by left. }
  destruct (Nat.eqb_spec (length (SplitList (get env "KAFKA_BROKERS" "localhost:9094"))) 0) as [Hb|Hb].
  { right. right. right. left. split; [|done]. by apply nil_length_inv. }
  destruct (LoadLocation _) as [cause|] eqn:Ezone; [right; right; right; right; by exists cause|].
  pose proof Es as Hvs. apply readSecrets_ok in Hvs.
  assert (length vs = 6%nat) as Hlen by (apply (f_equal length) in Hvs; rewrite !length_fmap in Hvs; done).
  do 6 (destruct vs as [|? vs]; [done|]). destruct vs; [|done]. cbn [cfg_DBUser cfg_DBPassword cfg_MinioAccessKey
    cfg_MinioSecretKey cfg_APIKey cfg_InternalToken cfg_BillingDailyLimit cfg_BillingUnlimited cfg_KafkaBrokers cfg_CORSOrigins
    cfg_DBTimezone cfg_InteractiveTimeout cfg_AgentRunTimeout nth].
  split_and!; auto with gateway; try apply (int64_bounds (_ * millisecond)).
  - by eapply parseLimit_nonneg.
  - by apply parseUnlimited_ok.
  - intros E. by rewrite E in Hb.
  - intros e [E|[E|[(t & Ht & E & _)|[[E _]|(c & E & _)]]]]; try congruence.
    + assert (env t ∈ env <$> secrets) as Hin by (apply list_elem_of_fmap; by exists t).
      rewrite Hvs, E in Hin. by apply list_elem_of_fmap in Hin as (v & ? & _).
    + by rewrite E in Hb.
Qed.

End contract.

(** A number that is not a number passes the check for negative ones: with BILLING_DAILY_LIMIT_CNY=nan the
    limit is NaN, and no user is limited. *)
Theorem nan_limit_accepted `{ConfigLib, PrintTable} (env : string -> option string) (unlimited : list Z) (uid : Z) :
  env "BILLING_DAILY_LIMIT_CNY" = Some "nan" -> ParseFloat "nan" = Some S754_nan ->
  parseLimit env = Ok S754_nan /\ Limited (Some (mkLedger S754_nan unlimited)) uid = false.
Proof. intros He Hp. unfold parseLimit, get. rewrite He. cbn. by rewrite Hp. Qed.
