(* ===== verification/Database.v ===== *)
(** * Connecting to the database (internal/repo/db.go, sqlopen.go)

    [Migrate] and [Open] as programs over the MySQL driver, golang-migrate and GORM.  [LibDB] holds the driver's
    default configuration and its rendering of one as a DSN. *)

From S2P Require Import Prelude GoStrings Proc Errors GoContext HttpParams Auth Config.

Local Open Scope string_scope.
Local Open Scope list_scope.
Local Open Scope Z_scope.

(** The fields of [mysql.Config] the code sets; [Loc] is the name of the zone. *)
Record mysqlConfig := mkMysqlConfig {
  my_User : string; my_Passwd : string; my_Net : string; my_Addr : string; my_DBName : string;
  my_ParseTime : bool; my_Loc : string; my_Timeout : Z; my_MultiStatements : bool; my_Collation : string;
  my_AllowNativePasswords : bool }.

Class LibDB := { FormatDSN : mysqlConfig -> string }.

Inductive DbOpenE : Type -> Type :=
| NewConnector (cfg : mysqlConfig) : DbOpenE (res unit) (* with sql.OpenDB, which cannot fail *)
| WithInstance : DbOpenE (res unit) (* takes a connection of the pool *)
| IofsNew : DbOpenE (res unit) (* the embedded migrations *)
| NewWithInstance : DbOpenE (res unit)
| Up : DbOpenE (res unit)
| CloseDB : DbOpenE unit
| GormOpen (dsn : string) (TranslateError : bool) : DbOpenE (res unit)
| UseTracing : DbOpenE (res unit)
| GetDB : DbOpenE (res unit)
| SetMaxOpenConns (n : Z) : DbOpenE unit
| SetMaxIdleConns (n : Z) : DbOpenE unit
| SetConnMaxLifetime (d : Z) : DbOpenE unit.

(** [err != migrate.ErrNoChange]. *)
Definition isNoChange (e : gerror) : bool :=
  match e with OtherErr _ (Some ErrNoChange) None => true | _ => false end.

Section database.
Context `{ConfigLib, PrintTable, LibDB}.

Definition driverConfig (c : Config) : res mysqlConfig :=
  match LoadLocation (cfg_DBTimezone c) with
  | Some err => Err (wrapf ("invalid DB_TIMEZONE " +:+ Quote printable (cfg_DBTimezone c)) err)
  | None =>
      Ok (mkMysqlConfig (cfg_DBUser c) (cfg_DBPassword c) "tcp" (cfg_DBHost c +:+ ":" +:+ cfg_DBPort c) (cfg_DBName c)
            true (cfg_DBTimezone c) (3 * second) true "utf8mb4_unicode_ci" true)
  end.

Definition openSQL (cfg : mysqlConfig) : proc DbOpenE (res unit) := call (NewConnector cfg).

(** [if err != nil { return fmt.Errorf("...: %w", err) }]. *)
Definition stepOf (what : string) (c : DbOpenE (res unit)) : proc DbOpenE (res unit) :=
  Do c (fun r => match r with Err err => Ret (Err (wrapf what err)) | Ok _ => Ret (Ok tt) end).

(** The body of [Migrate] once the pool is open. *)
Definition applyMigrations : proc DbOpenE (res unit) :=
  _ ←? stepOf "migrate driver" WithInstance;
  _ ←? stepOf "migrate source" IofsNew;
  _ ←? stepOf "migrate init" NewWithInstance;
  Do Up (fun r =>
  match r with
  | Err err => if negb (isNoChange err) then Ret (Err (wrapf "migrate up" err)) else Ret (Ok tt)
  | Ok _ => Ret (Ok tt)
  end).

Definition Migrate (c : Config) : proc DbOpenE (res unit) :=
  match driverConfig c with
  | Err err => Ret (Err err)
  | Ok cfg =>
      _ ←? openSQL cfg;
      bind applyMigrations (fun r => Do CloseDB (fun _ => Ret r)) (* defer db.Close() *)
  end.

Definition without_multi (cfg : mysqlConfig) : mysqlConfig :=
  mkMysqlConfig (my_User cfg) (my_Passwd cfg) (my_Net cfg) (my_Addr cfg) (my_DBName cfg) (my_ParseTime cfg) (my_Loc cfg)
    (my_Timeout cfg) false (my_Collation cfg) (my_AllowNativePasswords cfg).

Definition Open (c : Config) : proc DbOpenE (res unit) :=
  match driverConfig c with
  | Err err => Ret (Err err)
  | Ok cfg =>
      _ ←? call (GormOpen (FormatDSN (without_multi cfg)) true);
      _ ←? call UseTracing;
      _ ←? call GetDB;
      Do (SetMaxOpenConns (cfg_DBPoolMax c)) (fun _ =>
      Do (SetMaxIdleConns (cfg_DBPoolMinIdle c)) (fun _ =>
      Do (SetConnMaxLifetime (30 * minute)) (fun _ =>
      Ret (Ok tt))))
  end.

(** ** What they guarantee *)

(** The calls up to the one that failed, if one did: each step answered with its error, the later ones not made. *)
Definition stepsOf (l : list (DbOpenE (res unit))) (tr : trace DbOpenE) (failed : option gerror) : Prop :=
  match failed with
  | None => tr = (fun c => Ev c (Ok tt)) <$> l
  | Some e => exists done c rest, l = done ++ c :: rest /\ tr = ((fun c => Ev c (Ok tt)) <$> done) ++ [Ev c (Err e)]
  end.

(** Migrating: the pool of a startup is closed on every path once it was opened, at the very end; the steps run
    in order and stop at the first error, which is what is returned, and a schema that is already up to date
    is not one. *)
Theorem Migrate_contract (c : Config) :
  wp (Migrate c) (fun tr r =>
    match driverConfig c with
    | Err e => tr = [] /\ r = Err e
    | Ok cfg =>
        my_MultiStatements cfg = true
        /\ ((exists e, tr = [Ev (NewConnector cfg) (Err e)] /\ r = Err e)
            \/ exists steps, tr = Ev (NewConnector cfg) (Ok tt) :: steps ++ [Ev CloseDB tt]
                /\ ((r = Ok tt /\ (stepsOf [WithInstance; IofsNew; NewWithInstance; Up] steps None
                       \/ exists e, isNoChange e = true
                            /\ steps = [Ev WithInstance (Ok tt); Ev IofsNew (Ok tt); Ev NewWithInstance (Ok tt); Ev Up (Err e)]))
                    \/ exists what e, r = Err (wrapf what e)
                         /\ stepsOf [WithInstance; IofsNew; NewWithInstance; Up] steps (Some e)))
    end).
Proof.
  unfold Migrate, driverConfig. destruct (LoadLocation _) as [e|]; [by wp_go|].
  unfold openSQL, applyMigrations, stepOf. wp_go; (split; [done|]); answers.
  - right. eexists [_; _; _; _]. split; [done|]. left. split; [done|]. by left.
  - right. eexists [_; _; _; _]. split; [done|]. left. split; [done|]. right. eexists. by split.
  - right. eexists [_; _; _; _]. split; [done|]. right. eexists "migrate up", _. split; [done|].
    by exists [WithInstance; IofsNew; NewWithInstance], Up, [].
  - right. eexists [_; _; _]. split; [done|]. right. eexists "migrate init", _. split; [done|].
    by exists [WithInstance; IofsNew], NewWithInstance, [Up].
  - right. eexists [_; _]. split; [done|]. right. eexists "migrate source", _. split; [done|].
    by exists [WithInstance], IofsNew, [NewWithInstance; Up].
  - right. eexists [_]. split; [done|]. right. eexists "migrate driver", _. split; [done|].
    by exists [], WithInstance, [IofsNew; NewWithInstance; Up].
  - left. by eexists.
Qed.

(** The runtime pool never accepts several statements in one query, reports duplicate keys and missing rows as
    GORM's own errors, and, when [Open] succeeds, is bounded by the configuration; the schema is never touched. *)
Theorem Open_contract (c : Config) :
  wp (Open c) (fun tr r =>
    match driverConfig c with
    | Err e => tr = [] /\ r = Err e
    | Ok cfg =>
        my_MultiStatements (without_multi cfg) = false
        /\ match r with
           | Ok _ => tr = [Ev (GormOpen (FormatDSN (without_multi cfg)) true) (Ok tt); Ev UseTracing (Ok tt); Ev GetDB (Ok tt);
                          Ev (SetMaxOpenConns (cfg_DBPoolMax c)) tt; Ev (SetMaxIdleConns (cfg_DBPoolMinIdle c)) tt;
                          Ev (SetConnMaxLifetime (30 * minute)) tt]
           | Err e => stepsOf [GormOpen (FormatDSN (without_multi cfg)) true; UseTracing; GetDB] tr (Some e)
           end
    end).
Proof.
  unfold Open, driverConfig. destruct (LoadLocation _) as [e|]; [by wp_go|].
  wp_go; (split; [done|]); answers; [done|..]; unfold stepsOf.
  - by eexists [_; _], _, [].
  - by eexists [_], _, [_].
  - by eexists [], _, [_; _].
Qed.

(** The configuration the process starts with has a time zone the driver accepts: what [Load] returned, both
    connections can be configured from, with the same host, credentials, time zone and collation. *)
Theorem loaded_config_connects `{FoldTable} (env : string -> option string) (c : Config) :
  Load env = Ok c -> exists cfg, driverConfig c = Ok cfg
    /\ my_Addr cfg = get env "DB_HOST" "localhost" +:+ ":" +:+ get env "DB_PORT" "3307"
    /\ my_Loc cfg = get env "DB_TIMEZONE" "Asia/Shanghai" /\ my_Collation cfg = "utf8mb4_unicode_ci".
Proof.
  unfold Load, driverConfig. intros Hl. destruct (parseLimit env); [|done]. destruct (parseUnlimited _); [|done].
  destruct (readSecrets env secrets); [|done]. destruct (Nat.eqb _ _); [done|].
  destruct (LoadLocation _) as [e|] eqn:Ez; [done|]. injection Hl as <-. cbn. rewrite Ez. by eexists.
Qed.

End database.
