(* ===== verification/Minio.v ===== *)
(** * The object store client (internal/storage/minio.go, internal/storage/lifecycle.go)

    The operations behind the calls [M...] of [StoreE], as programs over the MinIO client, the random source
    and the files they use, and what they do to a bucket.  The client library, the system's table of media
    types and the URL parser are parameters. *)

From S2P Require Import Prelude GoStrings Proc Errors GoContext HttpParams Links Store Config.

Local Open Scope string_scope.
Local Open Scope list_scope.
Local Open Scope Z_scope.

(** The client library: whether [GetObjectOptions.SetRange] accepts a range, and its lifecycle rules, of which
    the code reads the ID and makes one kind: an enabled rule that expires what is under a prefix. *)
Class MinioLib := {
  SetRange : Z -> Z -> bool;
  Rule : Type;
  ruleID : Rule -> string;
  expiryRule : string -> string -> Z -> Rule; (* ID, prefix, days *)
  ruleID_expiry : forall id prefix days, ruleID (expiryRule id prefix days) = id }.

(** [mime.TypeByExtension] before this program registers its own types. *)
Class MimeTable := systemType : string -> string.

Inductive MinioE `{MinioLib} : Type -> Type :=
| OUuid : MinioE string
| OPut (ctx : Context) (name : string) (data : reader) (size : Z) (contentType : string) : MinioE (res unit)
| OGet (ctx : Context) (name : string) (range : option (Z * Z)) : MinioE (res reader)
| OStat (ctx : Context) (name : string) : MinioE (res Z)
| ORemove (ctx : Context) (name : string) : MinioE (res unit)
| OPresign (public : bool) (ctx : Context) (name : string) (expiry : Z) : MinioE (res string)
| OFileStat (path : string) : MinioE (option Z) (* the size of a file; None: an error or a directory *)
| OOpen (path : string) : MinioE (res reader)
| OWrite (data : string) : MinioE (res unit) (* the writer given to CopyObjectTo *)
(* connecting *)
| OTransport (secure : bool) : MinioE (res unit)
| OClient (host : string) (secure : bool) (region : string) : MinioE (res unit)
| OBucketExists (ctx : Context) (bucket : string) : MinioE (res bool)
| OMakeBucket (ctx : Context) (bucket : string) : MinioE (res unit)
| OGetLifecycle (ctx : Context) (bucket : string) : MinioE (result (gerror * string) (list Rule)) (* an error with its code *)
| OSetLifecycle (ctx : Context) (bucket : string) (rules : list Rule) : MinioE (res unit).

(** ** Names *)

(** [suffixRe]: a dot and lower-case letters or digits. *)
Definition suffixRe (s : string) : bool :=
  match s with
  | String a r => Ascii.eqb a "." && negb (String.eqb r "") && str_forall (fun c => in_range 97 122 (byte c) || is_digit c) r
  | EmptyString => false
  end.

Definition fileSuffix (filename : string) : string :=
  match LastIndexByte filename "." with
  | None => ""
  | Some dot =>
      if 11 <? strlen filename - Z.of_nat dot then ""
      else let s := ToLower (str_drop dot filename) in if suffixRe s then s else ""
  end.

(** The media types registered by [init], where the system has none. *)
Definition registered : list (string * string) :=
  [(".mp4", "video/mp4"); (".m4v", "video/mp4"); (".mov", "video/quicktime"); (".webm", "video/webm");
   (".mkv", "video/x-matroska"); (".avi", "video/x-msvideo"); (".flv", "video/x-flv"); (".ts", "video/mp2t");
   (".mp3", "audio/mpeg"); (".m4a", "audio/mp4"); (".wav", "audio/wav"); (".aac", "audio/aac"); (".ogg", "audio/ogg")].

Definition TypeByExtension `{MimeTable} (ext : string) : string :=
  if negb (String.eqb (systemType ext) "") then systemType ext
  else match list_find (fun '(e, _) => e = ToLower ext) registered with
       | Some (_, (e, typ)) => if String.eqb (systemType e) "" then typ else ""
       | None => ""
       end.

(** [filepath.Ext]: from the last dot after the last slash. *)
Definition Ext (path : string) : string :=
  let base := match LastIndexByte path "/" with Some i => str_drop (S i) path | None => path end in
  match LastIndexByte base "." with Some i => str_drop i base | None => "" end.

(** [strings.TrimRight(s, "/")]. *)
Fixpoint trimSlashes (s : string) : string :=
  match s with
  | EmptyString => ""
  | String a r =>
      match trimSlashes r with
      | EmptyString => if Ascii.eqb a "/" then "" else String a ""
      | r' => String a r'
      end
  end.

(** ** The expiry of abandoned chunks (lifecycle.go) *)

Definition ChunkUploadPrefix : string := "chunk-uploads/".
Definition chunkRuleID : string := "expire-abandoned-chunk-uploads".
Definition chunkRetentionDays : Z := 7.

Section lifecycle.
Context `{MinioLib}.

Definition withChunkExpiry (cfg : option (list Rule)) : list Rule :=
  List.filter (fun r => negb (String.eqb (ruleID r) chunkRuleID)) (default [] cfg)
  ++ [expiryRule chunkRuleID ChunkUploadPrefix chunkRetentionDays].

Definition ensureChunkExpiry (ctx : Context) (bucket : string) : proc MinioE unit :=
  Do (OGetLifecycle ctx bucket) (fun current =>
  match current with
  | Ok rules => Do (OSetLifecycle ctx bucket (withChunkExpiry (Some rules))) (fun _ => Ret tt)
  | Err (_, code) =>
      if negb (String.eqb code "NoSuchLifecycleConfiguration") then Ret tt
      else Do (OSetLifecycle ctx bucket (withChunkExpiry None)) (fun _ => Ret tt)
  end).

End lifecycle.

(** ** Connecting *)

Section connect.
Context `{MinioLib, GoURL}.

Definition initFailed (cause : option gerror) : gerror := Internal "MinIO 初始化失败" cause.

(** The second client, for presigning against the browser-reachable endpoint: its host, or that of the first. *)
Definition publicClient (c : Config) (host : string) : proc MinioE (res string) :=
  let pe := TrimSpace (cfg_MinioPublicEndpoint c) in
  if negb (String.eqb pe "") && negb (String.eqb (trimSlashes pe) (trimSlashes (cfg_MinioEndpoint c))) then
    match parseURL pe with
    | Err e => Ret (Err (Internal "MINIO_PUBLIC_ENDPOINT 无效" (Some e)))
    | Ok pu =>
        if String.eqb (u_Host pu) "" then Ret (Err (Internal "MINIO_PUBLIC_ENDPOINT 无效" None))
        else
          Do (OClient (u_Host pu) (String.eqb (u_Scheme pu) "https") "us-east-1") (fun r =>
          match r with Err e => Ret (Err (initFailed (Some e))) | Ok _ => Ret (Ok (u_Host pu)) end)
    end
  else Ret (Ok host).

(** [New]: the configuration the URLs are built from, and the host that playback is presigned against. *)
Definition New (ctx : Context) (c : Config) : proc MinioE (res (MinioConfig * string)) :=
  match parseURL (cfg_MinioEndpoint c) with
  | Err e => Ret (Err (initFailed (Some e)))
  | Ok u =>
      if String.eqb (u_Host u) "" then Ret (Err (initFailed None))
      else
        let secure := String.eqb (u_Scheme u) "https" in
        let failed e := Ret (Err (initFailed (Some e))) in
        Do (OTransport secure) (fun r => match r with Err e => failed e | Ok _ =>
        Do (OClient (u_Host u) secure "") (fun r => match r with Err e => failed e | Ok _ =>
        Do (OBucketExists ctx (cfg_MinioBucket c)) (fun r => match r with Err e => failed e | Ok exists_ =>
        bind (if exists_ : bool then Ret (Ok tt) else call (OMakeBucket ctx (cfg_MinioBucket c))) (fun r =>
        match r with
        | Err e => failed e
        | Ok _ =>
            bind (ensureChunkExpiry ctx (cfg_MinioBucket c)) (fun _ =>
            public ←? publicClient c (u_Host u);
            Ret (Ok ({| endpoint := trimSlashes (cfg_MinioEndpoint c); bucket := cfg_MinioBucket c |}, public)))
        end) end) end) end)
  end.

End connect.

(** ** Objects *)

Section client.
Context `{MinioLib, GoURL, MinioConfig, MimeTable}.

Definition invalidURL : gerror := InvalidArgument "invalid MinIO object URL".
Definition readFailed (e : gerror) : gerror := Internal "MinIO 文件读取失败" (Some e).

Definition objectName (fileURL : string) : res string :=
  match parseURL fileURL with
  | Err _ => Err invalidURL
  | Ok u =>
      let prefix := "/" +:+ bucket +:+ "/" in
      match String.index 0 prefix (u_Path u) with
      | None => Err invalidURL
      | Some start =>
          let name := str_drop (start + String.length prefix) (u_Path u) in
          match validateObjectName name with Err e => Err e | Ok _ => Ok name end
      end
  end.

Definition octetStream : string := "application/octet-stream".

Definition UploadStream (ctx : Context) (r : reader) (size : Z) (originalFilename contentType : string) : proc MinioE (res string) :=
  Do OUuid (fun id =>
  let objectName := id +:+ fileSuffix originalFilename in
  let contentType := if String.eqb contentType "" then octetStream else contentType in
  _ ←? call (OPut ctx objectName r size contentType);
  Ret (ObjectURL objectName)).

Definition UploadLocalFile (ctx : Context) (path originalFilename objectPrefix : string) : proc MinioE (res string) :=
  Do (OFileStat path) (fun st =>
  match st with
  | None => Ret (Err (InvalidArgument "local file does not exist"))
  | Some size =>
      let prefix := TrimFunc (fun r => r =? 47) objectPrefix in
      let prefix := if negb (String.eqb prefix "") then prefix +:+ "/" else prefix in
      Do OUuid (fun id =>
      let objectName := prefix +:+ id +:+ fileSuffix originalFilename in
      match validateObjectName objectName with
      | Err e => Ret (Err e)
      | Ok _ =>
          let contentType := TypeByExtension (Ext path) in
          let contentType := if String.eqb contentType "" then octetStream else contentType in
          f ←? call (OOpen path);
          _ ←? call (OPut ctx objectName f size contentType);
          Ret (ObjectURL objectName)
      end)
  end).

Definition UploadObject (ctx : Context) (objectName : string) (r : reader) (size : Z) (contentType : string) : proc MinioE (res string) :=
  match validateObjectName objectName with
  | Err e => Ret (Err e)
  | Ok _ => _ ←? call (OPut ctx objectName r size contentType); Ret (ObjectURL objectName)
  end.

Definition CopyObjectTo (ctx : Context) (objectName : string) : proc MinioE (res unit) :=
  match validateObjectName objectName with
  | Err e => Ret (Err e)
  | Ok _ =>
      Do (OGet ctx objectName None) (fun obj =>
      match obj with
      | Err e => Ret (Err (readFailed e))
      | Ok obj =>
          Do (OWrite (rd_data obj)) (fun w =>
          match w with
          | Err e => Ret (Err (readFailed e))
          | Ok _ => Ret match rd_err obj with Some e => Err (readFailed e) | None => Ok tt end
          end)
      end)
  end.

Definition ObjectSize (ctx : Context) (fileURL : string) : proc MinioE (res Z) :=
  match objectName fileURL with
  | Err e => Ret (Err e)
  | Ok name =>
      Do (OStat ctx name) (fun r =>
      Ret match r with Err e => Err (Internal "MinIO 文件信息读取失败" (Some e)) | Ok size => Ok size end)
  end.

Definition ReadRange (ctx : Context) (fileURL : string) (offset length : Z) : proc MinioE (res string) :=
  match objectName fileURL with
  | Err e => Ret (Err e)
  | Ok name =>
      if negb (SetRange offset (int64 (offset + length - 1))) then Ret (Err (InvalidArgument "invalid byte range"))
      else
        Do (OGet ctx name (Some (offset, int64 (offset + length - 1)))) (fun obj =>
        match obj with
        | Err e => Ret (Err (readFailed e))
        | Ok obj =>
            (* io.ReadAll(io.LimitReader(obj, length)): the error is not reached once the limit is *)
            let buf := str_take (Z.to_nat length) (rd_data obj) in
            Ret match rd_err obj with
                | Some e => if length <=? strlen (rd_data obj) then Ok buf else Err (readFailed e)
                | None => Ok buf
                end
        end)
  end.

Definition RemoveObject (ctx : Context) (objectName : string) : proc MinioE (res unit) :=
  match validateObjectName objectName with
  | Err e => Ret (Err e)
  | Ok _ =>
      Do (ORemove ctx objectName) (fun r =>
      Ret match r with Err e => Err (Internal "MinIO 文件删除失败" (Some e)) | Ok _ => Ok tt end)
  end.

Definition RemoveFile (ctx : Context) (fileURL : string) : proc MinioE (res unit) :=
  if is_blank fileURL || negb (IsManagedFile fileURL) then Ret (Ok tt)
  else
    match objectName fileURL with
    | Err e => Ret (Err e)
    | Ok name => RemoveObject ctx name
    end.

Definition IsManagedFileWithPrefix (fileURL objectPrefix : string) : bool :=
  if negb (IsManagedFile fileURL) then false
  else match objectName fileURL with Ok name => HasPrefix name (objectPrefix +:+ "/") | Err _ => false end.

(** [ReadableSource] and [PlaybackURL], which differ in the client that presigns. *)
Definition presigned (public : bool) (ctx : Context) (source : string) : proc MinioE (res string) :=
  if negb (HasPrefix source (endpoint +:+ "/" +:+ bucket +:+ "/")) then Ret (Ok source)
  else
    match objectName source with
    | Err e => Ret (Err e)
    | Ok name =>
        Do (OPresign public ctx name hour) (fun r =>
        Ret match r with Err e => Err (Internal "MinIO 预签名地址生成失败" (Some e)) | Ok u => Ok u end)
    end.

Definition ReadableSource : Context -> string -> proc MinioE (res string) := presigned false.
Definition PlaybackURL : Context -> string -> proc MinioE (res string) := presigned true.

End client.

(** ** The rule on the bucket *)

Section expiry.
Context `{MinioLib}.

Definition operatorRules (rules : list Rule) : list Rule :=
  List.filter (fun r => negb (String.eqb (ruleID r) chunkRuleID)) rules.

Lemma operatorRules_idem rules : operatorRules (operatorRules rules) = operatorRules rules.
Proof.
  induction rules as [|r rules IH]; [done|]. unfold operatorRules in *. cbn [List.filter].
  destruct (String.eqb (ruleID r) chunkRuleID) eqn:E; cbn [negb]; [done|]. cbn [List.filter]. rewrite E. cbn [negb]. by f_equal.
Qed.

Lemma operatorRules_expiry rules : operatorRules (withChunkExpiry (Some rules)) = operatorRules rules.
Proof.
  unfold withChunkExpiry, operatorRules. rewrite List.filter_app. cbn [List.filter]. rewrite ruleID_expiry, String.eqb_refl.
  cbn [negb]. rewrite app_nil_r. apply operatorRules_idem.
Qed.

(** The bucket's lifecycle rules behind the calls of [ensureChunkExpiry]; a failed write changes nothing. *)
Definition rules_service (bkt : string) (X : Type) (c : MinioE X) (s : option (list Rule)) : X -> option (list Rule) -> Prop :=
  match c in MinioE X return X -> option (list Rule) -> Prop with
  | OGetLifecycle _ b => fun x s' => b = bkt /\ s' = s /\
      match x with Ok rules => s = Some rules | Err (_, code) => code = "NoSuchLifecycleConfiguration" -> s = None end
  | OSetLifecycle _ b rules => fun x s' => b = bkt /\ s' = match x with Ok _ => Some rules | Err _ => s end
  | _ => fun _ _ => False
  end.

(** Starting the server keeps the operators' lifecycle rules. Whatever calls fail, [ensureChunkExpiry] leaves
    every rule of another ID on the bucket, in order; and either it changed nothing, or the bucket has exactly
    one rule of its own ID after them, which expires chunks after seven days. Running it again, on the next
    start, changes nothing more. *)
Theorem ensureChunkExpiry_keeps (ctx : Context) (bkt : string) (s : option (list Rule)) :
  swp (rules_service bkt) (ensureChunkExpiry ctx bkt) s (fun _ s' =>
    operatorRules (default [] s') = operatorRules (default [] s)
    /\ (s' = s \/ s' = Some (operatorRules (default [] s) ++ [expiryRule chunkRuleID ChunkUploadPrefix chunkRetentionDays]))
    /\ withChunkExpiry (Some (withChunkExpiry s')) = withChunkExpiry s').
Proof.
  assert (forall o, withChunkExpiry (Some (withChunkExpiry o)) = withChunkExpiry o) as Hidem.
  { intros o. unfold withChunkExpiry at 1 3. cbn [default]. f_equal. 
    pose proof (operatorRules_expiry (default [] o)) as E. unfold withChunkExpiry in E. cbn [default] in E. 
    unfold withChunkExpiry. exact E. }
  unfold ensureChunkExpiry. cbn [swp]. intros current s1 (_ & -> & Hcur).
  destruct current as [rules|[e code]]; cbn [swp].
  - subst s. intros [[]|e] s2 [_ ->]; cbn [default]; (split_and!; [|auto|apply Hidem]); [apply operatorRules_expiry|done].
  - destruct (String.eqb_spec code "NoSuchLifecycleConfiguration") as [->|]; cbn [negb swp]; [|split_and!; [done|by left|apply Hidem]].
    rewrite (Hcur eq_refl). intros [[]|e'] s2 [_ ->]; cbn [default]; (split_and!; [|auto|apply Hidem]);
      [apply (operatorRules_expiry [])|done].
Qed.

End expiry.

(** ** A bucket *)

Section bucket.
Context `{MinioLib, GoURL, MinioConfig, MimeTable}.

(** The bytes from [offset] on, [length] of them or up to the end. *)
Definition slice (offset length : Z) (data : string) : string := str_take (Z.to_nat length) (str_drop (Z.to_nat offset) data).

(** Characters of object names that a URL holds as they are. *)
Definition url_char (a : ascii) : bool :=
  let b := byte a in in_range 97 122 b || in_range 65 90 b || is_digit a || (b =? 45) || (b =? 46) || (b =? 47) || (b =? 95).

(** The objects of a bucket, beside a local file system [files]. An upload stores the announced number of bytes
    or fails, in which case it may or may not have happened; a read without an error is complete. *)
Definition bucket_service (files : string -> option string) (X : Type) (c : MinioE X) (s : gmap string string)
  : X -> gmap string string -> Prop :=
  match c in MinioE X return X -> gmap string string -> Prop with
  | OUuid => fun x s' => s' = s /\ str_forall url_char x = true
  | OPut _ name rd size _ => fun x s' =>
      let stored := if size <? 0 then rd_data rd else str_take (Z.to_nat size) (rd_data rd) in
      match x with
      | Ok _ => s' = <[name := stored]> s /\ (size < 0 -> rd_err rd = None) /\ size <= strlen (rd_data rd)
      | Err _ => s' = s \/ s' = <[name := stored]> s
      end
  | OGet _ name range => fun x s' => s' = s /\
      match x with
      | Ok obj => exists data, s !! name = Some data /\
          let asked := match range with Some (a, b) => slice a (b - a + 1) data | None => data end in
          match rd_err obj with None => rd_data obj = asked | Some _ => exists k, rd_data obj = str_take k asked end
      | Err _ => True
      end
  | OStat _ name => fun x s' => s' = s /\ match x with Ok n => exists data, s !! name = Some data /\ n = strlen data | Err _ => True end
  | ORemove _ name => fun x s' => match x with Ok _ => s' = delete name s | Err _ => s' = s \/ s' = delete name s end
  | OFileStat path => fun x s' => s' = s /\ match x with Some n => exists data, files path = Some data /\ n = strlen data | None => True end
  | OOpen path => fun x s' => s' = s /\
      match x with Ok rd => rd_err rd = None /\ files path = Some (rd_data rd) | Err _ => True end
  | _ => fun _ s' => s' = s
  end.

(** What [url.Parse] does to the URLs of objects whose names need no escaping: the path is what follows the
    host. *)
Class ObjectURLs := {
  endpoint_plain : str_forall plain_ascii endpoint = true;
  bucket_plain : str_forall plain_ascii bucket = true;
  object_path name : str_forall url_char name = true ->
    exists u, parseURL (endpoint +:+ "/" +:+ bucket +:+ "/" +:+ name) = Ok u /\ u_Path u = "/" +:+ bucket +:+ "/" +:+ name }.

(** The name of an object is read back from its URL. *)
Lemma url_char_plain name : str_forall url_char name = true -> str_forall plain_ascii name = true.
Proof.
  apply str_forall_weaken. intros [[] [] [] [] [] [] [] []]; vm_compute; done.
Qed.

Lemma objectName_ObjectURL `{!ObjectURLs} name url :
  str_forall url_char name = true -> ObjectURL name = Ok url ->
  objectName url = Ok name /\ IsManagedFile url = true /\ is_blank url = false /\ validateObjectName name = Ok tt.
Proof.
  unfold ObjectURL. intros Hc. destruct (validateObjectName name) as [[]|e] eqn:Ev; [|done]. intros [= <-].
  destruct (object_path name Hc) as (u & Hu & Hp). unfold objectName. rewrite Hu, Hp. split_and!; [| | |done].
  - rewrite <- !str_app_assoc, index_here. cbn [Nat.add]. rewrite str_drop_app. by rewrite Ev.
  - unfold IsManagedFile. rewrite <- !str_app_assoc. apply HasPrefix_app.
  - unfold is_blank. rewrite TrimSpace_plain; [by destruct endpoint|].
    by rewrite !str_forall_app, endpoint_plain, bucket_plain, (url_char_plain name Hc).
Qed.

(** [stores up data s]: an upload that reports a URL has stored [data] under the name of that URL and nothing
    else. *)
Definition stores (files : string -> option string) (up : proc MinioE (res string)) (data : string) (s : gmap string string) : Prop :=
  swp (bucket_service files) up s (fun r s' => forall url, r = Ok url ->
    exists name, s' = <[name := data]> s /\ str_forall url_char name = true /\ ObjectURL name = Ok url).

(** The life of an object: upload, size, a range, removal. *)
Definition use_object (ctx : Context) (up : proc MinioE (res string)) (offset length : Z) : proc MinioE (res (string * Z * string)) :=
  url ←? up;
  n ←? ObjectSize ctx url;
  data ←? ReadRange ctx url offset length;
  _ ←? RemoveFile ctx url;
  Ret (Ok (url, n, data)).

(** [opts.SetRange] accepts a range that starts at or after the first byte and does not end before it starts. *)
Definition ranges_accepted : Prop := forall a b, 0 <= a <= b -> SetRange a b = true.

(** What is promised of the life of an object holding [data], and of the bucket after it. *)
Definition used (data : string) (offset length : Z) (s : gmap string string) (r : res (string * Z * string)) (s' : gmap string string) : Prop :=
  forall url n bytes, r = Ok (url, n, bytes) ->
    IsManagedFile url = true /\ n = strlen data /\ bytes = slice offset length data
    /\ exists name, ObjectURL name = Ok url /\ s' = delete name s.

Lemma use_object_spec `{!ObjectURLs} files ctx up offset length data s :
  ranges_accepted -> 0 <= offset -> 0 < length -> offset + length <= 2 ^ 62 -> stores files up data s ->
  swp (bucket_service files) (use_object ctx up offset length) s (used data offset length s).
Proof.
  intros Hrange Ho Hl Hmax Hup. unfold use_object, used. apply swp_bind.
  eapply swp_mono; [exact Hup|]. cbv beta. intros [url|e] s1 Hs1; [|by intros].
  destruct (Hs1 url eq_refl) as (name & -> & Hc & Hurl).
  destruct (objectName_ObjectURL name url Hc Hurl) as (Hname & Hm & Hblank & Hv).
  apply swp_bind. unfold ObjectSize. rewrite Hname.
  cbn [swp]. intros n s2 [-> Hn]. destruct n as [n|e]; [|by intros]. destruct Hn as (d & Hd & ->).
  rewrite lookup_insert_eq in Hd. simplify_eq. apply swp_bind. unfold ReadRange. rewrite Hname.
  rewrite int64_id by lia. rewrite Hrange by lia. cbn [negb swp]. intros obj s3 [-> Hobj].
  destruct obj as [obj|e]; [|by intros]. destruct Hobj as (d' & Hd & Hobj). rewrite lookup_insert_eq in Hd. simplify_eq.
  replace (offset + length - 1 - offset + 1) with length in Hobj by lia. cbn zeta in Hobj.
  assert (forall bytes, match rd_err obj with
    | Some e => if length <=? strlen (rd_data obj) then Ok (str_take (Z.to_nat length) (rd_data obj)) else Err (readFailed e)
    | None => Ok (str_take (Z.to_nat length) (rd_data obj)) end = Ok bytes -> bytes = slice offset length d') as Hbytes.
  { intros bytes Hb. pose proof (strlen_take (Z.to_nat length) (str_drop (Z.to_nat offset) d')) as Hlen.
    fold (slice offset length d') in Hlen. destruct (rd_err obj) as [e|].
    - destruct Hobj as [k Hk]. destruct (Z.leb_spec length (strlen (rd_data obj))) as [Hle|]; [|done].
      rewrite Hk, strlen_take in Hle. rewrite (str_take_all k) in Hk by (unfold strlen in *; lia).
      injection Hb as <-. rewrite Hk. apply str_take_all. unfold strlen in *. lia.
    - injection Hb as <-. rewrite Hobj. apply str_take_all. unfold strlen in *. lia. }
  cbv zeta. destruct (match rd_err obj with Some _ => _ | None => _ end) as [bytes|e]; [|by intros].
  specialize (Hbytes bytes eq_refl) as ->. apply swp_bind. unfold RemoveFile, RemoveObject. rewrite Hblank, Hm, Hname, Hv.
  cbn [orb negb swp]. intros r s4 Hr. destruct r as [u|e]; cbn [bucket_service] in Hr; [subst s4|by intros]. cbn [swp]. intros url' n bytes [= <- <- <-].
  split_and!; [done..|]. exists name. split; [done|]. apply delete_insert_eq.
Qed.

Lemma fileSuffix_url filename : str_forall url_char (fileSuffix filename) = true.
Proof.
  unfold fileSuffix. destruct (LastIndexByte filename ".") as [dot|]; [|done]. destruct (11 <? _); [done|]. cbv zeta.
  destruct (suffixRe (ToLower (str_drop dot filename))) eqn:E; [|done]. unfold suffixRe in E.
  destruct (ToLower (str_drop dot filename)) as [|a r]; [done|]. apply andb_true_iff in E as [E Hr].
  apply andb_true_iff in E as [Ha%Ascii.eqb_eq _]. subst a. cbn [str_forall]. apply andb_true_iff. split; [done|].
  revert Hr. apply str_forall_weaken. intros c Hc. unfold url_char. cbv zeta. apply orb_true_iff in Hc as [-> | ->]; [done|].
  by rewrite !orb_true_r.
Qed.

Lemma UploadStream_stores files ctx rd size filename contentType s :
  size = strlen (rd_data rd) -> stores files (UploadStream ctx rd size filename contentType) (rd_data rd) s.
Proof.
  intros ->. unfold stores, UploadStream. cbn [swp]. intros id s1 [-> Hid]. cbn [bind_ok call bind swp].
  intros put s2 Hput. destruct put as [[]|e]; cbn [swp]; [|by intros]. cbn [bucket_service] in Hput.
  destruct Hput as [-> _]. intros url Hurl. eexists. split_and!; [|shelve|exact Hurl]. f_equal.
  destruct (Z.ltb_spec (strlen (rd_data rd)) 0); [done|]. apply str_take_all. unfold strlen. lia.
  Unshelve. by rewrite str_forall_app, Hid, fileSuffix_url.
Qed.

Lemma UploadLocalFile_stores files ctx path filename prefix data s :
  files path = Some data -> str_forall url_char (TrimFunc (fun r => r =? 47) prefix) = true ->
  stores files (UploadLocalFile ctx path filename prefix) data s.
Proof.
  intros Hfile Hprefix. unfold stores, UploadLocalFile. cbn [swp]. intros st s1 [-> Hst].
  destruct st as [n|]; [|by intros]. destruct Hst as (d & Hd & ->). rewrite Hfile in Hd. simplify_eq. cbv zeta. cbn [swp].
  intros id s1 [-> Hid]. destruct (validateObjectName _) as [[]|e] eqn:Ev; [|by intros]. cbn [bind_ok call bind swp].
  intros f s2 [-> Hf]. destruct f as [rd|e]; cbn [bind swp]; [|by intros]. destruct Hf as [_ Hf]. rewrite Hfile in Hf. simplify_eq.
  intros put s2 Hput. destruct put as [[]|e]; cbn [swp]; [|by intros]. cbn [bucket_service] in Hput.
  destruct Hput as [-> _]. intros url Hurl. eexists. split_and!; [|shelve|exact Hurl]. f_equal.
  destruct (Z.ltb_spec (strlen (rd_data rd)) 0); [done|]. apply str_take_all. unfold strlen. lia.
  Unshelve. rewrite !str_forall_app, Hid, fileSuffix_url, !andb_true_r. destruct (String.eqb _ ""); cbn [negb]; [done|].
  by rewrite str_forall_app, Hprefix.
Qed.

(** C29. An object is what was uploaded, under its URL and nowhere else. For both ways of uploading, a stream and a
    local file: if upload, size, ranged read and removal all succeed, the URL is a managed one, the size is that
    of the data, the range is that slice of the data, and afterwards the object is gone while every other
    object of the bucket is as it was. *)
Theorem object_roundtrip `{!ObjectURLs} (files : string -> option string) (ctx : Context) (rd : reader) (size : Z)
  (filename contentType path prefix data : string) (offset length : Z) (s : gmap string string) :
  ranges_accepted -> 0 <= offset -> 0 < length -> offset + length <= 2 ^ 62 ->
  size = strlen (rd_data rd) -> files path = Some data ->
  str_forall url_char (TrimFunc (fun r => r =? 47) prefix) = true ->
  swp (bucket_service files) (use_object ctx (UploadStream ctx rd size filename contentType) offset length) s
    (used (rd_data rd) offset length s)
  /\ swp (bucket_service files) (use_object ctx (UploadLocalFile ctx path filename prefix) offset length) s
    (used data offset length s).
Proof.
  intros Hr Ho Hl Hmax Hsize Hfile Hprefix.
  split; apply use_object_spec; try done; [by apply UploadStream_stores|by apply UploadLocalFile_stores].
Qed.

(** Removal and presigning are confined to the bucket. [RemoveFile] of a blank or foreign URL does nothing and
    succeeds; of a managed one it makes at most one call, the removal of the object the URL names, never of a
    name that climbs out of the bucket or starts at its root. A source outside the bucket is handed out
    unchanged, without a presigned URL. *)
Theorem foreign_untouched (ctx : Context) (url : string) (public : bool) :
  wp (RemoveFile ctx url) (fun tr r =>
    (tr = [] /\ (r = Ok tt \/ exists e, objectName url = Err e /\ r = Err e))
    \/ exists name x, tr = [Ev (ORemove ctx name) x] /\ IsManagedFile url = true /\ objectName url = Ok name
         /\ Contains name ".." = false /\ HasPrefix name "/" = false)
  /\ (IsManagedFile url = false ->
       wp (RemoveFile ctx url) (fun tr r => tr = [] /\ r = Ok tt) /\ wp (presigned public ctx url) (fun tr r => tr = [] /\ r = Ok url)).
Proof.
  split.
  - unfold RemoveFile. destruct (is_blank url); cbn [orb]; [left; auto|]. destruct (IsManagedFile url) eqn:Em; cbn [negb]; [|left; auto].
    destruct (objectName url) as [name|e] eqn:En; [|left; split; [done|right; by exists e]].
    assert (validateObjectName name = Ok tt) as Hv.
    { unfold objectName in En. destruct (parseURL url) as [u|]; [|done]. cbv zeta in En. destruct (String.index _ _ _); [|done].
      destruct (validateObjectName (str_drop _ _)) as [[]|] eqn:Ev; [|done]. congruence. }
    unfold RemoveObject. rewrite Hv. intros x. right. exists name, x. split_and!; [done..| |].
    + unfold validateObjectName in Hv. destruct (_ || _) eqn:E; [done|]. by apply orb_false_iff in E as [_ E].
    + unfold validateObjectName in Hv. destruct (_ || _) eqn:E; [done|]. apply orb_false_iff in E as [E _]. by apply orb_false_iff in E as [_ E].
  - intros Hm. unfold RemoveFile, presigned. unfold IsManagedFile in Hm |- *. rewrite Hm, orb_true_r. done.
Qed.

End bucket.

(** ** A concrete bucket *)

Module Example.

#[local] Instance lib : MinioLib := {
  SetRange a b := (0 <=? a) && (a <=? b); Rule := string; ruleID r := r; expiryRule id _ _ := id; ruleID_expiry _ _ _ := eq_refl }.
#[local] Instance config : MinioConfig := { endpoint := "http://minio:9000"; bucket := "media" }.
#[local] Instance types : MimeTable := fun _ => "".
#[local] Instance urls : GoURL := {
  parseURL s := if HasPrefix s "http://minio:9000" then Ok (mkURL "http" "minio:9000" (str_drop 17 s) "") else Err (Internal "parse" None);
  URLString u := u_Scheme u +:+ "://" +:+ u_Host u +:+ u_Path u; Hostname := u_Host; resolveReference u _ := Ok u;
  queryParam _ _ := ""; encodeQuery _ := "" }.

#[local] Instance objectURLs : ObjectURLs.
Proof.
  split; [done|done|]. intros name _. eexists. cbn. split; [by destruct name|done].
Qed.

Lemma object_roundtrip_witness :
  ranges_accepted /\ 0 <= 1 /\ 0 < 2 /\ 1 + 2 <= 2 ^ 62
  /\ swp (bucket_service (fun _ => Some "data")) (use_object Background (UploadStream Background (mkReader "video" None) 5 "a.MP4" "") 1 2)
       ∅ (used "video" 1 2 ∅)
  /\ swp (bucket_service (fun _ => Some "data")) (use_object Background (UploadLocalFile Background "/tmp/f" "a.MP4" "evidence-frames/") 1 2)
       ∅ (used "data" 1 2 ∅).
Proof.
  assert (ranges_accepted) as Hr by (intros a b Hab; cbn; lia).
  split; [exact Hr|]. split; [lia|]. split; [lia|]. split; [lia|].
  apply (object_roundtrip (fun _ => Some "data") Background (mkReader "video" None) 5 "a.MP4" "" "/tmp/f" "evidence-frames/" "data" 1 2 ∅);
    [exact Hr|lia|lia|lia|reflexivity|reflexivity|reflexivity].
Defined.
End Example.
