(* ===== verification/Tools.v ===== *)
(** * External programs (internal/videocontext/frames.go, internal/videocontext/ocr.go)

    What lies behind the calls [VFrameGap], [VFrameTimestamps] and [VRecognize] of [VideoE]: the runs of
    ffprobe, ffmpeg and tesseract and the reading of what they print.  A process run is a call; a float64
    is a rational or not finite, [rnd] the rounding of an arithmetic result and [special] what the platform
    makes of a conversion to an integer that does not fit. *)

From Stdlib Require Import QArith Qround Lqa.
From S2P Require Import Prelude GoStrings Proc Errors GoContext RateLimit.

Local Open Scope string_scope.
Local Open Scope list_scope.
Local Open Scope Z_scope.

(** ** Floats *)

Inductive float := Finite (q : Q) | NotFinite.

(** [strconv.ParseFloat]: the value and whether there was an error (0 for bad syntax, infinite when out of range). *)
Class FloatParser := ParseFloat : string -> float * bool.

(** Conversion to an int64: truncation, or [special] when the result does not fit. *)
Definition truncate (special : Z) (f : float) : Z :=
  match f with
  | Finite q => let z := Z.quot (Qnum q) (Zpos (Qden q)) in if (- 2 ^ 63 <=? z) && (z <? 2 ^ 63) then z else special
  | NotFinite => special
  end.

Definition onFinite (g : Q -> Q) (f : float) : float := match f with Finite q => Finite (g q) | NotFinite => NotFinite end.

(** ** Lines of showinfo *)

(** The longest prefix of [s] of digits and dots. *)
Fixpoint number (s : string) : string :=
  match s with
  | EmptyString => ""
  | String a r => if is_digit a || Ascii.eqb a "." then String a (number r) else ""
  end.

(** The group of the leftmost match of [pts_time:([0-9.]+)]. *)
Fixpoint ptsTime (s : string) : option string :=
  match s with
  | EmptyString => None
  | String _ r =>
      let m := if HasPrefix s "pts_time:" then number (str_drop 9 s) else "" in
      if negb (String.eqb m "") then Some m else ptsTime r
  end.

Section floats.
Context `{FloatParser} (rnd : Q -> Q) (special : Z).

Definition ParseShowinfoLine (line : string) : option Z :=
  if negb (Contains line "showinfo") then None
  else
    match ptsTime line with
    | None => None
    | Some m =>
        let '(d, failed) := ParseFloat m in
        if failed : bool then None else Some (truncate special (onFinite (fun q => rnd (q * 1000)) d))
    end.

Definition maxKeyFrames : Z := 40.

Definition FrameGapSeconds (durationSec : float) : Z :=
  Z.max 20 (int64 (truncate special (onFinite (fun q => rnd (q / inject_Z maxKeyFrames)) durationSec) + 1)).

End floats.

(** ** Processes *)

(** How a run ended: with an exit code, or not at all. *)
Inductive runError := Exited (code : Z) (e : gerror) | NotRun (e : gerror).
Definition runCause (e : runError) : gerror := match e with Exited _ e | NotRun e => e end.

(** A finished run: whether its deadline had passed, what it printed, and its error. *)
Record ran := mkRan { rn_late : bool; rn_stdout : string; rn_stderr : string; rn_err : option runError }.

Inductive ToolE : Type -> Type :=
| TRun (ctx : Context) (timeout : Z) (command : string) (args : list string) : ToolE ran
| TRunLogged (ctx : Context) (timeout : Z) (command : string) (args : list string) (log : string) : ToolE ran
| TCreateTemp (pattern : string) : ToolE (res string)
| TClose (path : string) : ToolE unit
| TRemove (path : string) : ToolE unit
| TReadLines (path : string) : ToolE (res (list string * option gerror)) (* the lines of a scanner, and its error *)
| TIsRegular (path : string) : ToolE bool
| TAbs (path : string) : ToolE string
| TCtxErr (ctx : Context) : ToolE (option gerror).

Section tools.
Context `{FloatParser} (rnd : Q -> Q) (special : Z).

Definition probeDuration (ctx : Context) (video : string) : proc ToolE float :=
  Do (TRun ctx minute "ffprobe" ["-v"; "error"; "-show_entries"; "format=duration"; "-of"; "csv=p=0"; video]) (fun r =>
  Ret match rn_err r with Some _ => Finite 0 | None => fst (ParseFloat (TrimSpace (rn_stdout r))) end).

Definition parseTimestamps (logPath : string) : proc ToolE (res (list Z)) :=
  Do (TReadLines logPath) (fun r : res (list string * option gerror) =>
  Ret match r with
      | Err e => Err e
      | Ok (lines, Some e) => Err e
      | Ok (lines, None) => Ok (omap (ParseShowinfoLine rnd special) lines)
      end).

(** The body of [runFrameCommand] once the log file exists. *)
Definition frameRun (ctx : Context) (args : list string) (log : string) : proc ToolE (res (list Z)) :=
  Do (TRunLogged ctx (15 * minute) "ffmpeg" args log) (fun r =>
  if rn_late r then Ret (Err (Internal "FFmpeg 执行超时" None))
  else
    match rn_err r with
    | Some e =>
        Do (TCtxErr ctx) (fun c =>
        match c with
        | Some c => Ret (Err c)
        | None => Ret (Err (Internal "FFmpeg 执行失败" (Some (runCause e))))
        end)
    | None => parseTimestamps log
    end).

Definition runFrameCommand (ctx : Context) (args : list string) : proc ToolE (res (list Z)) :=
  log ←? call (TCreateTemp "dovideo-ffmpeg-*.log");
  bind (frameRun ctx args log) (fun r =>
  Do (TClose log) (fun _ => Do (TRemove log) (fun _ => Ret r))). (* deferred *)

(** ** OCR *)

Definition OCRArgs (image : string) : list string := [image; "stdout"; "-l"; "chi_sim+eng"].

Definition Recognize (command : string) (ctx : Context) (image : string) : proc ToolE (res string) :=
  Do (TIsRegular image) (fun there =>
  if negb there then Ret (Err (InvalidArgument "OCR image does not exist"))
  else
    Do (TAbs image) (fun abs =>
    Do (TRun ctx (2 * minute) command (OCRArgs abs)) (fun r =>
    let failed cause := Ret (Err (Internal ("OCR failed for " +:+ Base image) (Some cause))) in
    if rn_late r then failed (Internal "OCR execution timed out" None)
    else
      match rn_err r with
      | Some (Exited code _) =>
          failed (Internal ("OCR process failed with exit code " +:+ Itoa code +:+ ": " +:+ TrimSpace (rn_stderr r)) None)
      | Some (NotRun e) => failed e
      | None => Ret (Ok (TrimSpace (rn_stdout r)))
      end))).

End tools.

(** ** How many frames are kept *)

(** Times of frames, in seconds, each at least [gap] after the one before. *)
Fixpoint spaced (gap : Z) (prev : Q) (ts : list Q) : Prop :=
  match ts with
  | [] => True
  | t :: ts => (prev + inject_Z gap <= t)%Q /\ spaced gap t ts
  end.

Lemma spaced_last gap prev ts (d : Q) :
  spaced gap prev ts -> Forall (fun t => t <= d)%Q ts -> ts <> [] -> (prev + inject_Z (gap * Z.of_nat (length ts)) <= d)%Q.
Proof.
  revert prev. induction ts as [|t ts IH]; intros prev Hsp Hd Hne; [done|]. destruct Hsp as [Hp Hs]. apply Forall_cons in Hd as [Ht Hd].
  destruct ts as [|t' ts].
  - cbn [length]. rewrite Z.mul_1_r. lra.
  - specialize (IH t Hs Hd ltac:(done)). cbn [length] in *.
    replace (gap * Z.of_nat (S (S (length ts)))) with (gap + gap * Z.of_nat (S (length ts))) by lia.
    rewrite inject_Z_plus. lra.
Qed.

Lemma quot_between q lo hi : 0 <= lo -> (inject_Z lo <= q)%Q -> (q <= inject_Z hi)%Q -> lo <= Z.quot (Qnum q) (Zpos (Qden q)) <= hi.
Proof.
  intros Hlo H1 H2. unfold Qle in H1, H2. cbn in H1, H2. rewrite Z.mul_1_r in H1, H2.
  rewrite Z.quot_div_nonneg by nia. split; [apply Z.div_le_lower_bound; lia|apply Z.div_le_upper_bound; lia].
Qed.

(** OCR work is bounded whatever the length of the video. When the duration is known, at most [maxKeyFrames]
    frames of the video can be kept that are, after the first one, [FrameGapSeconds] apart, as the filter
    passed to ffmpeg demands: the gap is never less than 20 seconds, and rounding in the division does not
    make it too short. *)
Theorem kept_frames_bounded (rnd : Q -> Q) (special : Z) (cap : Z) (d first : Q) (ts : list Q) :
  Rounding cap rnd -> cap < 2 ^ 63 - 1 -> (0 <= d)%Q -> (d <= inject_Z (maxKeyFrames * cap))%Q ->
  (0 <= first)%Q -> spaced (FrameGapSeconds rnd special (Finite d)) first ts -> Forall (fun t => t <= d)%Q ts ->
  20 <= FrameGapSeconds rnd special (Finite d) /\ Z.of_nat (length (first :: ts)) <= maxKeyFrames.
Proof.
  intros Hrnd Hcap Hd0 Hd Hfirst Hs Hts.
  set (gap := FrameGapSeconds rnd special (Finite d)) in *.
  assert (20 <= gap) as H20 by (unfold gap, FrameGapSeconds; lia). split; [done|].
  set (k := Qfloor (d / inject_Z maxKeyFrames)).
  assert (0 <= k) as Hk0.
  { change 0 with (Qfloor (inject_Z 0)). apply Qfloor_resp_le. apply Qle_shift_div_l; [done|]. change (inject_Z 0) with 0%Q. lra. }
  assert (k < gap) as Hgap.
  { assert (inject_Z k <= d / inject_Z maxKeyFrames)%Q as Hk by apply Qfloor_le.
    assert (d / inject_Z maxKeyFrames <= inject_Z cap)%Q as Hc.
    { apply Qle_shift_div_r; [done|]. rewrite inject_Z_mult in Hd. lra. }
    assert (k <= cap) as Hkc by (rewrite Zle_Qle; lra).
    assert (inject_Z k <= rnd (d / inject_Z maxKeyFrames))%Q as Hr.
    { rewrite <- (rnd_int (capacity := cap) (rnd := rnd) k) by lia. by apply (rnd_mono (capacity := cap)). }
    assert (rnd (d / inject_Z maxKeyFrames) <= inject_Z cap)%Q as Hr'.
    { rewrite <- (rnd_int (capacity := cap) (rnd := rnd) cap) by lia. by apply (rnd_mono (capacity := cap)). }
    unfold gap, FrameGapSeconds, onFinite, truncate. set (q := rnd (d / inject_Z maxKeyFrames)%Q) in *.
    destruct (quot_between q k cap Hk0 Hr Hr') as [Hlo Hhi].
    rewrite (proj2 (Z.leb_le _ _)), (proj2 (Z.ltb_lt _ _)) by lia. cbn [andb]. rewrite int64_id by lia. lia. }
  destruct ts as [|t ts]; [done|].
  pose proof (spaced_last gap first (t :: ts) d Hs Hts ltac:(done)) as Hlast.
  assert (d < inject_Z (maxKeyFrames * gap))%Q as Hdg.
  { apply Qlt_le_trans with (inject_Z (maxKeyFrames * (k + 1))).
    - apply Qnot_le_lt. intros Hle. pose proof (Qlt_floor (d / inject_Z maxKeyFrames)) as Hf. fold k in Hf.
      assert (inject_Z (k + 1) <= d / inject_Z maxKeyFrames)%Q; [|lra].
      apply Qle_shift_div_l; [done|]. rewrite <- inject_Z_mult, Z.mul_comm. exact Hle.
    - rewrite <- Zle_Qle. unfold maxKeyFrames. lia. }
  assert (gap * Z.of_nat (length (t :: ts)) < maxKeyFrames * gap) as Hlt by (rewrite Zlt_Qlt; lra).
  cbn [length] in *. nia.
Qed.

Lemma kept_frames_bounded_witness :
  20 <= FrameGapSeconds (fun x => x) 0 (Finite 3600)
  /\ Z.of_nat (length [0; 91; 182; 3600]%Q) <= maxKeyFrames.
Proof.
  apply (kept_frames_bounded (fun x => x) 0 (2 ^ 53) 3600 0 [91; 182; 3600]%Q);
    [apply exact_rounding|reflexivity|discriminate|discriminate|discriminate| |].
  - change (FrameGapSeconds (fun x => x) 0 (Finite 3600)) with 91. cbn [spaced]. repeat split; discriminate.
  - repeat constructor; discriminate.
Defined.

Example ptsTime_found : ptsTime "[Parsed_showinfo_1 @ 0x1] n:   3 pts: 90000 pts_time:30.033 pos: 1" = Some "30.033".
Proof. by vm_compute. Qed.

(** The key-frame run. Whatever happens, the log file is closed and removed, last; the timestamps returned are
    those of the showinfo lines of a run that ended in time and without an error, read to the end. An error
    after the caller gave up is the caller's own. *)
Theorem runFrameCommand_reads `{FloatParser} (rnd : Q -> Q) (special : Z) (ctx : Context) (args : list string) :
  wp (runFrameCommand rnd special ctx args) (fun tr r =>
    match tr with
    | Ev (TCreateTemp _) _ :: Ev (TRunLogged _ _ _ _ log) _ :: rest =>
        exists body, rest = body ++ [Ev (TClose log) tt; Ev (TRemove log) tt]
    | _ => True
    end
    /\ forall ts, r = Ok ts -> exists log answer lines,
         tr = [Ev (TCreateTemp "dovideo-ffmpeg-*.log") (Ok log); Ev (TRunLogged ctx (15 * minute) "ffmpeg" args log) answer;
               Ev (TReadLines log) (Ok (lines, None)); Ev (TClose log) tt; Ev (TRemove log) tt]
         /\ rn_late answer = false /\ rn_err answer = None
         /\ ts = omap (ParseShowinfoLine rnd special) lines).
Proof.
  unfold runFrameCommand, frameRun, parseTimestamps. cbn [bind_ok call bind wp]. intros [log|e]; [|split; [done|by intros]].
  cbn [bind wp]. intros answer. destruct (rn_late answer) eqn:El; cbn [bind wp].
  { intros [] []. split; [by exists []|by intros]. }
  destruct (rn_err answer) as [e|] eqn:Ee; cbn [bind wp].
  - intros [c|]; cbn [bind wp]; intros [] []; (split; [by eexists [_]|by intros]).
  - intros [[lines [e|]]|e]; cbn [bind wp]; intros [] []; (split; [by eexists [_]|]); [by intros| |by intros].
    intros ts [= <-]. by exists log, answer, lines.
Qed.
