(* ===== verification/Server.v ===== *)
(** * The process (cmd/server/main.go)

    [run] as a program: what is started in which order, what an error leaves behind, and the graceful shutdown.
    [config.Load] is [Config.Load]; the constructors of the components that only fill a struct are left out,
    those that may fail, start a goroutine or hold something that must be released are calls. *)

From S2P Require Import Prelude GoStrings Proc Errors GoContext HttpParams Auth Config.

Local Open Scope string_scope.
Local Open Scope list_scope.
Local Open Scope Z_scope.

(** What is held between its construction and the deferred call that releases it. *)
Inductive resource := Signals | Tracing | SqlDB | RedisClient | AgentConn | TopicsClient | Producer | PollContext.

#[export] Instance resource_eq_dec : EqDecision resource.
Proof. solve_decision. Defined.

Inductive ServerE : Type -> Type :=
| PAcquire (r : resource) : ServerE (res unit)
| PHold (r : resource) : ServerE unit (* for what cannot fail *)
| PRelease (r : resource) : ServerE unit
| PMigrate (c : Config) : ServerE (res unit)
| PInstrumentRedis : ServerE (res unit)
| PNewStore (c : Config) : ServerE (res unit) (* storage.New *)
| PNumCPU : ServerE Z
| PNewPool (name : string) (workers queue : Z) : ServerE unit
| PEnsureTopics (maxWait : Z) : ServerE (res unit)
| PGoHub : ServerE unit (* go hub.Run *)
| PNewRunner (brokers : list string) : ServerE (res unit)
| PGoRunner : ServerE unit (* go runner.Run *)
| PGoListen (addr : string) : ServerE unit (* go srv.ListenAndServe *)
| PSelect : ServerE (option gerror) (* the listener's error; None: a signal *)
(* shutdown *)
| PCloseShutdownCh : ServerE unit
| PHttpShutdown (timeout : Z) : ServerE (res unit)
| PStopPolling : ServerE unit
| PAwaitPoll : ServerE unit
| PRunnerShutdown (timeout : Z) : ServerE unit
| PPoolShutdown (name : string) (timeout : Z) : ServerE unit.

Definition shutdownTimeout : Z := 30 * second.
Definition topicsMaxWait : Z := 90 * second.

(** [x, err := acquire; if err != nil { return err }; defer release; body]. *)
Definition holding (r : resource) (body : proc ServerE (res unit)) : proc ServerE (res unit) :=
  Do (PAcquire r) (fun a =>
  match a with
  | Err e => Ret (Err e)
  | Ok _ => bind body (fun x => Do (PRelease r) (fun _ => Ret x))
  end).

(** [holding] for what cannot fail. *)
Definition with_ (r : resource) (body : proc ServerE (res unit)) : proc ServerE (res unit) :=
  Do (PHold r) (fun _ => bind body (fun x => Do (PRelease r) (fun _ => Ret x))).

Definition ensureTopics : proc ServerE (res unit) := holding TopicsClient (call (PEnsureTopics topicsMaxWait)).

(** [net.JoinHostPort]. *)
Definition JoinHostPort (host port : string) : string :=
  if Contains host ":" then "[" +:+ host +:+ "]:" +:+ port else host +:+ ":" +:+ port.

(** The graceful shutdown. *)
Definition drain : proc ServerE (res unit) :=
  Do PCloseShutdownCh (fun _ =>
  Do (PHttpShutdown shutdownTimeout) (fun _ =>
  Do PStopPolling (fun _ =>
  Do PAwaitPoll (fun _ =>
  Do (PRunnerShutdown shutdownTimeout) (fun _ =>
  Do (PPoolShutdown "ai" shutdownTimeout) (fun _ =>
  Do (PPoolShutdown "asr" shutdownTimeout) (fun _ =>
  Do (PPoolShutdown "ocr" shutdownTimeout) (fun _ =>
  Ret (Ok tt))))))))).

Definition ocrWorkers (cpus : Z) : Z := Z.min 8 (Z.max 1 (Z.quot cpus 2)).

(** [run] once the topics exist. *)
Definition serving (cfg : Config) : proc ServerE (res unit) :=
  holding Producer (
    Do PGoHub (fun _ =>
    _ ←? call (PNewRunner (cfg_KafkaBrokers cfg));
    with_ PollContext (
      Do PGoRunner (fun _ =>
      Do (PGoListen (JoinHostPort (cfg_ServerAddress cfg) (cfg_ServerPort cfg))) (fun _ =>
      Do PSelect (fun err =>
      match err with
      | Some e => Ret (Err e)
      | None => drain
      end)))))).

Section run.
Context `{ConfigLib, FoldTable, PrintTable}.

Definition run (env : string -> option string) : proc ServerE (res unit) :=
  match Load env with
  | Err e => Ret (Err e)
  | Ok cfg =>
      with_ Signals (holding Tracing (
        _ ←? call (PMigrate cfg);
        holding SqlDB (with_ RedisClient (
          _ ←? call PInstrumentRedis;
          _ ←? call (PNewStore cfg);
          Do PNumCPU (fun cpus =>
          Do (PNewPool "ai" 8 100) (fun _ =>
          Do (PNewPool "asr" 8 50) (fun _ =>
          Do (PNewPool "ocr" (ocrWorkers cpus) 20) (fun _ =>
          holding AgentConn (
            _ ←? ensureTopics;
            serving cfg)))))))))
  end.

End run.

(** ** The life of the process *)

(** The stack of what is held as a trace goes on, [None] when something was released that was not on top. *)
Definition hold (r : resource) (held : option (list resource)) : option (list resource) := cons r <$> held.

Definition drop_top (r : resource) (held : option (list resource)) : option (list resource) :=
  match held with Some (r' :: held) => if bool_decide (r = r') then Some held else None | _ => None end.

Definition held_step (held : option (list resource)) (ev : event ServerE) : option (list resource) :=
  match ev with
  | Ev (PAcquire r) (Ok _) => hold r held
  | Ev (PHold r) _ => hold r held
  | Ev (PRelease r) _ => drop_top r held
  | _ => held
  end.

Definition held_after (tr : trace ServerE) : option (list resource) := fold_left held_step tr (Some []).

(** What happens before the server listens. *)
Definition startup (cfg : Config) (cpus : Z) : trace ServerE :=
  [Ev (PHold Signals) tt; Ev (PAcquire Tracing) (Ok tt); Ev (PMigrate cfg) (Ok tt); Ev (PAcquire SqlDB) (Ok tt);
   Ev (PHold RedisClient) tt; Ev PInstrumentRedis (Ok tt); Ev (PNewStore cfg) (Ok tt); Ev PNumCPU cpus;
   Ev (PNewPool "ai" 8 100) tt; Ev (PNewPool "asr" 8 50) tt; Ev (PNewPool "ocr" (ocrWorkers cpus) 20) tt;
   Ev (PAcquire AgentConn) (Ok tt); Ev (PAcquire TopicsClient) (Ok tt); Ev (PEnsureTopics topicsMaxWait) (Ok tt);
   Ev (PRelease TopicsClient) tt; Ev (PAcquire Producer) (Ok tt); Ev PGoHub tt; Ev (PNewRunner (cfg_KafkaBrokers cfg)) (Ok tt);
   Ev (PHold PollContext) tt; Ev PGoRunner tt].

(** What a signal leads to, [http] being the outcome of draining HTTP. *)
Definition drained (http : res unit) : trace ServerE :=
  [Ev PCloseShutdownCh tt; Ev (PHttpShutdown shutdownTimeout) http; Ev PStopPolling tt; Ev PAwaitPoll tt;
   Ev (PRunnerShutdown shutdownTimeout) tt; Ev (PPoolShutdown "ai" shutdownTimeout) tt;
   Ev (PPoolShutdown "asr" shutdownTimeout) tt; Ev (PPoolShutdown "ocr" shutdownTimeout) tt].

Definition released : trace ServerE :=
  (fun r => Ev (PRelease r) tt) <$> [PollContext; Producer; AgentConn; RedisClient; SqlDB; Tracing; Signals].

Definition listens (ev : event ServerE) : bool :=
  match ev with Ev (PGoListen _) _ | Ev PGoRunner _ => true | _ => false end.

Section life.
Context `{ConfigLib, FoldTable, PrintTable}.

(** C28. Starting and stopping. Whatever fails, everything that was acquired is released, the last acquired first.
    A run in which a step of the startup fails ends with an error before anything is consumed or listened to.
    Otherwise the steps of the startup happened in this order, each successfully: the schema before the pool of
    connections, the topics before the producer, everything before the first record and the first request; and
    the process ends with the listener's error, or on a signal, after streams are told to end, HTTP is drained,
    fetching has stopped, the running tasks are awaited and the worker pools are drained, in this order. *)
Theorem run_lifecycle (env : string -> option string) :
  wp (run env) (fun tr r =>
    held_after tr = Some []
    /\ ((exists e, r = Err e) /\ existsb listens tr = false
        \/ exists cfg cpus addr verdict http, Load env = Ok cfg
            /\ addr = JoinHostPort (cfg_ServerAddress cfg) (cfg_ServerPort cfg)
            /\ tr = startup cfg cpus ++ [Ev (PGoListen addr) tt; Ev PSelect verdict]
                 ++ (match verdict with None => drained http | Some _ => [] end) ++ released
            /\ r = match verdict with None => Ok tt | Some e => Err e end)).
Proof.
  unfold run. destruct (Load env) as [cfg|e] eqn:El; [|split; [done|left; split; [by eexists|done]]].
  unfold serving, ensureTopics, drain, holding, with_. cbn [bind bind_ok call].
  repeat first
    [ progress cbn [bind bind_ok call wp]
    | match goal with
      | |- forall _ : unit, _ => intros []
      | |- forall _ : res unit, _ => intros [[]|?]
      | |- forall _, _ => intros ?
      | |- wp (match ?x with _ => _ end) _ => destruct x
      | |- wp (bind (match ?x with _ => _ end) _) _ => destruct x
      end ].
  all: try (split; [reflexivity|left; split; [by eexists|reflexivity]]).
  destruct x0 as [e|]; cbn [bind bind_ok call wp].
  - intros [] [] [] [] [] [] []. split; [reflexivity|]. right. eexists cfg, x, _, (Some e), (Ok tt). split_and!; [done|done|reflexivity|done].
  - intros [] http. destruct http as [[]|e]; intros [] [] [] [] [] [] [] [] [] [] [] [] [];
      (split; [reflexivity|]; right; eexists cfg, x, _, None, _; split_and!; [done|done|reflexivity|done]).
Qed.

End life.
